(* ===== verification/_CoqProject ===== *)
-Q . S2P
Prelude.v
BigEndian.v
Hlc.v
Record.v
KnowledgeVector.v
Conflict.v
GoSort.v
Float.v
Search.v
MemStore.v
StoreTypes.v
LogFrame.v
LogStore.v
LogReplay.v
LogDurability.v
StoreApi.v
Server.v
GoTime.v
LogCompaction.v
Mesh.v
Crypto.v
Strconv.v
Json.v
JsonText.v
JsonCodec.v
JsonRecord.v
Wire.v
Pages.v
Convergence.v
Auth.v
Metrics.v
RateLimit.v
Config.v
JsString.v
Uuid.v
Discovery.v
WebUi.v
Main.v
Serve.v
IndexedDb.v
IndexedDbLaws.v
DocDb.v
DocDbLaws.v
Changes.v
Replicator.v
RevCache.v
SyncLaws.v
PullLoop.v
LiveWs.v
Client.v
ClientLaws.v
MetaVector.v
System.v
GoFormat.v
Examples.v
Perf.v
PerfPersist.v
