(* ===== verification/Prelude.v ===== *)
(** * NellDB: a verification development

    NellDB is a replicated document database in Go.  A node keeps records in a store
    (in memory, or in an append-only log), a server answers the synchronisation
    protocol over HTTP for any store, nodes reconcile with each other through it, and
    an SDK puts documents with revisions on top and replicates them with a server.
    This library translates that code into functions and relations and proves what
    makes it correct.  Names follow the source; an operation [f] of a type [T] is [T_f]
    or [f] in the type's file.

    ** How the code is modelled

    A Go value is a Gallina value: int64 and int32 are [Z] with [wrap_s] where the code
    computes, float32 and float64 are [spec_float]s with one rounding per operation, a
    string is its bytes, a map a [gmap], a slice a list, a struct a [Record].  A call
    that may fail returns [res]: [Ok], [Err] with the error, or [Panic] where an index or
    a slice is out of range.  State is passed explicitly; a mutex held for a whole
    method makes the method one step.  Where the order of a map, of goroutines or of
    [select] shows, the operation is a relation, or takes the order as an argument.
    The wall clock is an argument: one reading [now], or a sequence of readings.
    Recursion that is not structural takes fuel, bounded by the data: a byte or more is
    consumed per turn ([scan_headers], [binpush_loop], [pull_loop]), or a record
    ([follow_pages], with [reconcile_terminates] saying how much is enough).
    What runs concurrently is a step relation over the state the parts share, and its
    theorems hold of every interleaving: the mesh of servers, the changes feed, a
    WebSocket session, the compaction loop, the browser client, and the clients and servers
    together.

    JSON is modelled down to its text: a printer and a parser of trees, whose round trip is
    proved once, for the compact and the indented layout, and used at every type that crosses a wire or is stored.

    ** The files

    Types and codecs
    - [Prelude]: fallible computations, byte slices, fixed-width integers, strings.
    - [BigEndian]: [encoding/binary].  [GoSort]: what [sort.Slice] and [sort.Search]
      guarantee, and the chunks of a parallel loop.  [Float]: IEEE 754 arithmetic.
      [GoTime]: instants and durations.  [Crypto]: SHA-256, HMAC, SHA-1, hexadecimal and
      decimal, executable, checked on published test vectors.  [Strconv]: decimal text of
      floats, the shortest that reads back, and its parser, correctly rounded.
    - [Json]: values, and [encoding/json] as the class [Json] with its laws [JsonLaws].
      [JsonText]: its text, printed and parsed.  [JsonCodec]: documents, clocks and vectors
      through the text, an instance of both classes.  [JsonRecord] (types.go): records.
    - [Hlc] (types.go): the hybrid logical clock.  [Record] (types.go): records and their
      binary encoding.  [KnowledgeVector] (store.go).  [Conflict] (store.go): last write
      wins, and merging records into a map, the specification every store refines.

    Stores
    - [MemStore] (store.go): every method of [MemoryStore] with its indexes.
      [StoreTypes]: that its state stays within the widths of its fields.
    - [Search] (vector.go and both stores): similarity search.
    - [LogFrame], [LogStore], [LogReplay], [LogDurability] (logstore/log.go): the buffered
      file and its frames; every method of [LogStore]; opening a log; crashes, restarts
      and compaction.  [LogCompaction]: the loop that compacts in the background.
    - [StoreApi] (the Store interface of store.go): the class [StoreOps] of a store's
      methods and the class [StoreLaws] of what clients rely on, with both stores as
      instances.  The server, the mesh and the SDK are proved from the laws, for any
      backends.
    - [JsString]: Go's strings as JavaScript's, and the order of database keys.  [Uuid]
      (uuid_wasm.go).  [IndexedDb] (indexeddb_wasm.go): the browser's store, over the class
      [IndexedDB] of the browser's requests with the laws [IndexedDBLaws].
      [IndexedDbLaws]: a concrete browser, and the store's theorems.  It is no instance of
      [StoreLaws]: its requests may fail, and its [Put] is not one step.

    Network
    - [Server] (server/main.go): the handlers, on decoded requests.  [Wire] (server/main.go,
      server/peer.go): the same handlers on the bytes of requests, responses and frames,
      with the body limit, and a peer that asks over them.  [Auth] (sign.go,
      server/auth.go, [Handler], the client's signing transport): signing, the
      authentication middleware, routing.  [RateLimit] (server/ratelimit.go).  [Mesh]
      (server/peer.go, server/peer_state.go): peer states and reconciliation.
      [Pages]: what a reconciliation of many pages brings.  [Convergence]: any number of
      servers as one system; its steps are their pushes, reconciliations and failures, texts
      on the wire, as the code does them, and the conditions under which nothing is lost
      ([mesh_ok]) a predicate on them apart.  [Metrics] (server/metrics.go): the
      counting middleware.  [WebUi] (server/webui.go, server/tls.go).  [Discovery] (server/discovery.go): the mDNS discoverer.
    - [Config] (config.go, cmd/nelldb-server/main.go): what the server starts with.
      [Main] (cmd/nelldb-server/main.go): the program: its handler, its start on a log,
      what may happen while it runs, its shutdown.  [Serve] (with server/main.go,
      server/metrics.go): a request through its middleware, muxes and handlers, to the writer.

    SDK
    - [DocDb] (sdk/docdb.go, rev.go, meta.go, vector.go, changes.go): the document
      database.  [DocDbLaws]: its theorems.  [RevCache]: its revision cache over every operation.  [Changes] (sdk/db_changes.go): the goroutine
      of the changes feed.  [Replicator] (sdk/replicate.go): pull, push and the polling
      loop.  [SyncLaws]: a push and a pull composed with the server's handlers.  [PullLoop]
      (examples/sync-bench): pulling until nothing comes.  [LiveWs] (sdk/replicate.go): the
      reconnecting loop and a WebSocket session.  [MetaVector] (meta.go, vector.go): which
      knowledge vector a restart may find.
    - [System]: any number of SDK clients over the servers of [Convergence]: they write,
      push, pull, lose requests, and stop and are opened again; a step relation, and apart
      from it the conditions ([sys_ok]).
    - [Client] (client/main.go): the callbacks of the WebAssembly program, its promises,
      loops and handles.  [ClientLaws]: its steps and its theorems.
    - [Examples] (examples/): six of the programs that show the SDK, with what they print.
      [Perf], [PerfPersist]: the two benchmarks, with the result files and the READMEs they
      write.  [GoFormat]: the text of durations, dates and fixed decimals (time, fmt).

    ** What is proved

    - Convergence: stores of any backends that get the same records in any order agree
      ([stores_converge]), and exchanging changes makes them agree ([delta_sync_converges]);
      the log store refines the memory store ([LogStore_refines_MemoryStore]).
    - The mesh: in runs that meet [mesh_ok], once the pushes stop, some rounds of
      reconciliation bring every server to the same answers ([mesh_converges]), and on the
      way nothing is lost and no vector claims what its server lacks
      ([mesh_vectors_honest]); both of the bytes exchanged, over one page or many
      ([reconcile_whole]).
    - The whole system: in runs that meet [sys_ok], SDK clients that write, push, pull and restart keep the contract the
      mesh relies on, and no pull of theirs skips a document they lack ([clients_honest]);
      when the pushes stop, they all come to read the same ([clients_converge]).
    - The program: after a graceful stop it starts again with everything
      ([main_restart]); what it serves ([main_handler_serves]); its counters
      ([Metrics_count_responses]).
    - Each store operation on every branch, and the invariant of the memory store's
      indexes ([MemoryStore_invariant], [MemoryStore_Put_lww],
      [MemoryStore_GetChangesSince_exact], [MemoryStore_SearchSimilar_exact], ...).
    - Durability: reopening a log cut at any byte gives a prefix of its writes under every
      schedule of the workers ([LogStore_crash_recovery]), a flushed or closed log holds
      everything ([LogStore_durable]), compaction keeps what it should
      ([LogStore_Compact_keeps]), in the background too ([StartCompaction_keeps]).
    - Types: whatever typed operations run, a store's state fits its fields and what it
      returns survives the codec ([MemoryStore_well_typed]).
    - The browser's store: [Put] is the put of the other stores when its requests succeed
      ([IndexedDBStore_Put_refines]), also around puts of other keys
      ([IndexedDB_put_interleaves]); listings are exact ([IndexedDBStore_List_exact],
      [IndexedDBStore_GetChangesSince_exact]); deletion ([IndexedDBStore_Delete_tombstone]);
      a browser keeps its node id ([NewIndexedDBStore_reopen], [GenerateUUIDv4_spec]).
    - The codecs: round trips, rejection of every truncation, no panic on any input; of
      JSON, that every tree, float, string and record reads back ([parse_print_tree],
      [ParseFloat_number], [Record_json_roundtrip]).
    - Synchronisation: what a push does ([handlePush_merges]), that the binary path
      agrees with the JSON path, on decoded records and on the bytes of all three formats
      ([binary_sync_agrees], [push_formats_agree]), that a page is sound
      ([handleCheck_sound]) and one full page complete ([anti_entropy_complete]), that
      following pages ends ([reconcile_terminates]), and that an SDK pull brings every
      document, through the vector's codec, the handler, the stream, the decoder and the
      store ([pull_complete]); that a document put at one client is what another gets
      ([document_travels]); when pulling until nothing comes ends ([pull_all_ends]).
    - Live: the changes feed keeps the order and closes ([Changes_in_order],
      [Changes_closes], [Changes_short_complete]); a local write reaches the other clients
      ([LiveWS_delivers]); a session ends unless a write of its hangs, and its handshake is
      accepted ([runWS_ends], [runWS_handshake]); the waits between sessions are bounded ([LiveWS_waits]).
    - The client: its handles are its running loops ([client_handles]); when a callback
      panics, hooks of the page that throw included, or never returns ([callbacks_come_back]).  Discovery: what is advertised
      ([MDNS_lifecycle]) and how the answers grow the mesh ([browse_tracks_peers]).
    - Access: exactly the requests with a fresh signature reach the sync handlers
      ([Handler_requires_signature]); the client's requests do ([signed_request_dispatched]);
      the burst of the rate limiter is exact ([RateLimiter_burst], bursts to 4096, the
      range in which the whole numbers of tokens are checked by evaluation).
    - Documents: what is put is what is got ([DocDB_Put_Get]), stale revisions are
      refused ([DocDB_Put_conflict]), removal ([DocDB_Remove_Get]), the revision cache
      through every operation and across restarts ([DocDB_revs_survive_restart]), listings ([AllDocs_exact]).
    - The example programs: what each prints ([basic_main_output], [sync_main_output],
      [vector_main_output], [tour_main_output], [bench_main_output] at two documents), and,
      for every schedule of the replay, [persistence_recovers].  The benchmarks at their
      million documents: the scan of a range finds its rows ([perf_finds_range]), also
      after the log was closed and opened again, however it is replayed
      ([perf_persist_recovers]), and the results file is read back
      ([perf_results_reload], [persist_results_reload]).
    - Where the code falls short of what it means to do, on concrete runs:
      [reconcile_loses_record], [push_hides_earlier_record], [Put_clock_hides_document],
      [pull_all_never_ends], [LogStore_torn_tail_loses_writes], [LogStore_replay_drops_error],
      [PutMany_rollback_conflict], [Put_lost_update], [ingest_stale_breaks_put],
      [HLC_Update_overflow], [MemoryStore_key_collision], [CosineSimilarity_not_in_range],
      [LogStore_Compact_zero_keeps], [IndexedDB_put_race], [IDB_Delete_keeps_newer],
      [upgrade_drops_records], [Changes_cancel_drops], [Changes_late_lost],
      [runWS_leaks_subscription], [runWS_hangs], [LiveWS_hides_missed],
      [nellSetAuth_skips_loops], [peerURL_ipv6], [main_websocket_refused],
      [nonfinite_blocks_mesh], [mesh_renames_record], [mem_delta_printed],
      [readme_hides_one_run], [instant_run_unsaved].

    ** What is assumed

    The classes [ZstdLaws] (the third-party compressor decodes what it encodes),
    [JsonLaws] (encoding/json's round trips on finite numbers and valid UTF-8: theorems of
    the text, [json_text_laws]) and
    [IndexedDBLaws] (what the browser's specification says of a request that succeeds, on
    keys of valid UTF-8; a transaction that aborts after its request succeeded is not
    covered); each has an instance.  [ClientJson] has no laws.  Theorems about stores ask
    that clocks have room for a tick, that collection names have no colon and that
    records fit the log's length fields; each condition is named and decidable.  The
    mesh's theorems ask ([mesh_ok]) of the pushes that the clients own their writers' names and
    clocks ([push_contract]), and of a reconciliation that what it finds missing fits a page
    of 100 records or has ids that ascend with the clocks ([whole_pages]): [reconcile_loses_record]
    shows what other pages lose; that its records are such as JSON carries, that its names fit
    a request, and that a failed reconciliation got no answer.  The system's ask besides
    ([sys_ok]) that a client's clock moves forward, which [Put_clock_hides_document] shows
    not to be sure.  The log's theorems start from a whole log: what a torn tail does to later
    writes is [LogStore_torn_tail_loses_writes].  Of the WebSocket library, that an upgrade
    fails on a writer that has neither [Hijack] nor [Unwrap].

    ** What is not modelled

    HTTP, YAML, the JSON of the browser client's results, the socket below a WebSocket
    session, url.Parse, operating system errors other than a closed file, fsync and power
    loss, fused multiply-add, the aggregation of metrics, TLS handshakes, and the web page
    and its JavaScript.

    ** The limits of what is proved

    The steps of [System] are single writes, and pushes and pulls that succeed or get no
    answer: [PutMany], a live session, an answer cut off half-way and a store that
    fails are modelled in their own files, and not steps of it: [clients_honest] does not
    hold of a live session, as [LiveWS_hides_missed] shows; a restart there finds all the
    records of its client's store, what [LogStore_durable] shows of a closed log.  A
    reconciliation cut off between two pages is a step of [Convergence], but not in the runs its
    theorems are about.  That a decoded document is typed is
    shown of what was encoded, not of every text.  Of the browser's database, a
    transaction is one request, and none aborts after it. *)
From stdpp Require Export base tactics list gmap strings fin_maps sorting.
From Stdlib Require Export ZArith Lia.
From Stdlib Require Ascii.

(** ** Fallible computations

    A Go call either returns normally, returns an [error] value, or stops the
    goroutine with a run-time panic (index or slice bounds out of range). *)
Inductive res (E A : Type) : Type :=
| Ok (a : A)
| Err (e : E)
| Panic.
Arguments Ok {E A} a.
Arguments Err {E A} e.
Arguments Panic {E A}.

#[export] Instance res_ret E : MRet (res E) := fun A a => Ok a.
#[export] Instance res_bind E : MBind (res E) := fun A B f m =>
  match m with
  | Ok a => f a
  | Err e => Err e
  | Panic => Panic
  end.

Definition no_panic {E A} (r : res E A) : Prop := r <> Panic.

(** Go's [byte] slices and the bytes of a Go [string]. *)
Abbreviation bytes := (list Ascii.ascii).

Definition str_bytes (s : string) : bytes := String.list_ascii_of_string s.
Definition bytes_str (b : bytes) : string := String.string_of_list_ascii b.

(** [len(x)] as a Go [int]. *)
Definition len {A} (l : list A) : Z := Z.of_nat (length l).
Definition strlen (s : string) : Z := Z.of_nat (String.length s).

(** Go's [a < b] on strings is the bytewise lexicographic order. *)
Definition str_ltb (a b : string) : bool := String.ltb a b.

(** Fixed-width integers: two's complement wrap-around at [w] bits. *)
Definition wrap_u (w x : Z) : Z := (x mod 2 ^ w)%Z.
Definition wrap_s (w x : Z) : Z := ((x + 2 ^ (w - 1)) mod 2 ^ w - 2 ^ (w - 1))%Z.
Definition in_u (w x : Z) : Prop := (0 <= x < 2 ^ w)%Z.
Definition in_s (w x : Z) : Prop := (- 2 ^ (w - 1) <= x < 2 ^ (w - 1))%Z.

(** [make([]byte, n)] *)
Definition make_bytes (n : Z) : bytes := replicate (Z.to_nat n) Ascii.zero.

(** [b[lo:hi]]: panics unless [0 <= lo <= hi <= len(b)]. *)
Definition slice {E A} (lo hi : Z) (b : list A) : res E (list A) :=
  if bool_decide (0 <= lo <= hi /\ hi <= len b)%Z
  then Ok (take (Z.to_nat (hi - lo)) (drop (Z.to_nat lo) b)) else Panic.

(** [b[i] = x] *)
Definition set_index {E A} (i : Z) (x : A) (b : list A) : res E (list A) :=
  if bool_decide (0 <= i < len b)%Z then Ok (<[Z.to_nat i := x]> b) else Panic.

(** [copy(dst, src)] as the new contents of [dst]. *)
Definition copy {A} (dst src : list A) : list A :=
  take (length dst) src ++ drop (length src) dst.

(** Running [f] on the sub-slice [b[lo:hi]], which shares [b]'s array: what [f]
    writes to the sub-slice is seen in [b]. *)
Definition on_slice {E A} (lo hi : Z) (b : list A) (f : list A -> res E (list A)) : res E (list A) :=
  s ← slice lo hi b;
  s' ← f s;
  Ok (take (Z.to_nat lo) b ++ s' ++ drop (Z.to_nat hi) b).

Create HintDb nell.
Create Rewrite HintDb nell_len.
#[export] Hint Unfold no_panic : nell.

Lemma bind_ok {E A B} (a : A) (f : A -> res E B) : Ok a ≫= f = f a.
Proof. done. Qed.
Lemma bind_err {E A B} (e : E) (f : A -> res E B) : Err e ≫= f = Err e.
Proof. done. Qed.

(** ** Tactics *)

(** Split a boolean [decide] test in the goal and discharge the absurd side by arithmetic. *)
Ltac bd_true := rewrite bool_decide_true by (unfold len, strlen in *; lia).
Ltac bd_false := rewrite bool_decide_false by (unfold len, strlen in *; lia).
Ltac bd := case_bool_decide; try (unfold len, strlen in *; lia).

(** Run the next call of a sequence whose result is known. *)
Ltac step := rewrite bind_ok; cbv beta.
Tactic Notation "step" "with" uconstr(l) := rewrite l; [step|..].

(** ** Lemmas *)

Lemma no_panic_ok {E A} (a : A) : no_panic (@Ok E A a).
Proof. discriminate. Qed.
Lemma no_panic_err {E A} (e : E) : no_panic (@Err E A e).
Proof. discriminate. Qed.
Lemma no_panic_bind {E A B} (m : res E A) (f : A -> res E B) :
  no_panic m -> (forall a, m = Ok a -> no_panic (f a)) -> no_panic (m ≫= f).
Proof. destruct m; unfold no_panic; simpl; naive_solver. Qed.
#[export] Hint Resolve no_panic_ok no_panic_err no_panic_bind : nell.

Section bytes_of_strings.
Lemma bytes_str_bytes s : bytes_str (str_bytes s) = s.
Proof. apply String.string_of_list_ascii_of_string. Qed.
Lemma str_bytes_str b : str_bytes (bytes_str b) = b.
Proof. apply String.list_ascii_of_string_of_list_ascii. Qed.
Lemma length_str_bytes s : length (str_bytes s) = String.length s.
Proof. induction s; simpl; [done|]. f_equal. apply IHs. Qed.
Lemma len_str_bytes s : len (str_bytes s) = strlen s.
Proof. unfold len, strlen. by rewrite length_str_bytes. Qed.
Lemma str_bytes_app s t : str_bytes (s +:+ t) = str_bytes s ++ str_bytes t.
Proof. unfold str_bytes. induction s; simpl; [done|]. by f_equal. Qed.
Lemma str_bytes_inj s t : str_bytes s = str_bytes t -> s = t.
Proof. intros H. rewrite <-(bytes_str_bytes s), <-(bytes_str_bytes t). by f_equal. Qed.
End bytes_of_strings.

Section integers.
Local Open Scope Z_scope.
Lemma wrap_u_id w x : in_u w x -> wrap_u w x = x.
Proof. intros H. by apply Z.mod_small. Qed.
Lemma wrap_u_range w x : 0 <= w -> in_u w (wrap_u w x).
Proof. intros Hw. apply Z.mod_pos_bound. by apply Z.pow_pos_nonneg. Qed.
Lemma pow2_pred w : 0 < w -> 2 ^ w = 2 * 2 ^ (w - 1).
Proof. intros. rewrite <-Z.pow_succ_r by lia. f_equal; lia. Qed.
Lemma wrap_s_id w x : 0 < w -> in_s w x -> wrap_s w x = x.
Proof.
  intros Hw H. unfold wrap_s, in_s in *. pose proof (pow2_pred w Hw).
  rewrite Z.mod_small; lia.
Qed.
Lemma wrap_s_range w x : 0 < w -> in_s w (wrap_s w x).
Proof.
  intros Hw. unfold wrap_s, in_s. pose proof (pow2_pred w Hw).
  assert (0 < 2 ^ w) by (apply Z.pow_pos_nonneg; lia).
  pose proof (Z.mod_pos_bound (x + 2 ^ (w - 1)) (2 ^ w)). lia.
Qed.
(** The conversion [intN(uintN(x))] is the identity. *)
Lemma wrap_s_wrap_u w x : 0 < w -> in_s w x -> wrap_s w (wrap_u w x) = x.
Proof.
  intros Hw H. unfold wrap_s, wrap_u, in_s in *. pose proof (pow2_pred w Hw).
  rewrite Zplus_mod_idemp_l, Z.mod_small; lia.
Qed.
Lemma wrap_u_wrap_s w x : wrap_u w (wrap_s w x) = wrap_u w x.
Proof. unfold wrap_s, wrap_u. rewrite Zminus_mod_idemp_l. f_equal. lia. Qed.
End integers.

Section slices.
Context {E A : Type}.
Implicit Types b p q x : list A.

Lemma len_app b p : len (b ++ p) = (len b + len p)%Z.
Proof. unfold len. rewrite length_app. lia. Qed.
Lemma len_nonneg b : (0 <= len b)%Z.
Proof. unfold len. lia. Qed.

Lemma slice_ok lo hi b :
  (0 <= lo <= hi)%Z -> (hi <= len b)%Z ->
  @slice E A lo hi b = Ok (take (Z.to_nat (hi - lo)) (drop (Z.to_nat lo) b)).
Proof. intros. unfold slice. by rewrite bool_decide_true by lia. Qed.

(** Reading back a segment whose position and length are known. *)
Lemma slice_mid lo hi p x q :
  lo = len p -> hi = (len p + len x)%Z -> @slice E A lo hi (p ++ x ++ q) = Ok x.
Proof.
  intros -> ->. rewrite slice_ok; rewrite ?len_app; unfold len; try lia.
  f_equal. rewrite Nat2Z.id, drop_app_length.
  replace (Z.to_nat _) with (length x) by lia. apply take_app_length.
Qed.

Lemma slice_pre hi x q : hi = len x -> @slice E A 0 hi (x ++ q) = Ok x.
Proof. intros ->. by apply (slice_mid 0 (len x) [] x q). Qed.
Lemma slice_post lo hi p x :
  lo = len p -> hi = (len p + len x)%Z -> @slice E A lo hi (p ++ x) = Ok x.
Proof. intros. rewrite <-(app_nil_r x) at 1. by apply slice_mid. Qed.

Lemma slice_no_panic lo hi b :
  (0 <= lo <= hi)%Z -> (hi <= len b)%Z -> no_panic (@slice E A lo hi b).
Proof. intros. rewrite slice_ok by done. apply no_panic_ok. Qed.

Lemma slice_len lo hi b x : @slice E A lo hi b = Ok x -> len x = (hi - lo)%Z.
Proof.
  unfold slice. case_bool_decide; [|done]. intros [= <-].
  unfold len in *. rewrite length_take, length_drop. lia.
Qed.

Lemma set_index_ok i a b :
  (0 <= i < len b)%Z -> @set_index E A i a b = Ok (<[Z.to_nat i := a]> b).
Proof. intros. unfold set_index. by rewrite bool_decide_true. Qed.

Lemma copy_exact b x : length b = length x -> copy b x = x.
Proof.
  intros Hl. unfold copy. rewrite take_ge, drop_ge by lia. apply app_nil_r.
Qed.
Lemma copy_prefix b p x : length b = length x -> copy (b ++ p) x = x ++ p.
Proof.
  intros Hl. unfold copy. rewrite length_app, take_ge, <-Hl, drop_app_length by lia. done.
Qed.

(** A write confined to the segment [b] of [p ++ b ++ q]. *)
Lemma on_slice_mid lo hi p b q f b' :
  lo = len p -> hi = (len p + len b)%Z -> f b = @Ok E _ b' -> length b' = length b ->
  on_slice lo hi (p ++ b ++ q) f = Ok (p ++ b' ++ q).
Proof.
  intros -> -> Hf Hl. unfold on_slice. rewrite slice_mid by done. simpl. rewrite Hf. simpl.
  f_equal. unfold len. rewrite Nat2Z.id, take_app_length.
  replace (Z.to_nat _) with (length p + length b)%nat by lia.
  by rewrite <-drop_drop, drop_app_length, drop_app_length.
Qed.

Lemma on_slice_pre hi b q f b' :
  hi = len b -> f b = @Ok E _ b' -> length b' = length b ->
  on_slice 0 hi (b ++ q) f = Ok (b' ++ q).
Proof. intros. by apply (on_slice_mid 0 hi [] b q). Qed.
(** A write confined to the tail [x] of [p ++ x]. *)
Lemma on_slice_tail lo hi p b f b' :
  lo = len p -> hi = (len p + len b)%Z -> f b = @Ok E _ b' -> length b' = length b ->
  on_slice lo hi (p ++ b) f = Ok (p ++ b').
Proof.
  intros. rewrite <-(app_nil_r b), <-(app_nil_r b'). by eapply on_slice_mid.
Qed.
End slices.

Section string_order.
Lemma str_compare_refl s : String.compare s s = Eq.
Proof. induction s; simpl; [done|]. unfold Ascii.compare. by rewrite N.compare_refl. Qed.
Lemma str_ltb_irrefl s : str_ltb s s = false.
Proof. unfold str_ltb, String.ltb. by rewrite str_compare_refl. Qed.
Lemma str_ltb_leb s t : str_ltb s t = negb (String.leb t s).
Proof.
  unfold str_ltb, String.ltb, String.leb. rewrite (String.compare_antisym s t).
  by destruct (String.compare t s).
Qed.
Lemma str_ltb_trans s t u : str_ltb s t = true -> str_ltb t u = true -> str_ltb s u = true.
Proof.
  rewrite !str_ltb_leb, !negb_true_iff. intros H1 H2.
  destruct (String.leb u s) eqn:H3; [|done]. exfalso.
  destruct (String.leb_total s t) as [H4|H4]; [|congruence].
  assert (String.le u t) as H5 by (etrans; apply Is_true_true; eassumption).
  unfold String.le in H5. rewrite H2 in H5. done.
Qed.
Lemma str_ltb_trichotomy s t : {str_ltb s t = true} + {s = t} + {str_ltb t s = true}.
Proof.
  unfold str_ltb, String.ltb. rewrite (String.compare_antisym t s).
  destruct (String.compare s t) eqn:H; simpl; auto.
  left. right. by apply String.compare_eq_iff.
Qed.
Lemma str_ltb_asym s t : str_ltb s t = true -> str_ltb t s = false.
Proof.
  intros H. destruct (str_ltb t s) eqn:H2; [|done].
  pose proof (str_ltb_trans _ _ _ H H2) as H3. by rewrite str_ltb_irrefl in H3.
Qed.
End string_order.
#[export] Hint Rewrite @len_app : nell_len.
