(* ===== verification/BigEndian.v ===== *)
(** * Big-endian integers

    The [encoding/binary.BigEndian] operations of Go's standard library that the
    codecs use ([PutUint16/32/64], [Uint16/32/64]), on byte slices, and the
    round trips between them. *)
From S2P Require Import Prelude.
Local Open Scope Z_scope.

(** One byte of an integer, and a byte's value. *)
Definition to_byte (v : Z) : Ascii.ascii := Ascii.ascii_of_N (Z.to_N (v mod 256)).
Definition of_byte (c : Ascii.ascii) : Z := Z.of_N (Ascii.N_of_ascii c).

(** The [n] bytes of [v], most significant first. *)
Fixpoint be_bytes (n : nat) (v : Z) : bytes :=
  match n with
  | O => []
  | S m => to_byte (Z.shiftr v (8 * Z.of_nat m)) :: be_bytes m v
  end.

Fixpoint be_value_acc (acc : Z) (b : bytes) : Z :=
  match b with
  | [] => acc
  | c :: b => be_value_acc (256 * acc + of_byte c) b
  end.
Definition be_value (b : bytes) : Z := be_value_acc 0 b.

(** [BigEndian.PutUintN(b, v)] for an N of [8 * n] bits: panics when [b] is too short. *)
Definition PutUint {E} (n : nat) (v : Z) (b : bytes) : res E bytes :=
  if bool_decide (Z.of_nat n <= len b) then Ok (be_bytes n v ++ drop n b) else Panic.
(** [BigEndian.UintN(b)] *)
Definition GetUint {E} (n : nat) (b : bytes) : res E Z :=
  if bool_decide (Z.of_nat n <= len b) then Ok (be_value (take n b)) else Panic.

Lemma of_byte_range c : 0 <= of_byte c < 256.
Proof. unfold of_byte. pose proof (Ascii.N_ascii_bounded c). lia. Qed.
Lemma of_to_byte v : of_byte (to_byte v) = v mod 256.
Proof.
  unfold of_byte, to_byte. pose proof (Z.mod_pos_bound v 256).
  rewrite Ascii.N_ascii_embedding by lia. lia.
Qed.
Lemma to_of_byte c : to_byte (of_byte c) = c.
Proof.
  unfold to_byte. pose proof (of_byte_range c). rewrite Z.mod_small by done.
  unfold of_byte. by rewrite N2Z.id, Ascii.ascii_N_embedding.
Qed.

Lemma to_byte_eq c x : of_byte c = x -> to_byte x = c.
Proof. intros <-. apply to_of_byte. Qed.
Lemma length_be_bytes n v : length (be_bytes n v) = n.
Proof. induction n; simpl; congruence. Qed.
Lemma len_be_bytes n v : len (be_bytes n v) = Z.of_nat n.
Proof. unfold len. by rewrite length_be_bytes. Qed.
#[export] Hint Rewrite length_be_bytes len_be_bytes : nell_len.

Lemma pow256_S m : 2 ^ (8 * Z.of_nat (S m)) = 256 * 2 ^ (8 * Z.of_nat m).
Proof.
  replace (8 * Z.of_nat (S m)) with (8 + 8 * Z.of_nat m) by lia.
  by rewrite Z.pow_add_r by lia.
Qed.
Lemma pow256_pos m : 0 < 2 ^ (8 * Z.of_nat m).
Proof. apply Z.pow_pos_nonneg; lia. Qed.

Lemma be_value_acc_shift acc b :
  be_value_acc acc b = acc * 2 ^ (8 * Z.of_nat (length b)) + be_value_acc 0 b.
Proof.
  revert acc. induction b as [|c b IH]; intros acc; cbn [be_value_acc length].
  - replace (2 ^ (8 * Z.of_nat 0)) with 1 by reflexivity. lia.
  - rewrite IH, (IH (256 * 0 + of_byte c)), pow256_S. ring.
Qed.
Lemma be_value_cons c b :
  be_value (c :: b) = of_byte c * 2 ^ (8 * Z.of_nat (length b)) + be_value b.
Proof. unfold be_value. cbn [be_value_acc]. rewrite be_value_acc_shift. ring. Qed.

Lemma be_value_range b : 0 <= be_value b < 2 ^ (8 * Z.of_nat (length b)).
Proof.
  induction b as [|c b IH]; [by vm_compute|].
  rewrite be_value_cons. cbn [length]. rewrite pow256_S.
  pose proof (of_byte_range c). pose proof (pow256_pos (length b)). nia.
Qed.

Lemma be_value_bytes n v : be_value (be_bytes n v) = wrap_u (8 * Z.of_nat n) v.
Proof.
  unfold wrap_u. induction n as [|m IH]; cbn [be_bytes].
  - by rewrite Z.mod_1_r.
  - rewrite be_value_cons, length_be_bytes, IH, of_to_byte, Z.shiftr_div_pow2 by lia.
    rewrite pow256_S, (Z.mul_comm 256), Z.rem_mul_r; pose proof (pow256_pos m); lia.
Qed.
Lemma be_value_bytes_id n v : in_u (8 * Z.of_nat n) v -> be_value (be_bytes n v) = v.
Proof. intros. rewrite be_value_bytes. by apply wrap_u_id. Qed.

Lemma be_bytes_mod n v k : 8 * Z.of_nat n <= k -> be_bytes n (wrap_u k v) = be_bytes n v.
Proof.
  unfold wrap_u. intros Hk. revert Hk. induction n as [|m IH]; intros Hk; cbn [be_bytes]; [done|].
  f_equal; [|apply IH; lia]. unfold to_byte. do 2 f_equal.
  rewrite <-!Z.land_ones with (n := 8) by lia. rewrite <-Z.land_ones by lia.
  apply Z.bits_inj'. intros i Hi. rewrite !Z.land_spec, !Z.shiftr_spec by lia.
  rewrite Z.land_spec. destruct (decide (i < 8)) as [Hi'|Hi'].
  - rewrite (Z.ones_spec_low k) by lia. by rewrite andb_true_r.
  - rewrite (Z.ones_spec_high 8) by lia. by rewrite !andb_false_r.
Qed.

Lemma be_bytes_wrap_s n v k : 8 * Z.of_nat n <= k -> be_bytes n (wrap_s k v) = be_bytes n v.
Proof.
  intros Hk. by rewrite <-(be_bytes_mod _ (wrap_s k v) k), wrap_u_wrap_s, be_bytes_mod by done.
Qed.

(** The encoding loses nothing: every byte string of length [n] is the encoding of its value. *)
Lemma be_bytes_value b : be_bytes (length b) (be_value b) = b.
Proof.
  induction b as [|c b IH]; [done|]. cbn [length be_bytes].
  pose proof (be_value_range b) as Hr. pose proof (pow256_pos (length b)) as Hp.
  rewrite be_value_cons. f_equal.
  - rewrite Z.shiftr_div_pow2 by lia. rewrite Z.add_comm, Z.div_add, Z.div_small by lia.
    apply to_of_byte.
  - rewrite <-(be_bytes_mod _ _ (8 * Z.of_nat (length b))) by lia.
    unfold wrap_u. rewrite Z.add_comm, Z_mod_plus_full, Z.mod_small by lia. done.
Qed.

Lemma PutUint_ok {E} n v x q :
  length x = n -> @PutUint E n v (x ++ q) = Ok (be_bytes n v ++ q).
Proof.
  intros Hx. unfold PutUint. rewrite bool_decide_true by (unfold len; rewrite length_app; lia).
  by rewrite drop_app_length'.
Qed.
Lemma PutUint_exact {E} n v x : length x = n -> @PutUint E n v x = Ok (be_bytes n v).
Proof. intros Hx. rewrite <-(app_nil_r x), PutUint_ok by done. by rewrite app_nil_r. Qed.
Lemma GetUint_ok {E} n x q : length x = n -> @GetUint E n (x ++ q) = Ok (be_value x).
Proof.
  intros Hx. unfold GetUint. rewrite bool_decide_true by (unfold len; rewrite length_app; lia).
  by rewrite take_app_length'.
Qed.
Lemma GetUint_bytes {E} n v q :
  @GetUint E n (be_bytes n v ++ q) = Ok (wrap_u (8 * Z.of_nat n) v).
Proof. rewrite GetUint_ok by apply length_be_bytes. by rewrite be_value_bytes. Qed.
Lemma GetUint_exact {E} n v : @GetUint E n (be_bytes n v) = Ok (wrap_u (8 * Z.of_nat n) v).
Proof. rewrite <-(app_nil_r (be_bytes n v)). apply GetUint_bytes. Qed.
Lemma GetUint_no_panic {E} n b : Z.of_nat n <= len b -> no_panic (@GetUint E n b).
Proof. intros. unfold GetUint. rewrite bool_decide_true by done. apply no_panic_ok. Qed.
Lemma GetUint_range {E} n b v : @GetUint E n b = Ok v -> in_u (8 * Z.of_nat n) v.
Proof.
  unfold GetUint. case_bool_decide as Hl; [|done]. intros [= <-].
  pose proof (be_value_range (take n b)) as Hr. unfold len, in_u in *.
  rewrite length_take in Hr. by replace (n `min` length b)%nat with n in Hr by lia.
Qed.
#[export] Hint Resolve GetUint_no_panic : nell.

Arguments be_bytes : simpl never.
Arguments be_value : simpl never.
Arguments PutUint : simpl never.
Arguments GetUint : simpl never.
