(* ===== verification/Hlc.v ===== *)
(** * Hybrid logical clocks (types.go)

    [HLC] with its 64-bit wall time and 32-bit counter, the local [Tick], the
    merge [Update], the order [GreaterThan] and the 12-byte encoding.  The system
    clock is an argument: [now] is the value [time.Now().UnixMilli()] returns. *)
From S2P Require Import Prelude BigEndian.
Local Open Scope Z_scope.

Record HLC := mkHLC { WallTime : Z; Counter : Z }.

#[export] Instance HLC_eq_dec : EqDecision HLC.
Proof. solve_decision. Defined.
#[export] Instance HLC_inhabited : Inhabited HLC := populate (mkHLC 0 0).

Definition HLCSize : Z := 12.
Definition HLC_zero : HLC := mkHLC 0 0.

Definition NewHLC (now : Z) : HLC := mkHLC now 0.

(** [h.Tick()]: the new value of [*h], which is also what the call returns. *)
Definition HLC_Tick (now : Z) (h : HLC) : HLC :=
  if WallTime h <? now then mkHLC now 0
  else mkHLC (WallTime h) (wrap_s 32 (Counter h + 1)).

(** [h.Update(peer)]: the new value of [*h]. *)
Definition HLC_Update (h peer : HLC) : HLC :=
  if WallTime h <? WallTime peer then mkHLC (WallTime peer) (wrap_s 32 (Counter peer + 1))
  else if (WallTime peer =? WallTime h) && (Counter h <=? Counter peer)
  then mkHLC (WallTime h) (wrap_s 32 (Counter peer + 1))
  else h.

Definition HLC_GreaterThan (a b : HLC) : bool :=
  if negb (WallTime a =? WallTime b) then WallTime b <? WallTime a
  else Counter b <? Counter a.

Definition HLC_Equal (a b : HLC) : bool :=
  (WallTime a =? WallTime b) && (Counter a =? Counter b).

(** [h.EncodeBinary(b)]: the new contents of [b]. *)
Definition HLC_EncodeBinary {E} (h : HLC) (b : bytes) : res E bytes :=
  b ← on_slice 0 8 b (PutUint 8 (wrap_u 64 (WallTime h)));
  on_slice 8 12 b (PutUint 4 (wrap_u 32 (Counter h))).

(** [h.DecodeBinary(b)]: the new value of [*h]. *)
Definition HLC_DecodeBinary {E} (b : bytes) : res E HLC :=
  s ← slice 0 8 b;
  wt ← GetUint 8 s;
  s' ← slice 8 12 b;
  c ← GetUint 4 s';
  Ok (mkHLC (wrap_s 64 wt) (wrap_s 32 c)).

(** ** The order *)

(** Fields within the widths of their Go types. *)
Definition hlc_ok (h : HLC) : Prop := in_s 64 (WallTime h) /\ in_s 32 (Counter h).
(** The counter is not at [math.MaxInt32]: one more tick does not wrap it. *)
Definition tick_safe (h : HLC) : Prop := - 2 ^ 31 <= Counter h + 1 < 2 ^ 31.
#[export] Instance tick_safe_dec h : Decision (tick_safe h).
Proof. unfold tick_safe. apply _. Defined.

Definition hlc_gt (a b : HLC) : Prop := HLC_GreaterThan a b = true.
Definition hlc_le (a b : HLC) : Prop := HLC_GreaterThan a b = false.
(** The later of two clocks. *)
Definition hlc_max (a b : HLC) : HLC := if HLC_GreaterThan b a then b else a.
(** The clock one tick after [h] in the same millisecond. *)
Definition hlc_succ (h : HLC) : HLC := mkHLC (WallTime h) (wrap_s 32 (Counter h + 1)).

#[export] Instance hlc_gt_dec a b : Decision (hlc_gt a b).
Proof. unfold hlc_gt. apply _. Defined.
#[export] Instance hlc_le_dec : RelDecision hlc_le.
Proof. intros a b. unfold hlc_le. apply _. Defined.

Lemma GreaterThan_spec a b :
  HLC_GreaterThan a b = true <->
  WallTime b < WallTime a \/ (WallTime a = WallTime b /\ Counter b < Counter a).
Proof.
  unfold HLC_GreaterThan. destruct (Z.eqb_spec (WallTime a) (WallTime b)); simpl; rewrite Z.ltb_lt; lia.
Qed.
Lemma GreaterThan_false a b :
  HLC_GreaterThan a b = false <->
  WallTime a < WallTime b \/ (WallTime a = WallTime b /\ Counter a <= Counter b).
Proof.
  unfold HLC_GreaterThan. destruct (Z.eqb_spec (WallTime a) (WallTime b)); simpl;
    rewrite Z.ltb_ge; lia.
Qed.
Lemma Equal_spec a b : HLC_Equal a b = true <-> a = b.
Proof.
  destruct a, b. unfold HLC_Equal. rewrite andb_true_iff, !Z.eqb_eq. simpl.
  split; [by intros [-> ->]|by intros [= -> ->]].
Qed.

Lemma wrap_s32_id c : - 2 ^ 31 <= c < 2 ^ 31 -> wrap_s 32 c = c.
Proof. intros. by apply wrap_s_id. Qed.

(** Reduce statements about clocks to linear arithmetic on their fields. *)
Ltac hlc :=
  unfold hlc_gt, hlc_le, tick_safe, hlc_max, hlc_succ, HLC_zero in *;
  repeat match goal with
  | h : HLC |- _ => let w := fresh "w" in let c := fresh "c" in destruct h as [w c]
  | |- context [HLC_GreaterThan ?a ?b] =>
      lazymatch goal with
      | |- HLC_GreaterThan a b = _ => fail
      | |- _ => destruct (HLC_GreaterThan a b) eqn:?
      end
  end;
  rewrite ?GreaterThan_spec, ?GreaterThan_false in *; cbn [WallTime Counter] in *;
  try (f_equal; lia); try lia.

Lemma hlc_gt_irrefl a : ~ hlc_gt a a.
Proof. unfold hlc_gt. rewrite GreaterThan_spec. lia. Qed.
Lemma hlc_gt_trans a b c : hlc_gt a b -> hlc_gt b c -> hlc_gt a c.
Proof. hlc. Qed.
Lemma hlc_gt_le_trans a b c : hlc_gt a b -> hlc_le c b -> hlc_gt a c.
Proof. hlc. Qed.
Lemma hlc_le_gt_trans a b c : hlc_le b a -> hlc_gt b c -> hlc_gt a c.
Proof. hlc. Qed.
Lemma hlc_gt_le a b : hlc_gt a b -> hlc_le b a.
Proof. hlc. Qed.
Lemma hlc_not_gt a b : ~ hlc_gt a b <-> hlc_le a b.
Proof. unfold hlc_gt, hlc_le. by destruct (HLC_GreaterThan a b). Qed.
Lemma hlc_trichotomy a b : hlc_gt a b \/ a = b \/ hlc_gt b a.
Proof.
  destruct a as [w c], b as [w' c']. unfold hlc_gt. rewrite !GreaterThan_spec. simpl.
  destruct (Z.lt_trichotomy w w') as [|[->|]]; [lia| |lia].
  destruct (Z.lt_trichotomy c c') as [|[->|]]; [lia|auto|lia].
Qed.

#[export] Instance hlc_le_po : PartialOrder hlc_le.
Proof.
  split; [split|].
  - intros a. hlc.
  - intros a b c. hlc.
  - intros [] [] ??. unfold hlc_le in *. rewrite !GreaterThan_false in *. simpl in *. f_equal; lia.
Qed.
#[export] Instance hlc_le_total : Total hlc_le.
Proof. intros a b. unfold hlc_le. rewrite !GreaterThan_false. lia. Qed.

Lemma hlc_max_l a b : hlc_le a (hlc_max a b).
Proof. hlc. Qed.
Lemma hlc_max_r a b : hlc_le b (hlc_max a b).
Proof. hlc. Qed.
Lemma hlc_max_le_ll a b c : hlc_le c a -> hlc_le c (hlc_max a b).
Proof. intros. etrans; [eassumption|apply hlc_max_l]. Qed.
Lemma hlc_max_le_rr a b c : hlc_le c b -> hlc_le c (hlc_max a b).
Proof. intros. etrans; [eassumption|apply hlc_max_r]. Qed.
Lemma hlc_max_lub a b c : hlc_le a c -> hlc_le b c -> hlc_le (hlc_max a b) c.
Proof. unfold hlc_max. by case_match. Qed.
#[export] Hint Resolve hlc_max_l hlc_max_r hlc_max_lub hlc_gt_le : nell.

Lemma hlc_max_comm a b : hlc_max a b = hlc_max b a.
Proof. apply (anti_symm hlc_le); auto with nell. Qed.
Lemma hlc_max_assoc a b c : hlc_max a (hlc_max b c) = hlc_max (hlc_max a b) c.
Proof.
  apply (anti_symm hlc_le); repeat apply hlc_max_lub;
    auto using hlc_max_l, hlc_max_r, hlc_max_le_ll, hlc_max_le_rr.
Qed.
Lemma hlc_max_id a : hlc_max a a = a.
Proof. unfold hlc_max. by case_match. Qed.
Lemma hlc_max_le_l a b : hlc_le b a -> hlc_max a b = a.
Proof. unfold hlc_max, hlc_le. by intros ->. Qed.

(** ** Tick and Update *)

Lemma tick_safe_succ h : tick_safe h -> hlc_gt (hlc_succ h) h.
Proof. intros Hs. unfold hlc_succ. rewrite wrap_s32_id by (apply Hs). hlc. Qed.

Lemma HLC_Tick_gt now h : tick_safe h -> hlc_gt (HLC_Tick now h) h.
Proof.
  intros Hs. unfold HLC_Tick. destruct (Z.ltb_spec (WallTime h) now); [hlc|].
  by apply tick_safe_succ.
Qed.

(** A tick moves the clock forward: the wall clock has advanced, or the counter has room. *)
Definition tick_ok (now : Z) (h : HLC) : Prop := WallTime h < now \/ tick_safe h.
#[export] Instance tick_ok_dec now h : Decision (tick_ok now h).
Proof. unfold tick_ok, tick_safe. apply _. Defined.
Lemma HLC_Tick_advances now h : tick_ok now h -> hlc_gt (HLC_Tick now h) h.
Proof.
  intros [Hw|Hs]; [|by apply HLC_Tick_gt].
  unfold HLC_Tick. rewrite (proj2 (Z.ltb_lt _ _) Hw). hlc.
Qed.

(** [Update] is the join with the peer clock's successor. *)
Lemma HLC_Update_max h p : tick_safe p -> HLC_Update h p = hlc_max h (hlc_succ p).
Proof.
  intros Hs. unfold HLC_Update, hlc_max, hlc_succ. rewrite wrap_s32_id by apply Hs.
  destruct h as [w c], p as [w' c']. cbn [WallTime Counter].
  destruct (Z.ltb_spec w w'); [|destruct (Z.eqb_spec w' w); simpl;
    [destruct (Z.leb_spec c c')|]]; case_match eqn:H1;
    rewrite ?GreaterThan_spec, ?GreaterThan_false in H1; simpl in *; subst; try done; try lia.
Qed.
Lemma HLC_Update_gt h p : tick_safe p -> hlc_gt (HLC_Update h p) p.
Proof.
  intros Hs. rewrite HLC_Update_max by done.
  eapply hlc_le_gt_trans; [apply hlc_max_r|by apply tick_safe_succ].
Qed.
Lemma HLC_Update_ge h p : tick_safe p -> hlc_le h (HLC_Update h p).
Proof. intros Hs. rewrite HLC_Update_max by done. apply hlc_max_l. Qed.
#[export] Hint Resolve HLC_Tick_gt HLC_Update_gt HLC_Update_ge tick_safe_succ : nell.

(** ** The encoding *)

(** The 12 bytes of a clock. *)
Definition hlc_bytes (h : HLC) : bytes := be_bytes 8 (WallTime h) ++ be_bytes 4 (Counter h).

Lemma length_hlc_bytes h : length (hlc_bytes h) = 12%nat.
Proof. done. Qed.

Lemma HLC_EncodeBinary_ok {E} h b :
  length b = 12%nat -> HLC_EncodeBinary h b = @Ok E _ (hlc_bytes h).
Proof.
  intros Hl. unfold HLC_EncodeBinary, hlc_bytes.
  rewrite <-(take_drop 8 b).
  assert (length (take 8 b) = 8%nat) as H1 by (rewrite length_take; lia).
  assert (length (drop 8 b) = 4%nat) as H2 by (rewrite length_drop; lia).
  rewrite (on_slice_mid 0 8 [] (take 8 b) (drop 8 b) _ (be_bytes 8 (wrap_u 64 (WallTime h))));
    [|done|unfold len; simpl; lia|by apply PutUint_exact|by rewrite length_be_bytes].
  step. rewrite app_nil_l, <-(app_nil_r (drop 8 b)).
  rewrite (on_slice_mid 8 12 _ (drop 8 b) [] _ (be_bytes 4 (wrap_u 32 (Counter h))));
    [|by rewrite len_be_bytes|rewrite len_be_bytes; unfold len; lia|by apply PutUint_exact|by rewrite length_be_bytes].
  by rewrite !be_bytes_mod, app_nil_r by lia.
Qed.

Lemma HLC_DecodeBinary_ok {E} h : hlc_ok h -> HLC_DecodeBinary (hlc_bytes h) = @Ok E _ h.
Proof.
  intros [H1 H2]. unfold HLC_DecodeBinary, hlc_bytes.
  step with slice_pre; [|by rewrite len_be_bytes]. step with @GetUint_exact.
  step with slice_post; [|by rewrite len_be_bytes..]. step with @GetUint_exact.
  rewrite !wrap_s_wrap_u by done. by destruct h.
Qed.

Lemma HLC_DecodeBinary_no_panic {E} b : 12 <= len b -> no_panic (@HLC_DecodeBinary E b).
Proof.
  intros Hl. unfold HLC_DecodeBinary.
  apply no_panic_bind; [apply slice_no_panic; lia|]. intros s Hs%slice_len.
  apply no_panic_bind; [apply GetUint_no_panic; lia|]. intros wt _.
  apply no_panic_bind; [apply slice_no_panic; lia|]. intros s' Hs'%slice_len.
  apply no_panic_bind; [apply GetUint_no_panic; lia|]. auto with nell.
Qed.
#[export] Hint Resolve HLC_DecodeBinary_no_panic : nell.

(** ** Properties *)

(** Receiving a peer's clock: unless the peer's counter is at [math.MaxInt32],
    [Update] computes the join of the local clock and the tick after the peer's; the
    result is strictly later than everything the peer has stamped and no earlier than
    the local clock. *)
Theorem HLC_Update_causal h peer :
  tick_safe peer ->
  HLC_Update h peer = hlc_max h (hlc_succ peer) /\
  hlc_gt (HLC_Update h peer) peer /\ hlc_le h (HLC_Update h peer).
Proof. intros Hs. split_and!; [by apply HLC_Update_max|by auto with nell..]. Qed.
Lemma HLC_Update_causal_witness :
  tick_safe (mkHLC 100 7) /\ HLC_Update (mkHLC 100 3) (mkHLC 100 7) = mkHLC 100 8 /\
  hlc_gt (HLC_Update (mkHLC 100 3) (mkHLC 100 7)) (mkHLC 100 7).
Proof.
  split; [by unfold tick_safe; simpl|]. split; [done|].
  apply (HLC_Update_causal (mkHLC 100 3) (mkHLC 100 7)). by unfold tick_safe; simpl.
Defined.

(** A local [Tick] is strictly later than the clock it ticks exactly when the wall
    clock has moved on or the 32-bit counter has room: this is where it can fail, and
    nowhere else. *)
Theorem HLC_Tick_strict_iff now h :
  hlc_ok h -> hlc_gt (HLC_Tick now h) h <-> WallTime h < now \/ Counter h <> 2 ^ 31 - 1.
Proof.
  intros [_ Hc]. split.
  - intros Hg. destruct (Z.lt_ge_cases (WallTime h) now) as [|Hw]; [by left|right].
    intros Hm. revert Hg. unfold HLC_Tick. rewrite (proj2 (Z.ltb_ge _ _) Hw).
    rewrite Hm. change (wrap_s 32 (2 ^ 31 - 1 + 1)) with (- 2 ^ 31).
    unfold hlc_gt. rewrite GreaterThan_spec. simpl. lia.
  - intros Ht. apply HLC_Tick_advances. destruct Ht as [|Hn]; [by left|right].
    unfold in_s, tick_safe in *. lia.
Qed.
Lemma HLC_Tick_strict_iff_witness :
  hlc_ok (mkHLC 100 7) /\ hlc_gt (HLC_Tick 90 (mkHLC 100 7)) (mkHLC 100 7).
Proof.
  assert (hlc_ok (mkHLC 100 7)) as H by (split; unfold in_s; simpl; lia).
  split; [done|]. apply (HLC_Tick_strict_iff 90 (mkHLC 100 7) H). right. simpl. lia.
Defined.

(** The counter overflow: a peer clock that any decoder accepts, with its counter at
    the largest 32-bit value, sends [Update] backwards.  The merged clock is earlier than
    the peer's and earlier than the local one, and the next local [Tick] is too. *)
Theorem HLC_Update_overflow :
  exists h peer now, hlc_ok h /\ hlc_ok peer /\ now <= WallTime h /\
    hlc_gt peer (HLC_Update h peer) /\ hlc_gt h (HLC_Update h peer) /\
    hlc_gt h (HLC_Tick now (HLC_Update h peer)).
Proof.
  exists (mkHLC 100 5), (mkHLC 100 (2 ^ 31 - 1)), 100.
  split_and!; try done; unfold hlc_ok, in_s; simpl; lia.
Qed.

(** The 12-byte encoding of a clock with in-width fields fills its buffer and
    decodes to the clock. *)
Theorem HLC_roundtrip (h : HLC) (b : bytes) :
  hlc_ok h -> len b = HLCSize ->
  exists e, HLC_EncodeBinary h b = @Ok unit _ e /\ len e = HLCSize /\ HLC_DecodeBinary e = @Ok unit _ h.
Proof.
  intros Hh Hl. exists (hlc_bytes h). unfold len, HLCSize in *.
  split_and!; [apply HLC_EncodeBinary_ok; lia|by rewrite length_hlc_bytes|by apply HLC_DecodeBinary_ok].
Qed.
Lemma HLC_roundtrip_witness :
  exists e, HLC_EncodeBinary (mkHLC 1700000000000 (-3)) (make_bytes 12) = @Ok unit _ e /\
    len e = HLCSize /\ HLC_DecodeBinary e = @Ok unit _ (mkHLC 1700000000000 (-3)).
Proof. apply (HLC_roundtrip (mkHLC 1700000000000 (-3)) (make_bytes 12)); [split; unfold in_s; simpl; lia|done]. Defined.
