(* ===== verification/Record.v ===== *)
(** * Records and their binary encoding (types.go)

    [nell.Record] as a record of the same fields, [MarshalBinary] written as the
    code writes it (into a buffer of the computed size, at running offsets) and
    [UnmarshalBinary] with its length checks.  [Payload] and [Vector] are the
    contents of the slices: a nil slice and an empty one are the same value.  A
    [float32] is its IEEE 754 bit pattern. *)
From S2P Require Import Prelude BigEndian Hlc.
Local Open Scope Z_scope.

Abbreviation f32 := Z (only parsing).

Record NellRecord := mkRecord {
  Collection : string;
  ID : string;
  Type_ : string;
  Payload : bytes;
  Vector : list f32;
  Clock : HLC;
  UpdatedBy : string;
  Deleted : bool
}.

#[export] Instance NellRecord_eq_dec : EqDecision NellRecord.
Proof. solve_decision. Defined.
#[export] Instance NellRecord_inhabited : Inhabited NellRecord :=
  populate (mkRecord "" "" "" [] [] HLC_zero "" false).

Definition TypeText : string := "text".
Definition TypeVector : string := "vector".
Definition TypeImage : string := "image".
Definition DefaultCollection : string := "default".

(** ** MarshalBinary *)

(** [PutUint16(b[off:], uint16(len(s))); off += 2; copy(b[off:], s); off += len(s)] *)
Definition put_string {E} (off : Z) (s : string) (b : bytes) : res E (Z * bytes) :=
  b ← on_slice off (len b) b (PutUint 2 (wrap_u 16 (strlen s)));
  let off := off + 2 in
  b ← on_slice off (len b) b (fun d => Ok (copy d (str_bytes s)));
  Ok (off + strlen s, b).

(** The loop over [r.Vector]. *)
Fixpoint put_floats {E} (off : Z) (v : list f32) (b : bytes) : res E (Z * bytes) :=
  match v with
  | [] => Ok (off, b)
  | x :: v =>
      b ← on_slice off (len b) b (PutUint 4 x);
      put_floats (off + 4) v b
  end.

Definition Record_MarshalBinary {E} (r : NellRecord) : res E bytes :=
  let size := 1 + 1 + HLCSize + 2 + strlen (Collection r) + 2 + strlen (ID r) + 2 + strlen (Type_ r)
              + 2 + strlen (UpdatedBy r) + 4 + len (Vector r) * 4 + 4 + len (Payload r) in
  let b := make_bytes size in
  b ← set_index 0 (to_byte 1) b;
  b ← set_index 1 (if Deleted r then to_byte 1 else to_byte 0) b;
  b ← on_slice 2 14 b (HLC_EncodeBinary (Clock r));
  let off := 14 in
  '(off, b) ← put_string off (Collection r) b;
  '(off, b) ← put_string off (ID r) b;
  '(off, b) ← put_string off (Type_ r) b;
  '(off, b) ← put_string off (UpdatedBy r) b;
  b ← on_slice off (len b) b (PutUint 4 (wrap_u 32 (len (Vector r))));
  let off := off + 4 in
  '(off, b) ← put_floats off (Vector r) b;
  b ← on_slice off (len b) b (PutUint 4 (wrap_u 32 (len (Payload r))));
  let off := off + 4 in
  b ← on_slice off (len b) b (fun d => Ok (copy d (Payload r)));
  Ok b.

(** ** UnmarshalBinary *)

(** The errors, one per message of the code. *)
Inductive unmarshal_err :=
| ErrTooShort
| ErrCollectionLen | ErrCollectionString
| ErrIdLen | ErrIdString
| ErrTypeLen | ErrTypeString
| ErrUpdatedByLen | ErrUpdatedByString
| ErrVectorCount | ErrVectorData
| ErrPayloadLen | ErrPayloadData.
#[export] Instance unmarshal_err_eq_dec : EqDecision unmarshal_err.
Proof. solve_decision. Defined.

(** One length-prefixed string: the two length checks, the length and the bytes. *)
Definition get_string (elen estr : unmarshal_err) (b : bytes) (off : Z)
    : res unmarshal_err (string * Z) :=
  if len b <? off + 2 then Err elen else
  t ← slice off (len b) b;
  l ← GetUint 2 t;
  let off := off + 2 in
  if len b <? off + l then Err estr else
  s ← slice off (off + l) b;
  Ok (bytes_str s, off + l).

Fixpoint get_floats (n : nat) (b : bytes) (off : Z) : res unmarshal_err (list f32 * Z) :=
  match n with
  | O => Ok ([], off)
  | S n =>
      t ← slice off (len b) b;
      x ← GetUint 4 t;
      '(v, off) ← get_floats n b (off + 4);
      Ok (x :: v, off)
  end.

Definition Record_UnmarshalBinary (b : bytes) : res unmarshal_err NellRecord :=
  if len b <? 14 then Err ErrTooShort else
  d ← slice 1 2 b;
  let deleted := be_value d =? 1 in
  h ← slice 2 14 b;
  clock ← HLC_DecodeBinary h;
  let off := 14 in
  '(collection, off) ← get_string ErrCollectionLen ErrCollectionString b off;
  '(id, off) ← get_string ErrIdLen ErrIdString b off;
  '(type_, off) ← get_string ErrTypeLen ErrTypeString b off;
  '(updatedBy, off) ← get_string ErrUpdatedByLen ErrUpdatedByString b off;
  if len b <? off + 4 then Err ErrVectorCount else
  t ← slice off (len b) b;
  vC ← GetUint 4 t;
  let off := off + 4 in
  if len b <? off + vC * 4 then Err ErrVectorData else
  '(vector, off) ← get_floats (Z.to_nat vC) b off;
  if len b <? off + 4 then Err ErrPayloadLen else
  t ← slice off (len b) b;
  pL ← GetUint 4 t;
  let off := off + 4 in
  if len b <? off + pL then Err ErrPayloadData else
  payload ← slice off (off + pL) b;
  Ok (mkRecord collection id type_ payload vector clock updatedBy deleted).

(** ** The layout the header comment of types.go draws *)

Definition string_bytes (s : string) : bytes := be_bytes 2 (strlen s) ++ str_bytes s.
Fixpoint floats_bytes (v : list f32) : bytes :=
  match v with
  | [] => []
  | x :: v => be_bytes 4 x ++ floats_bytes v
  end.
(** Everything after the version and the deleted byte. *)
Definition body_layout (r : NellRecord) : bytes :=
  hlc_bytes (Clock r) ++ string_bytes (Collection r) ++ string_bytes (ID r)
  ++ string_bytes (Type_ r) ++ string_bytes (UpdatedBy r)
  ++ be_bytes 4 (len (Vector r)) ++ floats_bytes (Vector r)
  ++ be_bytes 4 (len (Payload r)) ++ Payload r.
Definition layout (r : NellRecord) : bytes :=
  [to_byte 1; to_byte (if Deleted r then 1 else 0)] ++ body_layout r.

(** What the encoding can represent: 16-bit string lengths, 32-bit counts. *)
Definition record_ok (r : NellRecord) : Prop :=
  hlc_ok (Clock r) /\ in_u 16 (strlen (Collection r)) /\ in_u 16 (strlen (ID r)) /\
  in_u 16 (strlen (Type_ r)) /\ in_u 16 (strlen (UpdatedBy r)) /\
  in_u 32 (len (Vector r)) /\ Forall (in_u 32) (Vector r) /\ in_u 32 (len (Payload r)).

Lemma length_string_bytes s : length (string_bytes s) = (2 + String.length s)%nat.
Proof. unfold string_bytes. by rewrite length_app, length_be_bytes, length_str_bytes. Qed.
Lemma length_floats_bytes v : length (floats_bytes v) = (4 * length v)%nat.
Proof.
  induction v as [|x v IH]; [done|]. cbn [floats_bytes length].
  rewrite length_app, length_be_bytes, IH. lia.
Qed.
Lemma len_string_bytes s : len (string_bytes s) = 2 + strlen s.
Proof. unfold len, strlen. rewrite length_string_bytes. lia. Qed.
Lemma len_floats_bytes v : len (floats_bytes v) = 4 * len v.
Proof. unfold len. rewrite length_floats_bytes. lia. Qed.
Lemma len_hlc_bytes h : len (hlc_bytes h) = 12.
Proof. done. Qed.
#[export] Hint Rewrite len_string_bytes len_floats_bytes len_hlc_bytes len_str_bytes : nell_len.
#[export] Hint Rewrite @len_be_bytes : nell_len.

(** Offsets and lengths of concatenations, by arithmetic. *)
Ltac len_lia :=
  autorewrite with nell_len; unfold len, strlen in *; cbn [length] in *;
  rewrite ?length_app, ?length_be_bytes in *; cbn [length] in *; try lia.

(** *** Writing produces the layout *)

Lemma put_string_ok {E} p s x q off :
  off = len p -> length x = (2 + String.length s)%nat ->
  put_string off s (p ++ x ++ q) = @Ok E _ (off + 2 + strlen s, (p ++ string_bytes s) ++ q).
Proof.
  intros -> Hx. unfold put_string, string_bytes.
  rewrite <-(take_drop 2 x).
  assert (length (take 2 x) = 2%nat) by (rewrite length_take; lia).
  assert (length (drop 2 x) = String.length s) by (rewrite length_drop; lia).
  rewrite <-(app_assoc (take 2 x)).
  step with (on_slice_tail _ _ p _ _ (be_bytes 2 (wrap_u 16 (strlen s)) ++ drop 2 x ++ q));
    [|done|by rewrite len_app|by apply PutUint_ok|len_lia].
  rewrite be_bytes_mod by lia. rewrite (app_assoc p).
  step with (on_slice_tail _ _ (p ++ be_bytes 2 (strlen s)) _ _ (str_bytes s ++ q));
    [|by autorewrite with nell_len|by rewrite !len_app| |].
  - by rewrite !app_assoc.
  - f_equal. rewrite copy_prefix; [done|]. by rewrite length_str_bytes.
  - rewrite !length_app, length_str_bytes. lia.
Qed.

Lemma put_floats_ok {E} v : forall p x q off,
  off = len p -> length x = (4 * length v)%nat ->
  put_floats off v (p ++ x ++ q) = @Ok E _ (off + 4 * len v, (p ++ floats_bytes v) ++ q).
Proof.
  induction v as [|f v IH]; intros p x q off -> Hx; cbn [put_floats].
  - destruct x; [|done]. cbn [floats_bytes app]. rewrite app_nil_r. do 2 f_equal.
    unfold len; simpl; lia.
  - cbn [length] in Hx. rewrite <-(take_drop 4 x), <-(app_assoc (take 4 x)).
    assert (length (take 4 x) = 4%nat) by (rewrite length_take; lia).
    assert (length (drop 4 x) = (4 * length v)%nat) by (rewrite length_drop; lia).
    step with (on_slice_tail _ _ p _ _ (be_bytes 4 f ++ drop 4 x ++ q));
      [|done|by rewrite len_app|by apply PutUint_ok|len_lia].
    rewrite app_assoc, IH by (by autorewrite with nell_len).
    f_equal. f_equal; [unfold len; cbn [length]; lia|].
    cbn [floats_bytes]. by rewrite !app_assoc.
Qed.

Lemma split_at {A} (x : list A) n m :
  length x = (n + m)%nat -> exists y z, x = y ++ z /\ length y = n /\ length z = m.
Proof.
  intros. exists (take n x), (drop n x). rewrite take_drop, length_take, length_drop.
  split_and!; [done|lia..].
Qed.

Lemma MarshalBinary_ok {E} r : Record_MarshalBinary r = @Ok E _ (layout r).
Proof.
  unfold Record_MarshalBinary, make_bytes, HLCSize.
  set (n := Z.to_nat _).
  assert (n = 2 + (12 + ((2 + String.length (Collection r)) + ((2 + String.length (ID r))
    + ((2 + String.length (Type_ r)) + ((2 + String.length (UpdatedBy r))
    + (4 + (4 * length (Vector r) + (4 + length (Payload r)))))))))%nat)%nat as Hn
    by (unfold n, len, strlen; lia).
  clearbody n. pose proof (length_replicate n Ascii.zero) as Hb.
  revert Hb. generalize (replicate n Ascii.zero). intros b Hb. rewrite Hn in Hb. clear n Hn.
  repeat match type of Hb with
  | length ?x = (?n + _)%nat =>
      let y := fresh "x" in let z := fresh "b" in let H := fresh "Hx" in
      destruct (split_at x _ _ Hb) as (y & z & -> & H & Hb'); clear Hb; rename Hb' into Hb
  end.
  destruct x as [|v [|d [|]]]; try discriminate. clear Hx.
  step with set_index_ok; [|len_lia].
  step with set_index_ok; [|unfold len; rewrite length_insert, length_app; cbn [length]; lia].
  replace (<[Z.to_nat 1:=_]> _) with
    ([to_byte 1; to_byte (if Deleted r then 1 else 0)] ++ x0 ++ x1 ++ x2 ++ x3 ++ x4 ++ x5 ++ x6 ++ x7 ++ b0)
    by (by destruct (Deleted r)).
  step with (on_slice_mid 2 14 _ x0 _ _ (hlc_bytes (Clock r)));
    [|done|len_lia|by apply HLC_EncodeBinary_ok|by rewrite Hx0].
  rewrite app_assoc. step with put_string_ok; [|len_lia|done].
  step with put_string_ok; [|len_lia|done].
  step with put_string_ok; [|len_lia|done].
  step with put_string_ok; [|len_lia|done].
  step with (on_slice_tail _ _ _ _ _ (be_bytes 4 (wrap_u 32 (len (Vector r))) ++ x6 ++ x7 ++ b0));
    [|len_lia|len_lia|by apply PutUint_ok|len_lia].
  rewrite app_assoc. step with put_floats_ok; [|len_lia|done].
  step with (on_slice_tail _ _ _ _ _ (be_bytes 4 (wrap_u 32 (len (Payload r))) ++ b0));
    [|len_lia|len_lia|by apply PutUint_ok|len_lia].
  rewrite app_assoc.
  step with (on_slice_tail _ _ _ _ _ (Payload r));
    [|len_lia|len_lia|by rewrite copy_exact|len_lia].
  rewrite !be_bytes_mod by lia. unfold layout, body_layout. by rewrite <-!app_assoc.
Qed.

(** *** Reading *)

Lemma get_string_ok e1 e2 p s q off :
  off = len p -> in_u 16 (strlen s) ->
  get_string e1 e2 (p ++ string_bytes s ++ q) off = Ok (s, len p + 2 + strlen s).
Proof.
  intros -> Hs. unfold get_string, string_bytes.
  rewrite (proj2 (Z.ltb_ge _ _)) by len_lia.
  rewrite <-(app_assoc (be_bytes 2 _)).
  step with slice_post; [|done|by rewrite len_app]. step with @GetUint_bytes.
  rewrite wrap_u_id by done.
  rewrite (proj2 (Z.ltb_ge _ _)) by (rewrite !len_app; autorewrite with nell_len; unfold len; lia).
  rewrite app_assoc. step with slice_mid; [|len_lia|rewrite len_app, len_str_bytes; len_lia].
  by rewrite bytes_str_bytes.
Qed.

Lemma get_floats_ok v : forall p q off,
  off = len p -> Forall (in_u 32) v ->
  get_floats (length v) (p ++ floats_bytes v ++ q) off = Ok (v, len p + 4 * len v).
Proof.
  induction v as [|x v IH]; intros p q off -> Hv; cbn [get_floats length floats_bytes].
  - f_equal. f_equal. unfold len. simpl. lia.
  - inversion_clear Hv.
    step with slice_post; [|done|by rewrite len_app].
    rewrite <-!(app_assoc (be_bytes 4 _)). step with @GetUint_bytes.
    rewrite wrap_u_id by done. rewrite app_assoc, IH by (done || len_lia). step.
    do 2 f_equal. len_lia.
Qed.

(** A length check that passes because the bytes are there. *)
Ltac room := rewrite (proj2 (Z.ltb_ge _ _)) by (len_lia; rewrite ?length_string_bytes, ?length_floats_bytes; lia).

Lemma Unmarshal_layout r x : record_ok r -> Record_UnmarshalBinary (layout r ++ x) = Ok r.
Proof.
  intros (Hc & H1 & H2 & H3 & H4 & H5 & H6 & H7).
  unfold layout, body_layout. rewrite <-!app_assoc. unfold Record_UnmarshalBinary.
  set (d := to_byte (if Deleted r then 1 else 0)).
  room. change ([to_byte 1; d] ++ ?q) with ([to_byte 1] ++ [d] ++ q).
  step with (slice_mid 1 2 [to_byte 1] [d]); [|done|done].
  rewrite (app_assoc [to_byte 1] [d]).
  step with slice_mid; [|done|by rewrite len_hlc_bytes].
  step with @HLC_DecodeBinary_ok; [|done].
  rewrite app_assoc.
  step with get_string_ok; [|done|done]. rewrite app_assoc.
  step with get_string_ok; [|len_lia|done]. rewrite app_assoc.
  step with get_string_ok; [|len_lia|done]. rewrite app_assoc.
  step with get_string_ok; [|len_lia|done]. rewrite app_assoc.
  room. step with slice_post; [|len_lia|by rewrite len_app]. step with @GetUint_bytes.
  rewrite wrap_u_id by done. room. rewrite app_assoc.
  replace (Z.to_nat (len (Vector r))) with (length (Vector r)) by (unfold len; lia).
  step with get_floats_ok; [|len_lia|done]. rewrite app_assoc.
  room. step with slice_post; [|len_lia|by rewrite len_app]. step with @GetUint_bytes.
  rewrite wrap_u_id by done. room. rewrite app_assoc.
  step with slice_mid; [|len_lia|len_lia].
  f_equal. unfold d. by destruct r as [???????[]].
Qed.

(** *** What a successful read says about the input *)

Lemma drop_slice {A} (b x : list A) lo hi :
  0 <= lo <= hi -> hi <= len b -> x = take (Z.to_nat (hi - lo)) (drop (Z.to_nat lo) b) ->
  drop (Z.to_nat lo) b = x ++ drop (Z.to_nat hi) b.
Proof.
  intros ?? ->. rewrite <-(take_drop (Z.to_nat (hi - lo)) (drop (Z.to_nat lo) b)) at 1.
  f_equal. rewrite drop_drop. f_equal. lia.
Qed.

Lemma slice_inv {E A} lo hi (b x : list A) :
  @slice E A lo hi b = Ok x ->
  0 <= lo <= hi /\ hi <= len b /\ len x = hi - lo /\
  drop (Z.to_nat lo) b = x ++ drop (Z.to_nat hi) b.
Proof.
  intros H. pose proof (slice_len _ _ _ _ H) as Hl. revert H. unfold slice.
  case_bool_decide as Hb; [|done]. intros [= <-].
  destruct Hb as [Hb1 Hb2]. split_and!; [lia|lia|lia|exact Hl|by apply drop_slice].
Qed.

(** An [n]-byte integer read at offset [off]. *)
Lemma uint_at_inv {E} n b off t v :
  @slice E _ off (len b) b = Ok t -> @GetUint E n t = Ok v ->
  in_u (8 * Z.of_nat n) v /\ off + Z.of_nat n <= len b /\
  drop (Z.to_nat off) b = be_bytes n v ++ drop (Z.to_nat (off + Z.of_nat n)) b.
Proof.
  intros (Ho & _ & Hl & Hd)%slice_inv Hv. pose proof (GetUint_range _ _ _ Hv) as Hr.
  revert Hv. unfold GetUint. case_bool_decide as Hn; [|done]. intros [= <-].
  split_and!; [done|lia|]. apply drop_slice; [lia..|].
  rewrite Hd. rewrite (drop_ge b) by (unfold len; lia). rewrite app_nil_r.
  replace (off + Z.of_nat n - off) with (Z.of_nat n) by lia. rewrite Nat2Z.id.
  rewrite <-(be_bytes_value (take n t)) at 2. f_equal.
  rewrite length_take. unfold len in Hn. lia.
Qed.

Lemma get_string_inv e1 e2 b off s off' :
  get_string e1 e2 b off = Ok (s, off') -> 0 <= off ->
  in_u 16 (strlen s) /\ 0 <= off' /\ off' <= len b /\
  drop (Z.to_nat off) b = string_bytes s ++ drop (Z.to_nat off') b.
Proof.
  unfold get_string. intros H Ho. destruct (Z.ltb_spec (len b) (off + 2)); [done|].
  destruct (slice off (len b) b) as [t| |] eqn:Ht; simpl in H; try done.
  destruct (GetUint 2 t) as [l| |] eqn:Hl; simpl in H; try done.
  destruct (uint_at_inv _ _ _ _ _ Ht Hl) as (Hr & Hb & Hd).
  destruct (Z.ltb_spec (len b) (off + 2 + l)); [done|].
  destruct (slice (off + 2) _ b) as [x| |] eqn:Hx; simpl in H; try done.
  injection H as <- <-. apply slice_inv in Hx as (? & ? & Hx & Hd').
  assert (strlen (bytes_str x) = l) as Hs.
  { rewrite <-len_str_bytes, str_bytes_str. lia. }
  rewrite Hs. split_and!; [done|unfold in_u in *; lia|lia|].
  rewrite Hd. unfold string_bytes. rewrite Hs, str_bytes_str, <-app_assoc. f_equal. apply Hd'.
Qed.

Lemma get_floats_inv n : forall b off v off',
  get_floats n b off = Ok (v, off') -> 0 <= off ->
  length v = n /\ Forall (in_u 32) v /\ 0 <= off' /\
  drop (Z.to_nat off) b = floats_bytes v ++ drop (Z.to_nat off') b.
Proof.
  induction n as [|n IH]; intros b off v off' H Ho; cbn [get_floats] in H.
  - injection H as <- <-. done.
  - destruct (slice off (len b) b) as [t| |] eqn:Ht; simpl in H; try done.
    destruct (GetUint 4 t) as [x| |] eqn:Hx; simpl in H; try done.
    destruct (uint_at_inv _ _ _ _ _ Ht Hx) as (Hr & Hb & Hd).
    destruct (get_floats n b (off + 4)) as [[v' o']| |] eqn:Hv; simpl in H; try done.
    injection H as <- <-. destruct (IH _ _ _ _ Hv) as (<- & Hf & ? & Hd'); [lia|].
    split_and!; [done|by constructor|done|].
    rewrite Hd. cbn [floats_bytes]. rewrite <-app_assoc. f_equal. apply Hd'.
Qed.

Lemma get_string_no_panic e1 e2 b off : 0 <= off -> no_panic (get_string e1 e2 b off).
Proof.
  intros Ho. unfold get_string. destruct (Z.ltb_spec (len b) (off + 2)); [auto with nell|].
  apply no_panic_bind; [apply slice_no_panic; lia|]. intros t Ht%slice_len.
  apply no_panic_bind; [apply GetUint_no_panic; lia|]. intros l Hl%GetUint_range.
  unfold in_u in Hl. destruct (Z.ltb_spec (len b) (off + 2 + l)); [auto with nell|].
  apply no_panic_bind; [apply slice_no_panic; lia|]. auto with nell.
Qed.

Lemma get_floats_no_panic n : forall b off,
  0 <= off -> off + 4 * Z.of_nat n <= len b -> no_panic (get_floats n b off).
Proof.
  induction n as [|n IH]; intros b off Ho Hl; cbn [get_floats]; [auto with nell|].
  apply no_panic_bind; [apply slice_no_panic; lia|]. intros t Ht%slice_len.
  apply no_panic_bind; [apply GetUint_no_panic; lia|]. intros x _.
  apply no_panic_bind; [apply IH; lia|]. intros [] _. auto with nell.
Qed.

Lemma hlc_decode_inv {E} (h : bytes) c :
  len h = 12 -> @HLC_DecodeBinary E h = Ok c -> hlc_ok c /\ h = hlc_bytes c.
Proof.
  intros Hl H. unfold HLC_DecodeBinary in H.
  destruct (slice 0 8 h) as [s| |] eqn:Hs; simpl in H; try done.
  destruct (GetUint 8 s) as [wt| |] eqn:Hw; simpl in H; try done.
  destruct (slice 8 12 h) as [s'| |] eqn:Hs'; simpl in H; try done.
  destruct (GetUint 4 s') as [ct| |] eqn:Hc; simpl in H; try done.
  injection H as <-. split; [split; by apply wrap_s_range|].
  apply slice_inv in Hs as (_ & _ & Hl1 & Hd1), Hs' as (_ & _ & Hl2 & Hd2).
  assert (forall n (t : bytes) v, len t = Z.of_nat n -> @GetUint E n t = Ok v -> t = be_bytes n v) as Hg.
  { intros n t v Ht. unfold GetUint. case_bool_decide; [|done]. intros [= <-].
    unfold len in Ht. rewrite take_ge by lia. replace n with (length t) by lia.
    by rewrite be_bytes_value. }
  apply (Hg 8%nat) in Hw; [|lia]. apply (Hg 4%nat) in Hc; [|lia].
  rewrite (drop_ge h (Z.to_nat 12)), app_nil_r in Hd2 by (unfold len in Hl; lia).
  change (h = s ++ drop (Z.to_nat 8) h) in Hd1. rewrite Hd1, Hd2, Hw, Hc.
  unfold hlc_bytes. cbn [WallTime Counter]. by rewrite !be_bytes_wrap_s by lia.
Qed.

(** Parsing is sound: what is read is what the input holds, byte for byte, behind
    the version byte and the deleted byte, and it is always representable. *)
Lemma Unmarshal_inv b r :
  Record_UnmarshalBinary b = Ok r ->
  record_ok r /\ exists v d rest,
    b = [v; d] ++ body_layout r ++ rest /\ Deleted r = (of_byte d =? 1).
Proof.
  intros H. unfold Record_UnmarshalBinary in H. destruct (Z.ltb_spec (len b) 14) as [|Hlen]; [done|].
  destruct (slice 1 2 b) as [d| |] eqn:Hd; simpl in H; try done.
  destruct (slice 2 14 b) as [h| |] eqn:Hh; simpl in H; try done.
  destruct (HLC_DecodeBinary h) as [c| |] eqn:Hc; simpl in H; try done.
  destruct (get_string _ _ b 14) as [[co o1]| |] eqn:E1; simpl in H; try done.
  destruct (get_string _ _ b o1) as [[id o2]| |] eqn:E2; simpl in H; try done.
  destruct (get_string _ _ b o2) as [[ty o3]| |] eqn:E3; simpl in H; try done.
  destruct (get_string _ _ b o3) as [[ub o4]| |] eqn:E4; simpl in H; try done.
  destruct (Z.ltb_spec (len b) (o4 + 4)) as [|L1]; [done|].
  destruct (slice o4 _ b) as [t| |] eqn:Ht; simpl in H; try done.
  destruct (GetUint 4 t) as [vC| |] eqn:HvC; simpl in H; try done.
  destruct (Z.ltb_spec (len b) (o4 + 4 + vC * 4)) as [|L2]; [done|].
  destruct (get_floats _ b _) as [[ve o5]| |] eqn:E5; simpl in H; try done.
  destruct (Z.ltb_spec (len b) (o5 + 4)) as [|L3]; [done|].
  destruct (slice o5 _ b) as [u| |] eqn:Hu; simpl in H; try done.
  destruct (GetUint 4 u) as [pL| |] eqn:HpL; simpl in H; try done.
  destruct (Z.ltb_spec (len b) (o5 + 4 + pL)) as [|L4]; [done|].
  destruct (slice (o5 + 4) _ b) as [pl| |] eqn:E6; simpl in H; try done.
  injection H as <-.
  apply slice_inv in Hd as (_ & _ & Hdl & Hdd), Hh as (_ & _ & Hhl & Hhd).
  apply hlc_decode_inv in Hc as [Hc ->]; [|lia].
  apply get_string_inv in E1 as (R1 & ? & ? & D1); [|lia].
  apply get_string_inv in E2 as (R2 & ? & ? & D2); [|lia].
  apply get_string_inv in E3 as (R3 & ? & ? & D3); [|lia].
  apply get_string_inv in E4 as (R4 & ? & ? & D4); [|lia].
  destruct (uint_at_inv _ _ _ _ _ Ht HvC) as (R5 & ? & D5).
  apply get_floats_inv in E5 as (Hn & R6 & ? & D6); [|lia].
  destruct (uint_at_inv _ _ _ _ _ Hu HpL) as (R7 & ? & D7).
  apply slice_inv in E6 as (? & ? & Hpl & D8).
  change (Z.of_nat 4) with 4 in D5, D7.
  assert (len ve = vC) as Hve by (unfold len, in_u in *; lia).
  split.
  { unfold record_ok. cbn. rewrite Hve. replace (len pl) with pL by lia. tauto. }
  destruct b as [|v b]; [by unfold len in Hlen|].
  destruct d as [|d [|]]; [by unfold len in Hdl| |unfold len in Hdl; simpl in Hdl; lia].
  exists v, d, (drop (Z.to_nat (o5 + 4 + pL)) (v :: b)). split; [|done].
  change (drop (Z.to_nat 1) (v :: b)) with b in Hdd.
  assert (v :: b = [v; d] ++ drop (Z.to_nat 2) (v :: b)) as Hvb by (rewrite Hdd at 1; done).
  rewrite Hvb at 1. apply (f_equal (app [v; d])).
  change (body_layout _) with (hlc_bytes c ++ string_bytes co ++ string_bytes id
    ++ string_bytes ty ++ string_bytes ub ++ be_bytes 4 (len ve) ++ floats_bytes ve
    ++ be_bytes 4 (len pl) ++ pl).
  rewrite Hve. replace (len pl) with pL by lia.
  rewrite <-!app_assoc, <-D8, <-D7, <-D6, <-D5, <-D4, <-D3, <-D2, <-D1. exact Hhd.
Qed.

Lemma Unmarshal_no_panic b : no_panic (Record_UnmarshalBinary b).
Proof.
  unfold Record_UnmarshalBinary. destruct (Z.ltb_spec (len b) 14); [auto with nell|].
  apply no_panic_bind; [apply slice_no_panic; lia|]. intros d _.
  apply no_panic_bind; [apply slice_no_panic; lia|]. intros h Hh%slice_len.
  apply no_panic_bind; [apply HLC_DecodeBinary_no_panic; lia|]. intros c _.
  apply no_panic_bind; [apply get_string_no_panic; lia|].
  intros [co o1] (_ & ? & _)%get_string_inv; [|lia].
  apply no_panic_bind; [by apply get_string_no_panic|].
  intros [id o2] (_ & ? & _)%get_string_inv; [|lia].
  apply no_panic_bind; [by apply get_string_no_panic|].
  intros [ty o3] (_ & ? & _)%get_string_inv; [|lia].
  apply no_panic_bind; [by apply get_string_no_panic|].
  intros [ub o4] (_ & ? & _)%get_string_inv; [|lia].
  destruct (Z.ltb_spec (len b) (o4 + 4)); [auto with nell|].
  apply no_panic_bind; [apply slice_no_panic; lia|]. intros t Ht%slice_len.
  apply no_panic_bind; [apply GetUint_no_panic; lia|]. intros vC HvC%GetUint_range.
  unfold in_u in HvC. destruct (Z.ltb_spec (len b) (o4 + 4 + vC * 4)); [auto with nell|].
  apply no_panic_bind; [apply get_floats_no_panic; lia|].
  intros [ve o5] (_ & _ & ? & _)%get_floats_inv; [|lia].
  destruct (Z.ltb_spec (len b) (o5 + 4)); [auto with nell|].
  apply no_panic_bind; [apply slice_no_panic; lia|]. intros u Hu%slice_len.
  apply no_panic_bind; [apply GetUint_no_panic; lia|]. intros pL HpL%GetUint_range.
  unfold in_u in HpL. destruct (Z.ltb_spec (len b) (o5 + 4 + pL)); [auto with nell|].
  apply no_panic_bind; [apply slice_no_panic; lia|]. auto with nell.
Qed.
#[export] Hint Resolve Unmarshal_no_panic : nell.

(** No strict prefix of an encoding decodes. *)
Lemma Unmarshal_prefix r k :
  record_ok r -> (k < length (layout r))%nat ->
  exists e, Record_UnmarshalBinary (take k (layout r)) = Err e.
Proof.
  intros Hr Hk. destruct (Record_UnmarshalBinary _) as [r'|e|] eqn:Hu; [|by exists e|].
  - exfalso. apply Unmarshal_inv in Hu as (Hr' & v & d & rest & Hb & Hd).
    assert (Record_UnmarshalBinary (layout r ++ []) = Ok r) as H1 by by apply Unmarshal_layout.
    assert (layout r = [v; d] ++ body_layout r' ++ rest ++ drop k (layout r)) as Hl.
    { rewrite <-(take_drop k (layout r)) at 1. rewrite Hb. by rewrite <-!app_assoc. }
    assert (body_layout r = body_layout r' ++ rest ++ drop k (layout r) /\ d = to_byte (if Deleted r then 1 else 0)) as [Hbl Hdd].
    { unfold layout at 1 in Hl. apply app_inj_1 in Hl as [Hh Ht]; [|done].
      split; [done|]. congruence. }
    assert (Deleted r' = Deleted r) as Hdel.
    { rewrite Hd, Hdd, of_to_byte. by destruct (Deleted r). }
    assert (layout r' = [to_byte 1; d] ++ body_layout r') as Hl'.
    { unfold layout. by rewrite Hdel, Hdd. }
    assert (Record_UnmarshalBinary (layout r ++ []) = Ok r') as H2.
    { rewrite <-(Unmarshal_layout r' (rest ++ drop k (layout r))) by done. f_equal.
      rewrite app_nil_r, Hl', <-app_assoc, <-Hbl, Hdd. done. }
    rewrite H1 in H2. injection H2 as <-.
    apply (f_equal length) in Hbl. rewrite !length_app, length_drop in Hbl. lia.
  - by destruct (Unmarshal_no_panic _ Hu).
Qed.

(** ** Properties *)

(** C29. [MarshalBinary] never panics, and what it writes reads back as the record, with
    any bytes after it ignored, exactly when the record is within what the format can
    carry: 16-bit string lengths, 32-bit counts and field widths.  Outside it (a string
    of 65536 bytes, say) the length prefix is cut silently and the record is not read
    back. *)
Theorem Record_roundtrip (r : NellRecord) (x : bytes) :
  exists b, Record_MarshalBinary r = @Ok unit _ b /\
    (Record_UnmarshalBinary (b ++ x) = Ok r <-> record_ok r).
Proof.
  exists (layout r). split; [apply MarshalBinary_ok|]. split.
  - by intros [H _]%Unmarshal_inv.
  - intros H. by apply Unmarshal_layout.
Qed.

(** Decoding arbitrary bytes never panics, and a record it returns is what the bytes
    encode: re-encoding the record gives the bytes read, up to the version byte, the
    flag byte and what follows the record. *)
Theorem Record_Unmarshal_sound (b : bytes) :
  no_panic (Record_UnmarshalBinary b) /\
  forall r, Record_UnmarshalBinary b = Ok r ->
    exists e rest, Record_MarshalBinary r = @Ok unit _ e /\
      drop 2 b = drop 2 e ++ rest /\ Record_UnmarshalBinary e = Ok r.
Proof.
  split; [apply Unmarshal_no_panic|]. intros r H.
  destruct (Unmarshal_inv b r H) as (Hr & v & d & rest & -> & Hd).
  exists (layout r), rest. split_and!; [apply MarshalBinary_ok|done|].
  rewrite <-(app_nil_r (layout r)). by apply Unmarshal_layout.
Qed.
Lemma Record_Unmarshal_sound_witness :
  exists e rest, Record_MarshalBinary (mkRecord "c" "i" "t" [] [] HLC_zero "n" true) = @Ok unit _ e /\
    drop 2 (layout (mkRecord "c" "i" "t" [] [] HLC_zero "n" true)) = drop 2 e ++ rest /\
    Record_UnmarshalBinary e = Ok (mkRecord "c" "i" "t" [] [] HLC_zero "n" true).
Proof.
  apply (proj2 (Record_Unmarshal_sound (layout (mkRecord "c" "i" "t" [] [] HLC_zero "n" true)))).
  vm_compute. reflexivity.
Defined.

(** A truncated encoding is refused: every strict prefix of an encoded record is a
    decode error, never another record. *)
Theorem Record_truncated (r : NellRecord) (b : bytes) k :
  record_ok r -> Record_MarshalBinary r = @Ok unit _ b -> (k < length b)%nat ->
  exists e, Record_UnmarshalBinary (take k b) = Err e.
Proof.
  intros Hr Hm Hk. rewrite MarshalBinary_ok in Hm. injection Hm as <-. by apply Unmarshal_prefix.
Qed.
Lemma Record_truncated_witness :
  exists e, Record_UnmarshalBinary (take 20 (layout (mkRecord "c" "i" "t" [] [] HLC_zero "n" true))) = Err e.
Proof.
  apply (Record_truncated (mkRecord "c" "i" "t" [] [] HLC_zero "n" true)).
  - unfold record_ok, hlc_ok, in_s, in_u. split_and!; try done; constructor.
  - apply MarshalBinary_ok.
  - vm_compute. lia.
Defined.
