(* ===== verification/KnowledgeVector.v ===== *)
(** * Knowledge vectors (store.go)

    [KnowledgeVector], the map from node ids to the highest clock seen from each
    node: [Update], and the binary encoding [MarshalBinary]/[UnmarshalBinary].
    Go iterates a map in an unspecified order, and in a new one for each loop: the
    orders of the two loops of [MarshalBinary] are arguments. *)
From S2P Require Import Prelude BigEndian Hlc Record.
Local Open Scope Z_scope.

Abbreviation KnowledgeVector := (gmap string HLC).
Implicit Types kv : KnowledgeVector.

Definition KnowledgeVector_Update kv (nodeID : string) (clock : HLC) : KnowledgeVector :=
  match kv !! nodeID with
  | Some existing => if HLC_GreaterThan clock existing then <[nodeID := clock]> kv else kv
  | None => <[nodeID := clock]> kv
  end.

(** The loop that writes the entries. *)
Fixpoint put_entries {E} (off : Z) (l : list (string * HLC)) (b : bytes) : res E (Z * bytes) :=
  match l with
  | [] => Ok (off, b)
  | (nodeID, clock) :: l =>
      b ← on_slice off (off + 2) b (PutUint 2 (wrap_u 16 (strlen nodeID)));
      let off := off + 2 in
      b ← on_slice off (off + strlen nodeID) b (fun d => Ok (copy d (str_bytes nodeID)));
      let off := off + strlen nodeID in
      b ← on_slice off (off + HLCSize) b (HLC_EncodeBinary clock);
      put_entries (off + HLCSize) l b
  end.

Definition KnowledgeVector_MarshalBinary {E} (order1 order2 : list (string * HLC)) : res E bytes :=
  let size := foldl (fun size '(nodeID, _) => size + (2 + strlen nodeID + HLCSize)) 2 order1 in
  let b := make_bytes size in
  b ← on_slice 0 2 b (PutUint 2 (wrap_u 16 (len order1)));
  '(_, b) ← put_entries 2 order2 b;
  Ok b.

Inductive kv_err := ErrKvTooShort | ErrKvEntry (i : nat) | ErrKvEntryData (i : nat).

(** [n] more entries from entry [i] on. *)
Fixpoint get_entries (n i : nat) (b : bytes) (off : Z) kv : res kv_err KnowledgeVector :=
  match n with
  | O => Ok kv
  | S n =>
      if len b <? off + 2 then Err (ErrKvEntry i) else
      t ← slice off (off + 2) b;
      idLen ← GetUint 2 t;
      let off := off + 2 in
      if len b <? off + idLen + HLCSize then Err (ErrKvEntryData i) else
      nodeID ← slice off (off + idLen) b;
      let off := off + idLen in
      c ← slice off (off + HLCSize) b;
      clock ← HLC_DecodeBinary c;
      get_entries n (S i) b (off + HLCSize) (<[bytes_str nodeID := clock]> kv)
  end.

Definition KnowledgeVector_UnmarshalBinary kv (b : bytes) : res kv_err KnowledgeVector :=
  if len b <? 2 then Err ErrKvTooShort else
  t ← slice 0 2 b;
  count ← GetUint 2 t;
  get_entries (Z.to_nat count) 0 b 2 kv.

(** ** Update is a join *)

(** The entry of a node, with "never seen" below every clock. *)
Definition kv_covers kv (nodeID : string) (clock : HLC) : Prop :=
  exists c, kv !! nodeID = Some c /\ hlc_le clock c.
Definition kv_le kv kv' : Prop := forall n c, kv !! n = Some c -> kv_covers kv' n c.

Lemma kv_Update_same kv n c :
  KnowledgeVector_Update kv n c !! n =
  Some (match kv !! n with Some e => hlc_max e c | None => c end).
Proof.
  unfold KnowledgeVector_Update, hlc_max. destruct (kv !! n) as [e|] eqn:He.
  - case_match; [apply lookup_insert_eq|done].
  - apply lookup_insert_eq.
Qed.
Lemma kv_Update_ne kv n c m :
  n <> m -> KnowledgeVector_Update kv n c !! m = kv !! m.
Proof. intros. unfold KnowledgeVector_Update. repeat case_match; by simplify_map_eq. Qed.

Lemma kv_Update_covers kv n c : kv_covers (KnowledgeVector_Update kv n c) n c.
Proof.
  unfold kv_covers. rewrite kv_Update_same. eexists; split; [done|].
  case_match; [apply hlc_max_r|reflexivity].
Qed.
Lemma kv_Update_mono kv n c m d :
  kv_covers kv m d -> kv_covers (KnowledgeVector_Update kv n c) m d.
Proof.
  intros (e & He & Hd). destruct (decide (n = m)) as [->|Hne].
  - exists (hlc_max e c). rewrite kv_Update_same, He. split; [done|].
    by apply hlc_max_le_ll.
  - exists e. by rewrite kv_Update_ne.
Qed.
Lemma kv_Update_comm kv n c m d :
  KnowledgeVector_Update (KnowledgeVector_Update kv n c) m d =
  KnowledgeVector_Update (KnowledgeVector_Update kv m d) n c.
Proof.
  apply map_eq. intros i.
  destruct (decide (n = m)) as [->|Hne].
  - destruct (decide (m = i)) as [->|Hi]; [|by rewrite !kv_Update_ne by done].
    rewrite !kv_Update_same. f_equal.
    destruct (kv !! i); [|apply hlc_max_comm].
    by rewrite <-!hlc_max_assoc, (hlc_max_comm c d).
  - destruct (decide (i = n)) as [->|Hn]; [|destruct (decide (i = m)) as [->|Hm]].
    + by rewrite kv_Update_same, !(kv_Update_ne _ m), kv_Update_same by done.
    + by rewrite kv_Update_same, !(kv_Update_ne _ n), kv_Update_same by done.
    + by rewrite !kv_Update_ne by done.
Qed.
#[export] Hint Resolve kv_Update_covers kv_Update_mono : nell.

Lemma kv_covers_le kv n c d : kv_covers kv n c -> hlc_le d c -> kv_covers kv n d.
Proof. intros (e & He & Hc) Hd. exists e. split; [done|]. by transitivity c. Qed.

(** ** Round trip *)

Definition entry_bytes (e : string * HLC) : bytes := string_bytes (fst e) ++ hlc_bytes (snd e).
Fixpoint entries_bytes (l : list (string * HLC)) : bytes :=
  match l with
  | [] => []
  | e :: l => entry_bytes e ++ entries_bytes l
  end.
Definition kv_layout (l : list (string * HLC)) : bytes := be_bytes 2 (len l) ++ entries_bytes l.
Definition entry_ok (e : string * HLC) : Prop := in_u 16 (strlen (fst e)) /\ hlc_ok (snd e).

Lemma length_entry_bytes e : length (entry_bytes e) = (2 + String.length (fst e) + 12)%nat.
Proof.
  unfold entry_bytes. rewrite length_app, length_string_bytes, length_hlc_bytes. lia.
Qed.

Lemma put_entries_ok {E} l : forall p x off,
  off = len p -> length x = length (entries_bytes l) ->
  put_entries off l (p ++ x) = @Ok E _ (off + len (entries_bytes l), p ++ entries_bytes l).
Proof.
  induction l as [|[n c] l IH]; intros p x off -> Hx; cbn [put_entries entries_bytes].
  - destruct x; [|done]. do 2 f_equal. unfold len; simpl; lia.
  - cbn [entries_bytes] in Hx. rewrite length_app, length_entry_bytes in Hx. cbn [fst] in Hx.
    replace (2 + String.length n + 12 + length (entries_bytes l))%nat
      with (2 + (String.length n + (12 + length (entries_bytes l))))%nat in Hx by lia.
    destruct (split_at x _ _ Hx) as (x1 & x' & -> & H1 & Hx'). clear Hx.
    destruct (split_at x' _ _ Hx') as (x2 & x'' & -> & H2 & Hx''). clear Hx'.
    destruct (split_at x'' _ _ Hx'') as (x3 & x4 & -> & H3 & H4). clear Hx''.
    unfold HLCSize.
    step with (on_slice_mid _ _ p x1 _ _ (be_bytes 2 (wrap_u 16 (strlen n))));
      [|done|len_lia|by apply PutUint_exact|by rewrite length_be_bytes].
    rewrite be_bytes_mod, app_assoc by lia.
    step with (on_slice_mid _ _ _ x2 _ _ (str_bytes n));
      [|len_lia|len_lia|by rewrite copy_exact by (by rewrite length_str_bytes)
      |by rewrite length_str_bytes].
    rewrite app_assoc.
    step with (on_slice_mid _ _ _ x3 _ _ (hlc_bytes c));
      [|len_lia; rewrite length_str_bytes; lia|len_lia; rewrite length_str_bytes; lia
      |by apply HLC_EncodeBinary_ok|by rewrite H3].
    rewrite app_assoc, IH; [|autorewrite with nell_len; lia|done].
    unfold entry_bytes, string_bytes. cbn [fst snd]. rewrite <-!app_assoc.
    do 2 f_equal. autorewrite with nell_len. lia.
Qed.

Lemma marshal_size l s :
  foldl (fun size '(n, _) => size + (2 + strlen n + HLCSize)) s l = s + len (entries_bytes l).
Proof.
  revert s. induction l as [|[n c] l IH]; intros s; cbn [foldl entries_bytes].
  - unfold len. simpl. lia.
  - rewrite IH. unfold HLCSize, entry_bytes. cbn [fst snd].
    autorewrite with nell_len. lia.
Qed.
Lemma entries_bytes_perm l l' : l ≡ₚ l' -> length (entries_bytes l) = length (entries_bytes l').
Proof.
  induction 1; cbn [entries_bytes]; rewrite ?length_app; lia.
Qed.

Lemma kv_Marshal_ok {E} l1 l2 :
  l1 ≡ₚ l2 -> KnowledgeVector_MarshalBinary l1 l2 = @Ok E _ (kv_layout l2).
Proof.
  intros Hp. unfold KnowledgeVector_MarshalBinary, make_bytes. rewrite marshal_size.
  assert (Z.to_nat (2 + len (entries_bytes l1)) = (2 + length (entries_bytes l2))%nat) as ->.
  { rewrite <-(entries_bytes_perm _ _ Hp). unfold len. lia. }
  rewrite replicate_add.
  step with (on_slice_pre 2 (replicate 2 Ascii.zero) _ _ (be_bytes 2 (wrap_u 16 (len l1))));
    [|done|by apply PutUint_exact|by rewrite length_be_bytes].
  rewrite be_bytes_mod by lia.
  step with put_entries_ok; [|done|by rewrite length_replicate].
  unfold kv_layout, len. by rewrite (Permutation_length Hp).
Qed.

Lemma get_entries_ok l : forall i p q off kv,
  off = len p -> Forall entry_ok l ->
  get_entries (length l) i (p ++ entries_bytes l ++ q) off kv =
  Ok (foldl (fun kv e => <[fst e := snd e]> kv) kv l).
Proof.
  induction l as [|[n c] l IH]; intros i p q off kv -> Hl; cbn [get_entries entries_bytes length foldl];
    [done|].
  inversion_clear Hl as [|?? [Hn Hc] Hl']. cbn [fst snd] in Hn, Hc.
  unfold entry_bytes, string_bytes, HLCSize. cbn [fst snd]. rewrite <-!app_assoc.
  room. step with slice_mid; [|done|by rewrite len_be_bytes]. step with @GetUint_exact.
  rewrite wrap_u_id by done.
  rewrite (proj2 (Z.ltb_ge _ _)) by (rewrite !len_app, len_be_bytes, len_str_bytes, len_hlc_bytes; unfold len; lia).
  rewrite app_assoc. step with (slice_mid (len p + 2)); [|len_lia|rewrite !len_app, len_be_bytes, len_str_bytes; lia].
  rewrite app_assoc. step with slice_mid;
    [|rewrite !len_app, len_str_bytes, len_be_bytes; lia
     |rewrite !len_app, len_str_bytes, len_be_bytes, len_hlc_bytes; lia].
  step with @HLC_DecodeBinary_ok; [|done].
  rewrite app_assoc, IH; [by rewrite bytes_str_bytes| |done].
  rewrite !len_app, len_str_bytes, len_be_bytes, len_hlc_bytes. lia.
Qed.

Lemma kv_Unmarshal_layout kv l q :
  in_u 16 (len l) -> Forall entry_ok l ->
  KnowledgeVector_UnmarshalBinary kv (kv_layout l ++ q) =
  Ok (foldl (fun kv e => <[fst e := snd e]> kv) kv l).
Proof.
  intros Hl He. unfold KnowledgeVector_UnmarshalBinary, kv_layout. rewrite <-app_assoc.
  room. step with slice_pre; [|by rewrite len_be_bytes]. step with @GetUint_exact.
  rewrite wrap_u_id by done.
  replace (Z.to_nat (len l)) with (length l) by (unfold len; lia).
  by apply get_entries_ok.
Qed.

(** Inserting the entries of a map, in any order, adds the map. *)
Lemma foldl_insert_union l kv0 :
  NoDup l.*1 -> foldl (fun kv e => <[fst e := snd e]> kv) kv0 l = list_to_map l ∪ kv0.
Proof.
  revert kv0. induction l as [|[n c] l IH]; intros kv0 Hnd; cbn [foldl fmap list_fmap] in *.
  - by rewrite list_to_map_nil, (left_id_L ∅ (∪)).
  - inversion_clear Hnd as [|?? Hn Hnd']. rewrite IH, list_to_map_cons by done.
    cbn [fst snd]. rewrite <-insert_union_l, insert_union_r; [done|].
    by apply not_elem_of_list_to_map_1.
Qed.

Lemma kv_roundtrip_aux {E} kv kv0 l1 l2 q :
  l1 ≡ₚ map_to_list kv -> l2 ≡ₚ map_to_list kv ->
  in_u 16 (Z.of_nat (size kv)) -> map_Forall (fun n c => entry_ok (n, c)) kv ->
  exists b, KnowledgeVector_MarshalBinary l1 l2 = @Ok E _ b /\
  KnowledgeVector_UnmarshalBinary kv0 (b ++ q) = Ok (kv ∪ kv0).
Proof.
  intros H1 H2 Hs Ho. exists (kv_layout l2).
  split; [apply kv_Marshal_ok; by rewrite H1|].
  rewrite kv_Unmarshal_layout.
  - rewrite foldl_insert_union; [|rewrite H2; apply NoDup_fst_map_to_list].
    do 2 f_equal. rewrite <-(list_to_map_to_list kv).
    apply list_to_map_proper; [|done]. rewrite H2. apply NoDup_fst_map_to_list.
  - unfold len. by rewrite H2, length_map_to_list.
  - rewrite H2. apply map_Forall_to_list in Ho. apply (Forall_impl _ _ _ Ho). by intros [].
Qed.

Lemma get_entries_no_panic n : forall i b off kv,
  0 <= off -> no_panic (get_entries n i b off kv).
Proof.
  induction n as [|n IH]; intros i b off kv Ho; cbn [get_entries]; [auto with nell|].
  destruct (Z.ltb_spec (len b) (off + 2)); [auto with nell|].
  apply no_panic_bind; [apply slice_no_panic; lia|]. intros t Ht%slice_len.
  apply no_panic_bind; [apply GetUint_no_panic; lia|]. intros l Hl%GetUint_range.
  unfold HLCSize, in_u in *. destruct (Z.ltb_spec (len b) (off + 2 + l + 12)); [auto with nell|].
  apply no_panic_bind; [apply slice_no_panic; lia|]. intros id _.
  apply no_panic_bind; [apply slice_no_panic; lia|]. intros c Hc%slice_len.
  apply no_panic_bind; [apply HLC_DecodeBinary_no_panic; lia|]. intros clk _.
  apply IH. lia.
Qed.
Lemma kv_Unmarshal_no_panic kv b : no_panic (KnowledgeVector_UnmarshalBinary kv b).
Proof.
  unfold KnowledgeVector_UnmarshalBinary. destruct (Z.ltb_spec (len b) 2); [auto with nell|].
  apply no_panic_bind; [apply slice_no_panic; lia|]. intros t Ht%slice_len.
  apply no_panic_bind; [apply GetUint_no_panic; lia|]. intros c _.
  apply get_entries_no_panic. lia.
Qed.
#[export] Hint Resolve kv_Unmarshal_no_panic : nell.

(** ** Properties *)

(** [Update] keeps the later clock per node: the entry becomes the maximum, other
    entries stay, and updates commute and repeat without effect, so a vector is
    determined by the set of stamps it has seen. *)
Theorem KnowledgeVector_Update_join kv n c m d :
  KnowledgeVector_Update kv n c !! n = Some (match kv !! n with Some e => hlc_max e c | None => c end) /\
  (n <> m -> KnowledgeVector_Update kv n c !! m = kv !! m) /\
  KnowledgeVector_Update (KnowledgeVector_Update kv n c) m d =
    KnowledgeVector_Update (KnowledgeVector_Update kv m d) n c /\
  KnowledgeVector_Update (KnowledgeVector_Update kv n c) n c = KnowledgeVector_Update kv n c.
Proof.
  split_and!; [apply kv_Update_same|apply kv_Update_ne|apply kv_Update_comm|].
  apply map_eq. intros i. destruct (decide (n = i)) as [<-|]; [|by rewrite !kv_Update_ne].
  rewrite kv_Update_same, kv_Update_same. f_equal.
  destruct (kv !! n); [|apply hlc_max_id]. by rewrite <-hlc_max_assoc, hlc_max_id.
Qed.

(** The encoding of a vector decodes to it, whichever orders the two passes of
    [MarshalBinary] iterate the map in, and whatever bytes follow; decoding into a
    vector that already has entries overwrites those the encoding has. *)
Theorem KnowledgeVector_roundtrip kv kv0 l1 l2 q :
  l1 ≡ₚ map_to_list kv -> l2 ≡ₚ map_to_list kv ->
  in_u 16 (Z.of_nat (size kv)) -> map_Forall (fun n c => in_u 16 (strlen n) /\ hlc_ok c) kv ->
  exists b, KnowledgeVector_MarshalBinary l1 l2 = @Ok unit _ b /\
    KnowledgeVector_UnmarshalBinary kv0 (b ++ q) = Ok (kv ∪ kv0).
Proof. intros. by apply kv_roundtrip_aux. Qed.
Lemma KnowledgeVector_roundtrip_witness :
  exists b, KnowledgeVector_MarshalBinary [("b", mkHLC 2 0); ("a", mkHLC 1 0)] [("a", mkHLC 1 0); ("b", mkHLC 2 0)]
      = @Ok unit _ b /\
    KnowledgeVector_UnmarshalBinary ∅ (b ++ []) =
      Ok ((<["a" := mkHLC 1 0]> (<["b" := mkHLC 2 0]> ∅) : gmap string HLC) ∪ ∅).
Proof.
  set (kv := <["a" := mkHLC 1 0]> (<["b" := mkHLC 2 0]> ∅) : gmap string HLC).
  apply (KnowledgeVector_roundtrip kv).
  - apply NoDup_Permutation; [by apply (bool_decide_unpack _)|apply NoDup_map_to_list|].
    intros [n c]. rewrite elem_of_map_to_list. unfold kv.
    rewrite !lookup_insert_Some, lookup_empty, !elem_of_cons, elem_of_nil. naive_solver.
  - apply NoDup_Permutation; [by apply (bool_decide_unpack _)|apply NoDup_map_to_list|].
    intros [n c]. rewrite elem_of_map_to_list. unfold kv.
    rewrite !lookup_insert_Some, lookup_empty, !elem_of_cons, elem_of_nil. naive_solver.
  - by vm_compute.
  - unfold kv. repeat apply map_Forall_insert_2; try apply map_Forall_empty;
      unfold hlc_ok, in_s, in_u; simpl; unfold strlen; simpl; lia.
Defined.

(** Decoding a vector from arbitrary bytes never panics. *)
Theorem KnowledgeVector_Unmarshal_safe kv b : no_panic (KnowledgeVector_UnmarshalBinary kv b).
Proof. apply kv_Unmarshal_no_panic. Qed.
