(* ===== verification/Conflict.v ===== *)
(** * Last-write-wins conflict resolution (store.go)

    [ResolveConflict] and what every store does with it: a map from composite keys
    to records into which records are merged one at a time.  The merge is a join:
    where a writer's stamp (clock, node id) identifies the record, the set of the
    records delivered decides the state, whatever the order and the repetitions. *)
From S2P Require Import Prelude Hlc Record.
Local Open Scope Z_scope.

(** Which of its two arguments [ResolveConflict] returns a pointer to. *)
Inductive winner := WLocal | WIncoming.
#[export] Instance winner_eq_dec : EqDecision winner.
Proof. solve_decision. Defined.

Definition ResolveConflict (local incoming : NellRecord) : winner :=
  if HLC_GreaterThan (Clock incoming) (Clock local) then WIncoming
  else if HLC_GreaterThan (Clock local) (Clock incoming) then WLocal
  else if str_ltb (UpdatedBy local) (UpdatedBy incoming) then WIncoming
  else WLocal.
Definition deref (w : winner) (local incoming : NellRecord) : NellRecord :=
  match w with WLocal => local | WIncoming => incoming end.

(** The composite key [collection + ":" + id]. *)
Definition record_key (collection id : string) : string := collection +:+ ":" +:+ id.
Definition rkey (r : NellRecord) : string := record_key (Collection r) (ID r).

(** ** The stamp order *)

Definition stamp (r : NellRecord) : HLC * string := (Clock r, UpdatedBy r).
(** [a] beats [b]: a later clock, or the same clock and a greater node id. *)
Definition beats (a b : NellRecord) : Prop :=
  hlc_gt (Clock a) (Clock b) \/ (Clock a = Clock b /\ str_ltb (UpdatedBy b) (UpdatedBy a) = true).

Definition lww (local incoming : NellRecord) : NellRecord :=
  deref (ResolveConflict local incoming) local incoming.

Lemma ResolveConflict_spec l i : ResolveConflict l i = WIncoming <-> beats i l.
Proof.
  unfold ResolveConflict, beats, hlc_gt.
  destruct (HLC_GreaterThan (Clock i) (Clock l)) eqn:H1; [by split; auto|].
  destruct (HLC_GreaterThan (Clock l) (Clock i)) eqn:H2.
  - split; [done|]. intros [|[He _]]; [done|]. rewrite He in H2.
    by apply hlc_gt_irrefl in H2.
  - assert (Clock i = Clock l) as He.
    { destruct (hlc_trichotomy (Clock i) (Clock l)) as [H|[H|H]]; unfold hlc_gt in *; congruence. }
    destruct (str_ltb _ _) eqn:H3; split; try done; [by auto|]. intros [|[_ ?]]; congruence.
Qed.
Lemma ResolveConflict_local l i : ResolveConflict l i = WLocal <-> ~ beats i l.
Proof.
  rewrite <-ResolveConflict_spec. destruct (ResolveConflict l i); split; done.
Qed.
#[export] Instance beats_dec a b : Decision (beats a b).
Proof.
  destruct (ResolveConflict b a) eqn:H.
  - right. by apply ResolveConflict_local.
  - left. by apply ResolveConflict_spec.
Defined.

Lemma beats_irrefl a : ~ beats a a.
Proof.
  intros [H|[_ H]]; [by apply hlc_gt_irrefl in H|]. by rewrite str_ltb_irrefl in H.
Qed.
Lemma beats_trans a b c : beats a b -> beats b c -> beats a c.
Proof.
  intros [H1|[E1 H1]] [H2|[E2 H2]]; unfold beats.
  - left. by eapply hlc_gt_trans.
  - left. by rewrite <-E2.
  - left. by rewrite E1.
  - right. split; [congruence|]. by eapply str_ltb_trans.
Qed.
Lemma beats_asym a b : beats a b -> ~ beats b a.
Proof. intros H1 H2. by apply (beats_irrefl a), (beats_trans a b a). Qed.
Lemma beats_trichotomy a b : beats a b \/ stamp a = stamp b \/ beats b a.
Proof.
  unfold beats, stamp.
  destruct (hlc_trichotomy (Clock a) (Clock b)) as [H|[H|H]]; [by auto| |by auto].
  rewrite H. destruct (str_ltb_trichotomy (UpdatedBy a) (UpdatedBy b)) as [[Hs|Hs]|Hs]; auto.
  rewrite Hs. auto.
Qed.
Lemma beats_stamp_l a a' b : stamp a = stamp a' -> beats a b -> beats a' b.
Proof. unfold stamp, beats. by intros [= -> ->]. Qed.
Lemma not_beats_trans a b c : ~ beats b a -> ~ beats c b -> ~ beats c a.
Proof.
  intros H1 H2 H3. apply H2. destruct (beats_trichotomy a b) as [H|[H|H]]; [|..|done].
  - by eapply beats_trans.
  - destruct H3 as [H3|[E3 H3]]; unfold beats, stamp in *; injection H as Hc Hu;
      rewrite <-Hc, <-Hu; auto.
Qed.
Lemma beats_clock_le a b : ~ beats a b -> hlc_le (Clock a) (Clock b).
Proof. intros H. apply hlc_not_gt. intros Hg. apply H. by left. Qed.

Lemma lww_cases l i : (lww l i = l /\ ~ beats i l) \/ (lww l i = i /\ beats i l).
Proof.
  unfold lww. destruct (ResolveConflict l i) eqn:H.
  - left. split; [done|]. by apply ResolveConflict_local.
  - right. split; [done|]. by apply ResolveConflict_spec.
Qed.
Lemma lww_beats l i : beats i l -> lww l i = i.
Proof. intros H. by destruct (lww_cases l i) as [[_ ?]|[? _]]. Qed.
Lemma lww_not_beats l i : ~ beats i l -> lww l i = l.
Proof. intros H. by destruct (lww_cases l i) as [[? _]|[_ ?]]. Qed.
Lemma lww_idemp r : lww r r = r.
Proof. apply lww_not_beats, beats_irrefl. Qed.
Lemma lww_key l i : rkey l = rkey i -> rkey (lww l i) = rkey i.
Proof. destruct (lww_cases l i) as [[-> _]|[-> _]]; auto. Qed.
Lemma lww_clock_ge_l l i : hlc_le (Clock l) (Clock (lww l i)).
Proof.
  destruct (lww_cases l i) as [[-> _]|[-> H]]; [done|].
  destruct H as [H|[-> _]]; [by apply hlc_gt_le|done].
Qed.
Lemma lww_clock_ge_r l i : hlc_le (Clock i) (Clock (lww l i)).
Proof. destruct (lww_cases l i) as [[-> H]|[-> _]]; [by apply beats_clock_le|done]. Qed.

(** ** Merging records into a map *)

Abbreviation records := (gmap string NellRecord).
Implicit Types (m : gmap string NellRecord) (rs : list NellRecord).

(** What [Put] does to the map of records. *)
Definition put_record m (r : NellRecord) : gmap string NellRecord :=
  match m !! rkey r with
  | None => <[rkey r := r]> m
  | Some l => <[rkey r := lww l r]> m
  end.
Definition merge m (rs : list NellRecord) : gmap string NellRecord := foldl put_record m rs.

(** Every record is stored under its own key. *)
Definition keyed m : Prop := map_Forall (fun k r => rkey r = k) m.

(** [r] competes for key [k] after [rs] is merged into [m]. *)
Definition candidate m rs (k : string) (r : NellRecord) : Prop :=
  m !! k = Some r \/ (r ∈ rs /\ rkey r = k).
(** A stamp identifies a record among those competing for one key. *)
Definition stamps_unique m rs : Prop :=
  forall k a b, candidate m rs k a -> candidate m rs k b -> stamp a = stamp b -> a = b.

Lemma put_record_lookup m r k :
  put_record m r !! k =
  if decide (rkey r = k) then Some (match m !! k with Some l => lww l r | None => r end)
  else m !! k.
Proof.
  unfold put_record. case_decide as Hk; [subst|]; case_match; by simplify_map_eq.
Qed.
Lemma put_record_keyed m r : keyed m -> keyed (put_record m r).
Proof.
  intros Hm k x. rewrite put_record_lookup. case_decide as Hk; [|apply Hm].
  intros [= <-]. destruct (m !! k) as [l|] eqn:Hl; [|done]. subst k.
  apply lww_key. by apply Hm.
Qed.
Lemma merge_keyed rs m : keyed m -> keyed (merge m rs).
Proof. revert m. induction rs; intros m Hm; simpl; auto using put_record_keyed. Qed.
Lemma merge_app m rs rs' : merge m (rs ++ rs') = merge (merge m rs) rs'.
Proof. apply foldl_app. Qed.

(** The merged map holds, for each key, a candidate no other candidate beats. *)
Lemma merge_spec rs m k :
  match merge m rs !! k with
  | Some w => candidate m rs k w /\ forall r, candidate m rs k r -> ~ beats r w
  | None => forall r, ~ candidate m rs k r
  end.
Proof.
  induction rs as [|x rs IH] using rev_ind.
  - unfold merge. simpl. destruct (m !! k) as [w|] eqn:Hk; unfold candidate.
    + split; [by auto|]. intros r [H|[H _]]; [|by apply not_elem_of_nil in H].
      rewrite Hk in H. injection H as ->. apply beats_irrefl.
    + intros r [H|[H _]]; [congruence|]. by apply not_elem_of_nil in H.
  - rewrite merge_app. unfold merge at 1. simpl. rewrite put_record_lookup.
    assert (forall r, candidate m (rs ++ [x]) k r <-> candidate m rs k r \/ (r = x /\ rkey x = k)) as Hc.
    { intros r. unfold candidate. rewrite elem_of_app, list_elem_of_singleton.
      split; [intros [|[[|] ]]|intros [[|[]]|[-> ]]]; subst; auto. }
    case_decide as Hk.
    + destruct (merge m rs !! k) as [l|].
      * destruct IH as [Hl Hmax].
        destruct (lww_cases l x) as [[-> Hb]|[-> Hb]]; rewrite Hc; (split; [by auto|]);
          intros r [Hr|[-> _]]%Hc; auto using beats_irrefl.
        intros Hrx. apply (Hmax r Hr). by eapply beats_trans.
      * rewrite Hc. split; [by auto|]. intros r [Hr|[-> _]]%Hc; [by apply IH in Hr|].
        apply beats_irrefl.
    + destruct (merge m rs !! k) as [l|].
      * destruct IH as [Hl Hmax]. rewrite Hc. split; [by auto|].
        intros r [Hr|[_ ?]]%Hc; [by auto|done].
      * intros r [Hr|[_ ?]]%Hc; [by apply (IH r)|done].
Qed.

(** Strong convergence: the same candidates give the same map. *)
Lemma merge_converge m1 rs1 m2 rs2 :
  (forall k r, candidate m1 rs1 k r <-> candidate m2 rs2 k r) ->
  stamps_unique m1 rs1 -> merge m1 rs1 = merge m2 rs2.
Proof.
  intros Hc Hu. apply map_eq. intros k.
  pose proof (merge_spec rs1 m1 k) as H1. pose proof (merge_spec rs2 m2 k) as H2.
  destruct (merge m1 rs1 !! k) as [a|] eqn:Ha, (merge m2 rs2 !! k) as [b|]; try done.
  - destruct H1 as [Ca Ma], H2 as [Cb Mb]. f_equal.
    destruct (beats_trichotomy a b) as [H|[H|H]].
    + exfalso. by apply (Mb a); [apply Hc|].
    + by apply (Hu k); [|apply Hc|].
    + exfalso. by apply (Ma b); [apply Hc|].
  - exfalso. by apply (H2 a), Hc, H1.
  - exfalso. by apply (H1 b), Hc, H2.
Qed.

Lemma merge_same_set m rs rs' :
  (forall r, r ∈ rs <-> r ∈ rs') -> stamps_unique m rs -> merge m rs = merge m rs'.
Proof.
  intros Hr. apply merge_converge. intros k r. unfold candidate. by rewrite Hr.
Qed.
Lemma merge_perm m rs rs' : rs ≡ₚ rs' -> stamps_unique m rs -> merge m rs = merge m rs'.
Proof. intros Hp. apply merge_same_set. intros r. by rewrite Hp. Qed.

(** Merging never lowers a key's clock. *)
Lemma merge_clock_mono m rs k r :
  merge m rs !! k = Some r -> forall r', candidate m rs k r' -> hlc_le (Clock r') (Clock r).
Proof.
  intros Hr r' Hc. pose proof (merge_spec rs m k) as H. rewrite Hr in H.
  by apply beats_clock_le, H.
Qed.
Lemma merge_nil m : merge m [] = m.
Proof. done. Qed.
Lemma merge_cons m r rs : merge m (r :: rs) = merge (put_record m r) rs.
Proof. done. Qed.
