(* ===== verification/GoSort.v ===== *)
(** * Sorting, searching and chunking

    What the stores and handlers use of Go's [sort] package ([sort.Slice],
    [sort.Search]) and the way [LogStore.replay], [SearchSimilar] and
    [DocDB.AllDocs] split a slice among worker goroutines. *)
From S2P Require Import Prelude.

(** ** sort.Slice *)
Section sort_slice.
Context {A : Type} (less : A -> A -> bool).

(** Nothing in the slice is less than anything before it. *)
Definition not_less (a b : A) : Prop := less b a = false.
#[export] Instance not_less_dec : RelDecision not_less.
Proof. intros a b. unfold not_less. apply _. Defined.

(** What [sort.Slice] guarantees.  It is not stable: elements neither of which is
    less than the other may come out in either order. *)
Definition sorts (l l' : list A) : Prop := l' ≡ₚ l /\ StronglySorted not_less l'.

(** One such sort. *)
Definition sort_Slice (l : list A) : list A := merge_sort not_less l.

(** [less] is a strict weak order, given on the negations. *)
Class LessOrder : Prop := {
  less_total : forall a b, less a b = false \/ less b a = false;
  less_neg_trans : forall a b c, less b a = false -> less c b = false -> less c a = false
}.

Lemma sort_Slice_sorts `{!LessOrder} l : sorts l (sort_Slice l).
Proof.
  split; [apply merge_sort_Permutation|].
  apply StronglySorted_merge_sort.
  - intros a b c. unfold not_less. apply less_neg_trans.
  - intros a b. unfold not_less. destruct (less_total a b); auto.
Qed.

(** Where distinct elements of the slice are ordered, the result is unique. *)
Lemma sorts_unique l l1 l2 :
  (forall a b, a ∈ l -> b ∈ l -> less a b = false -> less b a = false -> a = b) ->
  sorts l l1 -> sorts l l2 -> l1 = l2.
Proof.
  intros Ha [P1 S1] [P2 S2]. eapply StronglySorted_unique_strong; [|done|done|by rewrite P2].
  intros x y Hx Hy. unfold not_less. rewrite P1 in Hx. rewrite P2 in Hy. auto.
Qed.

(** Positions in a sorted slice are in order. *)
Lemma sorted_lookup l i j a b :
  StronglySorted not_less l -> i < j -> l !! i = Some a -> l !! j = Some b -> less b a = false.
Proof.
  intros Hs. revert i j. induction Hs as [|x l Hs IH Hx]; intros [|i] [|j] Hij Ha Hb; simpl in *; try (done || lia).
  - injection Ha as ->. by apply (Forall_lookup_1 _ _ _ _ Hx Hb).
  - eapply IH; [|done..]. lia.
Qed.
End sort_slice.

(** ** sort.Search *)

(** The loop [for i < j]: [h] is the midpoint, [i] and [j] close in on the answer. *)
Fixpoint search_loop (fuel i j : nat) (f : nat -> bool) : nat :=
  match fuel with
  | O => i
  | S fuel =>
      if i <? j then
        let h := Nat.div2 (i + j) in
        if negb (f h) then search_loop fuel (S h) j f else search_loop fuel i h f
      else i
  end.
(** The interval shrinks at each turn, so [n] turns are enough. *)
Definition sort_Search (n : nat) (f : nat -> bool) : nat := search_loop n 0 n f.

Lemma search_loop_spec n f :
  (forall a b, a <= b -> b < n -> f a = true -> f b = true) ->
  forall fuel i j, i <= j <= n -> j - i <= fuel ->
  (forall a, a < i -> f a = false) -> (forall a, j <= a < n -> f a = true) ->
  let k := search_loop fuel i j f in
  i <= k <= j /\ (forall a, a < k -> f a = false) /\ (forall a, k <= a < n -> f a = true).
Proof.
  intros Hm. induction fuel as [|fuel IH]; intros i j Hij Hf Hlo Hhi; cbn [search_loop].
  - replace j with i in * by lia. split_and!; auto with lia.
  - destruct (Nat.ltb_spec i j) as [Hlt|Hge].
    + set (h := Nat.div2 (i + j)).
      assert (i <= h < j) as Hh.
      { unfold h. rewrite Nat.div2_div. split;
          [apply Nat.div_le_lower_bound|apply Nat.Div0.div_lt_upper_bound]; lia. }
      destruct (f h) eqn:Hfh; simpl.
      * destruct (IH i h) as (? & ? & ?); [lia|lia|done| |split_and!; auto with lia].
        intros a Ha. destruct (decide (j <= a)); [apply Hhi; lia|]. apply (Hm h); auto with lia.
      * destruct (IH (S h) j) as (? & ? & ?); [lia|lia| |done|split_and!; auto with lia].
        intros a Ha. destruct (f a) eqn:Hfa; [|done].
        rewrite (Hm a h) in Hfh; auto with lia.
    + replace j with i in * by lia. split_and!; auto with lia.
Qed.
Lemma sort_Search_spec n f :
  (forall a b, a <= b -> b < n -> f a = true -> f b = true) ->
  sort_Search n f <= n /\ (forall a, a < sort_Search n f -> f a = false) /\
  (forall a, sort_Search n f <= a < n -> f a = true).
Proof.
  intros Hm. destruct (search_loop_spec n f Hm n 0 n) as ((_ & ?) & ? & ?);
    [lia..|by intros; lia|by intros; lia|]. by split_and!.
Qed.

Lemma filter_true_all {A} (p : A -> bool) (l : list A) :
  Forall (fun x => p x = true) l -> filter (fun x => p x = true) l = l.
Proof. induction 1; [done|]. rewrite filter_cons_True by done. by f_equal. Qed.
Lemma filter_true_none {A} (p : A -> bool) (l : list A) :
  Forall (fun x => p x = false) l -> filter (fun x => p x = true) l = [].
Proof. induction 1; [done|]. rewrite filter_cons_False by congruence. done. Qed.

(** On a sorted slice, cutting at the found index is filtering. *)
Lemma sort_Search_drop {A} (l : list A) (p : A -> bool) (f : nat -> bool) :
  (forall i x, l !! i = Some x -> f i = p x) ->
  (forall i j x y, i <= j -> l !! i = Some x -> l !! j = Some y -> p x = true -> p y = true) ->
  drop (sort_Search (length l) f) l = filter (fun x => p x = true) l.
Proof.
  intros Hf Hm.
  destruct (sort_Search_spec (length l) f) as (Hk & Hlo & Hhi).
  { intros a b Hab Hb Ha.
    destruct (lookup_lt_is_Some_2 l b Hb) as [y Hy].
    destruct (lookup_lt_is_Some_2 l a ltac:(lia)) as [x Hx].
    rewrite (Hf _ _ Hy). rewrite (Hf _ _ Hx) in Ha. eauto. }
  set (k := sort_Search _ _) in *. rewrite <-(take_drop k l) at 2. rewrite filter_app.
  rewrite filter_true_none, filter_true_all; [done| |].
  - apply Forall_lookup. intros i x Hx. rewrite lookup_drop in Hx.
    rewrite <-(Hf _ _ Hx). apply Hhi. apply lookup_lt_Some in Hx. lia.
  - apply Forall_lookup. intros i x [Hx Hi]%lookup_take_Some.
    rewrite <-(Hf _ _ Hx). by apply Hlo.
Qed.

(** ** Chunks for the workers *)
Section chunks.
Context {A : Type}.

(** [for w := range numWorkers]: worker [w] takes [items[start:end]]. *)
Fixpoint chunk_loop (k w chunkSize : nat) (items : list A) : list (list A) :=
  match k with
  | O => []
  | S k =>
      let start := w * chunkSize in
      if length items <=? start then []
      else let end_ := Nat.min (start + chunkSize) (length items) in
           take (end_ - start) (drop start items) :: chunk_loop k (S w) chunkSize items
  end.
Definition chunks (numWorkers : nat) (items : list A) : list (list A) :=
  let chunkSize := (length items + numWorkers - 1) / numWorkers in
  chunk_loop numWorkers 0 chunkSize items.

Lemma chunk_loop_concat k : forall w cs items,
  length items <= (w + k) * cs ->
  concat (chunk_loop k w cs items) = drop (w * cs) items.
Proof.
  induction k as [|k IH]; intros w cs items Hl; cbn [chunk_loop].
  - rewrite drop_ge; [done|]. lia.
  - destruct (Nat.leb_spec (length items) (w * cs)); [by rewrite drop_ge|].
    cbn [concat]. rewrite IH by lia.
    replace (S w * cs) with (w * cs + cs) by lia. rewrite <-drop_drop.
    destruct (decide (w * cs + cs <= length items)).
    + rewrite Nat.min_l by lia. replace (w * cs + cs - w * cs) with cs by lia.
      apply take_drop.
    + rewrite Nat.min_r by lia.
      rewrite (drop_ge (drop _ _)) by (rewrite length_drop; lia).
      rewrite take_ge by (rewrite length_drop; lia). apply app_nil_r.
Qed.

(** The chunks partition the slice, in order. *)
Lemma chunks_concat_aux n items : 0 < n -> concat (chunks n items) = items.
Proof.
  intros Hn. unfold chunks. rewrite chunk_loop_concat; [done|].
  simpl. pose proof (Nat.div_mod_eq (length items + n - 1) n).
  pose proof (Nat.mod_upper_bound (length items + n - 1) n). nia.
Qed.
End chunks.

Lemma concat_perm {A} (ls ls' : list (list A)) : ls ≡ₚ ls' -> concat ls ≡ₚ concat ls'.
Proof.
  induction 1; cbn [concat]; [done|by f_equiv| |by etrans].
  rewrite !app_assoc. f_equiv. apply (comm (++)).
Qed.

(** Whatever order the workers' results arrive in, they add up to the sequential scan. *)
Lemma workers_perm {A B} (f : A -> B) n (items : list A) (arrived : list (list A)) :
  0 < n -> arrived ≡ₚ chunks n items -> concat (map (map f) arrived) ≡ₚ map f items.
Proof.
  intros Hn Hp. rewrite <-concat_map, <-(chunks_concat_aux n items) at 1 by done.
  by apply Permutation_map, concat_perm.
Qed.
