(* ===== verification/Float.v ===== *)
(** * Floating point

    Go's [float32] and [float64] as IEEE 754 values: the operations of the Standard
    Library's [SpecFloat] at the two precisions, the bit patterns stored in records,
    and the comparison of non-NaN values as a total preorder.  Arithmetic is one
    rounding per operation; a compiler that fuses [x*y + z] is not modelled. *)
From S2P Require Import Prelude.
From Stdlib Require Export SpecFloat.
From Stdlib Require Import Zpower.
Local Open Scope Z_scope.

Abbreviation float := spec_float.
#[export] Instance float_eq_dec : EqDecision float.
Proof. solve_decision. Defined.

(** ** float32 and float64 *)
Definition f32_mul : float -> float -> float := SFmul 24 128.
Definition f32_add : float -> float -> float := SFadd 24 128.
Definition f32_div : float -> float -> float := SFdiv 24 128.
Definition f64_mul : float -> float -> float := SFmul 53 1024.
Definition f64_add : float -> float -> float := SFadd 53 1024.
Definition f64_sub : float -> float -> float := SFsub 53 1024.
Definition f64_div : float -> float -> float := SFdiv 53 1024.
(** [math.Sqrt] *)
Definition f64_sqrt : float -> float := SFsqrt 53 1024.

(** Rounding to another precision: the conversions [float32(x)] and [float64(x)]. *)
Definition convert (prec emax : Z) (x : float) : float :=
  match x with
  | S754_finite s m e => binary_round prec emax s m e
  | _ => x
  end.
Definition to_f32 : float -> float := convert 24 128.
Definition to_f64 : float -> float := convert 53 1024.

Definition f_zero : float := S754_zero false.
(** [float64(n)] for a Go integer. *)
Definition f64_of_int (n : Z) : float := binary_normalize 53 1024 n 0 false.

(** [math.Float32frombits]: bit 31 the sign, bits 30-23 the exponent, the rest the fraction. *)
Definition f32_of_bits (b : Z) : float :=
  let sign := Z.testbit b 31 in
  let ex := Z.land (Z.shiftr b 23) 255 in
  let frac := Z.land b (2 ^ 23 - 1) in
  if ex =? 255 then (if frac =? 0 then S754_infinity sign else S754_nan)
  else
    let m := if ex =? 0 then frac else frac + 2 ^ 23 in
    match m with
    | Zpos p => S754_finite sign p (if ex =? 0 then -149 else ex - 150)
    | _ => S754_zero sign
    end.

Definition is_nan (x : float) : Prop := x = S754_nan.
#[export] Instance is_nan_dec x : Decision (is_nan x).
Proof. unfold is_nan. apply _. Defined.

(** ** The order *)

(** The position of a non-NaN value on the line. *)
Definition float_key (x : float) : Z * (Z * Z) :=
  match x with
  | S754_infinity true => (-2, (0, 0))
  | S754_finite true m e => (-1, (- e, Zneg m))
  | S754_zero _ | S754_nan => (0, (0, 0))
  | S754_finite false m e => (1, (e, Zpos m))
  | S754_infinity false => (2, (0, 0))
  end.
Definition key_lt (a b : Z * (Z * Z)) : Prop :=
  a.1 < b.1 \/ (a.1 = b.1 /\ (a.2.1 < b.2.1 \/ (a.2.1 = b.2.1 /\ a.2.2 < b.2.2))).

Lemma Pos_compare_cont_spec m1 m2 :
  Pos.compare_cont Eq m1 m2 = (Zpos m1 ?= Zpos m2)%Z.
Proof. done. Qed.

Lemma SFcompare_key x y :
  ~ is_nan x -> ~ is_nan y ->
  exists c, SFcompare x y = Some c /\
    match c with
    | Lt => key_lt (float_key x) (float_key y)
    | Eq => float_key x = float_key y
    | Gt => key_lt (float_key y) (float_key x)
    end.
Proof.
  intros Hx Hy. destruct x as [s|s| |s m e], y as [s'|s'| |s' m' e']; try (by destruct Hx); try (by destruct Hy);
    cbn [SFcompare]; eexists; (split; [done|]); unfold key_lt; try destruct s; try destruct s';
    cbn [float_key fst snd]; try lia; try done; rewrite Pos_compare_cont_spec.
  - destruct (Z.compare_spec e e'); cbn [CompOpp]; [subst|lia..].
    destruct (Z.compare_spec (Zpos m) (Zpos m')) as [H|H|H]; cbn [CompOpp]; [by simplify_eq|lia..].
  - destruct (Z.compare_spec e e'); [subst|lia..].
    destruct (Z.compare_spec (Zpos m) (Zpos m')) as [H|H|H]; [by simplify_eq|lia..].
Qed.
Lemma SFltb_key x y :
  ~ is_nan x -> ~ is_nan y -> SFltb x y = true <-> key_lt (float_key x) (float_key y).
Proof.
  intros Hx Hy. unfold SFltb. destruct (SFcompare_key x y Hx Hy) as (c & -> & H).
  destruct c; [rewrite H| |]; split; try done; unfold key_lt in *; lia.
Qed.
Lemma SFeqb_key x y :
  ~ is_nan x -> ~ is_nan y -> SFeqb x y = true <-> float_key x = float_key y.
Proof.
  intros Hx Hy. unfold SFeqb. destruct (SFcompare_key x y Hx Hy) as (c & -> & H).
  destruct c; [done| |]; split; try done; intros He; rewrite He in H; unfold key_lt in H; lia.
Qed.

(** ** Commutativity *)
Lemma SFmul_comm prec emax x y : SFmul prec emax x y = SFmul prec emax y x.
Proof.
  destruct x, y; simpl; try done; rewrite ?(xorb_comm s0 s); try done.
  by rewrite (Pos.mul_comm m), (Z.add_comm e).
Qed.

(** ** Exact results *)
Lemma digits2_shift p m : digits2_pos (shift_pos p m) = (digits2_pos m + p)%positive.
Proof.
  unfold shift_pos. induction p as [|p IH] using Pos.peano_ind; [cbn; lia|]. rewrite Pos.iter_succ. cbn [digits2_pos]. rewrite IH. lia.
Qed.
Lemma digits2_lower m : 2 ^ (Zpos (digits2_pos m) - 1) <= Zpos m.
Proof.
  induction m as [m IH|m IH|]; cbn [digits2_pos]; [| |done].
  - replace (Zpos (Pos.succ (digits2_pos m)) - 1) with (Z.succ (Zpos (digits2_pos m) - 1)) by lia. rewrite Z.pow_succ_r by lia. lia.
  - replace (Zpos (Pos.succ (digits2_pos m)) - 1) with (Z.succ (Zpos (digits2_pos m) - 1)) by lia. rewrite Z.pow_succ_r by lia. lia.
Qed.
Lemma shr_fexp_exact m e : fexp 53 1024 (Zpos (digits2_pos m) + e) = e -> shr_fexp 53 1024 (Zpos m) e loc_Exact = (Build_shr_record (Zpos m) false false, e).
Proof. intros Hf. unfold shr_fexp, Zdigits2. rewrite Hf, Z.sub_diag. done. Qed.
Lemma binary_round_aux_exact m e : fexp 53 1024 (Zpos (digits2_pos m) + e) = e -> e <= 0 ->
  binary_round_aux 53 1024 false (Zpos m) e loc_Exact = S754_finite false m e.
Proof.
  intros Hf He. unfold binary_round_aux. rewrite shr_fexp_exact by done. cbn [shr_m loc_of_shr_record shr_r shr_s].
  change (round_nearest_even (Zpos m) loc_Exact) with (Zpos m).
  rewrite shr_fexp_exact by done. cbn [shr_m]. by replace (e <=? 1024 - 53) with true by lia.
Qed.
