(* ===== verification/Search.v ===== *)
(** * Similarity search (vector.go, SearchSimilar in store.go and logstore/log.go)

    [CosineSimilarity] in float32 arithmetic and the parallel scan both stores run:
    candidates in map order, chunks scored by worker goroutines, their results
    appended in the order they arrive, an unstable sort by score and id, a cut at
    the limit. *)
From S2P Require Import Prelude Float Hlc Record GoSort.

(** [dot], [normA] and [normB] after the loop. *)
Fixpoint cosine_loop (a b : list Z) (dot normA normB : float) : float * float * float :=
  match a, b with
  | x :: a, y :: b =>
      let va := f32_of_bits x in
      let vb := f32_of_bits y in
      cosine_loop a b (f32_add dot (f32_mul va vb)) (f32_add normA (f32_mul va va))
        (f32_add normB (f32_mul vb vb))
  | _, _ => (dot, normA, normB)
  end.
Definition CosineSimilarity (a b : list Z) : float :=
  if bool_decide (length a <> length b \/ length a = 0) then f_zero
  else
    let '(dot, normA, normB) := cosine_loop a b f_zero f_zero f_zero in
    if SFeqb normA f_zero || SFeqb normB f_zero then f_zero
    else f32_div dot (to_f32 (f64_mul (f64_sqrt (to_f64 normA)) (f64_sqrt (to_f64 normB)))).

Record scoredRecord := mkScored { sr_rec : NellRecord; sr_score : float }.

Definition scored_less (a b : scoredRecord) : bool :=
  if SFeqb (sr_score a) (sr_score b) then str_ltb (ID (sr_rec a)) (ID (sr_rec b))
  else SFltb (sr_score b) (sr_score a).

(** [r.Collection == collection && !r.Deleted && r.Type == TypeVector && len(r.Vector) > 0] *)
Definition is_candidate (collection : string) (r : NellRecord) : bool :=
  bool_decide (Collection r = collection) && negb (Deleted r) &&
  bool_decide (Type_ r = TypeVector) && bool_decide (0 < len (Vector r))%Z.
Definition score (query : list Z) (r : NellRecord) : scoredRecord :=
  mkScored r (CosineSimilarity query (Vector r)).
(** One worker: the scores of its chunk. *)
Definition score_chunk (query : list Z) (chunk : list NellRecord) : list scoredRecord :=
  map (score query) chunk.
Definition num_workers (numCPU : nat) (candidates : list NellRecord) : nat :=
  if length candidates <? 1000 then 1 else numCPU.
(** [if limit > 0 && len(allScored) > limit { allScored = allScored[:limit] }] *)
Definition cut (limit : Z) (l : list scoredRecord) : list scoredRecord :=
  if bool_decide (0 < limit /\ limit < len l)%Z then take (Z.to_nat limit) l else l.

(** The results a search may return: any order of the candidates in the map, any
    arrival order of the chunks, any result of the sort. *)
Inductive search_returns (numCPU : nat) (candidates : list NellRecord) (query : list Z) (limit : Z)
    : list NellRecord -> Prop :=
| search_scored order arrived allScored :
    order ≡ₚ candidates ->
    arrived ≡ₚ map (score_chunk query) (chunks (num_workers numCPU order) order) ->
    sorts scored_less (concat arrived) allScored ->
    search_returns numCPU candidates query limit (map sr_rec (cut limit allScored)).

(** Two documents and their vectors, for the examples. *)
Definition doc_a : NellRecord := mkRecord "c" "a" "vector" [] [1065353216; 0]%Z (mkHLC 1 0) "n" false.
Definition doc_b : NellRecord := mkRecord "c" "b" "vector" [] [1065353216; 1065353216]%Z (mkHLC 2 0) "n" false.

(** ** Scores *)

Lemma cosine_loop_swap a b dot na nb :
  cosine_loop b a dot nb na =
  let '(d, x, y) := cosine_loop a b dot na nb in (d, y, x).
Proof.
  revert b dot na nb. induction a as [|x a IH]; intros [|y b] dot na nb; cbn [cosine_loop]; try done.
  rewrite IH. unfold f32_mul. by rewrite (SFmul_comm _ _ (f32_of_bits y) (f32_of_bits x)).
Qed.
Lemma CosineSimilarity_comm_aux a b : CosineSimilarity a b = CosineSimilarity b a.
Proof.
  unfold CosineSimilarity.
  rewrite (bool_decide_ext (length b <> length a \/ length b = 0) (length a <> length b \/ length a = 0)) by lia.
  case_bool_decide; [done|]. rewrite (cosine_loop_swap a b).
  destruct (cosine_loop a b f_zero f_zero f_zero) as [[d x] y].
  rewrite orb_comm. case_match; [done|]. unfold f64_mul. by rewrite SFmul_comm.
Qed.

(** ** Ranking *)

(** Scores that are numbers: comparisons with NaN are all false, and the sort has no order to follow. *)
Definition scores_ok (l : list scoredRecord) : Prop := Forall (fun s => ~ is_nan (sr_score s)) l.

Definition rank_before (a b : scoredRecord) : Prop :=
  key_lt (float_key (sr_score b)) (float_key (sr_score a)) \/
  (float_key (sr_score a) = float_key (sr_score b) /\ str_ltb (ID (sr_rec a)) (ID (sr_rec b)) = true).
#[export] Instance rank_before_dec a b : Decision (rank_before a b).
Proof. unfold rank_before, key_lt. apply _. Defined.
Definition rank_less (a b : scoredRecord) : bool := bool_decide (rank_before a b).
(** The reference: score every candidate, rank all, keep the first [limit]. *)
Definition ranking (candidates : list NellRecord) (query : list Z) : list scoredRecord :=
  sort_Slice rank_less (score_chunk query candidates).
Definition top_k (candidates : list NellRecord) (query : list Z) (limit : Z) : list NellRecord :=
  map sr_rec (cut limit (ranking candidates query)).

Lemma scored_less_spec a b :
  ~ is_nan (sr_score a) -> ~ is_nan (sr_score b) -> scored_less a b = true <-> rank_before a b.
Proof.
  intros Ha Hb. unfold scored_less, rank_before.
  destruct (SFeqb (sr_score a) (sr_score b)) eqn:He.
  - apply SFeqb_key in He; [|done..]. rewrite He. split; [auto|].
    intros [H|[_ H]]; [|done]. unfold key_lt in H. lia.
  - rewrite SFltb_key by done. split; [auto|]. intros [H|[H _]]; [done|].
    apply SFeqb_key in H; [congruence|done..].
Qed.
Lemma rank_total a b :
  rank_before a b \/ (float_key (sr_score a) = float_key (sr_score b) /\ ID (sr_rec a) = ID (sr_rec b)) \/ rank_before b a.
Proof.
  unfold rank_before, key_lt.
  destruct (float_key (sr_score a)) as [x [y z]], (float_key (sr_score b)) as [x' [y' z']]. simpl.
  destruct (Z.lt_trichotomy x x') as [|[->|]]; [lia| |lia].
  destruct (Z.lt_trichotomy y y') as [|[->|]]; [lia| |lia].
  destruct (Z.lt_trichotomy z z') as [|[->|]]; [lia| |lia].
  destruct (str_ltb_trichotomy (ID (sr_rec a)) (ID (sr_rec b))) as [[H|H]|H]; auto.
Qed.

(** Records with one id each: a collection holds at most one record per id. *)
Definition ids_unique (rs : list NellRecord) : Prop :=
  forall a b, a ∈ rs -> b ∈ rs -> ID a = ID b -> a = b.

Lemma scored_perm numCPU candidates order query arrived :
  (0 < numCPU) -> order ≡ₚ candidates ->
  arrived ≡ₚ map (score_chunk query) (chunks (num_workers numCPU order) order) ->
  concat arrived ≡ₚ score_chunk query candidates.
Proof.
  intros Hn Ho Ha. rewrite (concat_perm _ _ Ha). unfold score_chunk.
  rewrite <-concat_map, chunks_concat_aux; [by rewrite Ho|].
  unfold num_workers. case_match; lia.
Qed.
Lemma score_chunk_antisym query rs a b :
  ids_unique rs -> scores_ok (score_chunk query rs) ->
  a ∈ score_chunk query rs -> b ∈ score_chunk query rs ->
  scored_less a b = false -> scored_less b a = false -> a = b.
Proof.
  intros Hu Hs Ha Hb H1 H2. unfold scores_ok in Hs. rewrite Forall_forall in Hs.
  pose proof (Hs _ Ha) as Na. pose proof (Hs _ Hb) as Nb.
  apply not_true_iff_false in H1, H2. rewrite scored_less_spec in H1, H2 by done.
  destruct (rank_total a b) as [|[[_ Hid]|]]; [done| |done].
  unfold score_chunk in Ha, Hb. apply list_elem_of_fmap in Ha as (x & -> & Hx).
  apply list_elem_of_fmap in Hb as (y & -> & Hy). f_equal. by apply Hu.
Qed.

Lemma rank_before_trans a b c : rank_before a b -> rank_before b c -> rank_before a c.
Proof.
  unfold rank_before, key_lt. intros [H1|[E1 H1]] [H2|[E2 H2]].
  - left. lia.
  - rewrite <-E2. auto.
  - rewrite E1. auto.
  - right. split; [congruence|]. by eapply str_ltb_trans.
Qed.
Lemma rank_before_irrefl a : ~ rank_before a a.
Proof.
  unfold rank_before, key_lt. intros [H|[_ H]]; [lia|]. by rewrite str_ltb_irrefl in H.
Qed.
Lemma rank_less_false a b : rank_less a b = false <-> ~ rank_before a b.
Proof. unfold rank_less. by rewrite bool_decide_eq_false. Qed.
Lemma rank_before_ties a b c :
  float_key (sr_score a) = float_key (sr_score b) -> ID (sr_rec a) = ID (sr_rec b) ->
  rank_before c a <-> rank_before c b.
Proof. intros E1 E2. unfold rank_before. by rewrite E1, E2. Qed.
#[export] Instance rank_LessOrder : LessOrder rank_less.
Proof.
  split.
  - intros a b. rewrite !rank_less_false. destruct (decide (rank_before a b)) as [H|]; [|auto].
    right. intros H'. by apply (rank_before_irrefl a), (rank_before_trans a b a).
  - intros a b c. rewrite !rank_less_false. intros H1 H2 H3. apply H2.
    destruct (rank_total a b) as [H|[[E1 E2]|H]]; [|by eapply rank_before_ties in H3|done].
    by eapply rank_before_trans.
Qed.

Lemma StronglySorted_impl_elem {A} (R R' : relation A) l :
  (forall a b, a ∈ l -> b ∈ l -> R a b -> R' a b) -> StronglySorted R l -> StronglySorted R' l.
Proof.
  intros Hi. induction 1 as [|x l Hs IH Hx]; constructor.
  - apply IH. intros a b Ha Hb. apply Hi; by right.
  - rewrite Forall_forall in *. intros y Hy. apply Hi; [by left|by right|auto].
Qed.
(** On scores that are numbers the code's comparison is the ranking. *)
Lemma scored_less_rank a b :
  ~ is_nan (sr_score a) -> ~ is_nan (sr_score b) -> scored_less a b = rank_less a b.
Proof.
  intros Ha Hb. apply eq_bool_prop_intro. rewrite !Is_true_true, scored_less_spec by done.
  unfold rank_less. by rewrite bool_decide_eq_true.
Qed.
Lemma ranking_sorts candidates query :
  scores_ok (score_chunk query candidates) ->
  sorts scored_less (score_chunk query candidates) (ranking candidates query).
Proof.
  intros Hs. destruct (sort_Slice_sorts rank_less (score_chunk query candidates)) as [Hp Hss].
  split; [done|]. eapply StronglySorted_impl_elem; [|done].
  unfold scores_ok in Hs. rewrite <-Hp, Forall_forall in Hs.
  intros a b Ha Hb. unfold not_less. by rewrite scored_less_rank by auto.
Qed.

(** The parallel scan is deterministic. *)
Lemma search_top_k_aux numCPU candidates query limit out :
  0 < numCPU -> ids_unique candidates -> scores_ok (score_chunk query candidates) ->
  search_returns numCPU candidates query limit out <-> out = top_k candidates query limit.
Proof.
  intros Hn Hu Hs. split.
  - intros [order arrived all Ho Ha Hso]. unfold top_k. do 2 f_equal.
    pose proof (scored_perm _ _ _ _ _ Hn Ho Ha) as Hp.
    destruct Hso as [Pall Sall]. rewrite Hp in Pall.
    eapply sorts_unique; [|by split|by apply ranking_sorts].
    intros a b. by apply score_chunk_antisym.
  - intros ->. eapply search_scored; [done..|].
    assert (concat (map (score_chunk query) (chunks (num_workers numCPU candidates) candidates))
      = score_chunk query candidates) as ->.
    { unfold score_chunk. rewrite <-concat_map, chunks_concat_aux; [done|].
      unfold num_workers. case_match; lia. }
    by apply ranking_sorts.
Qed.

Lemma cut_sublist limit l : exists k, cut limit l = take k l /\ (k = length l \/ (0 < limit /\ Z.of_nat k = limit)%Z) /\ k <= length l.
Proof.
  unfold cut. case_bool_decide as H; [|exists (length l); rewrite take_ge by lia; auto].
  exists (Z.to_nat limit). unfold len in H. split; [done|]. lia.
Qed.
(** What is cut off ranks before nothing that is kept. *)
Lemma cut_best candidates query limit a b :
  a ∈ cut limit (ranking candidates query) -> b ∈ drop (length (cut limit (ranking candidates query))) (ranking candidates query) ->
  ~ rank_before b a.
Proof.
  destruct (cut_sublist limit (ranking candidates query)) as (k & -> & _ & Hk).
  rewrite length_take, Nat.min_l by done. intros [i [Ha Hi]%lookup_take_Some]%list_elem_of_lookup_1.
  intros [j Hb]%list_elem_of_lookup_1. rewrite lookup_drop in Hb.
  apply rank_less_false. eapply (sorted_lookup rank_less); [| |exact Ha|exact Hb].
  - apply (sort_Slice_sorts rank_less).
  - lia.
Qed.

(** ** Properties *)

(** The limit keeps the best: what the sequential top-k drops ranks before nothing it
    returns; a limit of 0 or less keeps everything. *)
Theorem SearchSimilar_keeps_best candidates query limit :
  let all := ranking candidates query in
  let kept := cut limit all in
  all ≡ₚ score_chunk query candidates /\
  length kept = (if bool_decide (0 < limit)%Z then Nat.min (Z.to_nat limit) (length candidates) else length candidates) /\
  forall a b, a ∈ kept -> b ∈ drop (length kept) all -> ~ rank_before b a.
Proof.
  simpl. assert (ranking candidates query ≡ₚ score_chunk query candidates) as Hp
    by apply (sort_Slice_sorts rank_less).
  split_and!; [done| |by intros; eapply cut_best].
  assert (length (ranking candidates query) = length candidates) as Hl.
  { rewrite Hp. apply length_map. }
  unfold cut, len. rewrite <-Hl. repeat case_bool_decide; rewrite ?length_take; lia.
Qed.
Lemma SearchSimilar_keeps_best_witness :
  ~ rank_before (score [1065353216; 0]%Z doc_b) (score [1065353216; 0]%Z doc_a).
Proof.
  apply (proj2 (proj2 (SearchSimilar_keeps_best [doc_b; doc_a] [1065353216; 0]%Z 1))).
  - vm_compute. left.
  - vm_compute. left.
Defined.

(** Similarity is symmetric to the last bit, rounding included. *)
Theorem CosineSimilarity_comm a b : CosineSimilarity a b = CosineSimilarity b a.
Proof. apply CosineSimilarity_comm_aux. Qed.

(** The documented range -1 to 1 does not hold: the similarity of a finite vector to
    itself can be NaN, since the squares overflow float32. *)
Theorem CosineSimilarity_not_in_range :
  exists v, f32_of_bits v <> S754_nan /\ (forall s, f32_of_bits v <> S754_infinity s) /\
    CosineSimilarity [v] [v] = S754_nan.
Proof. exists 1900671690%Z. split_and!; [by vm_compute|by vm_compute|by vm_compute]. Qed.
