(* ===== verification/MemStore.v ===== *)
(** * MemoryStore (store.go)

    The in-memory store: the record map, the knowledge vector, the collection index
    behind [List]/[ListAll] and the lazily rebuilt clock index behind
    [GetChangesSince].  Every method that takes the write lock is one function from
    the state to the new state and the result; the lock makes it atomic. *)
From S2P Require Import Prelude Float Hlc Record KnowledgeVector Conflict GoSort Search.

Record clockKey := mkClockKey { ck_clock : HLC; ck_key : string }.
#[export] Instance clockKey_eq_dec : EqDecision clockKey.
Proof. solve_decision. Defined.

Record MemoryStore := mkMemoryStore {
  ms_nodeID : string;
  ms_clock : HLC;
  ms_records : gmap string NellRecord;
  ms_kv : gmap string HLC;
  ms_colIndex : gmap string (gset string);
  ms_changesIdx : list clockKey;
  ms_changesDirty : bool
}.

Definition NewMemoryStore (now : Z) (nodeID : string) : MemoryStore :=
  mkMemoryStore nodeID (NewHLC now) ∅ ∅ ∅ [] true.

(** Assignments to one field. *)
Definition ms_set_clock (c : HLC) (s : MemoryStore) : MemoryStore :=
  mkMemoryStore (ms_nodeID s) c (ms_records s) (ms_kv s) (ms_colIndex s) (ms_changesIdx s) (ms_changesDirty s).
Definition ms_set_record (key : string) (r : NellRecord) (s : MemoryStore) : MemoryStore :=
  mkMemoryStore (ms_nodeID s) (ms_clock s) (<[key := r]> (ms_records s)) (ms_kv s) (ms_colIndex s) (ms_changesIdx s) (ms_changesDirty s).
Definition ms_set_kv (kv : gmap string HLC) (s : MemoryStore) : MemoryStore :=
  mkMemoryStore (ms_nodeID s) (ms_clock s) (ms_records s) kv (ms_colIndex s) (ms_changesIdx s) (ms_changesDirty s).

(** [s.indexKey(key, collection)] on the index map: get or make the collection's
    set, and add the key to it. *)
Definition index_insert (key collection : string) (ix : gmap string (gset string))
    : gmap string (gset string) :=
  <[collection := {[key]} ∪ default ∅ (ix !! collection)]> ix.
Definition MemoryStore_indexKey (key collection : string) (s : MemoryStore) : MemoryStore :=
  mkMemoryStore (ms_nodeID s) (ms_clock s) (ms_records s) (ms_kv s)
    (index_insert key collection (ms_colIndex s)) (ms_changesIdx s) (ms_changesDirty s).
Definition MemoryStore_markChangesDirty (s : MemoryStore) : MemoryStore :=
  mkMemoryStore (ms_nodeID s) (ms_clock s) (ms_records s) (ms_kv s) (ms_colIndex s) (ms_changesIdx s) true.

(** The comparison [rebuildChangesIndex] sorts by. *)
Definition clockKey_less (a b : clockKey) : bool :=
  let x := ck_clock a in let y := ck_clock b in
  if negb (WallTime x =? WallTime y)%Z then (WallTime x <? WallTime y)%Z
  else if negb (Counter x =? Counter y)%Z then (Counter x <? Counter y)%Z
  else str_ltb (ck_key a) (ck_key b).
(** The index computed from a record map. *)
Definition changes_index (m : gmap string NellRecord) : list clockKey :=
  sort_Slice clockKey_less ((fun '(key, rec) => mkClockKey (Clock rec) key) <$> map_to_list m).
Definition MemoryStore_rebuildChangesIndex (s : MemoryStore) : MemoryStore :=
  mkMemoryStore (ms_nodeID s) (ms_clock s) (ms_records s) (ms_kv s) (ms_colIndex s)
    (changes_index (ms_records s)) false.

(** [if collection == "" { collection = DefaultCollection }] *)
Definition or_default (collection : string) : string :=
  if bool_decide (collection = "") then DefaultCollection else collection.
Definition with_collection (c : string) (r : NellRecord) : NellRecord :=
  mkRecord c (ID r) (Type_ r) (Payload r) (Vector r) (Clock r) (UpdatedBy r) (Deleted r).
(** A record restamped by the local node. *)
Definition restamp (c : HLC) (node : string) (r : NellRecord) : NellRecord :=
  mkRecord (Collection r) (ID r) (Type_ r) (Payload r) (Vector r) c node (Deleted r).
Definition mark_deleted (r : NellRecord) : NellRecord :=
  mkRecord (Collection r) (ID r) (Type_ r) (Payload r) (Vector r) (Clock r) (UpdatedBy r) true.
Definition new_record (collection id : string) : NellRecord :=
  mkRecord collection id "" [] [] HLC_zero "" false.
Definition normalize (r : NellRecord) : NellRecord := with_collection (or_default (Collection r)) r.

(** [Put]: the accepted flag and the winning record; the error is always nil. *)
Definition MemoryStore_Put (incoming : NellRecord) (s : MemoryStore)
    : MemoryStore * (bool * NellRecord) :=
  let incoming := with_collection (or_default (Collection incoming)) incoming in
  let s := ms_set_clock (HLC_Update (ms_clock s) (Clock incoming)) s in
  let key := record_key (Collection incoming) (ID incoming) in
  match ms_records s !! key with
  | None =>
      let s := ms_set_record key incoming s in
      let s := MemoryStore_indexKey key (Collection incoming) s in
      let s := ms_set_kv (KnowledgeVector_Update (ms_kv s) (UpdatedBy incoming) (Clock incoming)) s in
      (MemoryStore_markChangesDirty s, (true, incoming))
  | Some local =>
      let w := ResolveConflict local incoming in
      let winner := deref w local incoming in
      let s := ms_set_record key winner s in
      let s := ms_set_kv (KnowledgeVector_Update (ms_kv s) (UpdatedBy winner) (Clock winner)) s in
      (MemoryStore_markChangesDirty s, (bool_decide (w = WIncoming), winner))
  end.

(** [PutLocal(rec)]: the returned record is also what [*rec] holds afterwards. *)
Definition MemoryStore_PutLocal (now : Z) (rec : NellRecord) (s : MemoryStore)
    : MemoryStore * NellRecord :=
  let rec := with_collection (or_default (Collection rec)) rec in
  let s := ms_set_clock (HLC_Tick now (ms_clock s)) s in
  let rec := restamp (ms_clock s) (ms_nodeID s) rec in
  let key := record_key (Collection rec) (ID rec) in
  let existed := bool_decide (is_Some (ms_records s !! key)) in
  let s := ms_set_record key rec s in
  let s := if existed then s else MemoryStore_indexKey key (Collection rec) s in
  let s := ms_set_kv (KnowledgeVector_Update (ms_kv s) (ms_nodeID s) (Clock rec)) s in
  (MemoryStore_markChangesDirty s, rec).

Inductive store_err := ErrRecordNotFound.

Definition MemoryStore_Get (collection id : string) (s : MemoryStore) : res store_err NellRecord :=
  let collection := or_default collection in
  match ms_records s !! record_key collection id with
  | None => Err ErrRecordNotFound
  | Some rec => Ok rec
  end.

Definition MemoryStore_Delete (now : Z) (collection id : string) (s : MemoryStore)
    : MemoryStore * NellRecord :=
  let collection := or_default collection in
  let key := record_key collection id in
  let found := ms_records s !! key in
  let rec := default (new_record collection id) found in
  let s := ms_set_clock (HLC_Tick now (ms_clock s)) s in
  let rec := mark_deleted (restamp (ms_clock s) (ms_nodeID s) rec) in
  let s := ms_set_record key rec s in
  let s := if bool_decide (is_Some found) then s else MemoryStore_indexKey key collection s in
  let s := ms_set_kv (KnowledgeVector_Update (ms_kv s) (ms_nodeID s) (Clock rec)) s in
  (MemoryStore_markChangesDirty s, rec).

(** [s.records[key]]: a missing key reads as the zero record. *)
Definition record_at (m : gmap string NellRecord) (key : string) : NellRecord :=
  default (new_record "" "") (m !! key).
Definition MemoryStore_ListAll (collection : string) (s : MemoryStore) : list NellRecord :=
  let collection := or_default collection in
  match ms_colIndex s !! collection with
  | None => []
  | Some set => record_at (ms_records s) <$> elements set
  end.
Definition MemoryStore_List (collection : string) (s : MemoryStore) : list NellRecord :=
  let collection := or_default collection in
  match ms_colIndex s !! collection with
  | None => []
  | Some set => filter (fun r => Deleted r = false) (record_at (ms_records s) <$> elements set)
  end.
Definition MemoryStore_Query (collection : string) (s : MemoryStore) : list NellRecord :=
  MemoryStore_List collection s.

Definition MemoryStore_GetChangesSince (since : HLC) (s : MemoryStore)
    : MemoryStore * list NellRecord :=
  let s := if ms_changesDirty s then MemoryStore_rebuildChangesIndex s else s in
  let idx := sort_Search (length (ms_changesIdx s)) (fun i =>
    match ms_changesIdx s !! i with
    | Some ck =>
        let c := ck_clock ck in
        ((WallTime since <? WallTime c) || ((WallTime c =? WallTime since) && (Counter since <? Counter c)))%Z
    | None => false
    end) in
  (s, omap (fun ck => ms_records s !! ck_key ck) (drop idx (ms_changesIdx s))).

(** [SearchSimilar]: the slices it may return. *)
Definition ms_candidates (collection : string) (m : gmap string NellRecord) : list NellRecord :=
  filter (fun r => is_candidate (or_default collection) r = true) (snd <$> map_to_list m).
Definition MemoryStore_SearchSimilar (numCPU : nat) (collection : string) (query : list Z) (limit : Z)
    (s : MemoryStore) (out : list NellRecord) : Prop :=
  let candidates := ms_candidates collection (ms_records s) in
  if bool_decide (candidates = []) then out = []
  else search_returns numCPU candidates query limit out.

Definition MemoryStore_KnowledgeVector (s : MemoryStore) : gmap string HLC := ms_kv s.
Definition MemoryStore_NodeID (s : MemoryStore) : string := ms_nodeID s.
Definition MemoryStore_Close (s : MemoryStore) : MemoryStore := s.

(** ** Composite keys *)

(** No [':'] in a collection name.  A name with one makes composite keys ambiguous. *)
Definition colon : Ascii.ascii := Ascii.ascii_of_N 58.
Definition colon_free (c : string) : Prop := colon ∉ str_bytes c.
#[export] Instance colon_free_dec c : Decision (colon_free c).
Proof. unfold colon_free. apply _. Defined.

Lemma split_first_eq {A} (x : A) (l1 l2 t1 t2 : list A) :
  x ∉ l1 -> x ∉ l2 -> l1 ++ x :: t1 = l2 ++ x :: t2 -> l1 = l2 /\ t1 = t2.
Proof.
  revert l2. induction l1 as [|y l1 IH]; intros [|z l2] H1 H2 He; simpl in He; simplify_eq.
  - done.
  - destruct H2. by left.
  - destruct H1. by left.
  - rewrite not_elem_of_cons in H1, H2. by destruct (IH l2) as [-> ->]; [tauto..|].
Qed.
Lemma str_bytes_record_key c i : str_bytes (record_key c i) = str_bytes c ++ colon :: str_bytes i.
Proof. unfold record_key. by rewrite !str_bytes_app. Qed.
Lemma record_key_inj c c' i i' :
  colon_free c -> colon_free c' -> record_key c i = record_key c' i' -> c = c' /\ i = i'.
Proof.
  intros Hc Hc' He. apply (f_equal str_bytes) in He. rewrite !str_bytes_record_key in He.
  apply split_first_eq in He as [H1 H2]; [|done..].
  split; by apply str_bytes_inj.
Qed.
Lemma rkey_collection r r' :
  colon_free (Collection r) -> colon_free (Collection r') -> rkey r = rkey r' ->
  Collection r = Collection r'.
Proof. intros H H' He. by apply record_key_inj in He as [? _]. Qed.
Lemma or_default_idemp c : or_default (or_default c) = or_default c.
Proof. unfold or_default. repeat case_bool_decide; done. Qed.
Lemma or_default_colon_free c : colon_free c -> colon_free (or_default c).
Proof.
  unfold or_default. case_bool_decide; [|done].
  intros _. by apply (bool_decide_unpack (colon_free DefaultCollection)).
Qed.
(** A collection a record can be stored under. *)
Definition coll_ok (c : string) : Prop := colon_free c /\ c <> "".
Lemma or_default_ok c : colon_free c -> coll_ok (or_default c).
Proof.
  intros Hc. split; [by apply or_default_colon_free|]. unfold or_default. by case_bool_decide.
Qed.
Lemma or_default_id c : c <> "" -> or_default c = c.
Proof. intros Hc. unfold or_default. by case_bool_decide. Qed.
Lemma normalize_id r : Collection r <> "" -> normalize r = r.
Proof. intros Hc. unfold normalize. rewrite or_default_id by done. by destruct r. Qed.
Lemma normalize_clock r : Clock (normalize r) = Clock r.
Proof. done. Qed.
Lemma rkey_normalize r : rkey (normalize r) = record_key (or_default (Collection r)) (ID r).
Proof. done. Qed.
Lemma rkey_restamp c n r : rkey (restamp c n r) = rkey r.
Proof. done. Qed.
Lemma rkey_mark_deleted r : rkey (mark_deleted r) = rkey r.
Proof. done. Qed.

(** ** The invariant *)

Definition index_mem (ix : gmap string (gset string)) (c k : string) : Prop :=
  k ∈ default ∅ (ix !! c).

Record ms_inv (s : MemoryStore) : Prop := {
  inv_keyed : keyed (ms_records s);
  inv_colls : map_Forall (fun _ r => coll_ok (Collection r)) (ms_records s);
  (** the index of a collection lists the keys of its records, and no others *)
  inv_index : forall c k, index_mem (ms_colIndex s) c k <->
    exists r, ms_records s !! k = Some r /\ Collection r = c;
  (** the local clock is at or past every stored clock *)
  inv_clock : map_Forall (fun _ r => hlc_le (Clock r) (ms_clock s)) (ms_records s);
  (** the knowledge vector has seen every stored record *)
  inv_kv : map_Forall (fun _ r => kv_covers (ms_kv s) (UpdatedBy r) (Clock r)) (ms_records s);
  (** a clean clock index is the one a rebuild would compute *)
  inv_cache : ms_changesDirty s = false -> ms_changesIdx s = changes_index (ms_records s)
}.

(** What a write of record [w] does to the state, as every write path does it. *)
Record written (s : MemoryStore) (w : NellRecord) (s' : MemoryStore) : Prop := {
  wr_nodeID : ms_nodeID s' = ms_nodeID s;
  wr_records : ms_records s' = <[rkey w := w]> (ms_records s);
  wr_clock : hlc_le (ms_clock s) (ms_clock s');
  wr_stamp : hlc_le (Clock w) (ms_clock s');
  wr_kv : ms_kv s' = KnowledgeVector_Update (ms_kv s) (UpdatedBy w) (Clock w);
  wr_index : ms_colIndex s' =
    if bool_decide (is_Some (ms_records s !! rkey w)) then ms_colIndex s
    else index_insert (rkey w) (Collection w) (ms_colIndex s);
  wr_dirty : ms_changesDirty s' = true
}.

Lemma index_mem_insert key c ix c' k :
  index_mem (index_insert key c ix) c' k <-> index_mem ix c' k \/ (c' = c /\ k = key).
Proof.
  unfold index_mem, index_insert. rewrite lookup_insert. case_decide; set_solver.
Qed.

Lemma written_inv s w s' : ms_inv s -> coll_ok (Collection w) -> written s w s' -> ms_inv s'.
Proof.
  intros I Hw [Hn Hr Hc Hst Hkv Hix Hd]. constructor.
  - rewrite Hr. apply map_Forall_insert_2; [done|apply I].
  - rewrite Hr. apply map_Forall_insert_2; [done|apply I].
  - intros c k. rewrite Hix, Hr. case_bool_decide as He.
    + destruct He as [r He]. rewrite (inv_index _ I), lookup_insert.
      case_decide as Hk; [subst k|done].
      assert (Collection r = Collection w) as Hcol.
      { apply rkey_collection; [by apply (inv_colls _ I _ _ He)|by apply Hw|].
        by apply (inv_keyed _ I). }
      rewrite He. split; intros (r' & [= <-] & <-); eauto.
    + rewrite index_mem_insert, (inv_index _ I), lookup_insert.
      apply eq_None_not_Some in He. case_decide as Hk; [subst k|].
      * rewrite He. split; [intros [(? & ? & _)|[-> _]]; [done|eauto]|].
        intros (r' & [= <-] & <-). auto.
      * split; [intros [?|[_ ?]]; [done|congruence]|auto].
  - rewrite Hr. apply map_Forall_insert_2; [done|].
    intros k r Hk. etrans; [by apply (inv_clock _ I _ _ Hk)|done].
  - rewrite Hr, Hkv. apply map_Forall_insert_2; [apply kv_Update_covers|].
    intros k r Hk. apply kv_Update_mono, (inv_kv _ I _ _ Hk).
  - by rewrite Hd.
Qed.

Lemma NewMemoryStore_inv now node : ms_inv (NewMemoryStore now node).
Proof.
  constructor; simpl; try apply map_Forall_empty; [|done].
  intros c k. unfold index_mem. simpl. rewrite lookup_empty. split; [|by intros (r & Hr & _)].
  by intros ?%not_elem_of_empty.
Qed.

(** ** The operations *)

(** [Put] merges the incoming record by last-write-wins. *)
Lemma Put_records r s :
  ms_records (fst (MemoryStore_Put r s)) = put_record (ms_records s) (normalize r).
Proof.
  unfold MemoryStore_Put, put_record. fold (normalize r). fold (rkey (normalize r)).
  by destruct (ms_records s !! rkey (normalize r)) as [l|] eqn:Hl; simpl; rewrite Hl.
Qed.
Lemma Put_clock r s :
  ms_clock (fst (MemoryStore_Put r s)) = HLC_Update (ms_clock s) (Clock r).
Proof. unfold MemoryStore_Put. by case_match. Qed.
Lemma Put_result r s :
  snd (MemoryStore_Put r s) =
  match ms_records s !! rkey (normalize r) with
  | None => (true, normalize r)
  | Some l => (bool_decide (beats (normalize r) l), lww l (normalize r))
  end.
Proof.
  unfold MemoryStore_Put. fold (normalize r). fold (rkey (normalize r)). simpl.
  destruct (ms_records s !! rkey (normalize r)) as [l|] eqn:Hl; simpl; [|done].
  f_equal. apply bool_decide_ext, ResolveConflict_spec.
Qed.

Lemma Put_written r s :
  ms_inv s -> tick_safe (Clock r) ->
  exists w, written s w (fst (MemoryStore_Put r s)) /\
    (w = normalize r \/ ms_records s !! rkey w = Some w) /\ w = snd (snd (MemoryStore_Put r s)).
Proof.
  intros I Hs. unfold MemoryStore_Put. fold (normalize r). fold (rkey (normalize r)). simpl.
  assert (hlc_le (ms_clock s) (HLC_Update (ms_clock s) (Clock r))) as Hge by auto with nell.
  assert (hlc_le (Clock r) (HLC_Update (ms_clock s) (Clock r))) as Hr by auto with nell.
  destruct (ms_records s !! rkey (normalize r)) as [l|] eqn:Hl; simpl.
  - assert (rkey l = rkey (normalize r)) as Hk by by apply (inv_keyed _ I).
    destruct (lww_cases l (normalize r)) as [[Hw _]|[Hw _]]; unfold lww in Hw; rewrite Hw.
    + exists l. split; [|by rewrite Hk; auto]. constructor; simpl; try done.
      * by rewrite Hk.
      * etrans; [by apply (inv_clock _ I _ _ Hl)|done].
      * by rewrite Hk, Hl.
    + exists (normalize r). split; [|by auto]. constructor; simpl; try done. by rewrite Hl.
  - exists (normalize r). split; [|by auto]. constructor; simpl; try done. by rewrite Hl.
Qed.

Lemma PutLocal_written now r s :
  tick_ok now (ms_clock s) ->
  written s (snd (MemoryStore_PutLocal now r s)) (fst (MemoryStore_PutLocal now r s)).
Proof.
  intros Ht%HLC_Tick_advances%hlc_gt_le. unfold MemoryStore_PutLocal.
  case_bool_decide as Hk; constructor; simpl; try done.
  - by rewrite bool_decide_true.
  - by rewrite bool_decide_false.
Qed.
Lemma Delete_written now c i s :
  ms_inv s -> tick_ok now (ms_clock s) ->
  written s (snd (MemoryStore_Delete now c i s)) (fst (MemoryStore_Delete now c i s)).
Proof.
  intros I Ht%HLC_Tick_advances%hlc_gt_le. unfold MemoryStore_Delete. simpl.
  set (key := record_key (or_default c) i).
  assert (rkey (default (new_record (or_default c) i) (ms_records s !! key)) = key) as Hk.
  { destruct (ms_records s !! key) eqn:Hr; [|done]. by apply (inv_keyed _ I). }
  case_bool_decide as He; constructor; simpl; rewrite ?rkey_mark_deleted, ?rkey_restamp, ?Hk; try done.
  - by rewrite bool_decide_true.
  - rewrite bool_decide_false by done. apply eq_None_not_Some in He. by rewrite He.
Qed.

Lemma Put_inv r s :
  ms_inv s -> tick_safe (Clock r) -> colon_free (Collection r) -> ms_inv (fst (MemoryStore_Put r s)).
Proof.
  intros I Hs Hc. destruct (Put_written r s I Hs) as (w & Hw & [->|Hl] & _).
  - eapply written_inv; [done| |done]. by apply or_default_ok.
  - eapply written_inv; [done| |done]. by apply (inv_colls _ I _ _ Hl).
Qed.
Lemma PutLocal_inv now r s :
  ms_inv s -> tick_ok now (ms_clock s) -> colon_free (Collection r) ->
  ms_inv (fst (MemoryStore_PutLocal now r s)).
Proof.
  intros I Ht Hc. eapply written_inv; [done| |by apply PutLocal_written].
  by apply or_default_ok.
Qed.
Lemma Delete_inv now c i s :
  ms_inv s -> tick_ok now (ms_clock s) -> colon_free c ->
  ms_inv (fst (MemoryStore_Delete now c i s)).
Proof.
  intros I Ht Hc. eapply written_inv; [done| |by apply Delete_written].
  unfold MemoryStore_Delete. simpl.
  destruct (ms_records s !! record_key (or_default c) i) eqn:Hr; simpl.
  - by apply (inv_colls _ I _ _ Hr).
  - by apply or_default_ok.
Qed.
Lemma GetChangesSince_inv h s : ms_inv s -> ms_inv (fst (MemoryStore_GetChangesSince h s)).
Proof.
  intros I. unfold MemoryStore_GetChangesSince. simpl.
  destruct (ms_changesDirty s); [|done]. destruct I. by constructor.
Qed.

(** ** Runs of operations *)

Inductive mem_op :=
| OpPut (r : NellRecord)
| OpPutLocal (now : Z) (r : NellRecord)
| OpDelete (now : Z) (collection id : string)
| OpGetChangesSince (since : HLC).

Definition mem_step (o : mem_op) (s : MemoryStore) : MemoryStore :=
  match o with
  | OpPut r => fst (MemoryStore_Put r s)
  | OpPutLocal now r => fst (MemoryStore_PutLocal now r s)
  | OpDelete now c i => fst (MemoryStore_Delete now c i s)
  | OpGetChangesSince h => fst (MemoryStore_GetChangesSince h s)
  end.
(** Collection names without a colon, and clock counters short of overflow. *)
Definition mem_op_ok (o : mem_op) (s : MemoryStore) : Prop :=
  match o with
  | OpPut r => tick_safe (Clock r) /\ colon_free (Collection r)
  | OpPutLocal now r => tick_ok now (ms_clock s) /\ colon_free (Collection r)
  | OpDelete now c i => tick_ok now (ms_clock s) /\ colon_free c
  | OpGetChangesSince h => True
  end.
Inductive mem_reach : MemoryStore -> Prop :=
| mem_reach_new now node : mem_reach (NewMemoryStore now node)
| mem_reach_step s o : mem_reach s -> mem_op_ok o s -> mem_reach (mem_step o s).

Lemma mem_step_inv o s : ms_inv s -> mem_op_ok o s -> ms_inv (mem_step o s).
Proof.
  intros I. destruct o; cbn [mem_step mem_op_ok].
  - intros [??]. by apply Put_inv.
  - intros [??]. by apply PutLocal_inv.
  - intros [??]. by apply Delete_inv.
  - intros _. by apply GetChangesSince_inv.
Qed.
Lemma mem_reach_ms_inv s : mem_reach s -> ms_inv s.
Proof. induction 1; auto using NewMemoryStore_inv, mem_step_inv. Qed.

(** ** Reading *)

Lemma record_at_some m k r : m !! k = Some r -> record_at m k = r.
Proof. unfold record_at. by intros ->. Qed.

Lemma ListAll_elem_aux c s r :
  ms_inv s -> r ∈ MemoryStore_ListAll c s <->
    ms_records s !! rkey r = Some r /\ Collection r = or_default c.
Proof.
  intros I. unfold MemoryStore_ListAll.
  assert (forall k, index_mem (ms_colIndex s) (or_default c) k <->
    k ∈ elements (default ∅ (ms_colIndex s !! or_default c))) as He.
  { intros k. unfold index_mem. by rewrite elem_of_elements. }
  transitivity (r ∈ record_at (ms_records s) <$> elements (default ∅ (ms_colIndex s !! or_default c))).
  { destruct (ms_colIndex s !! or_default c); simpl; [done|]. by rewrite elements_empty. }
  rewrite list_elem_of_fmap. setoid_rewrite <-He. setoid_rewrite (inv_index _ I). split.
  - intros (k & -> & r' & Hk & Hc). rewrite (record_at_some _ _ _ Hk).
    by rewrite (inv_keyed _ I _ _ Hk).
  - intros [Hr Hc]. exists (rkey r). split; [by rewrite (record_at_some _ _ _ Hr)|eauto].
Qed.
Lemma ListAll_nodup_aux c s : ms_inv s -> NoDup (MemoryStore_ListAll c s).
Proof.
  intros I. unfold MemoryStore_ListAll. destruct (ms_colIndex s !! _) as [set|] eqn:Hs; [|constructor].
  apply (NoDup_fmap_2_strong (record_at (ms_records s))); [|apply NoDup_elements].
  assert (forall k, k ∈ elements set -> exists r, ms_records s !! k = Some r) as Hk.
  { intros k Hk%elem_of_elements. destruct (proj1 (inv_index _ I (or_default c) k)) as (r & Hr & _); [|eauto].
    unfold index_mem. by rewrite Hs. }
  intros k1 k2 H1 H2. destruct (Hk _ H1) as [r1 E1], (Hk _ H2) as [r2 E2].
  rewrite (record_at_some _ _ _ E1), (record_at_some _ _ _ E2). intros ->.
  by rewrite <-(inv_keyed _ I _ _ E1), <-(inv_keyed _ I _ _ E2).
Qed.
Lemma List_filter c s :
  MemoryStore_List c s = filter (fun r => Deleted r = false) (MemoryStore_ListAll c s).
Proof. unfold MemoryStore_List, MemoryStore_ListAll. by case_match. Qed.

#[export] Instance clockKey_LessOrder : LessOrder clockKey_less.
Proof.
  assert (forall a b, clockKey_less a b = false <->
    hlc_gt (ck_clock a) (ck_clock b) \/ (ck_clock a = ck_clock b /\ str_ltb (ck_key a) (ck_key b) = false)) as H.
  { intros [[w c] k] [[w' c'] k']. unfold clockKey_less, hlc_gt. rewrite GreaterThan_spec. simpl.
    destruct (Z.eqb_spec w w'); simpl; [|rewrite Z.ltb_ge; split; [lia|]; intros [|[? _]]; [lia|congruence]].
    destruct (Z.eqb_spec c c'); simpl; [|rewrite Z.ltb_ge; split; [lia|]; intros [|[? _]]; [lia|congruence]].
    subst. split; [auto|]. intros [?|[_ ?]]; [lia|done]. }
  split.
  - intros a b. rewrite !H. destruct (hlc_trichotomy (ck_clock a) (ck_clock b)) as [|[->|]]; auto.
    destruct (str_ltb (ck_key a) (ck_key b)) eqn:Hs; auto using str_ltb_asym.
  - intros a b c. rewrite !H. intros [H1|[E1 H1]] [H2|[E2 H2]].
    + left. by eapply hlc_gt_trans.
    + left. by rewrite E2.
    + left. by rewrite <-E1.
    + right. split; [congruence|].
      destruct (str_ltb (ck_key c) (ck_key a)) eqn:H3; [|done].
      destruct (str_ltb_trichotomy (ck_key b) (ck_key c)) as [[Hs|Hs]|Hs]; try congruence.
      by rewrite (str_ltb_trans _ _ _ Hs H3) in H1.
Qed.

(** Sorted by [clockKey_less] means ascending by clock. *)
Lemma clockKey_not_less a b : clockKey_less b a = false -> hlc_le (ck_clock a) (ck_clock b).
Proof.
  destruct a as [[w c] k], b as [[w' c'] k']. unfold clockKey_less, hlc_le.
  rewrite GreaterThan_false. simpl.
  destruct (Z.eqb_spec w' w); simpl; [|rewrite Z.ltb_ge; lia].
  destruct (Z.eqb_spec c' c); simpl; [|rewrite Z.ltb_ge; lia]. lia.
Qed.

Definition ck_after (since : HLC) (ck : clockKey) : bool := HLC_GreaterThan (ck_clock ck) since.

Lemma changes_index_elem m ck :
  ck ∈ changes_index m <-> exists r, m !! ck_key ck = Some r /\ Clock r = ck_clock ck.
Proof.
  unfold changes_index. destruct (sort_Slice_sorts clockKey_less ((fun '(key, rec) => mkClockKey (Clock rec) key) <$> map_to_list m)) as [Hp _].
  rewrite Hp, list_elem_of_fmap. split.
  - intros ([k r] & -> & Hk%elem_of_map_to_list). eauto.
  - intros (r & Hr & Hc). exists (ck_key ck, r). rewrite elem_of_map_to_list, Hc. by destruct ck.
Qed.
Lemma changes_index_nodup m : NoDup (ck_key <$> changes_index m).
Proof.
  unfold changes_index.
  destruct (sort_Slice_sorts clockKey_less ((fun '(key, rec) => mkClockKey (Clock rec) key) <$> map_to_list m)) as [Hp _].
  rewrite Hp, <-list_fmap_compose.
  rewrite (list_fmap_ext _ fst) by (by intros ? []). apply NoDup_fst_map_to_list.
Qed.
Lemma changes_index_sorted m : StronglySorted (not_less clockKey_less) (changes_index m).
Proof. apply (sort_Slice_sorts clockKey_less). Qed.

Lemma changes_index_mono since m i j a b :
  i <= j -> changes_index m !! i = Some a -> changes_index m !! j = Some b ->
  ck_after since a = true -> ck_after since b = true.
Proof.
  intros Hij Ha Hb. unfold ck_after. destruct (decide (i = j)) as [->|]; [by simplify_eq|].
  assert (hlc_le (ck_clock a) (ck_clock b)) as Hle.
  { apply clockKey_not_less. eapply sorted_lookup; [apply changes_index_sorted| |done..]. lia. }
  intros Hg. eapply hlc_le_gt_trans; [apply Hle|apply Hg].
Qed.

(** The changes after [since], as the scan of the whole map in clock order. *)
Definition changes_after (since : HLC) (m : gmap string NellRecord) : list NellRecord :=
  omap (fun ck => m !! ck_key ck) (filter (fun ck => ck_after since ck = true) (changes_index m)).

Lemma GetChangesSince_scan since s :
  ms_inv s -> snd (MemoryStore_GetChangesSince since s) = changes_after since (ms_records s).
Proof.
  intros I. unfold MemoryStore_GetChangesSince, changes_after. cbn [snd].
  set (s' := if ms_changesDirty s then MemoryStore_rebuildChangesIndex s else s).
  assert (ms_records s' = ms_records s) as -> by (unfold s'; by destruct (ms_changesDirty s)).
  assert (ms_changesIdx s' = changes_index (ms_records s)) as ->.
  { unfold s'. destruct (ms_changesDirty s) eqn:Hd; [done|]. by apply (inv_cache _ I). }
  f_equal. apply sort_Search_drop; [|eauto using changes_index_mono].
  intros i x ->. unfold ck_after, HLC_GreaterThan. simpl.
  destruct (Z.eqb_spec (WallTime (ck_clock x)) (WallTime since)) as [He|]; simpl.
  - rewrite He, Z.ltb_irrefl. done.
  - by rewrite orb_false_r.
Qed.

Lemma changes_after_elem since m r :
  keyed m -> r ∈ changes_after since m <-> m !! rkey r = Some r /\ hlc_gt (Clock r) since.
Proof.
  intros Hm. unfold changes_after. rewrite list_elem_of_omap. split.
  - intros (ck & Hf & Hr). apply list_elem_of_filter in Hf as [Ha (r' & Hr' & Hc)%changes_index_elem].
    rewrite Hr in Hr'. injection Hr' as <-. unfold ck_after in Ha. rewrite <-Hc in Ha.
    by rewrite (Hm _ _ Hr).
  - intros [Hr Hg]. exists (mkClockKey (Clock r) (rkey r)). split; [|done].
    rewrite list_elem_of_filter, changes_index_elem. split; [done|]. eauto.
Qed.

Lemma changes_after_keys m l :
  keyed m -> Forall (fun ck => exists r, m !! ck_key ck = Some r /\ Clock r = ck_clock ck) l ->
  rkey <$> omap (fun ck => m !! ck_key ck) l = ck_key <$> l /\
  Clock <$> omap (fun ck => m !! ck_key ck) l = ck_clock <$> l.
Proof.
  intros Hm. induction 1 as [|ck l (r & Hr & Hc) _ [IH1 IH2]]; [done|].
  cbn [omap list_omap]. rewrite Hr. cbn [fmap list_fmap] in *. rewrite IH1, IH2, Hc.
  by rewrite (Hm _ _ Hr).
Qed.
Lemma StronglySorted_filter {A} (R : relation A) (P : A -> Prop) `{forall x, Decision (P x)} l :
  StronglySorted R l -> StronglySorted R (filter P l).
Proof.
  induction 1 as [|x l Hs IH Hx]; [constructor|]. rewrite filter_cons. case_decide; [|done].
  constructor; [done|]. rewrite Forall_forall in *. intros y [_ Hy]%list_elem_of_filter. auto.
Qed.
Lemma changes_after_sorted since m :
  keyed m -> StronglySorted hlc_le (Clock <$> changes_after since m) /\ NoDup (changes_after since m).
Proof.
  intros Hm. unfold changes_after.
  destruct (changes_after_keys m (filter (fun ck => ck_after since ck = true) (changes_index m))) as [H1 H2]; [done| |].
  { apply Forall_forall. intros ck [_ Hc]%list_elem_of_filter. by apply changes_index_elem. }
  split.
  - rewrite H2. apply (StronglySorted_fmap ck_clock (not_less clockKey_less)).
    + intros a b. apply clockKey_not_less.
    + apply StronglySorted_filter, changes_index_sorted.
  - apply (NoDup_fmap_1 rkey). rewrite H1.
    eapply sublist_NoDup; [apply (changes_index_nodup m)|]. f_equiv. apply sublist_filter.
Qed.

(** Search candidates of a keyed map have one id each. *)
Lemma ms_candidates_elem c m r :
  keyed m -> r ∈ ms_candidates c m <-> m !! rkey r = Some r /\ is_candidate (or_default c) r = true.
Proof.
  intros Hm. unfold ms_candidates. rewrite list_elem_of_filter, list_elem_of_fmap. split.
  - intros [Hc ([k r'] & -> & Hk%elem_of_map_to_list)]. simpl in *. by rewrite (Hm _ _ Hk).
  - intros [Hr Hc]. split; [done|]. exists (rkey r, r). split; [done|]. by apply elem_of_map_to_list.
Qed.
Lemma is_candidate_collection c r : is_candidate c r = true -> Collection r = c.
Proof. unfold is_candidate. rewrite !andb_true_iff, bool_decide_eq_true. tauto. Qed.
Lemma ms_candidates_ids c m : keyed m -> ids_unique (ms_candidates c m).
Proof.
  intros Hm a b [Ha Ca]%ms_candidates_elem [Hb Cb]%ms_candidates_elem Hid; [|done..].
  apply is_candidate_collection in Ca, Cb. unfold rkey in Ha, Hb.
  rewrite Ca, Hid in Ha. rewrite Cb in Hb. congruence.
Qed.
Lemma search_top_k_records numCPU c m query limit out :
  0 < numCPU -> keyed m -> scores_ok (score_chunk query (ms_candidates c m)) ->
  (if bool_decide (ms_candidates c m = []) then out = [] else search_returns numCPU (ms_candidates c m) query limit out)
  <-> out = top_k (ms_candidates c m) query limit.
Proof.
  intros Hn Hm Hs. case_bool_decide as He.
  - rewrite He. unfold top_k, ranking, cut. change (sort_Slice rank_less (score_chunk query [])) with (@nil scoredRecord). case_bool_decide; rewrite ?take_nil; done.
  - apply search_top_k_aux; [done|by apply ms_candidates_ids|done].
Qed.

(** A local write's stamp is later than every stored one. *)
Lemma written_dominates s w now :
  ms_inv s -> tick_ok now (ms_clock s) -> Clock w = HLC_Tick now (ms_clock s) ->
  map_Forall (fun _ r => beats w r) (ms_records s).
Proof.
  intros I Ht Hw k r Hr. left. rewrite Hw.
  eapply hlc_gt_le_trans; [by apply HLC_Tick_advances|]. by apply (inv_clock _ I _ _ Hr).
Qed.
Lemma Get_lookup c i s :
  MemoryStore_Get c i s =
  match ms_records s !! record_key (or_default c) i with Some r => Ok r | None => Err ErrRecordNotFound end.
Proof. done. Qed.
Definition mem_put_all (rs : list NellRecord) (s : MemoryStore) : MemoryStore :=
  foldl (fun s r => fst (MemoryStore_Put r s)) s rs.
Lemma mem_put_all_records rs s :
  ms_records (mem_put_all rs s) = merge (ms_records s) (map normalize rs).
Proof.
  revert s. induction rs as [|r rs IH]; intros s; [done|].
  unfold mem_put_all in *. simpl foldl. rewrite IH, Put_records. done.
Qed.

(** ** Properties *)

(** A store after two writes and a deletion, for the witnesses. *)
Definition ms_demo : MemoryStore :=
  mem_step (OpDelete 3 "c" "2")
    (mem_step (OpPutLocal 2 (new_record "c" "2")) (mem_step (OpPutLocal 1 (new_record "c" "1")) (NewMemoryStore 0 "n"))).
Lemma tick_ok_later now h : (WallTime h < now)%Z -> tick_ok now h.
Proof. by left. Qed.
Lemma ms_demo_reach : mem_reach ms_demo.
Proof.
  unfold ms_demo. repeat (apply mem_reach_step; [|by split; apply (bool_decide_unpack _)]). apply mem_reach_new.
Qed.

(** C4. Every state the in-memory store reaches by its operations, with collection names
    free of colons and counters short of overflow, keeps its indexes right: each record
    sits under its own key, the collection index lists exactly the keys of the
    collection's records, the store's clock and knowledge vector cover every stored
    record, and a clean clock index is what a rebuild would give. *)
Theorem MemoryStore_invariant s : mem_reach s -> ms_inv s.
Proof. apply mem_reach_ms_inv. Qed.
Lemma MemoryStore_invariant_witness : ms_inv ms_demo.
Proof. apply MemoryStore_invariant. exact ms_demo_reach. Defined.

(** C18. [Put] on every branch: the record (its collection defaulted) is accepted when
    its key is free or it beats the stored record, by a later clock or by the greater
    node id on equal clocks; the returned record is the winner, it is what [Get] then
    finds, every other key is untouched, and the store's clock merges the incoming one. *)
Theorem MemoryStore_Put_lww r s :
  let '(s', (accepted, winner)) := MemoryStore_Put r s in
  let key := record_key (or_default (Collection r)) (ID r) in
  accepted = match ms_records s !! key with None => true | Some l => bool_decide (beats r l) end /\
  winner = (if accepted then normalize r else default (normalize r) (ms_records s !! key)) /\
  MemoryStore_Get (Collection r) (ID r) s' = Ok winner /\
  (forall k, k <> key -> ms_records s' !! k = ms_records s !! k) /\
  ms_clock s' = HLC_Update (ms_clock s) (Clock r).
Proof.
  pose proof (Put_records r s) as Hr. pose proof (Put_clock r s) as Hc. pose proof (Put_result r s) as Hres.
  destruct (MemoryStore_Put r s) as [s' [acc w]]. cbn [fst snd] in *.
  rewrite Get_lookup, Hr. rewrite put_record_lookup, rkey_normalize, decide_True by done.
  rewrite rkey_normalize in Hres. set (key := record_key _ _) in *.
  destruct (ms_records s !! key) as [l|] eqn:Hl; injection Hres as -> ->.
  - split_and!; try done.
    + by apply bool_decide_ext.
    + unfold lww. case_bool_decide as Hb; [by apply lww_beats|by apply lww_not_beats].
    + intros k Hk. by rewrite put_record_lookup, rkey_normalize, decide_False by done.
  - split_and!; try done. intros k Hk. by rewrite put_record_lookup, rkey_normalize, decide_False by done.
Qed.

(** A local write wins: the record [PutLocal] returns is the given one restamped, its
    stamp beats every record in the store, [Get] returns it, and so does every key
    elsewhere stay as it was. *)
Theorem MemoryStore_PutLocal_wins now r s :
  ms_inv s -> tick_ok now (ms_clock s) ->
  let '(s', w) := MemoryStore_PutLocal now r s in
  w = mkRecord (or_default (Collection r)) (ID r) (Type_ r) (Payload r) (Vector r)
        (HLC_Tick now (ms_clock s)) (ms_nodeID s) (Deleted r) /\
  map_Forall (fun _ x => beats w x) (ms_records s) /\
  MemoryStore_Get (Collection r) (ID r) s' = Ok w /\
  ms_records s' = <[rkey w := w]> (ms_records s).
Proof.
  intros I Ht. pose proof (PutLocal_written now r s Ht) as Hw.
  destruct (MemoryStore_PutLocal now r s) as [s' w] eqn:He. cbn [fst snd] in Hw.
  assert (w = snd (MemoryStore_PutLocal now r s)) as Hwe by by rewrite He.
  assert (w = restamp (HLC_Tick now (ms_clock s)) (ms_nodeID s) (normalize r)) as ->.
  { rewrite Hwe. unfold MemoryStore_PutLocal. by case_bool_decide. }
  split_and!; [done|by eapply written_dominates|  |apply Hw].
  rewrite Get_lookup, (wr_records _ _ _ Hw). rewrite rkey_restamp, rkey_normalize. by rewrite lookup_insert_eq.
Qed.
Lemma MemoryStore_PutLocal_wins_witness :
  exists s' w, MemoryStore_PutLocal 9 (new_record "" "1") ms_demo = (s', w) /\
    map_Forall (fun _ x => beats w x) (ms_records ms_demo).
Proof.
  pose proof (MemoryStore_PutLocal_wins 9 (new_record "" "1") ms_demo
    (mem_reach_ms_inv _ ms_demo_reach) (tick_ok_later 9 (ms_clock ms_demo) eq_refl)) as H.
  destruct (MemoryStore_PutLocal 9 (new_record "" "1") ms_demo) as [s' w].
  exists s', w. split; [reflexivity|]. apply H.
Defined.

(** [Delete] writes a tombstone: the stored record (or a fresh one, when there was
    none) marked deleted, its content kept, with a stamp that beats every record in the
    store.  [Get] then returns the tombstone, [ListAll] lists it and [List] does not. *)
Theorem MemoryStore_Delete_tombstone now c i s :
  ms_inv s -> tick_ok now (ms_clock s) -> colon_free c ->
  let old := default (new_record (or_default c) i) (ms_records s !! record_key (or_default c) i) in
  let '(s', w) := MemoryStore_Delete now c i s in
  w = mkRecord (Collection old) (ID old) (Type_ old) (Payload old) (Vector old)
        (HLC_Tick now (ms_clock s)) (ms_nodeID s) true /\
  map_Forall (fun _ x => beats w x) (ms_records s) /\
  ms_records s' = <[rkey w := w]> (ms_records s) /\ rkey w = record_key (or_default c) i /\
  MemoryStore_Get c i s' = Ok w /\
  w ∈ MemoryStore_ListAll (Collection w) s' /\ (forall r, r ∈ MemoryStore_List c s' -> rkey r <> rkey w).
Proof.
  intros I Ht Hc old. pose proof (Delete_written now c i s I Ht) as Hw.
  pose proof (Delete_inv now c i s I Ht Hc) as I'.
  destruct (MemoryStore_Delete now c i s) as [s' w] eqn:He. cbn [fst snd] in *.
  assert (w = mark_deleted (restamp (HLC_Tick now (ms_clock s)) (ms_nodeID s) old)) as Hwe.
  { change w with (snd (s', w)). rewrite <-He. unfold MemoryStore_Delete. by case_bool_decide. }
  assert (rkey w = record_key (or_default c) i) as Hk.
  { rewrite Hwe, rkey_mark_deleted, rkey_restamp. unfold old.
    destruct (ms_records s !! record_key (or_default c) i) as [l|] eqn:Hl; [|done]. by apply (inv_keyed _ I). }
  assert (ms_records s' !! rkey w = Some w) as Hs by (rewrite (wr_records _ _ _ Hw); apply lookup_insert_eq).
  split_and!; [done|eapply written_dominates; [done..|by rewrite Hwe]|apply Hw|done| | |].
  - by rewrite Get_lookup, <-Hk, Hs.
  - apply ListAll_elem_aux; [done|]. split; [done|]. symmetry. apply or_default_id.
    apply (inv_colls _ I' _ _ Hs).
  - intros r. rewrite List_filter, list_elem_of_filter, ListAll_elem_aux by done.
    intros (Hd & Hr & _) Hrk. rewrite Hrk, Hs in Hr. injection Hr as <-. by rewrite Hwe in Hd.
Qed.
Lemma MemoryStore_Delete_tombstone_witness :
  exists w, MemoryStore_Get "c" "1" (fst (MemoryStore_Delete 9 "c" "1" ms_demo)) = Ok w.
Proof.
  pose proof (MemoryStore_Delete_tombstone 9 "c" "1" ms_demo (mem_reach_ms_inv _ ms_demo_reach)
    (tick_ok_later 9 (ms_clock ms_demo) eq_refl)) as H.
  destruct (MemoryStore_Delete 9 "c" "1" ms_demo) as [s' w].
  exists w. apply H. by apply (bool_decide_unpack _).
Defined.

(** [List] and [ListAll] are exact: each record of the collection once, and nothing
    else; [List] (and [Query]) leaves out exactly the tombstones. *)
Theorem MemoryStore_List_exact c s :
  ms_inv s ->
  (forall r, r ∈ MemoryStore_ListAll c s <-> ms_records s !! rkey r = Some r /\ Collection r = or_default c) /\
  NoDup (MemoryStore_ListAll c s) /\
  MemoryStore_List c s = filter (fun r => Deleted r = false) (MemoryStore_ListAll c s) /\
  MemoryStore_Query c s = MemoryStore_List c s.
Proof.
  intros I. split_and!; [by intros; apply ListAll_elem_aux|by apply ListAll_nodup_aux|apply List_filter|done].
Qed.
Lemma MemoryStore_List_exact_witness :
  NoDup (MemoryStore_ListAll "c" ms_demo) /\ length (MemoryStore_ListAll "c" ms_demo) = 2 /\
  length (MemoryStore_List "c" ms_demo) = 1.
Proof.
  split; [|by vm_compute]. apply (MemoryStore_List_exact "c" ms_demo). apply mem_reach_ms_inv, ms_demo_reach.
Defined.

(** [GetChangesSince], with its cached index and binary search, returns exactly the
    stored records whose clock is strictly after the bound, each once, in ascending
    clock order. *)
Theorem MemoryStore_GetChangesSince_exact since s :
  ms_inv s ->
  let '(s', out) := MemoryStore_GetChangesSince since s in
  (forall r, r ∈ out <-> ms_records s !! rkey r = Some r /\ hlc_gt (Clock r) since) /\
  NoDup out /\ StronglySorted hlc_le (Clock <$> out) /\ ms_records s' = ms_records s /\ ms_inv s'.
Proof.
  intros I. pose proof (GetChangesSince_scan since s I) as Hs.
  pose proof (GetChangesSince_inv since s I) as I'.
  assert (ms_records (fst (MemoryStore_GetChangesSince since s)) = ms_records s) as Hr.
  { unfold MemoryStore_GetChangesSince. simpl. by destruct (ms_changesDirty s). }
  destruct (MemoryStore_GetChangesSince since s) as [s' out]. cbn [fst snd] in *. subst out.
  split_and!; [intros; apply changes_after_elem, I|by apply changes_after_sorted, I..|done|done].
Qed.
Lemma MemoryStore_GetChangesSince_exact_witness :
  NoDup (snd (MemoryStore_GetChangesSince (mkHLC 1 0) ms_demo)).
Proof.
  pose proof (MemoryStore_GetChangesSince_exact (mkHLC 1 0) ms_demo (mem_reach_ms_inv _ ms_demo_reach)) as H.
  destruct (MemoryStore_GetChangesSince (mkHLC 1 0) ms_demo) as [s' out]. apply H.
Defined.

(** C40. [SearchSimilar] is deterministic: in a store that satisfies the invariant, while
    no score is NaN, every outcome the goroutines, the map iteration and the unstable
    sort allow is the sequential top-k of the collection's live vectors, and that
    outcome is possible. *)
Theorem MemoryStore_SearchSimilar_exact numCPU c query limit s out :
  0 < numCPU -> ms_inv s -> scores_ok (score_chunk query (ms_candidates c (ms_records s))) ->
  MemoryStore_SearchSimilar numCPU c query limit s out <->
  out = top_k (ms_candidates c (ms_records s)) query limit.
Proof. intros Hn I Hs. apply search_top_k_records; [done|apply I|done]. Qed.
Definition ms_docs : MemoryStore :=
  mem_step (OpPut doc_b) (mem_step (OpPut doc_a) (NewMemoryStore 0 "n")).
Lemma ms_docs_reach : mem_reach ms_docs.
Proof.
  unfold ms_docs. repeat (apply mem_reach_step; [|by split; apply (bool_decide_unpack _)]). apply mem_reach_new.
Qed.
Lemma MemoryStore_SearchSimilar_exact_witness :
  MemoryStore_SearchSimilar 4 "c" [1065353216; 0]%Z 1 ms_docs [doc_a].
Proof.
  apply (MemoryStore_SearchSimilar_exact 4 "c" [1065353216; 0]%Z 1 ms_docs [doc_a]).
  - lia.
  - apply mem_reach_ms_inv, ms_docs_reach.
  - unfold scores_ok. apply (bool_decide_unpack _). vm_compute. exact I.
  - vm_compute. reflexivity.
Defined.

(** The composite key is ambiguous: with a colon in a collection name two different
    records share one key, the later write replaces the other record, and [List] of the
    written collection does not show it. *)
Theorem MemoryStore_key_collision :
  let a := new_record "x:y" "z" in let b := mkRecord "x" "y:z" "" [] [] (mkHLC 1 0) "n" false in
  let s := fst (MemoryStore_Put b (fst (MemoryStore_Put a (NewMemoryStore 0 "n")))) in
  Collection a <> Collection b /\ ID a <> ID b /\
  MemoryStore_Get (Collection a) (ID a) s = Ok b /\ MemoryStore_List (Collection b) s = [].
Proof. vm_compute. split_and!; try done. Qed.
