(* ===== verification/StoreTypes.v ===== *)
(** * The types of a store's state

    Every clock of a [MemoryStore] fits its Go fields, and every record it holds fits the
    16- and 32-bit lengths of the binary codec, whatever operations with arguments of
    those sizes ran, overflow of a counter included; so what it sends is what a peer
    reads. *)
From S2P Require Import Prelude BigEndian Hlc Record KnowledgeVector Conflict GoSort MemStore.
Local Open Scope Z_scope.

Definition name_ok (s : string) : Prop := in_u 16 (strlen s).
(** The arguments of an operation: records the codec carries, names it can, 64-bit times. *)
Definition op_typed (o : mem_op) : Prop :=
  match o with
  | OpPut r => record_ok r
  | OpPutLocal now r => in_s 64 now /\ record_ok r
  | OpDelete now c i => in_s 64 now /\ name_ok c /\ name_ok i
  | OpGetChangesSince since => True
  end.
Record store_typed (s : MemoryStore) : Prop := {
  ty_node : name_ok (ms_nodeID s);
  ty_clock : hlc_ok (ms_clock s);
  ty_records : map_Forall (fun _ r => record_ok r) (ms_records s);
  ty_kv : map_Forall (fun n c => name_ok n /\ hlc_ok c) (ms_kv s);
  ty_changes : Forall (fun ck => hlc_ok (ck_clock ck)) (ms_changesIdx s)
}.

Lemma Tick_typed now h : in_s 64 now -> hlc_ok h -> hlc_ok (HLC_Tick now h).
Proof.
  intros Hn [Hw Hc]. unfold HLC_Tick. destruct (_ <? _); split; try done. by apply wrap_s_range.
Qed.
Lemma Update_typed h p : hlc_ok h -> hlc_ok p -> hlc_ok (HLC_Update h p).
Proof.
  intros [Hw Hc] [Hw' Hc']. unfold HLC_Update. destruct (_ <? _); [|destruct (_ && _)]; split; try done; by apply wrap_s_range.
Qed.
Lemma name_ok_default c : name_ok c -> name_ok (or_default c).
Proof. unfold or_default. by case_bool_decide. Qed.
Lemma record_typed r : record_ok r -> record_ok (with_collection (or_default (Collection r)) r).
Proof. intros (? & ? & ?). split_and!; [done|by apply name_ok_default|apply H1..]. Qed.
Lemma kv_Update_typed kv n c : map_Forall (fun n c => name_ok n /\ hlc_ok c) kv -> name_ok n -> hlc_ok c ->
  map_Forall (fun n c => name_ok n /\ hlc_ok c) (KnowledgeVector_Update kv n c).
Proof.
  intros Hkv Hn Hc. unfold KnowledgeVector_Update. destruct (kv !! n); [destruct (HLC_GreaterThan c h); [|done]|]; by apply map_Forall_insert_2.
Qed.

(** A write of a typed record, after which the changes index is stale. *)
Lemma write_typed s c k r n ix : store_typed s -> hlc_ok c -> record_ok r -> name_ok n ->
  store_typed (mkMemoryStore (ms_nodeID s) c (<[k := r]> (ms_records s)) (KnowledgeVector_Update (ms_kv s) n (Clock r)) ix (ms_changesIdx s) true).
Proof.
  intros [Hn Hc Hr Hk Hch] Hc' Hr' Hn'. split; cbn; try done; [by apply map_Forall_insert_2|].
  apply kv_Update_typed; [done..|apply Hr'].
Qed.
Lemma mem_step_typed o s : store_typed s -> op_typed o -> store_typed (mem_step o s).
Proof.
  intros T. pose proof T as [Hn Hc Hr Hk Hch]. destruct o as [r|now r|now c i|h]; cbn [op_typed mem_step].
  - intros Hx. unfold MemoryStore_Put. apply record_typed in Hx. set (r' := with_collection _ r) in *.
    assert (hlc_ok (HLC_Update (ms_clock s) (Clock r'))) as Hu by (apply Update_typed; [done|apply Hx]).
    change (ms_records (ms_set_clock (HLC_Update (ms_clock s) (Clock r')) s)) with (ms_records s).
    destruct (ms_records s !! _) as [l|] eqn:Hl.
    + assert (record_ok (deref (ResolveConflict l r') l r')) as Hw.
      { destruct (ResolveConflict l r'); [|done]. by eapply Hr. }
      apply (write_typed s); [done..|apply Hw].
    + apply (write_typed s); [done..|apply Hx].
  - intros [Hnow Hx]. apply record_typed in Hx. unfold MemoryStore_PutLocal. set (r' := with_collection _ r) in *.
    assert (hlc_ok (HLC_Tick now (ms_clock s))) as Ht by by apply Tick_typed.
    assert (record_ok (restamp (HLC_Tick now (ms_clock s)) (ms_nodeID s) r')) as Hw.
    { destruct Hx as (? & ? & ? & ? & ? & ? & ? & ?). by split_and!. }
    cbv zeta. case_bool_decide; by apply (write_typed s).
  - intros (Hnow & Hcn & Hin). unfold MemoryStore_Delete. apply name_ok_default in Hcn.
    assert (hlc_ok (HLC_Tick now (ms_clock s))) as Ht by by apply Tick_typed.
    assert (record_ok (default (new_record (or_default c) i) (ms_records s !! record_key (or_default c) i))) as Hx.
    { destruct (ms_records s !! _) as [x|] eqn:Hl; [by eapply Hr|]. cbn.
      split_and!; try done; constructor. }
    set (x := default _ _) in *.
    assert (record_ok (mark_deleted (restamp (HLC_Tick now (ms_clock s)) (ms_nodeID s) x))) as Hw.
    { destruct Hx as (? & ? & ? & ? & ? & ? & ? & ?). by split_and!. }
    cbv zeta. case_bool_decide; by apply (write_typed s).
  - intros _. unfold MemoryStore_GetChangesSince. cbn [fst]. destruct (ms_changesDirty s); [|done].
    split; cbn; try done. unfold changes_index. rewrite Forall_forall. intros ck Hck.
    unfold sort_Slice in Hck. rewrite merge_sort_Permutation in Hck. apply list_elem_of_fmap in Hck as ([k r] & -> & Hin).
    apply elem_of_map_to_list in Hin. cbn. apply (Hr k r Hin).
Qed.
Lemma new_typed now node : in_s 64 now -> name_ok node -> store_typed (NewMemoryStore now node).
Proof. intros. split; cbn; try done. Qed.
Lemma run_typed ops now node : in_s 64 now -> name_ok node -> Forall op_typed ops ->
  store_typed (foldl (fun s o => mem_step o s) (NewMemoryStore now node) ops).
Proof.
  intros Hn Hno. assert (store_typed (NewMemoryStore now node)) as T by by apply new_typed. revert T.
  generalize (NewMemoryStore now node). induction ops as [|o ops IH]; intros s T Hops; [done|].
  apply Forall_cons in Hops as [Ho Hops]. apply IH; [by apply mem_step_typed|done].
Qed.

(** C20. The state stays within its types: after any operations whose arguments the codec
    can carry, however far their clocks run ahead and however often a counter
    overflows, the store's clock, its vector, its changes index and every record fit
    the fields that hold them; so whatever [Get] or [GetChangesSince] returns is encoded
    to bytes that decode to the same record, and the vector, while it has fewer than
    65536 nodes, to bytes that decode to the same vector. *)
Theorem MemoryStore_well_typed ops now node :
  in_s 64 now -> name_ok node -> Forall op_typed ops ->
  let s := foldl (fun s o => mem_step o s) (NewMemoryStore now node) ops in
  store_typed s /\
  (forall c i r, MemoryStore_Get c i s = Ok r -> exists b, Record_MarshalBinary r = @Ok unit _ b /\ forall x, Record_UnmarshalBinary (b ++ x) = Ok r) /\
  (forall since r, r ∈ snd (MemoryStore_GetChangesSince since s) ->
    exists b, Record_MarshalBinary r = @Ok unit _ b /\ forall x, Record_UnmarshalBinary (b ++ x) = Ok r) /\
  (in_u 16 (Z.of_nat (size (ms_kv s))) -> forall l1 l2, l1 ≡ₚ map_to_list (ms_kv s) -> l2 ≡ₚ map_to_list (ms_kv s) ->
    exists b, KnowledgeVector_MarshalBinary l1 l2 = @Ok unit _ b /\ KnowledgeVector_UnmarshalBinary ∅ b = Ok (ms_kv s)).
Proof.
  intros Hnow Hnode Hops s. pose proof (run_typed ops now node Hnow Hnode Hops) as T. change (store_typed s) in T.
  assert (forall r, record_ok r -> exists b, Record_MarshalBinary r = @Ok unit _ b /\ forall x, Record_UnmarshalBinary (b ++ x) = Ok r) as Hcodec.
  { intros r Hr. exists (layout r). split; [apply MarshalBinary_ok|]. intros. by apply Unmarshal_layout. }
  split_and!; [done| | |].
  - intros c i r. unfold MemoryStore_Get. destruct (ms_records s !! _) as [x|] eqn:Hx; [|done]. intros [= <-].
    apply Hcodec. by eapply (ty_records _ T).
  - intros since r Hr. apply Hcodec. unfold MemoryStore_GetChangesSince in Hr. cbn [snd] in Hr.
    apply list_elem_of_omap in Hr as (ck & _ & Hck). eapply (ty_records _ T (ck_key ck)).
    by destruct (ms_changesDirty s).
  - intros Hsize l1 l2 P1 P2. destruct (kv_roundtrip_aux (E:=unit) (ms_kv s) ∅ l1 l2 [] P1 P2 Hsize (ty_kv _ T)) as (b & Hm & Hu).
    exists b. split; [done|]. by rewrite app_nil_r, map_union_empty in Hu.
Qed.
(** A record at the end of its millisecond, whose receipt wraps the store's counter. *)
Definition wrap_record : NellRecord := mkRecord "" "1" "text" [] [] (mkHLC 5 (2 ^ 31 - 1)) "q" false.
Definition wrap_ops : list mem_op := [OpPut wrap_record; OpPutLocal 3 wrap_record].
Lemma MemoryStore_well_typed_witness :
  let s := foldl (fun s o => mem_step o s) (NewMemoryStore 0 "n") wrap_ops in
  store_typed s /\ ms_clock s = mkHLC 5 (- 2 ^ 31 + 1).
Proof.
  assert (record_ok wrap_record) as Hr.
  { unfold record_ok, hlc_ok, in_s, in_u. split_and!; try done; constructor. }
  split; [|vm_compute; reflexivity].
  apply (MemoryStore_well_typed wrap_ops 0 "n").
  - split; vm_compute; [discriminate|reflexivity].
  - split; vm_compute; [discriminate|reflexivity].
  - constructor; [exact Hr|constructor; [split; [split; vm_compute; [discriminate|reflexivity]|exact Hr]|constructor]].
Defined.
