(* ===== verification/LogFrame.v ===== *)
(** * The log file (logstore/log.go, frame I/O)

    The file, Go's buffered writer over it, the frame format and the header scan of
    [replay].  Zstd is a library: its two calls are the class [Zstd], and what the
    store relies on is [ZstdLaws]: decompressing what was compressed gives it back. *)
From S2P Require Import Prelude BigEndian Hlc Record.
Local Open Scope Z_scope.

Class Zstd := {
  EncodeAll : bytes -> bytes;
  DecodeAll : bytes -> option bytes
}.
Class ZstdLaws `{Zstd} : Prop := {
  zstd_roundtrip : forall raw, DecodeAll (EncodeAll raw) = Some raw
}.

(** ** os.File and bufio.Writer *)

Inductive io_err := ErrClosed.
#[export] Instance io_err_eq_dec : EqDecision io_err.
Proof. solve_decision. Defined.

(** A file opened with [O_APPEND]; writing to it once it is closed is an error. *)
Record File := mkFile { f_data : bytes; f_closed : bool }.
Definition File_Write (p : bytes) (f : File) : File * option io_err :=
  if f_closed f then (f, Some ErrClosed) else (mkFile (f_data f ++ p) false, None).

(** The default buffer size of [bufio.NewWriter]; an error sticks. *)
Definition bufio_size : nat := 4096.
Local Arguments bufio_size : simpl never.
Record Writer := mkWriter { w_buf : bytes; w_err : option io_err }.
Definition NewWriter : Writer := mkWriter [] None.

Definition Writer_Flush (w : Writer) (f : File) : Writer * File * option io_err :=
  match w_err w with
  | Some e => (w, f, Some e)
  | None =>
      if bool_decide (w_buf w = []) then (w, f, None)
      else match File_Write (w_buf w) f with
           | (f, Some e) => (mkWriter (w_buf w) (Some e), f, Some e)
           | (f, None) => (mkWriter [] None, f, None)
           end
  end.

(** The loop of [Write]: while [p] does not fit, fill the buffer and flush it, or, when it
    is empty, write [p] straight to the file.  Three turns always end it. *)
Fixpoint write_loop (fuel : nat) (p : bytes) (w : Writer) (f : File) : bytes * Writer * File :=
  match fuel with
  | O => (p, w, f)
  | S fuel =>
      if bool_decide (bufio_size - length (w_buf w) < length p)%nat && bool_decide (w_err w = None) then
        if bool_decide (w_buf w = []) then
          match File_Write p f with
          | (f, e) => write_loop fuel (if bool_decide (e = None) then [] else p) (mkWriter [] e) f
          end
        else
          let n := (bufio_size - length (w_buf w))%nat in
          let '(w, f, _) := Writer_Flush (mkWriter (w_buf w ++ take n p) (w_err w)) f in
          write_loop fuel (drop n p) w f
      else (p, w, f)
  end.
Definition Writer_Write (p : bytes) (w : Writer) (f : File) : Writer * File * option io_err :=
  let '(p, w, f) := write_loop 3 p w f in
  match w_err w with
  | Some e => (w, f, Some e)
  | None => (mkWriter (w_buf w ++ p) None, f, None)
  end.

(** What has been written so far, whether it reached the file or not. *)
Definition stream (w : Writer) (f : File) : bytes := f_data f ++ w_buf w.
(** Nothing has failed: the file is open, the buffer within its size. *)
Definition writer_ok (w : Writer) (f : File) : Prop :=
  f_closed f = false /\ w_err w = None /\ (length (w_buf w) <= bufio_size)%nat.

Lemma Writer_Flush_ok w f w' f' e :
  writer_ok w f -> Writer_Flush w f = (w', f', e) ->
  e = None /\ writer_ok w' f' /\ w_buf w' = [] /\ f_data f' = stream w f.
Proof.
  intros (Hf & He & Hb). unfold Writer_Flush, File_Write, stream. rewrite He, Hf.
  case_bool_decide as H; intros [= <- <- <-]; unfold writer_ok; cbn [f_data f_closed w_buf w_err].
  - rewrite H, app_nil_r. split_and!; try done. apply Nat.le_0_l.
  - split_and!; try done. apply Nat.le_0_l.
Qed.

Lemma write_loop_ok fuel : forall p w f p' w' f',
  writer_ok w f -> write_loop fuel p w f = (p', w', f') ->
  (w_buf w <> [] -> (2 <= fuel)%nat) -> (1 <= fuel)%nat ->
  writer_ok w' f' /\ stream w' f' ++ p' = stream w f ++ p /\
  (length (w_buf w') + length p' <= bufio_size)%nat /\ exists q, f_data f' = f_data f ++ q.
Proof.
  induction fuel as [|fuel IH]; intros p w f p' w' f' Hok Hw Hfuel1 Hfuel2; [lia|].
  pose proof Hok as (Hf & He & Hb). cbn [write_loop] in Hw. rewrite He in Hw.
  case_bool_decide as Hfit; cbn [andb] in Hw.
  2: { injection Hw as <- <- <-. split_and!; [done|done|lia|]. exists []. by rewrite app_nil_r. }
  rewrite bool_decide_true in Hw by done. case_bool_decide as Hempty.
  - unfold File_Write in Hw. rewrite Hf in Hw. rewrite bool_decide_true in Hw by done.
    assert (p' = [] /\ w' = mkWriter [] None /\ f' = mkFile (f_data f ++ p) false) as (-> & -> & ->).
    { destruct fuel as [|fuel]; cbn [write_loop w_buf w_err length] in Hw; [by injection Hw|].
      rewrite bool_decide_false in Hw by (cbn [length]; lia). by injection Hw. }
    unfold stream, writer_ok. cbn [f_data f_closed w_buf w_err length]. rewrite Hempty, !app_nil_r.
    split_and!; eauto; lia.
  - destruct (Writer_Flush _ f) as [[w1 f1] e1] eqn:Hfl.
    apply Writer_Flush_ok in Hfl as (_ & Hok1 & Hb1 & Hd1).
    2: { split_and!; cbn [w_buf w_err]; [done|done|]. rewrite length_app, length_take. lia. }
    apply IH in Hw as (Hok' & Hs & Hl & q & Hq); [|done|by rewrite Hb1|apply Hfuel1 in Hempty; lia].
    split; [done|]. split_and!; [|done|].
    + rewrite Hs. unfold stream in *. rewrite Hb1, Hd1. cbn [w_buf].
      by rewrite app_nil_r, <-!app_assoc, take_drop.
    + rewrite Hq, Hd1. unfold stream. cbn [w_buf]. rewrite <-app_assoc. eauto.
Qed.

(** A write appends to the stream; the file only grows. *)
Lemma Writer_Write_ok p w f w' f' e :
  writer_ok w f -> Writer_Write p w f = (w', f', e) ->
  e = None /\ writer_ok w' f' /\ stream w' f' = stream w f ++ p /\
  (exists q, f_data f' = f_data f ++ q).
Proof.
  intros Hok. unfold Writer_Write. destruct (write_loop 3 p w f) as [[p1 w1] f1] eqn:Hl.
  apply write_loop_ok in Hl as ((Hf1 & He1 & Hb1) & Hs & Hlen & Hq); [|done|lia..].
  rewrite He1. intros [= <- <- <-]. unfold stream, writer_ok in *. cbn [w_buf w_err]. rewrite app_assoc.
  split_and!; try done. rewrite length_app. lia.
Qed.

(** ** Frames *)

Section frames.
Context `{Zstd}.

(** The header: the uncompressed and the compressed length. *)
Definition frame_header {E} (raw compressed : bytes) : res E bytes :=
  b ← on_slice 0 4 (make_bytes 8) (PutUint 4 (wrap_u 32 (len raw)));
  on_slice 4 8 b (PutUint 4 (wrap_u 32 (len compressed))).

Record frame := mkFrame { fr_offset : Z; fr_compLen : Z; fr_uncompLen : Z }.

(** Phase 1 of [replay]: [rest] is what the buffered reader still has. *)
Fixpoint scan_headers (fuel : nat) (size offset : Z) (rest : bytes) : res Empty_set (list frame) :=
  match fuel with
  | O => Ok []
  | S fuel =>
      if offset <? size then
        if len rest <? 8 then Ok [] else
        let header := take 8 rest in
        let rest := drop 8 rest in
        h1 ← slice 0 4 header;
        uncompLen ← GetUint 4 h1;
        h2 ← slice 4 8 header;
        compLen ← GetUint 4 h2;
        if len rest <? compLen then Ok [] else
        let rest := drop (Z.to_nat compLen) rest in
        frames ← scan_headers fuel size (offset + (8 + compLen)) rest;
        Ok (mkFrame (offset + 8) compLen uncompLen :: frames)
      else Ok []
  end.

(** The bytes of a record in the log. *)
Definition frame_bytes (r : NellRecord) : bytes :=
  be_bytes 4 (len (layout r)) ++ be_bytes 4 (len (EncodeAll (layout r))) ++ EncodeAll (layout r).
Definition frames_bytes (rs : list NellRecord) : bytes := concat (map frame_bytes rs).
(** A record the log can carry: the codec's limits, and a 32-bit compressed length. *)
Definition frame_ok (r : NellRecord) : Prop := record_ok r /\ in_u 32 (len (EncodeAll (layout r))).

Lemma frame_header_ok {E} raw c :
  frame_header raw c = @Ok E _ (be_bytes 4 (len raw) ++ be_bytes 4 (len c)).
Proof.
  unfold frame_header, make_bytes. change (Z.to_nat 8) with (4 + 4)%nat. rewrite replicate_add.
  step with (on_slice_pre 4 _ _ _ (be_bytes 4 (wrap_u 32 (len raw)))); [|done|by apply PutUint_exact|done].
  rewrite (on_slice_tail 4 8 _ _ _ (be_bytes 4 (wrap_u 32 (len c))));
    [|by rewrite len_be_bytes|by rewrite len_be_bytes|by apply PutUint_exact|done].
  by rewrite !be_bytes_mod by lia.
Qed.

Lemma length_frame_bytes r :
  length (frame_bytes r) = (8 + length (EncodeAll (layout r)))%nat.
Proof. unfold frame_bytes. rewrite !length_app, !length_be_bytes. lia. Qed.

(** Where the frames of [rs] start, from [offset]. *)
Fixpoint frames_at (offset : Z) (rs : list NellRecord) : list frame :=
  match rs with
  | [] => []
  | r :: rs => mkFrame (offset + 8) (len (EncodeAll (layout r))) (wrap_u 32 (len (layout r)))
               :: frames_at (offset + len (frame_bytes r)) rs
  end.

Lemma read_header {E B} a b (k : Z -> Z -> res E B) :
  (h1 ← slice 0 4 (be_bytes 4 a ++ be_bytes 4 b); x ← GetUint 4 h1;
   h2 ← slice 4 8 (be_bytes 4 a ++ be_bytes 4 b); y ← GetUint 4 h2; k x y)
  = k (wrap_u 32 a) (wrap_u 32 b).
Proof.
  step with slice_pre; [|by rewrite len_be_bytes]. step with @GetUint_exact.
  step with slice_post; [|by rewrite len_be_bytes..]. by step with @GetUint_exact.
Qed.

(** One turn of the scan, over a whole frame. *)
Lemma scan_frame fuel size offset r x :
  frame_ok r -> offset < size ->
  scan_headers (S fuel) size offset (frame_bytes r ++ x) =
  (frames ← scan_headers fuel size (offset + len (frame_bytes r)) x;
   Ok (mkFrame (offset + 8) (len (EncodeAll (layout r))) (wrap_u 32 (len (layout r))) :: frames)).
Proof.
  intros [_ Hc] Ho. cbn [scan_headers]. rewrite (proj2 (Z.ltb_lt _ _) Ho).
  set (comp := EncodeAll (layout r)) in *.
  set (h1 := be_bytes 4 (len (layout r))). set (h2 := be_bytes 4 (len comp)).
  assert (frame_bytes r ++ x = (h1 ++ h2) ++ comp ++ x) as Hb.
  { unfold frame_bytes. fold h1 h2 comp. by rewrite <-!app_assoc. }
  assert (len (frame_bytes r) = 8 + len comp) as Hl.
  { unfold len. rewrite length_frame_bytes. fold comp. lia. }
  assert (length (h1 ++ h2) = 8%nat) as H8 by (unfold h1, h2; by rewrite length_app, !length_be_bytes).
  rewrite Hb, Hl.
  rewrite (proj2 (Z.ltb_ge _ _)) by (rewrite len_app; pose proof (len_nonneg (comp ++ x)); unfold len in *; rewrite H8; lia).
  rewrite take_app_length', drop_app_length' by done.
  unfold h1, h2. rewrite (read_header _ _ (fun uncompLen compLen => _)).
  rewrite (wrap_u_id 32 (len comp)) by done.
  rewrite (proj2 (Z.ltb_ge _ _)) by (rewrite len_app; pose proof (len_nonneg x); lia).
  replace (drop (Z.to_nat (len comp)) (comp ++ x)) with x
    by (unfold len; by rewrite Nat2Z.id, drop_app_length).
  done.
Qed.

(** The scan stops at a tail that starts like a frame and is shorter than it. *)
Lemma scan_tail fuel size offset r x :
  frame_ok r -> (length x < length (frame_bytes r))%nat ->
  ((8 <= length x)%nat -> take 8 x = take 8 (frame_bytes r)) ->
  scan_headers fuel size offset x = Ok [].
Proof.
  intros [_ Hc] Hl Hp. destruct fuel as [|fuel]; [done|]. cbn [scan_headers].
  destruct (offset <? size); [|done].
  destruct (Z.ltb_spec (len x) 8) as [|H8]; [done|].
  rewrite Hp by (unfold len in H8; lia).
  set (comp := EncodeAll (layout r)) in *.
  assert (take 8 (frame_bytes r) = be_bytes 4 (len (layout r)) ++ be_bytes 4 (len comp)) as ->.
  { unfold frame_bytes. fold comp. rewrite app_assoc, take_app_length'; [done|].
    by rewrite length_app, !length_be_bytes. }
  rewrite (read_header _ _ (fun uncompLen compLen => _)).
  rewrite (wrap_u_id 32 (len comp)) by done.
  rewrite (proj2 (Z.ltb_lt _ _)); [done|].
  rewrite length_frame_bytes in Hl. fold comp in Hl. unfold len in *. rewrite length_drop. lia.
Qed.

Lemma scan_frames rs : forall fuel size offset x tail,
  Forall frame_ok rs -> size = offset + len (frames_bytes rs ++ x) ->
  (length rs <= fuel)%nat -> scan_headers (fuel - length rs) size (offset + len (frames_bytes rs)) x = Ok tail ->
  scan_headers fuel size offset (frames_bytes rs ++ x) = Ok (frames_at offset rs ++ tail).
Proof.
  induction rs as [|r rs IH]; intros fuel size offset x tail Hrs Hsize Hf Htail.
  - simpl in *. rewrite Nat.sub_0_r, Z.add_0_r in Htail. done.
  - inversion_clear Hrs as [|?? Hr Hrs']. simpl in Hf. destruct fuel as [|fuel]; [lia|].
    unfold frames_bytes in *. cbn [map concat frames_at] in *. rewrite <-app_assoc in *.
    rewrite scan_frame; [|done|].
    + erewrite IH; [by rewrite bind_ok|done| |lia|].
      * rewrite Hsize, !len_app. lia.
      * rewrite len_app, Z.add_assoc in Htail. done.
    + rewrite Hsize, len_app. unfold len. rewrite length_frame_bytes. lia.
Qed.

(** [compressed := make([]byte, fr.compLen); wf.ReadAt(compressed, fr.offset)] *)
Definition ReadAt {E} (eof : E) (data : bytes) (offset n : Z) : res E bytes :=
  let got := take (Z.to_nat n) (drop (Z.to_nat offset) data) in
  if len got <? n then Err eof else Ok got.

Lemma ReadAt_ok {E} (eof : E) p x q :
  ReadAt eof (p ++ x ++ q) (len p) (len x) = Ok x.
Proof.
  unfold ReadAt, len. rewrite !Nat2Z.id, drop_app_length, take_app_length.
  by rewrite Z.ltb_irrefl.
Qed.
End frames.
#[export] Hint Resolve Writer_Flush_ok Writer_Write_ok : nell.
