(* ===== verification/LogStore.v ===== *)
(** * LogStore (logstore/log.go)

    The log-backed store: the same index as [MemoryStore]'s plus the file and the
    buffered writer every write appends a frame to.  Operations return the store, the
    result and the error of the append.  The mutex makes each method one step; a
    background flush is a step of its own. *)
From S2P Require Import Prelude BigEndian Float Hlc Record KnowledgeVector Conflict GoSort Search MemStore LogFrame.

Record LogStore := mkLogStore {
  ls_nodeID : string;
  ls_clock : HLC;
  ls_records : gmap string NellRecord;
  ls_kv : gmap string HLC;
  ls_file : File;
  ls_writer : Writer;
  ls_colIndex : gmap string (gset string);
  ls_changesIdx : list clockKey;
  ls_changesDirty : bool;
  ls_flushInterval : Z
}.

(** The in-memory part, as a [MemoryStore]. *)
Definition ls_mem (s : LogStore) : MemoryStore :=
  mkMemoryStore (ls_nodeID s) (ls_clock s) (ls_records s) (ls_kv s) (ls_colIndex s)
    (ls_changesIdx s) (ls_changesDirty s).

(** Assignments to one field. *)
Definition ls_set_clock (c : HLC) (s : LogStore) : LogStore :=
  mkLogStore (ls_nodeID s) c (ls_records s) (ls_kv s) (ls_file s) (ls_writer s)
    (ls_colIndex s) (ls_changesIdx s) (ls_changesDirty s) (ls_flushInterval s).
Definition ls_set_records (m : gmap string NellRecord) (s : LogStore) : LogStore :=
  mkLogStore (ls_nodeID s) (ls_clock s) m (ls_kv s) (ls_file s) (ls_writer s)
    (ls_colIndex s) (ls_changesIdx s) (ls_changesDirty s) (ls_flushInterval s).
Definition ls_set_record (key : string) (r : NellRecord) (s : LogStore) : LogStore :=
  ls_set_records (<[key := r]> (ls_records s)) s.
Definition ls_set_kv (kv : gmap string HLC) (s : LogStore) : LogStore :=
  mkLogStore (ls_nodeID s) (ls_clock s) (ls_records s) kv (ls_file s) (ls_writer s)
    (ls_colIndex s) (ls_changesIdx s) (ls_changesDirty s) (ls_flushInterval s).
Definition ls_set_io (w : Writer) (f : File) (s : LogStore) : LogStore :=
  mkLogStore (ls_nodeID s) (ls_clock s) (ls_records s) (ls_kv s) f w
    (ls_colIndex s) (ls_changesIdx s) (ls_changesDirty s) (ls_flushInterval s).
Definition ls_set_colIndex (ix : gmap string (gset string)) (s : LogStore) : LogStore :=
  mkLogStore (ls_nodeID s) (ls_clock s) (ls_records s) (ls_kv s) (ls_file s) (ls_writer s)
    ix (ls_changesIdx s) (ls_changesDirty s) (ls_flushInterval s).

Definition LogStore_indexKey (key collection : string) (s : LogStore) : LogStore :=
  ls_set_colIndex (index_insert key collection (ls_colIndex s)) s.
Definition LogStore_markChangesDirty (s : LogStore) : LogStore :=
  mkLogStore (ls_nodeID s) (ls_clock s) (ls_records s) (ls_kv s) (ls_file s) (ls_writer s)
    (ls_colIndex s) (ls_changesIdx s) true (ls_flushInterval s).
Definition LogStore_rebuildChangesIndex (s : LogStore) : LogStore :=
  mkLogStore (ls_nodeID s) (ls_clock s) (ls_records s) (ls_kv s) (ls_file s) (ls_writer s)
    (ls_colIndex s) (changes_index (ls_records s)) false (ls_flushInterval s).

Section logstore.
Context `{Zstd}.

(** [append]: marshal, compress, write the header and the data, flush unless commits are
    grouped. *)
Definition LogStore_append (rec : NellRecord) (s : LogStore) : LogStore * res io_err unit :=
  match (raw ← Record_MarshalBinary rec;
         header ← frame_header raw (EncodeAll raw);
         Ok (header, EncodeAll raw)) with
  | Err e => (s, Err e)
  | Panic => (s, Panic)
  | Ok (header, compressed) =>
      let '(w, f, e) := Writer_Write header (ls_writer s) (ls_file s) in
      match e with
      | Some e => (ls_set_io w f s, Err e)
      | None =>
          let '(w, f, e) := Writer_Write compressed w f in
          match e with
          | Some e => (ls_set_io w f s, Err e)
          | None =>
              if (ls_flushInterval s <=? 0)%Z then
                let '(w, f, e) := Writer_Flush w f in
                (ls_set_io w f s, match e with Some e => Err e | None => Ok tt end)
              else (ls_set_io w f s, Ok tt)
          end
      end
  end.

Definition LogStore_Put (incoming : NellRecord) (s : LogStore)
    : LogStore * (bool * NellRecord) * res io_err unit :=
  let incoming := with_collection (or_default (Collection incoming)) incoming in
  let s := ls_set_clock (HLC_Update (ls_clock s) (Clock incoming)) s in
  let key := record_key (Collection incoming) (ID incoming) in
  match ls_records s !! key with
  | None =>
      let s := ls_set_record key incoming s in
      let s := LogStore_indexKey key (Collection incoming) s in
      let s := ls_set_kv (KnowledgeVector_Update (ls_kv s) (UpdatedBy incoming) (Clock incoming)) s in
      let s := LogStore_markChangesDirty s in
      let '(s, e) := LogStore_append incoming s in
      (s, (true, incoming), e)
  | Some existing =>
      let w := ResolveConflict existing incoming in
      let winner := deref w existing incoming in
      let s := ls_set_record key winner s in
      let s := ls_set_kv (KnowledgeVector_Update (ls_kv s) (UpdatedBy winner) (Clock winner)) s in
      let s := LogStore_markChangesDirty s in
      let '(s, e) := LogStore_append winner s in
      (s, (bool_decide (w = WIncoming), winner), e)
  end.

Definition LogStore_PutLocal (now : Z) (rec : NellRecord) (s : LogStore)
    : LogStore * NellRecord * res io_err unit :=
  let rec := with_collection (or_default (Collection rec)) rec in
  let s := ls_set_clock (HLC_Tick now (ls_clock s)) s in
  let rec := restamp (ls_clock s) (ls_nodeID s) rec in
  let key := record_key (Collection rec) (ID rec) in
  let existed := bool_decide (is_Some (ls_records s !! key)) in
  let s := ls_set_record key rec s in
  let s := if existed then s else LogStore_indexKey key (Collection rec) s in
  let s := ls_set_kv (KnowledgeVector_Update (ls_kv s) (ls_nodeID s) (Clock rec)) s in
  let s := LogStore_markChangesDirty s in
  let '(s, e) := LogStore_append rec s in
  (s, rec, e).

Definition LogStore_Get (collection id : string) (s : LogStore) : res store_err NellRecord :=
  let collection := or_default collection in
  match ls_records s !! record_key collection id with
  | None => Err ErrRecordNotFound
  | Some rec => Ok rec
  end.

Definition LogStore_Delete (now : Z) (collection id : string) (s : LogStore)
    : LogStore * NellRecord * res io_err unit :=
  let collection := or_default collection in
  let key := record_key collection id in
  let found := ls_records s !! key in
  let rec := default (new_record collection id) found in
  let s := ls_set_clock (HLC_Tick now (ls_clock s)) s in
  let rec := mark_deleted (restamp (ls_clock s) (ls_nodeID s) rec) in
  let s := ls_set_record key rec s in
  let s := if bool_decide (is_Some found) then s else LogStore_indexKey key collection s in
  let s := ls_set_kv (KnowledgeVector_Update (ls_kv s) (ls_nodeID s) (Clock rec)) s in
  let s := LogStore_markChangesDirty s in
  let '(s, e) := LogStore_append rec s in
  (s, rec, e).

Definition LogStore_ListAll (collection : string) (s : LogStore) : list NellRecord :=
  let collection := or_default collection in
  match ls_colIndex s !! collection with
  | None => []
  | Some set => record_at (ls_records s) <$> elements set
  end.
Definition LogStore_List (collection : string) (s : LogStore) : list NellRecord :=
  let collection := or_default collection in
  match ls_colIndex s !! collection with
  | None => []
  | Some set => filter (fun r => Deleted r = false) (record_at (ls_records s) <$> elements set)
  end.
Definition LogStore_Query (collection : string) (s : LogStore) : list NellRecord :=
  LogStore_List collection s.

Definition LogStore_GetChangesSince (since : HLC) (s : LogStore) : LogStore * list NellRecord :=
  let s := if ls_changesDirty s then LogStore_rebuildChangesIndex s else s in
  let idx := sort_Search (length (ls_changesIdx s)) (fun i =>
    match ls_changesIdx s !! i with
    | Some ck =>
        let c := ck_clock ck in
        ((WallTime since <? WallTime c) || ((WallTime c =? WallTime since) && (Counter since <? Counter c)))%Z
    | None => false
    end) in
  (s, omap (fun ck => ls_records s !! ck_key ck) (drop idx (ls_changesIdx s))).

Definition LogStore_SearchSimilar (numCPU : nat) (collection : string) (query : list Z) (limit : Z)
    (s : LogStore) (out : list NellRecord) : Prop :=
  let candidates := ms_candidates collection (ls_records s) in
  if bool_decide (candidates = []) then out = []
  else search_returns numCPU candidates query limit out.

Definition LogStore_KnowledgeVector (s : LogStore) : gmap string HLC := ls_kv s.
Definition LogStore_NodeID (s : LogStore) : string := ls_nodeID s.

(** The ticker of [startFlusher]: the error is dropped. *)
Definition LogStore_flushTick (s : LogStore) : LogStore :=
  let '(w, f, _) := Writer_Flush (ls_writer s) (ls_file s) in ls_set_io w f s.

(** [Close]: a failed flush leaves the file open; closing a closed file is an error. *)
Definition LogStore_Close (s : LogStore) : LogStore * res io_err unit :=
  let '(w, f, e) := Writer_Flush (ls_writer s) (ls_file s) in
  match e with
  | Some e => (ls_set_io w f s, Err e)
  | None =>
      if f_closed f then (ls_set_io w f s, Err ErrClosed)
      else (ls_set_io w (mkFile (f_data f) true) s, Ok tt)
  end.

(** [Compact]: the kept records are written to a temporary file that replaces the log,
    then the indexes are rebuilt; [order1], [order2] and [order3] are the orders in which
    its three loops range over the kept map.  The calls that create, rename and reopen
    files succeed. *)
Definition stale_tombstone (cutoff : Z) (r : NellRecord) : bool :=
  Deleted r && (WallTime (Clock r) <? cutoff)%Z.
Definition compact_keep (cutoff : Z) (m : gmap string NellRecord) : gmap string NellRecord :=
  filter (fun kr => stale_tombstone cutoff (snd kr) = false) m.
Fixpoint compact_write (rs : list NellRecord) (w : Writer) (f : File) : Writer * File * res io_err unit :=
  match rs with
  | [] => let '(w, f, e) := Writer_Flush w f in (w, f, match e with Some e => Err e | None => Ok tt end)
  | rec :: rs =>
      match (raw ← Record_MarshalBinary rec;
             header ← frame_header raw (EncodeAll raw);
             Ok (header, EncodeAll raw)) with
      | Err e => (w, f, Err e)
      | Panic => (w, f, Panic)
      | Ok (header, compressed) =>
          match Writer_Write header w f with
          | (w, f, Some e) => (w, f, Err e)
          | (w, f, None) =>
              match Writer_Write compressed w f with
              | (w, f, Some e) => (w, f, Err e)
              | (w, f, None) => compact_write rs w f
              end
          end
      end
  end.
Definition LogStore_Compact (now threshold : Z) (order1 order2 order3 : list (string * NellRecord))
    (s : LogStore)
    : LogStore * res io_err Z :=
  let '(w, f, e) := Writer_Flush (ls_writer s) (ls_file s) in
  let s := ls_set_io w f s in
  match e with
  | Some e => (s, Err e)
  | None =>
      let cutoff := wrap_s 64 (now - threshold) in
      let keep := compact_keep cutoff (ls_records s) in
      match compact_write (map snd order1) NewWriter (mkFile [] false) with
      | (_, _, Err e) => (s, Err e)
      | (_, _, Panic) => (s, Panic)
      | (_, tmp, Ok _) =>
          let s := ls_set_io NewWriter (mkFile (f_data tmp) false) s in
          let s := LogStore_markChangesDirty (ls_set_records keep s) in
          let s := ls_set_colIndex
            (foldl (fun ix '(key, rec) => index_insert key (Collection rec) ix) ∅ order2) s in
          let s := ls_set_kv
            (foldl (fun kv '(_, rec) => KnowledgeVector_Update kv (UpdatedBy rec) (Clock rec)) ∅ order3) s in
          (s, Ok (Z.of_nat (size keep)))
      end
  end.

(** ** The index: the store refines [MemoryStore] *)

Lemma append_mem rec s : ls_mem (fst (LogStore_append rec s)) = ls_mem s.
Proof.
  unfold LogStore_append. destruct (_ ≫= _) as [[h c]| |]; [|done..].
  destruct (Writer_Write h _ _) as [[w f] [e|]]; [done|].
  destruct (Writer_Write c w f) as [[w' f'] [e|]]; [done|].
  case_match; [|done]. by destruct (Writer_Flush w' f') as [[??] ?].
Qed.
(** Unfold an operation down to its append, whose store is then forgotten. *)
Ltac to_append :=
  match goal with
  | |- context [LogStore_append ?r ?s] =>
      pose proof (append_mem r s); destruct (LogStore_append r s) as [? ?]; cbn [fst snd] in *
  end.

(** Compute the fields of the stores a sequence of assignments makes. *)
Ltac ls_simpl :=
  cbv beta zeta delta [LogStore_indexKey LogStore_markChangesDirty ls_set_io ls_set_kv ls_set_record
    ls_set_records ls_set_clock ls_set_colIndex MemoryStore_indexKey MemoryStore_markChangesDirty
    ms_set_kv ms_set_record ms_set_clock];
  cbn [ls_nodeID ls_clock ls_records ls_kv ls_file ls_writer ls_colIndex ls_changesIdx ls_changesDirty
    ls_flushInterval ms_nodeID ms_clock ms_records ms_kv ms_colIndex ms_changesIdx ms_changesDirty].

Lemma LogStore_Put_mem r s :
  MemoryStore_Put r (ls_mem s) =
  let '(s', res, _) := LogStore_Put r s in (ls_mem s', res).
Proof.
  unfold LogStore_Put, MemoryStore_Put. cbn [ms_records ls_mem].
  cbn [ls_records ls_set_clock].
  destruct (ls_records s !! _) eqn:Hl; cbn [ms_records ms_set_clock ls_mem]; rewrite Hl; to_append;
    f_equal; symmetry; done.
Qed.
Lemma LogStore_PutLocal_mem now r s :
  MemoryStore_PutLocal now r (ls_mem s) =
  let '(s', w, _) := LogStore_PutLocal now r s in (ls_mem s', w).
Proof.
  destruct s. unfold LogStore_PutLocal, MemoryStore_PutLocal, ls_mem. ls_simpl.
  case_bool_decide; ls_simpl; to_append; f_equal; symmetry; assumption.
Qed.
Lemma LogStore_Delete_mem now c i s :
  MemoryStore_Delete now c i (ls_mem s) =
  let '(s', w, _) := LogStore_Delete now c i s in (ls_mem s', w).
Proof.
  destruct s. unfold LogStore_Delete, MemoryStore_Delete, ls_mem. ls_simpl.
  case_bool_decide; ls_simpl; to_append; f_equal; symmetry; assumption.
Qed.
Lemma LogStore_GetChangesSince_mem h s :
  MemoryStore_GetChangesSince h (ls_mem s) =
  let '(s', out) := LogStore_GetChangesSince h s in (ls_mem s', out).
Proof.
  unfold LogStore_GetChangesSince, MemoryStore_GetChangesSince. cbn [ms_changesDirty ls_mem].
  by destruct (ls_changesDirty s).
Qed.

(** ** The log *)

Definition ls_stream (s : LogStore) : bytes := stream (ls_writer s) (ls_file s).
Definition ls_io_ok (s : LogStore) : Prop := writer_ok (ls_writer s) (ls_file s).

Lemma marshal_frame rec :
  (raw ← Record_MarshalBinary rec; header ← frame_header raw (EncodeAll raw); Ok (header, EncodeAll raw))
  = @Ok io_err _ (be_bytes 4 (len (layout rec)) ++ be_bytes 4 (len (EncodeAll (layout rec))), EncodeAll (layout rec)).
Proof. rewrite MarshalBinary_ok, bind_ok, frame_header_ok. done. Qed.

(** An append on an open file succeeds and adds one frame to the stream; without group
    commit the frame is in the file. *)
Lemma append_ok rec s s' e :
  ls_io_ok s -> LogStore_append rec s = (s', e) ->
  e = Ok tt /\ ls_io_ok s' /\ ls_stream s' = ls_stream s ++ frame_bytes rec /\
  (exists q, f_data (ls_file s') = f_data (ls_file s) ++ q) /\
  ls_flushInterval s' = ls_flushInterval s /\
  ((ls_flushInterval s <= 0)%Z -> w_buf (ls_writer s') = []).
Proof.
  unfold ls_io_ok, ls_stream, LogStore_append. intros Hok. rewrite marshal_frame.
  destruct (Writer_Write _ (ls_writer s) (ls_file s)) as [[w1 f1] e1] eqn:H1.
  apply Writer_Write_ok in H1 as (-> & Hok1 & Hs1 & q1 & Hq1); [|done].
  destruct (Writer_Write _ w1 f1) as [[w2 f2] e2] eqn:H2.
  apply Writer_Write_ok in H2 as (-> & Hok2 & Hs2 & q2 & Hq2); [|done].
  assert (stream w2 f2 = stream (ls_writer s) (ls_file s) ++ frame_bytes rec) as Hs.
  { rewrite Hs2, Hs1. unfold frame_bytes. by rewrite <-!app_assoc. }
  assert (exists q, f_data f2 = f_data (ls_file s) ++ q) as Hq by (rewrite Hq2, Hq1, <-app_assoc; eauto).
  destruct (Z.leb_spec (ls_flushInterval s) 0).
  - destruct (Writer_Flush w2 f2) as [[w3 f3] e3] eqn:H3.
    apply Writer_Flush_ok in H3 as (-> & Hok3 & Hb3 & Hd3); [|done]. intros [= <- <-].
    cbn [ls_writer ls_file ls_set_io ls_flushInterval].
    assert (stream w3 f3 = stream w2 f2) as Hs3.
    { unfold stream at 1. by rewrite Hb3, app_nil_r. }
    split_and!; [done|done|by rewrite Hs3| |done|done].
    destruct Hq as [q Hq]. rewrite Hd3. unfold stream. rewrite Hq, <-app_assoc. eauto.
  - intros [= <- <-]. cbn [ls_writer ls_file ls_set_io ls_flushInterval]. split_and!; try done. lia.
Qed.
End logstore.

(** ** Properties *)

(** C19. The log store refines the in-memory store: dropping the file, the writer and the
    append's error from each of its operations gives exactly [MemoryStore]'s operation,
    result and next state, and every read answers what [MemoryStore] answers. *)
Theorem LogStore_refines_MemoryStore `{Zstd} (s : LogStore) :
  (forall r, MemoryStore_Put r (ls_mem s) = let '(s', res, _) := LogStore_Put r s in (ls_mem s', res)) /\
  (forall now r, MemoryStore_PutLocal now r (ls_mem s) = let '(s', w, _) := LogStore_PutLocal now r s in (ls_mem s', w)) /\
  (forall now c i, MemoryStore_Delete now c i (ls_mem s) = let '(s', w, _) := LogStore_Delete now c i s in (ls_mem s', w)) /\
  (forall h, MemoryStore_GetChangesSince h (ls_mem s) = let '(s', out) := LogStore_GetChangesSince h s in (ls_mem s', out)) /\
  (forall c i, MemoryStore_Get c i (ls_mem s) = LogStore_Get c i s) /\
  (forall c, MemoryStore_List c (ls_mem s) = LogStore_List c s /\ MemoryStore_ListAll c (ls_mem s) = LogStore_ListAll c s) /\
  (forall n c q limit out, MemoryStore_SearchSimilar n c q limit (ls_mem s) out <-> LogStore_SearchSimilar n c q limit s out) /\
  MemoryStore_KnowledgeVector (ls_mem s) = LogStore_KnowledgeVector s.
Proof.
  split_and!; auto using LogStore_Put_mem, LogStore_PutLocal_mem, LogStore_Delete_mem, LogStore_GetChangesSince_mem.
Qed.
