(* ===== verification/LogReplay.v ===== *)
(** * Opening a log: replay (logstore/log.go)

    [replay] scans the frame headers, decodes chunks of frames in worker goroutines and
    merges what they send into the store.  The merge loop's [select] may take pending
    batches and errors in any order, so replaying is a relation. *)
From S2P Require Import Prelude BigEndian Hlc Record KnowledgeVector Conflict GoSort MemStore LogFrame LogStore.

Section replay.
Context `{Zstd}.

Inductive replay_err := RErrRead | RErrDecode | RErrRecord (e : unmarshal_err).

(** One frame, as a worker decodes it. *)
Definition decode_frame (data : bytes) (fr : frame) : res replay_err NellRecord :=
  compressed ← ReadAt RErrRead data (fr_offset fr) (fr_compLen fr);
  match DecodeAll compressed with
  | None => Err RErrDecode
  | Some raw =>
      match Record_UnmarshalBinary raw with
      | Ok rec => Ok rec
      | Err e => Err (RErrRecord e)
      | Panic => Panic
      end
  end.
(** A worker's chunk: all of its records, or the first error. *)
Fixpoint replay_worker (data : bytes) (fRange : list frame) : res replay_err (list NellRecord) :=
  match fRange with
  | [] => Ok []
  | fr :: fRange =>
      rec ← decode_frame data fr;
      recs ← replay_worker data fRange;
      Ok (rec :: recs)
  end.
(** What the workers put into the channel [results] and into [errs]. *)
Fixpoint sent_results (outcomes : list (res replay_err (list NellRecord))) : list (list NellRecord) :=
  match outcomes with
  | [] => []
  | Ok recs :: outcomes => recs :: sent_results outcomes
  | _ :: outcomes => sent_results outcomes
  end.
Fixpoint sent_errs (outcomes : list (res replay_err (list NellRecord))) : list replay_err :=
  match outcomes with
  | [] => []
  | Err e :: outcomes => e :: sent_errs outcomes
  | _ :: outcomes => sent_errs outcomes
  end.

(** Phase 3, for one record. *)
Definition merge_record (rec : NellRecord) (s : LogStore) : LogStore :=
  let rec := with_collection (or_default (Collection rec)) rec in
  let key := record_key (Collection rec) (ID rec) in
  let s := match ls_records s !! key with
           | Some existing => ls_set_record key (deref (ResolveConflict existing rec) existing rec) s
           | None => ls_set_record key rec s
           end in
  let s := LogStore_indexKey key (Collection rec) s in
  let s := ls_set_clock (HLC_Update (ls_clock s) (Clock rec)) s in
  ls_set_kv (KnowledgeVector_Update (ls_kv s) (UpdatedBy rec) (Clock rec)) s.
Definition merge_batch (recs : list NellRecord) (s : LogStore) : LogStore :=
  foldl (fun s rec => merge_record rec s) s recs.

(** The [for { select }] loop.  A pending error ends it; a batch is merged; once
    [results] is closed and drained it returns nil, whether or not an error is still
    waiting in [errs]: when both cases are ready [select] picks either. *)
Inductive replay_merge : list (list NellRecord) -> list replay_err -> LogStore -> option replay_err * LogStore -> Prop :=
| select_err results errs s e : e ∈ errs -> replay_merge results errs s (Some e, s)
| select_batch results rest recs errs s out :
    results ≡ₚ recs :: rest -> replay_merge rest errs (merge_batch recs s) out ->
    replay_merge results errs s out
| select_closed errs s : replay_merge [] errs s (None, s).

Definition replay_workers (numCPU : nat) : nat := Nat.min numCPU 12.
(** The frames the header scan finds; [length data] turns are enough, each consumes 8 bytes. *)
Definition replay_frames (data : bytes) : list frame :=
  match scan_headers (length data) (len data) 0 data with Ok frames => frames | _ => [] end.
Definition replay_outcomes (numCPU : nat) (data : bytes) : list (res replay_err (list NellRecord)) :=
  map (replay_worker data) (chunks (replay_workers numCPU) (replay_frames data)).
Definition LogStore_replay (numCPU : nat) (s : LogStore) (out : option replay_err * LogStore) : Prop :=
  let data := f_data (ls_file s) in
  if bool_decide (data = []) || bool_decide (replay_frames data = []) then out = (None, s)
  else replay_merge (sent_results (replay_outcomes numCPU data)) (sent_errs (replay_outcomes numCPU data)) s out.

(** [OpenLogWithOptions] on a file holding [data]; opening the file and making the codec
    succeed. *)
Definition new_log (now : Z) (nodeID : string) (flushInterval : Z) (data : bytes) : LogStore :=
  mkLogStore nodeID (NewHLC now) ∅ ∅ (mkFile data false) NewWriter ∅ [] true flushInterval.
Definition OpenLogWithOptions (numCPU : nat) (now : Z) (nodeID : string) (flushInterval : Z) (data : bytes)
    (out : res replay_err LogStore) : Prop :=
  exists r s, LogStore_replay numCPU (new_log now nodeID flushInterval data) (r, s) /\
    out = match r with Some e => Err e | None => Ok s end.

(** ** Logs and the maps they stand for *)

(** [rs] is a log of [m]: the entries of [m] are in it, and for each key every other
    record is older. *)
Definition log_of (rs : list NellRecord) (m : gmap string NellRecord) : Prop :=
  (forall r, r ∈ rs -> exists w, m !! rkey r = Some w /\ (r = w \/ beats w r)) /\
  (forall k w, m !! k = Some w -> w ∈ rs /\ rkey w = k).

Lemma log_of_merge rs rs' m : log_of rs m -> (forall r, r ∈ rs' <-> r ∈ rs) -> merge ∅ rs' = m.
Proof.
  intros [H1 H2] He. apply map_eq. intros k.
  pose proof (merge_spec rs' ∅ k) as Hs.
  assert (forall r, candidate ∅ rs' k r <-> r ∈ rs /\ rkey r = k) as Hc.
  { intros r. unfold candidate. rewrite lookup_empty, He. naive_solver. }
  destruct (merge ∅ rs' !! k) as [a|].
  - destruct Hs as [Ha Hmax]. apply Hc in Ha as [Ha <-].
    destruct (H1 _ Ha) as (w & Hw & [->|Hb]); [done|]. exfalso. apply (Hmax w); [|done].
    apply Hc. by apply H2.
  - destruct (m !! k) as [w|] eqn:Hw; [|done]. exfalso. apply (Hs w), Hc. by apply H2.
Qed.

(** Every prefix of the log is one. *)
Definition log_chain (rs : list NellRecord) : Prop :=
  forall k, log_of (take k rs) (merge ∅ (take k rs)).

Lemma log_chain_log_of rs : log_chain rs -> log_of rs (merge ∅ rs).
Proof. intros Hc. specialize (Hc (length rs)). by rewrite firstn_all in Hc. Qed.
Lemma log_chain_nil : log_chain [].
Proof.
  intros k. rewrite take_nil. split; [by intros r ?%not_elem_of_nil|].
  intros k' w. rewrite merge_nil, lookup_empty. done.
Qed.
(** What may be appended: what is stored already, or what beats it. *)
Definition appendable (m : gmap string NellRecord) (w : NellRecord) : Prop :=
  match m !! rkey w with None => True | Some l => w = l \/ beats w l end.
Lemma put_record_appendable m w : appendable m w -> put_record m w = <[rkey w := w]> m.
Proof.
  unfold appendable, put_record. destruct (m !! rkey w) as [l|] eqn:Hl; [|done].
  intros [->|Hb]; [by rewrite lww_idemp|by rewrite lww_beats].
Qed.
Lemma log_of_snoc rs m w : log_of rs m -> appendable m w -> log_of (rs ++ [w]) (<[rkey w := w]> m).
Proof.
  intros [H1 H2] Ha. unfold appendable in Ha. split.
  - intros r. rewrite elem_of_app, list_elem_of_singleton. intros [Hr| ->].
    + destruct (H1 _ Hr) as (l & Hl & Hb). rewrite lookup_insert. case_decide as Hk; [|by eauto].
      exists w. split; [done|]. rewrite Hk, Hl in Ha.
      destruct Ha as [->|Ha]; [done|]. right. destruct Hb as [->|Hb]; [done|by eapply beats_trans].
    + exists w. rewrite lookup_insert_eq. auto.
  - intros k r. rewrite lookup_insert, elem_of_app, list_elem_of_singleton. case_decide as Hk.
    + intros [= <-]. auto.
    + intros [? ?]%H2. auto.
Qed.
Lemma log_chain_snoc rs w :
  log_chain rs -> appendable (merge ∅ rs) w ->
  log_chain (rs ++ [w]) /\ merge ∅ (rs ++ [w]) = <[rkey w := w]> (merge ∅ rs).
Proof.
  intros Hc Ha.
  assert (merge ∅ (rs ++ [w]) = <[rkey w := w]> (merge ∅ rs)) as Hm.
  { rewrite merge_app. by apply put_record_appendable. }
  split; [|done]. intros k. destruct (decide (k <= length rs)) as [Hk|Hk].
  - rewrite take_app_le by done. apply Hc.
  - rewrite take_ge by (rewrite length_app; simpl; lia). rewrite Hm.
    apply log_of_snoc; [by apply log_chain_log_of|done].
Qed.
(** A list of records with distinct keys, as compaction writes it. *)
Lemma log_chain_distinct rs : NoDup (rkey <$> rs) -> log_chain rs.
Proof.
  induction rs as [|w rs IH] using rev_ind; intros Hnd; [apply log_chain_nil|].
  rewrite fmap_app, NoDup_app in Hnd. destruct Hnd as (Hnd & Hn & _).
  apply log_chain_snoc; [by apply IH|]. unfold appendable.
  destruct (merge ∅ rs !! rkey w) as [l|] eqn:Hl; [|done]. exfalso.
  apply (log_chain_log_of _ (IH Hnd)) in Hl as [Hin Hk].
  apply (Hn (rkey l)); [by apply list_elem_of_fmap_2|]. rewrite Hk. by apply list_elem_of_singleton.
Qed.

(** ** Replaying a log *)

(** Merging one record keeps the invariant. *)
Lemma merge_record_records r s :
  ls_records (merge_record r s) = put_record (ls_records s) (normalize r).
Proof.
  unfold merge_record, put_record. fold (normalize r). fold (rkey (normalize r)).
  by destruct (ls_records s !! rkey (normalize r)).
Qed.
Lemma merge_record_fields r s :
  ls_nodeID (merge_record r s) = ls_nodeID s /\ ls_file (merge_record r s) = ls_file s /\
  ls_writer (merge_record r s) = ls_writer s /\ ls_flushInterval (merge_record r s) = ls_flushInterval s /\
  ls_changesDirty (merge_record r s) = ls_changesDirty s /\
  ls_clock (merge_record r s) = HLC_Update (ls_clock s) (Clock r) /\
  ls_kv (merge_record r s) = KnowledgeVector_Update (ls_kv s) (UpdatedBy r) (Clock r) /\
  ls_colIndex (merge_record r s) = index_insert (rkey (normalize r)) (Collection (normalize r)) (ls_colIndex s).
Proof. unfold merge_record. by destruct (ls_records s !! _). Qed.

Lemma merge_record_inv r s :
  ms_inv (ls_mem s) -> ls_changesDirty s = true -> tick_safe (Clock r) -> colon_free (Collection r) ->
  ms_inv (ls_mem (merge_record r s)).
Proof.
  intros I Hd Ht Hc. pose proof (merge_record_records r s) as Hr.
  destruct (merge_record_fields r s) as (Hn & _ & _ & _ & Hd' & Hck & Hkv & Hix).
  pose proof (or_default_ok _ Hc) as Hco. change (or_default (Collection r)) with (Collection (normalize r)) in Hco.
  assert (forall k x, ls_records (merge_record r s) !! k = Some x ->
    ls_records s !! k = Some x \/ (x = normalize r /\ k = rkey (normalize r))) as Hcase.
  { intros k x. rewrite Hr, put_record_lookup. case_decide as Hk; [|by left]. subst k. intros [= <-].
    destruct (ls_records s !! rkey (normalize r)) as [l|]; [|by right].
    destruct (lww_cases l (normalize r)) as [[-> _]|[-> _]]; auto. }
  constructor; cbn [ms_records ms_colIndex ms_clock ms_kv ms_changesDirty ls_mem].
  - rewrite Hr. apply put_record_keyed. apply I.
  - intros k x [Hx|[-> _]]%Hcase; [by apply (inv_colls _ I _ _ Hx)|done].
  - intros c k. rewrite Hix, index_mem_insert, (inv_index _ I). cbn [ms_records ls_mem].
    rewrite Hr, put_record_lookup. case_decide as Hk; [subst k|split; [intros [?|[_ ?]]; [done|congruence]|auto]].
    destruct (ls_records s !! rkey (normalize r)) as [l|] eqn:Hl.
    + assert (Collection l = Collection (normalize r)) as Hlc.
      { apply rkey_collection; [by apply (inv_colls _ I _ _ Hl)|by apply Hco|by apply (inv_keyed _ I)]. }
      assert (Collection (lww l (normalize r)) = Collection (normalize r)) as Hw
        by (destruct (lww_cases l (normalize r)) as [[-> _]|[-> _]]; done).
      split; [|intros (x & [= <-] & <-); rewrite Hw; auto].
      intros [(x & [= <-] & <-)|[-> _]]; eexists; (split; [done|]); congruence.
    + split; [intros [(? & ? & _)|[-> _]]; [done|eauto]|intros (x & [= <-] & <-); auto].
  - rewrite Hck. intros k x [Hx|[-> _]]%Hcase.
    + etrans; [by apply (inv_clock _ I _ _ Hx)|]. by apply HLC_Update_ge.
    + by apply hlc_gt_le, HLC_Update_gt.
  - rewrite Hkv. intros k x [Hx|[-> _]]%Hcase.
    + apply kv_Update_mono, (inv_kv _ I _ _ Hx).
    + apply kv_Update_covers.
  - congruence.
Qed.

(** A record the log holds: within the frame format, its clock short of overflow, its
    collection usable in a key. *)
Definition loggable (r : NellRecord) : Prop :=
  frame_ok r /\ tick_safe (Clock r) /\ coll_ok (Collection r).

Lemma merge_batch_ok rs : forall s,
  Forall loggable rs -> ms_inv (ls_mem s) -> ls_changesDirty s = true ->
  let s' := merge_batch rs s in
  ms_inv (ls_mem s') /\ ls_records s' = merge (ls_records s) rs /\ ls_file s' = ls_file s /\
  ls_writer s' = ls_writer s /\ ls_flushInterval s' = ls_flushInterval s.
Proof.
  induction rs as [|r rs IH]; intros s Hrs I Hd; [done|].
  inversion_clear Hrs as [|?? (_ & Ht & Hc) Hrs']. unfold merge_batch. cbn [foldl].
  destruct (merge_record_fields r s) as (_ & Hf & Hw & Hfi & Hd' & _).
  destruct (IH (merge_record r s)) as (I' & Hm & Hf' & Hw' & Hfi'); [done| |by rewrite Hd'|].
  { apply merge_record_inv; [done..|by apply Hc]. }
  unfold merge_batch in *. rewrite Hf', Hw', Hfi'. split_and!; try done.
  rewrite Hm, merge_record_records, normalize_id; [done|apply Hc].
Qed.

Lemma replay_merge_no_err results s out :
  replay_merge results [] s out <->
  exists results', results' ≡ₚ results /\ out = (None, merge_batch (concat results') s).
Proof.
  split.
  - remember [] as errs eqn:He. induction 1 as [results errs s e Hin|results rest recs errs s out Hp _ IH|errs s]; subst.
    + by apply not_elem_of_nil in Hin.
    + destruct (IH eq_refl) as (results' & Hp' & ->). exists (recs :: results'). split; [by rewrite Hp', Hp|].
      cbn [concat]. unfold merge_batch. by rewrite foldl_app.
    + by exists [].
  - intros (results' & Hp & ->). revert results s Hp.
    induction results' as [|recs results' IH]; intros results s Hp.
    + apply Permutation_nil in Hp as ->. constructor.
    + eapply select_batch; [by symmetry|]. cbn [concat]. unfold merge_batch. rewrite foldl_app. by apply IH.
Qed.

(** The chunks of two lists correspond when the lists do. *)
Lemma chunks_Forall2 {A B} (P : A -> B -> Prop) n xs ys :
  Forall2 P xs ys -> Forall2 (Forall2 P) (chunks n xs) (chunks n ys).
Proof.
  intros HP. pose proof (Forall2_length _ _ _ HP) as Hl.
  assert (forall k w cs, Forall2 (Forall2 P) (chunk_loop k w cs xs) (chunk_loop k w cs ys)) as Hloop.
  { induction k as [|k IH]; intros w cs; cbn [chunk_loop]; [constructor|].
    rewrite Hl. destruct (length ys <=? w * cs); constructor; [|apply IH].
    by apply Forall2_take, Forall2_drop. }
  unfold chunks. rewrite Hl. apply Hloop.
Qed.
Lemma replay_worker_ok data frs rs :
  Forall2 (fun fr r => decode_frame data fr = Ok r) frs rs -> replay_worker data frs = Ok rs.
Proof. induction 1 as [|fr r frs rs Hr _ IH]; cbn [replay_worker]; [done|]. by rewrite Hr, bind_ok, IH, bind_ok. Qed.
Lemma sent_results_ok (outcomes : list (res replay_err (list NellRecord))) (bs : list (list NellRecord)) :
  Forall2 (fun o b => o = Ok b) outcomes bs -> sent_results outcomes = bs /\ sent_errs outcomes = [].
Proof. induction 1 as [|o b os bs -> _ [IH1 IH2]]; cbn; [done|]. by rewrite IH1, IH2. Qed.

Context `{!ZstdLaws}.

Lemma frames_at_decode rs : forall p q,
  Forall frame_ok rs ->
  Forall2 (fun fr r => decode_frame (p ++ frames_bytes rs ++ q) fr = Ok r) (frames_at (len p) rs) rs.
Proof.
  induction rs as [|r rs IH]; intros p q Hrs; cbn [frames_at]; constructor.
  - inversion_clear Hrs as [|?? [Hr Hc] _]. unfold decode_frame. cbn [fr_offset fr_compLen].
    unfold frames_bytes. cbn [map concat].
    set (h := be_bytes 4 (len (layout r)) ++ be_bytes 4 (len (EncodeAll (layout r)))).
    assert (p ++ (frame_bytes r ++ concat (map frame_bytes rs)) ++ q =
      (p ++ h) ++ EncodeAll (layout r) ++ (concat (map frame_bytes rs) ++ q)) as ->.
    { unfold frame_bytes, h. by rewrite <-!app_assoc. }
    replace (len p + 8)%Z with (len (p ++ h)) by (unfold h; by rewrite !len_app, !len_be_bytes).
    step with @ReadAt_ok. rewrite zstd_roundtrip, <-(app_nil_r (layout r)). by rewrite Unmarshal_layout.
  - inversion_clear Hrs as [|?? _ Hrs'].
    replace (p ++ frames_bytes (r :: rs) ++ q) with ((p ++ frame_bytes r) ++ frames_bytes rs ++ q).
    + rewrite <-len_app. by apply IH.
    + unfold frames_bytes. cbn [map concat]. by rewrite <-!app_assoc.
Qed.

(** A tail that reads as an unfinished frame. *)
Definition torn (x : bytes) : Prop :=
  x = [] \/ exists r, frame_ok r /\ (length x < length (frame_bytes r))%nat /\
    ((8 <= length x)%nat -> take 8 x = take 8 (frame_bytes r)).
Lemma torn_prefix r n : frame_ok r -> (n < length (frame_bytes r))%nat -> torn (take n (frame_bytes r)).
Proof.
  intros Hr Hn. right. exists r. split_and!; [done|rewrite length_take; lia|].
  rewrite length_take. intros H8. rewrite take_take. f_equal. lia.
Qed.

Lemma frames_bytes_length rs : (8 * length rs <= length (frames_bytes rs))%nat.
Proof.
  induction rs as [|r rs IH]; [done|]. unfold frames_bytes in *. cbn [map concat].
  rewrite length_app, length_frame_bytes. cbn [length]. lia.
Qed.
Lemma replay_frames_ok rs x :
  Forall frame_ok rs -> torn x -> replay_frames (frames_bytes rs ++ x) = frames_at 0 rs.
Proof.
  intros Hrs Hx. unfold replay_frames.
  rewrite (scan_frames rs _ _ 0 x []); [by rewrite app_nil_r|done|done| |].
  - pose proof (frames_bytes_length rs). rewrite length_app. lia.
  - destruct Hx as [->|(r & Hr & Hl & Hp)]; [|by eapply scan_tail].
    rewrite app_nil_r, Z.add_0_l. destruct (_ - _)%nat; [done|]. cbn [scan_headers].
    by rewrite Z.ltb_irrefl.
Qed.

Lemma replay_outcomes_ok numCPU rs x :
  Forall frame_ok rs -> torn x ->
  sent_results (replay_outcomes numCPU (frames_bytes rs ++ x)) = chunks (replay_workers numCPU) rs /\
  sent_errs (replay_outcomes numCPU (frames_bytes rs ++ x)) = [].
Proof.
  intros Hrs Hx. apply sent_results_ok. unfold replay_outcomes. rewrite replay_frames_ok by done.
  apply Forall2_fmap_l. eapply Forall2_impl; [|intros frs b; apply replay_worker_ok].
  apply chunks_Forall2, (frames_at_decode rs [] x Hrs).
Qed.

(** Opening a log with whole frames and a torn tail: every run succeeds with the whole
    frames merged, in some order of the batches. *)
Lemma OpenLog_outcomes numCPU now node fi rs x out :
  (0 < numCPU)%nat -> Forall loggable rs -> torn x ->
  OpenLogWithOptions numCPU now node fi (frames_bytes rs ++ x) out ->
  exists rs', rs' ≡ₚ rs /\ out = Ok (merge_batch rs' (new_log now node fi (frames_bytes rs ++ x))).
Proof.
  intros Hn Hrs Hx (r & s & Hrep & ->). unfold LogStore_replay in Hrep. cbn [f_data ls_file new_log] in Hrep.
  assert (Forall frame_ok rs) as Hf by (eapply Forall_impl; [done|]; by intros ? [? _]).
  destruct (replay_outcomes_ok numCPU rs x Hf Hx) as [Hres Herr]. rewrite Hres, Herr in Hrep.
  rewrite replay_frames_ok in Hrep by done.
  destruct (bool_decide _ || _) eqn:Hb.
  - injection Hrep as -> ->. exists []. split; [|done].
    apply orb_true_iff in Hb as [Hb|Hb]; apply bool_decide_eq_true in Hb.
    + apply app_nil in Hb as [Hb _]. destruct rs as [|r rs]; [done|].
      pose proof (frames_bytes_length (r :: rs)). rewrite Hb in *. simpl in *. lia.
    + by destruct rs.
  - apply replay_merge_no_err in Hrep as (res & Hp & [= -> ->]). exists (concat res). split; [|done].
    rewrite (concat_perm _ _ Hp), chunks_concat_aux; [done|]. unfold replay_workers. lia.
Qed.
(** ... and there is such a run. *)
Lemma OpenLog_total numCPU now node fi rs x :
  Forall loggable rs -> torn x ->
  exists out, OpenLogWithOptions numCPU now node fi (frames_bytes rs ++ x) out.
Proof.
  intros Hrs Hx. unfold OpenLogWithOptions, LogStore_replay. cbn [f_data ls_file new_log].
  assert (Forall frame_ok rs) as Hf by (eapply Forall_impl; [done|]; by intros ? [? _]).
  destruct (replay_outcomes_ok numCPU rs x Hf Hx) as [-> ->].
  destruct (_ || _); [eauto|]. do 3 eexists. split; [|done].
  apply replay_merge_no_err. eauto.
Qed.

(** Cutting a log anywhere leaves whole frames and a torn tail. *)
Lemma frames_cut rs n :
  Forall frame_ok rs ->
  exists k x, take n (frames_bytes rs) = frames_bytes (take k rs) ++ x /\ torn x /\ (k <= length rs)%nat /\
    ((length (frames_bytes rs) <= n)%nat -> k = length rs /\ x = []).
Proof.
  revert n. induction rs as [|r rs IH]; intros n Hrs.
  - exists 0%nat, []. split_and!; [by destruct n|by left|done|done].
  - inversion_clear Hrs as [|?? Hr Hrs']. unfold frames_bytes in *. cbn [map concat].
    destruct (decide (n < length (frame_bytes r))%nat) as [Hn|Hn].
    + exists 0%nat, (take n (frame_bytes r)). rewrite take_app_le by lia. split_and!; [done| |lia|].
      * by apply torn_prefix.
      * rewrite length_app. lia.
    + destruct (IH (n - length (frame_bytes r))%nat Hrs') as (k & x & He & Hx & Hk & Hfull).
      exists (S k), x. cbn [take map concat length]. split_and!; [|done|lia|].
      * rewrite take_app, (take_ge (frame_bytes r)) by lia. by rewrite He, app_assoc.
      * rewrite length_app. intros Hge. destruct Hfull as [-> ->]; [lia|done].
Qed.
End replay.
