(* ===== verification/LogDurability.v ===== *)
(** * What the log keeps (logstore/log.go)

    Runs of a [LogStore] with the records its log holds, and what a restart after a
    crash finds: the store as it was after some prefix of the logged writes, all of
    them where every write is flushed; compaction replaces the log by one record per
    key and loses only stale tombstones. *)
From S2P Require Import Prelude BigEndian Hlc Record KnowledgeVector Conflict GoSort MemStore LogFrame LogStore LogReplay.

Section durability.
Context `{Zstd}.

(** ** The invariant *)

(** [rs] is what the log holds, in the file or still in the buffer. *)
Record log_inv (s : LogStore) (rs : list NellRecord) : Prop := {
  li_io : ls_io_ok s;
  li_stream : ls_stream s = frames_bytes rs;
  li_loggable : Forall loggable rs;
  li_chain : log_chain rs;
  li_records : merge ∅ rs = ls_records s;
  li_mem : ms_inv (ls_mem s);
  (** without group commit nothing waits in the buffer *)
  li_flushed : (ls_flushInterval s <= 0)%Z -> w_buf (ls_writer s) = []
}.

(** [s1] has the files of [s]. *)
Definition same_io (s s1 : LogStore) : Prop :=
  ls_writer s1 = ls_writer s /\ ls_file s1 = ls_file s /\ ls_flushInterval s1 = ls_flushInterval s.

Lemma Put_append r s :
  exists s1, same_io s s1 /\
  let '(s', (_, w), e) := LogStore_Put r s in LogStore_append w s1 = (s', e).
Proof.
  unfold LogStore_Put. destruct (ls_records _ !! _); (eexists; split;
    [|match goal with |- context [LogStore_append ?w ?s1] => destruct (LogStore_append w s1) eqn:?; eassumption end]);
    done.
Qed.
Lemma PutLocal_append now r s :
  exists s1, same_io s s1 /\
  let '(s', w, e) := LogStore_PutLocal now r s in LogStore_append w s1 = (s', e).
Proof.
  unfold LogStore_PutLocal. eexists; split;
    [|match goal with |- context [LogStore_append ?w ?s1] => destruct (LogStore_append w s1) eqn:?; eassumption end].
  by case_bool_decide.
Qed.
Lemma Delete_append now c i s :
  exists s1, same_io s s1 /\
  let '(s', w, e) := LogStore_Delete now c i s in LogStore_append w s1 = (s', e).
Proof.
  unfold LogStore_Delete. eexists; split;
    [|match goal with |- context [LogStore_append ?w ?s1] => destruct (LogStore_append w s1) eqn:?; eassumption end].
  by case_bool_decide.
Qed.

Lemma frames_bytes_snoc rs w : frames_bytes (rs ++ [w]) = frames_bytes rs ++ frame_bytes w.
Proof. unfold frames_bytes. rewrite map_app, concat_app. simpl. by rewrite app_nil_r. Qed.

(** A logged write keeps the invariant, and its error is nil. *)
Lemma log_write_inv s rs s1 w s' e :
  log_inv s rs -> same_io s s1 -> LogStore_append w s1 = (s', e) ->
  written (ls_mem s) w (ls_mem s') -> loggable w -> appendable (ls_records s) w ->
  log_inv s' (rs ++ [w]) /\ e = Ok tt.
Proof.
  intros [Hio Hst Hlog Hch Hrec I Hfl] (Hw & Hf & Hfi) Happ Hwr Hl Ha.
  apply append_ok in Happ as (-> & Hio' & Hst' & _ & Hfi' & Hfl').
  2: { unfold ls_io_ok. by rewrite Hw, Hf. }
  rewrite <-Hrec in Ha. destruct (log_chain_snoc _ _ Hch Ha) as [Hch' Hm].
  split; [|done]. constructor.
  - done.
  - rewrite Hst', frames_bytes_snoc, <-Hst. unfold ls_stream. by rewrite Hw, Hf.
  - apply Forall_app. auto.
  - done.
  - rewrite Hm, Hrec. symmetry. apply (wr_records _ _ _ Hwr).
  - eapply written_inv; [done|apply Hl|done].
  - rewrite Hfi', Hfi. rewrite <-Hfi. done.
Qed.

Lemma Put_appendable r s :
  keyed (ms_records s) -> appendable (ms_records s) (snd (snd (MemoryStore_Put r s))).
Proof.
  intros Hk. rewrite Put_result. unfold appendable.
  destruct (ms_records s !! rkey (normalize r)) as [l|] eqn:Hl; cbn [snd]; [|by rewrite Hl].
  rewrite (lww_key l (normalize r)), Hl by by apply Hk.
  destruct (lww_cases l (normalize r)) as [[-> _]|[-> ?]]; auto.
Qed.
Lemma beats_appendable m w : map_Forall (fun _ x => beats w x) m -> appendable m w.
Proof. intros Hb. unfold appendable. destruct (m !! rkey w) eqn:Hw; [right; by apply (Hb _ _ Hw)|done]. Qed.

(** ** Compaction *)

Lemma compact_write_ok rs : forall w f w' f' e,
  writer_ok w f -> compact_write rs w f = (w', f', e) ->
  e = Ok tt /\ f_data f' = stream w f ++ frames_bytes rs.
Proof.
  induction rs as [|r rs IH]; intros w f w' f' e Hok; cbn [compact_write].
  - destruct (Writer_Flush w f) as [[w1 f1] e1] eqn:H1.
    apply Writer_Flush_ok in H1 as (-> & _ & _ & Hd); [|done]. intros [= <- <- <-].
    by rewrite Hd, app_nil_r.
  - rewrite marshal_frame. destruct (Writer_Write _ w f) as [[w1 f1] e1] eqn:H1.
    apply Writer_Write_ok in H1 as (-> & Hok1 & Hs1 & _); [|done].
    destruct (Writer_Write _ w1 f1) as [[w2 f2] e2] eqn:H2.
    apply Writer_Write_ok in H2 as (-> & Hok2 & Hs2 & _); [|done].
    intros (-> & Hd)%IH; [|done]. split; [done|]. rewrite Hd, Hs2, Hs1.
    unfold frames_bytes at 2. cbn [map concat]. unfold frame_bytes at 1, frames_bytes. by rewrite <-!app_assoc.
Qed.

Lemma fold_index_mem (order : list (string * NellRecord)) c k :
  index_mem (foldl (fun ix '(key, rec) => index_insert key (Collection rec) ix) ∅ order) c k <->
  exists r, (k, r) ∈ order /\ Collection r = c.
Proof.
  induction order as [|[key r] order IH] using rev_ind.
  - unfold index_mem. cbn [foldl]. rewrite lookup_empty. cbn [default].
    split; [by intros ?%(not_elem_of_empty (C:=gset string))|]. by intros (? & ?%not_elem_of_nil & _).
  - rewrite foldl_app. cbn [foldl]. rewrite index_mem_insert, IH.
    setoid_rewrite elem_of_app. setoid_rewrite list_elem_of_singleton. split.
    + intros [(x & Hx & Hc)|[-> ->]]; eauto.
    + intros (x & [Hx|[= -> ->]] & <-); eauto.
Qed.
Lemma fold_kv_covers (order : list (string * NellRecord)) k r :
  (k, r) ∈ order ->
  kv_covers (foldl (fun kv '(_, rec) => KnowledgeVector_Update kv (UpdatedBy rec) (Clock rec)) ∅ order)
    (UpdatedBy r) (Clock r).
Proof.
  induction order as [|[key x] order IH] using rev_ind; [by intros ?%not_elem_of_nil|].
  rewrite foldl_app, elem_of_app, list_elem_of_singleton. cbn [foldl]. intros [Hr|[= <- <-]].
  - apply kv_Update_mono. auto.
  - apply kv_Update_covers.
Qed.

Lemma compact_keep_lookup cutoff m k r :
  compact_keep cutoff m !! k = Some r <-> m !! k = Some r /\ stale_tombstone cutoff r = false.
Proof. unfold compact_keep. by rewrite map_lookup_filter_Some. Qed.

(** The effect of a compaction on an open log. *)
Lemma Compact_inv s rs now th o1 o2 o3 :
  let keep := compact_keep (wrap_s 64 (now - th)) (ls_records s) in
  log_inv s rs -> o1 ≡ₚ map_to_list keep -> o2 ≡ₚ map_to_list keep -> o3 ≡ₚ map_to_list keep ->
  exists s', LogStore_Compact now th o1 o2 o3 s = (s', Ok (Z.of_nat (size keep))) /\
    log_inv s' (map snd o1) /\ ls_records s' = keep /\ f_data (ls_file s') = frames_bytes (map snd o1) /\
    ls_clock s' = ls_clock s /\ ls_nodeID s' = ls_nodeID s.
Proof.
  intros keep [Hio Hst Hlog Hch Hrec I Hfl] P1 P2 P3.
  assert (forall o, o ≡ₚ map_to_list keep -> forall k r, (k, r) ∈ o <-> keep !! k = Some r) as Ho.
  { intros o Hp k r. by rewrite Hp, elem_of_map_to_list. }
  assert (forall k r, keep !! k = Some r -> ls_records s !! k = Some r) as Hsub
    by (intros k r Hk; by apply compact_keep_lookup in Hk as [? _]).
  assert (keyed keep) as Hkk by (intros k r Hk%Hsub; by apply (inv_keyed _ I)).
  unfold LogStore_Compact. destruct (Writer_Flush _ _) as [[w f] e] eqn:Hflush.
  apply Writer_Flush_ok in Hflush as (-> & _); [|done]. cbn [ls_records ls_set_io].
  destruct (compact_write (map snd o1) NewWriter (mkFile [] false)) as [[w' f'] e'] eqn:Hcw.
  apply compact_write_ok in Hcw as (-> & Hd); [|split_and!; [done|done|apply Nat.le_0_l]].
  assert (f_data f' = frames_bytes (map snd o1)) as Hd' by by rewrite Hd.
  eexists. split; [reflexivity|]. split; [|split_and!; [done|exact Hd'|done|done]].
  assert (forall r, r ∈ map snd o1 -> keep !! rkey r = Some r) as Hin.
  { intros r ([k x] & -> & Hx)%list_elem_of_fmap. apply Ho in Hx; [|done]. cbn. by rewrite (Hkk _ _ Hx). }
  assert (rkey <$> map snd o1 = fst <$> o1) as Hkeys.
  { rewrite <-list_fmap_compose. apply list_fmap_ext. intros ? [k x] Hx%list_elem_of_lookup_2.
    apply Ho in Hx; [|done]. by apply Hkk. }
  assert (log_chain (map snd o1)) as Hchain.
  { apply log_chain_distinct. rewrite Hkeys, P1. apply NoDup_fst_map_to_list. }
  constructor; cbn [ls_writer ls_file ls_records ls_flushInterval].
  - split_and!; [done|done|apply Nat.le_0_l].
  - unfold ls_stream, stream. cbn. by rewrite app_nil_r.
  - apply Forall_forall. intros r Hr%Hin%Hsub. rewrite <-Hrec in Hr.
    apply (log_chain_log_of _ Hch) in Hr as [Hr _]. by rewrite Forall_forall in Hlog; apply Hlog.
  - done.
  - eapply log_of_merge; [|reflexivity]. split.
    + intros r Hr%Hin. eauto.
    + intros k r Hr. split; [|by apply Hkk]. apply list_elem_of_fmap. exists (k, r). split; [done|]. by apply Ho.
  - constructor; cbn [ms_records ms_colIndex ms_clock ms_kv ms_changesDirty ls_mem].
    + exact Hkk.
    + intros k r Hk%Hsub. by apply (inv_colls _ I _ _ Hk).
    + intros c k. cbn. rewrite fold_index_mem. by setoid_rewrite (Ho o2 P2).
    + intros k r Hk%Hsub. by apply (inv_clock _ I _ _ Hk).
    + intros k r Hk. cbn. apply (fold_kv_covers o3 k). by apply (Ho o3 P3).
    + done.
  - done.
Qed.

(** ** Runs *)

Inductive log_op :=
| LPut (r : NellRecord)
| LPutLocal (now : Z) (r : NellRecord)
| LDelete (now : Z) (collection id : string)
| LGetChangesSince (since : HLC)
| LFlushTick
| LCompact (now threshold : Z) (o1 o2 o3 : list (string * NellRecord)).

(** The store after an operation, and the records in the log then. *)
Definition log_step (o : log_op) (p : LogStore * list NellRecord) : LogStore * list NellRecord :=
  let '(s, rs) := p in
  match o with
  | LPut r => let '(s', (_, w), _) := LogStore_Put r s in (s', rs ++ [w])
  | LPutLocal now r => let '(s', w, _) := LogStore_PutLocal now r s in (s', rs ++ [w])
  | LDelete now c i => let '(s', w, _) := LogStore_Delete now c i s in (s', rs ++ [w])
  | LGetChangesSince h => (fst (LogStore_GetChangesSince h s), rs)
  | LFlushTick => (LogStore_flushTick s, rs)
  | LCompact now th o1 o2 o3 => (fst (LogStore_Compact now th o1 o2 o3 s), map snd o1)
  end.
(** The written record fits the log, and the store's operation its conditions. *)
Definition log_op_ok (o : log_op) (s : LogStore) : Prop :=
  match o with
  | LPut r => tick_safe (Clock r) /\ loggable (snd (snd (MemoryStore_Put r (ls_mem s))))
  | LPutLocal now r => tick_ok now (ls_clock s) /\ loggable (snd (MemoryStore_PutLocal now r (ls_mem s)))
  | LDelete now c i => tick_ok now (ls_clock s) /\ loggable (snd (MemoryStore_Delete now c i (ls_mem s)))
  | LGetChangesSince h => True
  | LFlushTick => True
  | LCompact now th o1 o2 o3 =>
      let keep := compact_keep (wrap_s 64 (now - th)) (ls_records s) in
      o1 ≡ₚ map_to_list keep /\ o2 ≡ₚ map_to_list keep /\ o3 ≡ₚ map_to_list keep
  end.

(** Runs from an empty log, with restarts on whatever the file holds once the buffer is
    empty (after [Close], or at any time without group commit). *)
Inductive log_run : LogStore -> list NellRecord -> Prop :=
| run_new now node fi : log_run (new_log now node fi []) []
| run_step o s rs : log_run s rs -> log_op_ok o s ->
    log_run (fst (log_step o (s, rs))) (snd (log_step o (s, rs)))
| run_reopen s rs numCPU now node fi s' :
    log_run s rs -> (0 < numCPU)%nat -> w_buf (ls_writer s) = [] ->
    OpenLogWithOptions numCPU now node fi (f_data (ls_file s)) (Ok s') -> log_run s' rs.

Lemma new_log_mem_inv now node fi data : ms_inv (ls_mem (new_log now node fi data)).
Proof. exact (NewMemoryStore_inv now node). Qed.
Lemma new_log_inv now node fi : log_inv (new_log now node fi []) [].
Proof.
  constructor; cbn [ls_records new_log]; try done.
  - split_and!; [done|done|apply Nat.le_0_l].
  - apply log_chain_nil.
  - apply new_log_mem_inv.
Qed.

Lemma GetChangesSince_log_inv h s rs : log_inv s rs -> log_inv (fst (LogStore_GetChangesSince h s)) rs.
Proof.
  intros I. pose proof (GetChangesSince_inv h (ls_mem s) (li_mem _ _ I)) as Hm.
  rewrite LogStore_GetChangesSince_mem in Hm.
  assert (same_io s (fst (LogStore_GetChangesSince h s)) /\
    ls_records (fst (LogStore_GetChangesSince h s)) = ls_records s) as [(Hw & Hf & Hfi) Hr].
  { unfold LogStore_GetChangesSince. by destruct (ls_changesDirty s). }
  destruct (LogStore_GetChangesSince h s) as [s' out]. cbn [fst] in *.
  destruct I. constructor; unfold ls_io_ok, ls_stream in *; rewrite ?Hw, ?Hf, ?Hfi, ?Hr; done.
Qed.
Lemma flushTick_log_inv s rs : log_inv s rs -> log_inv (LogStore_flushTick s) rs.
Proof.
  intros [Hio Hst Hlog Hch Hrec I Hfl]. unfold LogStore_flushTick.
  destruct (Writer_Flush _ _) as [[w f] e] eqn:Hflush.
  apply Writer_Flush_ok in Hflush as (-> & Hok & Hb & Hd); [|done].
  constructor; cbn [ls_writer ls_file ls_records ls_flushInterval ls_set_io]; try done.
  rewrite <-Hst. unfold ls_stream, stream. cbn. by rewrite Hb, app_nil_r, Hd.
Qed.

Lemma log_step_inv o s rs :
  log_inv s rs -> log_op_ok o s ->
  log_inv (fst (log_step o (s, rs))) (snd (log_step o (s, rs))).
Proof.
  intros I. destruct o as [r|now r|now c i|h| |now th o1 o2 o3]; cbn [log_op_ok].
  - intros [Ht Hl]. pose proof (LogStore_Put_mem r s) as Hm. destruct (Put_append r s) as (s1 & Hio & Happ).
    destruct (Put_written r (ls_mem s) (li_mem _ _ I) Ht) as (w & Hw & _ & ->).
    pose proof (Put_appendable r (ls_mem s) (inv_keyed _ (li_mem _ _ I))) as Ha.
    rewrite Hm in *. cbn [log_step]. destruct (LogStore_Put r s) as [[s' [a w]] e]. cbn [fst snd] in *.
    by eapply log_write_inv.
  - intros [Ht Hl]. pose proof (LogStore_PutLocal_mem now r s) as Hm.
    destruct (PutLocal_append now r s) as (s1 & Hio & Happ).
    pose proof (PutLocal_written now r (ls_mem s) Ht) as Hw.
    assert (appendable (ls_records s) (snd (MemoryStore_PutLocal now r (ls_mem s)))) as Ha.
    { apply beats_appendable. eapply (written_dominates (ls_mem s)); [apply I|done|].
      unfold MemoryStore_PutLocal. by case_bool_decide. }
    rewrite Hm in *. cbn [log_step]. destruct (LogStore_PutLocal now r s) as [[s' w] e]. cbn [fst snd] in *.
    by eapply log_write_inv.
  - intros [Ht Hl]. pose proof (LogStore_Delete_mem now c i s) as Hm.
    destruct (Delete_append now c i s) as (s1 & Hio & Happ).
    pose proof (Delete_written now c i (ls_mem s) (li_mem _ _ I) Ht) as Hw.
    assert (appendable (ls_records s) (snd (MemoryStore_Delete now c i (ls_mem s)))) as Ha.
    { apply beats_appendable. eapply (written_dominates (ls_mem s)); [apply I|done|].
      unfold MemoryStore_Delete. by case_bool_decide. }
    rewrite Hm in *. cbn [log_step]. destruct (LogStore_Delete now c i s) as [[s' w] e]. cbn [fst snd] in *.
    by eapply log_write_inv.
  - intros _. by apply GetChangesSince_log_inv.
  - intros _. by apply flushTick_log_inv.
  - intros (P1 & P2 & P3).
    destruct (Compact_inv s rs now th o1 o2 o3 I P1 P2 P3) as (s' & Hc & I' & _).
    cbn [log_step fst snd]. by rewrite Hc.
Qed.

(** ** Restarts *)

Context `{!ZstdLaws}.

(** Opening a cut log: the records are those of the whole frames. *)
Lemma open_cut numCPU now node fi rs n :
  (0 < numCPU)%nat -> Forall loggable rs -> log_chain rs ->
  exists k, (k <= length rs)%nat /\
    (forall out, OpenLogWithOptions numCPU now node fi (take n (frames_bytes rs)) out ->
      exists s, out = Ok s /\ ls_records s = merge ∅ (take k rs) /\ ms_inv (ls_mem s) /\
        ls_file s = mkFile (take n (frames_bytes rs)) false /\ ls_writer s = NewWriter) /\
    (exists out, OpenLogWithOptions numCPU now node fi (take n (frames_bytes rs)) out) /\
    ((length (frames_bytes rs) <= n)%nat -> k = length rs).
Proof.
  intros Hn Hlog Hch.
  assert (Forall frame_ok rs) as Hf by (eapply Forall_impl; [done|]; by intros ? [? _]).
  destruct (frames_cut rs n Hf) as (k & x & He & Hx & Hk & Hfull). exists k.
  assert (Forall loggable (take k rs)) as Hlog' by by apply Forall_take.
  rewrite He. split_and!; [done| |by apply OpenLog_total|intros Hge; by destruct (Hfull Hge)].
  intros out (rs' & Hp & ->)%OpenLog_outcomes; [|done..].
  set (s0 := new_log now node fi (frames_bytes (take k rs) ++ x)).
  destruct (merge_batch_ok rs' s0) as (I & Hm & Hfile & Hwr & _); [by rewrite Hp|apply new_log_mem_inv|done|].
  eexists. split; [done|]. rewrite Hm, Hfile, Hwr. split_and!; try done.
  eapply log_of_merge; [apply Hch|]. intros r. by rewrite Hp.
Qed.

Lemma log_run_inv s rs : log_run s rs -> log_inv s rs.
Proof.
  induction 1 as [now node fi|o s rs _ I Ho|s rs numCPU now node fi s' _ I Hn Hb Hopen].
  - apply new_log_inv.
  - by apply log_step_inv.
  - assert (f_data (ls_file s) = frames_bytes rs) as Hd.
    { rewrite <-(li_stream _ _ I). unfold ls_stream, stream. by rewrite Hb, app_nil_r. }
    rewrite Hd in Hopen. destruct I as [_ _ Hlog Hch _ _ _].
    destruct (open_cut numCPU now node fi rs (length (frames_bytes rs)) Hn Hlog Hch) as (k & _ & Hall & _ & Hfull).
    rewrite firstn_all in Hall. destruct (Hall _ Hopen) as (s2 & [= ->] & Hr & I & Hf & Hw).
    rewrite Hfull, firstn_all in Hr by done. constructor; try done.
    + unfold ls_io_ok. rewrite Hw, Hf. split_and!; [done|done|apply Nat.le_0_l].
    + unfold ls_stream, stream. rewrite Hw, Hf. cbn. by rewrite app_nil_r.
    + by rewrite Hw.
Qed.

(** The file of a running store, cut anywhere, is a cut log. *)
Lemma run_file_cut s rs n :
  log_inv s rs -> take n (f_data (ls_file s)) = take (Nat.min n (length (f_data (ls_file s)))) (frames_bytes rs).
Proof.
  intros I. rewrite <-(li_stream _ _ I). unfold ls_stream, stream.
  rewrite take_app_le by lia. by rewrite <-take_take, firstn_all.
Qed.
End durability.

(** A codec for the examples: no compression. *)
#[export] Instance zstd_id : Zstd := {| EncodeAll := fun b => b; DecodeAll := Some |}.
#[export] Instance zstd_id_laws : ZstdLaws.
Proof. constructor. reflexivity. Qed.
Definition demo_rec (id : string) (w : Z) : NellRecord := mkRecord "c" id "text" [] [] (mkHLC w 0) "p" false.
Definition log_demo : LogStore * list NellRecord :=
  log_step (LPut (demo_rec "2" 2)) (log_step (LPut (demo_rec "1" 1)) (new_log 0 "n" 0 [], [])).
#[export] Instance in_u_dec w x : Decision (in_u w x).
Proof. unfold in_u. apply _. Defined.
#[export] Instance in_s_dec w x : Decision (in_s w x).
Proof. unfold in_s. apply _. Defined.
#[export] Instance loggable_dec `{Zstd} r : Decision (loggable r).
Proof. unfold loggable, frame_ok, record_ok, hlc_ok, tick_safe, coll_ok. apply _. Defined.
Lemma log_demo_run : log_run (fst log_demo) (snd log_demo).
Proof.
  unfold log_demo.
  set (p1 := log_step (LPut (demo_rec "1" 1)) (new_log 0 "n" 0 [], [])).
  rewrite (surjective_pairing p1). apply run_step; [apply run_step; [apply run_new|]|];
    (split; [by split|apply (bool_decide_unpack _); vm_compute; exact I]).
Qed.

(** ** Properties *)

(** C5. Crash recovery: whatever point of its life the process dies at, started on a log
    that was whole (behind an earlier torn tail [LogStore_torn_tail_loses_writes] holds), and wherever the
    file is cut, opening the log again always succeeds, with exactly the records of some
    prefix of the logged writes: whole frames, in order, none lost from the middle and no
    torn record read; that prefix is the whole log when nothing waited in the buffer and
    the file is not cut.  Each such state satisfies the store's invariant. *)
Theorem LogStore_crash_recovery `{ZstdLaws} s rs n numCPU now node fi :
  log_run s rs -> 0 < numCPU ->
  exists k, k <= length rs /\
    (exists out, OpenLogWithOptions numCPU now node fi (take n (f_data (ls_file s))) out) /\
    (forall out, OpenLogWithOptions numCPU now node fi (take n (f_data (ls_file s))) out ->
      exists s', out = Ok s' /\ ls_records s' = merge ∅ (take k rs) /\ ms_inv (ls_mem s')) /\
    (w_buf (ls_writer s) = [] -> length (f_data (ls_file s)) <= n -> k = length rs /\ ls_records s = merge ∅ rs).
Proof.
  intros Hrun Hn. pose proof (log_run_inv _ _ Hrun) as I. rewrite (run_file_cut s rs n I).
  destruct (open_cut numCPU now node fi rs (Nat.min n (length (f_data (ls_file s)))) Hn
    (li_loggable _ _ I) (li_chain _ _ I)) as (k & Hk & Hall & Hex & Hfull).
  exists k. split_and!; [done|done| |].
  - intros out Hout. destruct (Hall _ Hout) as (s' & -> & Hr & Hi & _). eauto.
  - intros Hb Hge. split; [|symmetry; apply I]. apply Hfull.
    rewrite <-(li_stream _ _ I). unfold ls_stream, stream. rewrite Hb, app_nil_r. lia.
Qed.
Lemma LogStore_crash_recovery_witness :
  exists k, k <= 2 /\ forall out, OpenLogWithOptions 4 9 "n" 0 (take 50 (f_data (ls_file (fst log_demo)))) out ->
    exists s', out = Ok s' /\ ls_records s' = merge ∅ (take k (snd log_demo)) /\ ms_inv (ls_mem s').
Proof.
  destruct (LogStore_crash_recovery (fst log_demo) (snd log_demo) 50 4 9 "n" 0 log_demo_run ltac:(lia))
    as (k & Hk & _ & Hall & _).
  exists k. split; [exact Hk|exact Hall].
Defined.

(** C6. Durability: without group commit, and after [Close] in any mode, the file alone
    holds the store, its process started on a log that was whole (behind a torn tail
    [LogStore_torn_tail_loses_writes] holds): closing reports no error, and every way of opening the file again
    gives exactly the records the store had. *)
Theorem LogStore_durable `{ZstdLaws} s rs numCPU now node fi :
  log_run s rs -> 0 < numCPU ->
  let '(s1, e) := LogStore_Close s in
  e = Ok tt /\ f_closed (ls_file s1) = true /\
  ((ls_flushInterval s <= 0)%Z -> f_data (ls_file s1) = f_data (ls_file s)) /\
  forall out, OpenLogWithOptions numCPU now node fi (f_data (ls_file s1)) out ->
    exists s', out = Ok s' /\ ls_records s' = ls_records s /\ ms_inv (ls_mem s').
Proof.
  intros Hrun Hn. pose proof (log_run_inv _ _ Hrun) as I. unfold LogStore_Close.
  destruct (Writer_Flush _ _) as [[w f] e] eqn:Hfl.
  apply Writer_Flush_ok in Hfl as (-> & (Hc & _) & _ & Hd); [|apply I]. rewrite Hc.
  cbn [ls_file ls_set_io f_closed f_data]. pose proof (li_stream _ _ I) as Hst. unfold ls_stream in Hst.
  split_and!; [done|done| |].
  - intros Hfi. rewrite Hd. unfold stream. by rewrite (li_flushed _ _ I Hfi), app_nil_r.
  - rewrite Hd, Hst. intros out Hout. rewrite <-(firstn_all (frames_bytes rs)) in Hout.
    destruct (open_cut numCPU now node fi rs (length (frames_bytes rs)) Hn
      (li_loggable _ _ I) (li_chain _ _ I)) as (k & _ & Hall & _ & Hfull).
    destruct (Hall _ Hout) as (s' & -> & Hr & Hi & _). rewrite Hfull, firstn_all in Hr by done.
    rewrite <-(li_records _ _ I). eauto.
Qed.
Lemma LogStore_durable_witness :
  snd (LogStore_Close (fst log_demo)) = Ok tt /\
  forall out, OpenLogWithOptions 4 9 "n" 0 (f_data (ls_file (fst (LogStore_Close (fst log_demo))))) out ->
    exists s', out = Ok s' /\ ls_records s' = ls_records (fst log_demo) /\ ms_inv (ls_mem s').
Proof.
  pose proof (LogStore_durable (fst log_demo) (snd log_demo) 4 9 "n" 0 log_demo_run ltac:(lia)) as H.
  destruct (LogStore_Close (fst log_demo)) as [s1 e].
  split; [exact (proj1 H)|exact (proj2 (proj2 (proj2 H)))].
Defined.

(** Compaction: on an open log it succeeds and reports the number of records it kept;
    every live record and every tombstone at or after the cutoff stays exactly as it
    was, older tombstones go, the new file is one frame per kept record in whatever
    order the map was iterated, and the store goes on satisfying the log invariant, so a
    restart finds what it kept. *)
Theorem LogStore_Compact_keeps `{ZstdLaws} s rs now th o1 o2 o3 :
  let cutoff := wrap_s 64 (now - th) in
  let keep := compact_keep cutoff (ls_records s) in
  log_run s rs -> o1 ≡ₚ map_to_list keep -> o2 ≡ₚ map_to_list keep -> o3 ≡ₚ map_to_list keep ->
  let '(s', n) := LogStore_Compact now th o1 o2 o3 s in
  n = Ok (Z.of_nat (size (ls_records s'))) /\
  (forall k r, ls_records s' !! k = Some r <->
    ls_records s !! k = Some r /\ (Deleted r = false \/ (cutoff <= WallTime (Clock r))%Z)) /\
  f_data (ls_file s') = frames_bytes (map snd o1) /\ length o1 = size (ls_records s') /\
  ls_clock s' = ls_clock s /\ log_inv s' (map snd o1).
Proof.
  intros cutoff keep Hrun P1 P2 P3.
  destruct (Compact_inv s rs now th o1 o2 o3 (log_run_inv _ _ Hrun) P1 P2 P3)
    as (s' & -> & Hi & Hr & Hd & Hc & _).
  rewrite Hr. split_and!; try done.
  - intros k r. unfold keep. rewrite compact_keep_lookup. unfold stale_tombstone. fold cutoff.
    rewrite andb_false_iff, Z.ltb_ge. done.
  - by rewrite P1, length_map_to_list.
Qed.
Lemma LogStore_Compact_keeps_witness :
  exists s', fst (LogStore_Compact 9 0 (map_to_list (compact_keep 9 (ls_records (fst log_demo))))
    (map_to_list (compact_keep 9 (ls_records (fst log_demo))))
    (map_to_list (compact_keep 9 (ls_records (fst log_demo)))) (fst log_demo)) = s' /\
    log_inv s' (map snd (map_to_list (compact_keep 9 (ls_records (fst log_demo))))).
Proof.
  eexists. split; [reflexivity|].
  pose proof (LogStore_Compact_keeps (fst log_demo) (snd log_demo) 9 0
    (map_to_list (compact_keep 9 (ls_records (fst log_demo))))
    (map_to_list (compact_keep 9 (ls_records (fst log_demo))))
    (map_to_list (compact_keep 9 (ls_records (fst log_demo)))) log_demo_run
    (Permutation_refl _) (Permutation_refl _) (Permutation_refl _)) as H.
  destruct (LogStore_Compact _ _ _ _ _ _) as [s' n]. apply H.
Defined.

(** A zero threshold does not drop all tombstones: one written in the millisecond of
    the compaction (or by a node whose clock is ahead) stays, where the documentation of
    [Compact] says all go immediately. *)
Theorem LogStore_Compact_zero_keeps :
  let s := fst (log_step (LDelete 5 "c" "1") (new_log 0 "n" 0 [], [])) in
  let keep := compact_keep (wrap_s 64 (5 - 0)) (ls_records s) in
  exists r, ls_records (fst (LogStore_Compact 5 0 (map_to_list keep) (map_to_list keep) (map_to_list keep) s))
    !! "c:1" = Some r /\ Deleted r = true.
Proof. eexists. split; [vm_compute; reflexivity|reflexivity]. Qed.

(** The torn tail that recovery tolerates is not cut off the file, and writes made
    after the restart land behind it.  Until they outgrow the torn frame, every later
    restart reads them as the rest of that frame and ignores them: writes that were
    acknowledged and flushed are lost. *)
Theorem LogStore_torn_tail_loses_writes `{ZstdLaws} numCPU now node rs r n s r' :
  0 < numCPU -> Forall loggable rs -> log_chain rs -> frame_ok r -> 8 <= n -> n < length (frame_bytes r) ->
  OpenLogWithOptions numCPU now node 0 (frames_bytes rs ++ take n (frame_bytes r)) (Ok s) ->
  let '(s', (accepted, w), e) := LogStore_Put r' s in
  n + length (frame_bytes w) < length (frame_bytes r) ->
  e = Ok tt /\ ls_records s' !! record_key (or_default (Collection r')) (ID r') = Some w /\
  forall out, OpenLogWithOptions numCPU now node 0 (f_data (ls_file s')) out ->
    exists s2, out = Ok s2 /\ ls_records s2 = ls_records s.
Proof.
  intros Hn Hlog Hch Hr H8 Hlt Hopen.
  apply OpenLog_outcomes in Hopen as (rs1 & Hp1 & [= ->]); [|done|done|by apply torn_prefix].
  set (data := frames_bytes rs ++ take n (frame_bytes r)). set (s0 := new_log now node 0 data).
  destruct (merge_batch_ok rs1 s0) as (I & Hm & Hfile & Hwr & Hfi); [by rewrite Hp1|apply new_log_mem_inv|done|].
  set (s := merge_batch rs1 s0) in *.
  assert (ls_records s = merge ∅ rs) as Hrec.
  { rewrite Hm. transitivity (merge ∅ (take (length rs) rs)); [|by rewrite firstn_all].
    eapply log_of_merge; [apply Hch|]. intros x. by rewrite Hp1, firstn_all. }
  pose proof (LogStore_Put_mem r' s) as Hmem. destruct (Put_append r' s) as (s1 & (Hw1 & Hf1 & Hfi1) & Happ).
  pose proof (Put_records r' (ls_mem s)) as Hput. pose proof (Put_result r' (ls_mem s)) as Hres.
  rewrite Hmem in Hput, Hres. destruct (LogStore_Put r' s) as [[s' [acc w]] e]. cbn [fst snd] in *. intros Hshort.
  apply append_ok in Happ as (-> & _ & Hst & _ & _ & Hb).
  2: { unfold ls_io_ok. rewrite Hw1, Hf1, Hwr, Hfile. split_and!; [done|done|apply Nat.le_0_l]. }
  split; [done|]. split.
  { change (ls_records s') with (ms_records (ls_mem s')). rewrite Hput, put_record_lookup, rkey_normalize, decide_True by done.
    rewrite rkey_normalize in Hres. destruct (ms_records (ls_mem s) !! _); by injection Hres as -> ->. }
  assert (f_data (ls_file s') = frames_bytes rs ++ take n (frame_bytes r) ++ frame_bytes w) as ->.
  { unfold ls_stream, stream in Hst. rewrite Hb, Hw1, Hf1, Hwr, Hfile, !app_nil_r in Hst by by rewrite Hfi1, Hfi.
    rewrite Hst. unfold s0, data. cbn. by rewrite app_assoc. }
  intros out (rs2 & Hp2 & ->)%OpenLog_outcomes; [|done|done|].
  - eexists. split; [done|]. set (s2 := new_log _ _ _ _).
    destruct (merge_batch_ok rs2 s2) as (_ & -> & _); [by rewrite Hp2|apply new_log_mem_inv|done|].
    rewrite Hrec. transitivity (merge ∅ (take (length rs) rs)); [|by rewrite firstn_all].
    eapply log_of_merge; [apply Hch|]. intros x. by rewrite Hp2, firstn_all.
  - right. exists r. split_and!; [done|rewrite length_app, length_take; lia|]. intros _.
    rewrite take_app_le by (rewrite length_take; lia). rewrite take_take. f_equal. lia.
Qed.
Definition demo_big : NellRecord := mkRecord "c" "2" "text" (replicate 200 Ascii.zero) [] (mkHLC 2 0) "p" false.
Lemma LogStore_torn_tail_loses_writes_witness :
  exists s, OpenLogWithOptions 4 9 "n" 0 (frames_bytes [demo_rec "1" 1] ++ take 20 (frame_bytes demo_big)) (Ok s) /\
  let '(s', (accepted, w), e) := LogStore_Put (demo_rec "3" 3) s in
  e = Ok tt /\
  forall out, OpenLogWithOptions 4 9 "n" 0 (f_data (ls_file s')) out ->
    exists s2, out = Ok s2 /\ ls_records s2 = ls_records s.
Proof.
  assert (Forall loggable [demo_rec "1" 1]) as Hlog by (apply (bool_decide_unpack _); vm_compute; exact I).
  assert (frame_ok demo_big) as Hbig by (apply (bool_decide_unpack (loggable demo_big)); vm_compute; exact I).
  assert (20 < length (frame_bytes demo_big)) as Hlen by (vm_compute; lia).
  destruct (OpenLog_total 4 9 "n" 0 [demo_rec "1" 1] (take 20 (frame_bytes demo_big)) Hlog
    (torn_prefix _ _ Hbig Hlen)) as [out Hout].
  destruct (OpenLog_outcomes 4 9 "n" 0 _ _ out ltac:(lia) Hlog (torn_prefix _ _ Hbig Hlen) Hout)
    as (rs' & Hp & ->).
  apply Permutation_singleton_r in Hp. subst rs'. eexists. split; [exact Hout|].
  pose proof (LogStore_torn_tail_loses_writes 4 9 "n" [demo_rec "1" 1] demo_big 20 _ (demo_rec "3" 3)
    ltac:(lia) Hlog (log_chain_distinct [demo_rec "1" 1] (NoDup_singleton _)) Hbig ltac:(lia) Hlen Hout) as H.
  set (s := merge_batch _ _) in *.
  assert (snd (snd (fst (LogStore_Put (demo_rec "3" 3) s))) = demo_rec "3" 3) as Hw by (vm_compute; reflexivity).
  destruct (LogStore_Put (demo_rec "3" 3) s) as [[s' [acc w]] e]. cbn [fst snd] in Hw. subst w.
  destruct H as (He & _ & Hall); [vm_compute; lia|]. split; [exact He|exact Hall].
Defined.

(** A decoding error can go unnoticed: on one file with a corrupt frame, opening may
    report the error or report success, as the [select] happens to choose between the
    pending error and the closed channel; on success the whole chunk of the failed
    worker is missing, here a good record too. *)
Theorem LogStore_replay_drops_error :
  let data := frames_bytes [demo_rec "1" 1] ++ be_bytes 4 1 ++ be_bytes 4 1 ++ [Ascii.zero] in
  exists e s, OpenLogWithOptions 1 9 "n" 0 data (Err e) /\
    OpenLogWithOptions 1 9 "n" 0 data (Ok s) /\ ls_records s = ∅ /\
    OpenLogWithOptions 1 9 "n" 0 (frames_bytes [demo_rec "1" 1]) (Ok (merge_batch [demo_rec "1" 1]
      (new_log 9 "n" 0 (frames_bytes [demo_rec "1" 1])))).
Proof.
  set (data := frames_bytes [demo_rec "1" 1] ++ be_bytes 4 1 ++ be_bytes 4 1 ++ [Ascii.zero]).
  assert (sent_results (replay_outcomes 1 data) = []) as Hr by (vm_compute; reflexivity).
  assert (sent_errs (replay_outcomes 1 data) = [RErrRecord ErrTooShort]) as He by (vm_compute; reflexivity).
  assert (bool_decide (data = []) || bool_decide (replay_frames data = []) = false) as Hb by (vm_compute; reflexivity).
  exists (RErrRecord ErrTooShort), (new_log 9 "n" 0 data). split_and!; [| |done|].
  - exists (Some (RErrRecord ErrTooShort)), (new_log 9 "n" 0 data). split; [|done].
    unfold LogStore_replay. cbn [f_data ls_file new_log]. rewrite Hb, Hr, He. apply select_err. left.
  - exists None, (new_log 9 "n" 0 data). split; [|done].
    unfold LogStore_replay. cbn [f_data ls_file new_log]. rewrite Hb, Hr, He. apply select_closed.
  - set (d := frames_bytes [demo_rec "1" 1]). eexists None, _. split; [|reflexivity].
    unfold LogStore_replay. cbn [f_data ls_file new_log].
    assert (bool_decide (d = []) || bool_decide (replay_frames d = []) = false) as -> by (vm_compute; reflexivity).
    assert (sent_results (replay_outcomes 1 d) = [[demo_rec "1" 1]]) as -> by (vm_compute; reflexivity).
    eapply select_batch; [reflexivity|]. apply select_closed.
Qed.
