(* ===== verification/StoreApi.v ===== *)
(** * The Store interface (store.go) and replication between stores

    [nell.Store] as a class: the operations, and the laws the sync code relies on,
    stated over the records a store holds.  [MemoryStore] and [LogStore] are its
    instances; what is proved from the laws holds between any two backends. *)
From S2P Require Import Prelude Hlc Record KnowledgeVector Conflict GoSort MemStore LogFrame LogStore LogReplay LogDurability.

Class StoreOps (S : Type) := {
  (** what the store holds; not a method, the laws speak of it *)
  st_records : S -> gmap string NellRecord;
  (** [None]: the method returned an error *)
  st_Put : NellRecord -> S -> S * option (bool * NellRecord);
  st_Get : string -> string -> S -> res store_err NellRecord;
  st_Delete : Z -> string -> string -> S -> S * option NellRecord;
  st_List : string -> S -> list NellRecord;
  st_ListAll : string -> S -> list NellRecord;
  st_GetChangesSince : HLC -> S -> S * list NellRecord;
  st_Query : string -> S -> list NellRecord;
  (** the results a search may return, on a machine with that many CPUs *)
  st_SearchSimilar : nat -> string -> list Z -> Z -> S -> list NellRecord -> Prop;
  st_KnowledgeVector : S -> gmap string HLC;
  st_NodeID : S -> string;
  st_Close : S -> S * bool
}.

Class StoreLaws (S : Type) `{StoreOps S} := {
  st_inv : S -> Prop;
  (** the conditions under which a write of a record does not fail *)
  st_put_ok : NellRecord -> S -> Prop;
  st_keyed s : st_inv s -> keyed (st_records s);
  st_colls s : st_inv s -> map_Forall (fun _ r => coll_ok (Collection r)) (st_records s);
  st_kv_covers s : st_inv s -> map_Forall (fun _ r => kv_covers (st_KnowledgeVector s) (UpdatedBy r) (Clock r)) (st_records s);
  st_put_law s r : st_inv s -> st_put_ok r s ->
    exists s' acc w, st_Put r s = (s', Some (acc, w)) /\ st_inv s' /\
      st_records s' = put_record (st_records s) (normalize r) /\
      acc = match st_records s !! rkey (normalize r) with None => true | Some l => bool_decide (beats r l) end;
  st_get_law c i s : st_Get c i s =
    match st_records s !! record_key (or_default c) i with Some r => Ok r | None => Err ErrRecordNotFound end;
  st_changes_law h s : st_inv s ->
    st_inv (fst (st_GetChangesSince h s)) /\ st_records (fst (st_GetChangesSince h s)) = st_records s /\
    (forall r, r ∈ snd (st_GetChangesSince h s) <-> st_records s !! rkey r = Some r /\ hlc_gt (Clock r) h);
  st_listall_law c s : st_inv s -> NoDup (st_ListAll c s) /\
    forall r, r ∈ st_ListAll c s <-> st_records s !! rkey r = Some r /\ Collection r = or_default c;
  st_list_law c s : st_List c s = filter (fun r => Deleted r = false) (st_ListAll c s)
}.

(** ** The instances *)

#[export] Instance mem_StoreOps : StoreOps MemoryStore := {|
  st_records := ms_records;
  st_Put r s := let '(s', (acc, w)) := MemoryStore_Put r s in (s', Some (acc, w));
  st_Get := MemoryStore_Get;
  st_Delete now c i s := let '(s', w) := MemoryStore_Delete now c i s in (s', Some w);
  st_List := MemoryStore_List;
  st_ListAll := MemoryStore_ListAll;
  st_GetChangesSince := MemoryStore_GetChangesSince;
  st_Query := MemoryStore_Query;
  st_SearchSimilar := MemoryStore_SearchSimilar;
  st_KnowledgeVector := MemoryStore_KnowledgeVector;
  st_NodeID := MemoryStore_NodeID;
  st_Close s := (MemoryStore_Close s, true)
|}.

#[export] Instance mem_StoreLaws : StoreLaws MemoryStore.
Proof.
  refine {| st_inv := ms_inv; st_put_ok r _ := tick_safe (Clock r) /\ colon_free (Collection r) |}.
  - intros s I. apply I.
  - intros s I. apply I.
  - intros s I. apply I.
  - intros s r I [Ht Hc]. cbn [st_Put st_records mem_StoreOps].
    pose proof (Put_inv r s I Ht Hc) as I'. pose proof (Put_records r s) as Hr. pose proof (Put_result r s) as Hw.
    destruct (MemoryStore_Put r s) as [s' [acc w]]. cbn [fst snd] in *.
    exists s', acc, w. split_and!; [done|done|done|].
    destruct (ms_records s !! rkey (normalize r)); injection Hw as -> _; [by apply bool_decide_ext|done].
  - done.
  - intros h s I. cbn [st_GetChangesSince st_records mem_StoreOps]. split_and!; [by apply GetChangesSince_inv| |].
    + unfold MemoryStore_GetChangesSince. by destruct (ms_changesDirty s).
    + intros r. rewrite GetChangesSince_scan by done. apply changes_after_elem, I.
  - intros c s I. split; [by apply ListAll_nodup_aux|]. intros r. by apply ListAll_elem_aux.
  - intros c s. apply List_filter.
Defined.

Section log_store.
Context `{Zstd}.

#[export] Instance log_StoreOps : StoreOps LogStore := {|
  st_records := ls_records;
  st_Put r s := let '(s', (acc, w), e) := LogStore_Put r s in
    (s', match e with Ok _ => Some (acc, w) | _ => None end);
  st_Get := LogStore_Get;
  st_Delete now c i s := let '(s', w, e) := LogStore_Delete now c i s in
    (s', match e with Ok _ => Some w | _ => None end);
  st_List := LogStore_List;
  st_ListAll := LogStore_ListAll;
  st_GetChangesSince := LogStore_GetChangesSince;
  st_Query := LogStore_Query;
  st_SearchSimilar := LogStore_SearchSimilar;
  st_KnowledgeVector := LogStore_KnowledgeVector;
  st_NodeID := LogStore_NodeID;
  st_Close s := let '(s', e) := LogStore_Close s in (s', match e with Ok _ => true | _ => false end)
|}.

#[export] Instance log_StoreLaws : StoreLaws LogStore.
Proof.
  refine {| st_inv s := exists rs, log_inv s rs; st_put_ok r s := log_op_ok (LPut r) s |}.
  - intros s [rs I]. apply (li_mem _ _ I).
  - intros s [rs I]. apply (li_mem _ _ I).
  - intros s [rs I]. apply (li_mem _ _ I).
  - intros s r [rs I] Ho. cbn [st_Put st_records log_StoreOps].
    pose proof (log_step_inv (LPut r) s rs I Ho) as I'. destruct Ho as [Ht Hl]. cbn [log_step] in I'.
    pose proof (LogStore_Put_mem r s) as Hm. destruct (Put_append r s) as (s1 & (Hw1 & Hf1 & _) & Happ).
    pose proof (Put_records r (ls_mem s)) as Hr. pose proof (Put_result r (ls_mem s)) as Hw. rewrite Hm in *.
    destruct (LogStore_Put r s) as [[s' [acc w]] e]. cbn [fst snd] in *.
    apply append_ok in Happ as (-> & _); [|unfold ls_io_ok; rewrite Hw1, Hf1; apply I].
    exists s', acc, w. split_and!; [done|by eexists|done|]. cbn [ms_records ls_mem] in Hw.
    destruct (ls_records s !! rkey (normalize r)); injection Hw as -> _; [by apply bool_decide_ext|done].
  - done.
  - intros h s [rs I]. cbn [st_GetChangesSince st_records log_StoreOps].
    pose proof (GetChangesSince_log_inv h s rs I) as I'. pose proof (LogStore_GetChangesSince_mem h s) as Hm.
    pose proof (GetChangesSince_scan h (ls_mem s) (li_mem _ _ I)) as Hs. rewrite Hm in Hs.
    split_and!; [by eexists| |].
    + unfold LogStore_GetChangesSince. by destruct (ls_changesDirty s).
    + intros r. destruct (LogStore_GetChangesSince h s) as [s' out]. cbn [fst snd] in *. rewrite Hs.
      apply changes_after_elem, (li_mem _ _ I).
  - intros c s [rs I]. cbn [st_ListAll log_StoreOps]. change (LogStore_ListAll c s) with (MemoryStore_ListAll c (ls_mem s)).
    split; [by apply ListAll_nodup_aux, (li_mem _ _ I)|]. intros r. apply (ListAll_elem_aux c (ls_mem s)), (li_mem _ _ I).
  - intros c s. apply (List_filter c (ls_mem s)).
Defined.
End log_store.

(** ** Feeding a store *)

Section feed.
Context {S : Type} `{StoreLaws S}.

(** [for _, rec := range recs { store.Put(rec) }] *)
Definition put_all (rs : list NellRecord) (s : S) : S := foldl (fun s r => fst (st_Put r s)) s rs.
Fixpoint puts_ok (rs : list NellRecord) (s : S) : Prop :=
  match rs with
  | [] => True
  | r :: rs => st_put_ok r s /\ puts_ok rs (fst (st_Put r s))
  end.

Lemma put_all_law rs : forall s,
  st_inv s -> puts_ok rs s ->
  st_inv (put_all rs s) /\ st_records (put_all rs s) = merge (st_records s) (normalize <$> rs).
Proof.
  induction rs as [|r rs IH]; intros s I; [done|]. intros [Hr Hrs]. unfold put_all. cbn [foldl fmap list_fmap].
  destruct (st_put_law s r I Hr) as (s' & acc & w & He & I' & Hm & _). rewrite He in *. cbn [fst] in *.
  destruct (IH s' I' Hrs) as [I2 Hm2]. split; [done|]. unfold put_all in Hm2. by rewrite Hm2, Hm.
Qed.
(** Stored records have their collections filled in. *)
Lemma normalize_stored (s : S) (out : list NellRecord) :
  st_inv s -> (forall r, r ∈ out -> st_records s !! rkey r = Some r) -> normalize <$> out = out.
Proof.
  intros I. induction out as [|r out IH]; intros Hout; [done|]. cbn [fmap list_fmap]. f_equal.
  - apply normalize_id. apply (st_colls s I _ _ (Hout r ltac:(left))).
  - apply IH. intros x Hx. apply Hout. by right.
Qed.
(** What is stored never gets older. *)
Lemma merge_keeps m rs k r :
  m !! k = Some r -> exists r', merge m rs !! k = Some r' /\ ~ beats r r'.
Proof.
  intros Hr. pose proof (merge_spec rs m k) as Hm. destruct (merge m rs !! k) as [w|].
  - exists w. split; [done|]. apply Hm. by left.
  - exfalso. apply (Hm r). by left.
Qed.
End feed.

(** ** Two stores exchanging their changes *)

(** Everything [m1] holds at or before [h], [m2] holds too, or something later. *)
Definition caught_up (h : HLC) (m1 m2 : gmap string NellRecord) : Prop :=
  forall k r, m1 !! k = Some r -> hlc_le (Clock r) h -> exists r', m2 !! k = Some r' /\ (r' = r \/ beats r' r).
(** A stamp names one record among those the two stores hold under a key. *)
Definition stamps_agree (m1 m2 : gmap string NellRecord) : Prop :=
  forall k a b, m1 !! k = Some a -> m2 !! k = Some b -> stamp a = stamp b -> a = b.

(** The records of [m2] after [h], as a list. *)
Definition changes_of (h : HLC) (m : gmap string NellRecord) (rs : list NellRecord) : Prop :=
  forall r, r ∈ rs <-> m !! rkey r = Some r /\ hlc_gt (Clock r) h.

(** After merging [m2]'s changes, what [m1] holds is unbeaten by anything either held. *)
Lemma merge_changes_max h m1 m2 rs k :
  keyed m2 -> changes_of h m2 rs -> caught_up h m2 m1 ->
  match merge m1 rs !! k with
  | Some w => (m1 !! k = Some w \/ m2 !! k = Some w) /\
      forall r, m1 !! k = Some r \/ m2 !! k = Some r -> ~ beats r w
  | None => m1 !! k = None /\ m2 !! k = None
  end.
Proof.
  intros Hk2 Hch Hcu. unfold changes_of in Hch. pose proof (merge_spec rs m1 k) as Hm.
  assert (forall r, candidate m1 rs k r <-> m1 !! k = Some r \/ (m2 !! k = Some r /\ hlc_gt (Clock r) h)) as Hc.
  { intros r. unfold candidate. rewrite Hch. split; [intros [|[[? ?] <-]]; auto|].
    intros [|[Hr Hg]]; [by left|right]. by rewrite (Hk2 _ _ Hr). }
  assert (forall r, m2 !! k = Some r -> exists r', candidate m1 rs k r' /\ (r' = r \/ beats r' r)) as Hdom.
  { intros r Hr. destruct (decide (hlc_gt (Clock r) h)) as [Hg|Hg].
    - exists r. split; [|by left]. apply Hc. auto.
    - apply hlc_not_gt in Hg. destruct (Hcu k r Hr Hg) as (r' & Hr' & Hb).
      exists r'. split; [|done]. apply Hc. by left. }
  destruct (merge m1 rs !! k) as [w|].
  - destruct Hm as [Hw Hmax]. split; [apply Hc in Hw as [?|[? _]]; auto|].
    intros r [Hr|Hr]; [apply Hmax, Hc; by left|].
    destruct (Hdom r Hr) as (r' & Hr' & [->|Hb]); [by apply Hmax|].
    intros Hbw. apply (Hmax r' Hr'). by eapply beats_trans.
  - split.
    + destruct (m1 !! k) as [r|] eqn:Hr; [|done]. exfalso. apply (Hm r), Hc. by left.
    + destruct (m2 !! k) as [r|] eqn:Hr; [|done]. destruct (Hdom r eq_refl) as (r' & Hr' & _).
      exfalso. by apply (Hm r').
Qed.

Lemma exchange_converges h m1 m2 rs1 rs2 :
  keyed m1 -> keyed m2 -> changes_of h m1 rs1 -> changes_of h m2 rs2 ->
  caught_up h m1 m2 -> caught_up h m2 m1 -> stamps_agree m1 m2 ->
  merge m1 rs2 = merge m2 rs1.
Proof.
  intros K1 K2 C1 C2 U1 U2 Hs. apply map_eq. intros k.
  pose proof (merge_changes_max h m1 m2 rs2 k K2 C2 U2) as H1.
  pose proof (merge_changes_max h m2 m1 rs1 k K1 C1 U1) as H2.
  destruct (merge m1 rs2 !! k) as [a|], (merge m2 rs1 !! k) as [b|].
  - destruct H1 as [Ha Ma], H2 as [Hb Mb]. f_equal.
    destruct (beats_trichotomy a b) as [H|[H|H]].
    + exfalso. apply (Mb a); [|done]. tauto.
    + destruct Ha as [Ha|Ha], Hb as [Hb|Hb]; try congruence; [by eapply Hs|].
      symmetry. by eapply Hs.
    + exfalso. apply (Ma b); [|done]. tauto.
  - destruct H1 as [[Ha|Ha] _], H2; congruence.
  - destruct H2 as [[Hb|Hb] _], H1; congruence.
  - done.
Qed.

(** ** Properties *)

(** C3. Strong convergence, across backends: two stores holding the same records and given
    the same set of records, in any orders and with any repetitions, hold the same
    records afterwards, where a stamp (clock, node id) identifies one record per key. *)
Theorem stores_converge {S1 S2} `{StoreLaws S1, StoreLaws S2} (s1 : S1) (s2 : S2) rs1 rs2 :
  st_inv s1 -> st_inv s2 -> st_records s1 = st_records s2 -> puts_ok rs1 s1 -> puts_ok rs2 s2 ->
  (forall r, r ∈ normalize <$> rs1 <-> r ∈ normalize <$> rs2) ->
  stamps_unique (st_records s1) (normalize <$> rs1) ->
  st_records (put_all rs1 s1) = st_records (put_all rs2 s2) /\
  forall c i, st_Get c i (put_all rs1 s1) = st_Get c i (put_all rs2 s2).
Proof.
  intros I1 I2 He P1 P2 Hrs Hu.
  assert (st_records (put_all rs1 s1) = st_records (put_all rs2 s2)) as Heq.
  { rewrite (proj2 (put_all_law rs1 s1 I1 P1)), (proj2 (put_all_law rs2 s2 I2 P2)), <-He.
    by apply merge_same_set. }
  split; [done|]. intros c i. by rewrite !st_get_law, Heq.
Qed.
Definition demo_new : NellRecord := mkRecord "c" "1" "text" [] [] (mkHLC 5 0) "q" false.
Lemma new_log_log_inv now node fi : st_inv (StoreLaws := log_StoreLaws) (new_log now node fi []).
Proof. exists []. apply new_log_inv. Qed.
Lemma stores_converge_witness :
  st_records (put_all [demo_new; demo_rec "1" 1] (NewMemoryStore 0 "m")) =
  st_records (put_all [demo_rec "1" 1; demo_new; demo_rec "1" 1] (new_log 0 "l" 0 [])).
Proof.
  apply (stores_converge (NewMemoryStore 0 "m") (new_log 0 "l" 0 [])
    [demo_new; demo_rec "1" 1] [demo_rec "1" 1; demo_new; demo_rec "1" 1]).
  - apply NewMemoryStore_inv.
  - apply new_log_log_inv.
  - reflexivity.
  - repeat (split; [split; [by split|by apply (bool_decide_unpack _)]|]). done.
  - repeat (split; [split; [by split|apply (bool_decide_unpack _); vm_compute; exact I]|]). done.
  - intros r. cbn. rewrite !elem_of_cons, !elem_of_nil. naive_solver.
  - intros k a b. unfold candidate. cbn. rewrite !elem_of_cons, !elem_of_nil, lookup_empty.
    intros [?|[[->|[->|[]]] _]] [?|[[->|[->|[]]] _]]; done.
Defined.

(** C10. Delta synchronisation converges: two stores of any backends that are caught up on
    each other to a clock [h] and send each other what [GetChangesSince] gives after
    [h] end up with the same records, with nothing either held lost to an older one. *)
Theorem delta_sync_converges {S1 S2} `{StoreLaws S1, StoreLaws S2} (s1 : S1) (s2 : S2) h :
  st_inv s1 -> st_inv s2 ->
  caught_up h (st_records s1) (st_records s2) -> caught_up h (st_records s2) (st_records s1) ->
  stamps_agree (st_records s1) (st_records s2) ->
  let s1' := fst (st_GetChangesSince h s1) in let out1 := snd (st_GetChangesSince h s1) in
  let s2' := fst (st_GetChangesSince h s2) in let out2 := snd (st_GetChangesSince h s2) in
  puts_ok out2 s1' -> puts_ok out1 s2' ->
  st_records (put_all out2 s1') = st_records (put_all out1 s2') /\
  forall k r, st_records s1 !! k = Some r \/ st_records s2 !! k = Some r ->
    exists r', st_records (put_all out2 s1') !! k = Some r' /\ ~ beats r r'.
Proof.
  intros I1 I2 U1 U2 Hs.
  destruct (st_changes_law h s1 I1) as (I1' & R1 & C1), (st_changes_law h s2 I2) as (I2' & R2 & C2).
  destruct (st_GetChangesSince h s1) as [s1' out1], (st_GetChangesSince h s2) as [s2' out2].
  cbn [fst snd] in *. intros P1 P2.
  assert (normalize <$> out1 = out1) as N1 by (apply (normalize_stored s1); [done|intros r Hr; by apply C1]).
  assert (normalize <$> out2 = out2) as N2 by (apply (normalize_stored s2); [done|intros r Hr; by apply C2]).
  rewrite (proj2 (put_all_law out2 s1' I1' P1)), (proj2 (put_all_law out1 s2' I2' P2)).
  rewrite N1, N2, R1, R2. split.
  - apply (exchange_converges h _ _ out1 out2 (st_keyed s1 I1) (st_keyed s2 I2) C1 C2 U1 U2 Hs).
  - intros k r Hr.
    pose proof (merge_changes_max h _ (st_records s2) out2 k (st_keyed s2 I2) C2 U2) as Hm.
    destruct (merge (st_records s1) out2 !! k) as [w|].
    + exists w. split; [done|]. by apply Hm.
    + destruct Hm, Hr; congruence.
Qed.
Definition demo_s1 : MemoryStore := put_all [demo_rec "1" 1] (NewMemoryStore 0 "m").
Definition demo_s2 : LogStore := put_all [demo_rec "2" 2] (new_log 0 "l" 0 []).
Lemma demo_s1_inv : st_inv demo_s1.
Proof.
  apply (put_all_law [demo_rec "1" 1] (NewMemoryStore 0 "m")); [apply NewMemoryStore_inv|].
  split; [|done]. by split; [split|apply (bool_decide_unpack _)].
Qed.
Lemma demo_s2_inv : st_inv demo_s2.
Proof.
  apply (put_all_law [demo_rec "2" 2] (new_log 0 "l" 0 [])); [apply new_log_log_inv|].
  split; [|done]. split; [by split|]. apply (bool_decide_unpack _). vm_compute. exact I.
Qed.
Lemma caught_up_later h m1 m2 :
  bool_decide (map_Forall (fun _ r => ~ hlc_le (Clock r) h) m1) = true -> caught_up h m1 m2.
Proof. intros Hm%bool_decide_eq_true k r Hk Hle. by destruct (Hm k r Hk). Qed.
Lemma delta_sync_converges_witness :
  st_records (put_all (snd (st_GetChangesSince HLC_zero demo_s2)) (fst (st_GetChangesSince HLC_zero demo_s1))) =
  st_records (put_all (snd (st_GetChangesSince HLC_zero demo_s1)) (fst (st_GetChangesSince HLC_zero demo_s2))).
Proof.
  apply (delta_sync_converges demo_s1 demo_s2 HLC_zero demo_s1_inv demo_s2_inv).
  - apply caught_up_later. vm_compute. reflexivity.
  - apply caught_up_later. vm_compute. reflexivity.
  - intros k a b Ha Hb.
    assert (map_to_list (st_records demo_s1) = [("c:1", demo_rec "1" 1)]) as E1 by (vm_compute; reflexivity).
    assert (map_to_list (st_records demo_s2) = [("c:2", demo_rec "2" 2)]) as E2 by (vm_compute; reflexivity).
    apply elem_of_map_to_list in Ha, Hb. rewrite E1 in Ha. rewrite E2 in Hb.
    apply list_elem_of_singleton in Ha, Hb. congruence.
  - assert (snd (st_GetChangesSince HLC_zero demo_s2) = [demo_rec "2" 2]) as -> by (vm_compute; reflexivity).
    split; [|done]. by split; [split|apply (bool_decide_unpack _)].
  - assert (snd (st_GetChangesSince HLC_zero demo_s1) = [demo_rec "1" 1]) as -> by (vm_compute; reflexivity).
    split; [|done]. split; [by split|]. apply (bool_decide_unpack _). vm_compute. exact I.
Defined.
