(* ===== verification/Server.v ===== *)
(** * The sync server (server/main.go)

    The handlers of the sync API over any [Store].  A handler gets the request's method,
    the outcome of reading or decoding its body (the decoder is Go's [encoding/json]) and
    the [col] parameter, and gives the new server, the response and the changes handed
    to [broadcast].  [sort.Slice] by clock leaves records with equal clocks in any order,
    so the handlers that sort take what it returned. *)
From S2P Require Import Prelude BigEndian Hlc Record KnowledgeVector Conflict GoSort MemStore StoreApi.

(** Why a body could not be decoded. *)
Inductive body_err := BodyTooLarge | BodyBad.

Inductive response :=
| RespError (status : Z)
| RespChanges (changes : list NellRecord)
| RespAccepted (accepted total : Z)
| RespCheck (receiver : string) (missing : list NellRecord) (next_cursor : string) (has_more : bool)
| RespBytes (b : bytes)
| RespHealth (node_id : string)
| RespReady (node_id : string) (doc_count : Z).

Definition MethodPost : string := "POST".
(** [writeBodyError] *)
Definition writeBodyError (e : body_err) : response :=
  match e with BodyTooLarge => RespError 413 | BodyBad => RespError 400 end.
(** [if col == "" { col = nell.DefaultCollection }] is [or_default]. *)

Definition clamp (v lo hi : Z) : Z :=
  (if v <=? 0 then lo
   else let v := if v <? lo then lo else v in if hi <? v then hi else v)%Z.

(** The order the check handlers sort by. *)
Definition clock_less (a b : NellRecord) : bool := HLC_GreaterThan (Clock b) (Clock a).

(** [seen, ok := vector[rec.UpdatedBy]; !ok || rec.Clock.GreaterThan(seen)] *)
Definition is_missing (vector : gmap string HLC) (rec : NellRecord) : bool :=
  match vector !! UpdatedBy rec with
  | None => true
  | Some seen => HLC_GreaterThan (Clock rec) seen
  end.

(** Go's [a <= b] on strings. *)
Definition str_leb (a b : string) : bool := negb (str_ltb b a).

(** ** handleCheck *)

(** The loop that collects a page. *)
Fixpoint check_loop (limit : Z) (cursor : string) (vector : gmap string HLC)
    (all : list NellRecord) (pastCursor : bool) (missing : list NellRecord) : list NellRecord :=
  match all with
  | [] => missing
  | rec :: all =>
      if negb pastCursor && str_leb (ID rec) cursor then check_loop limit cursor vector all pastCursor missing
      else if (limit <=? len missing)%Z then missing
      else check_loop limit cursor vector all true (if is_missing vector rec then missing ++ [rec] else missing)
  end.
(** [missing[len(missing)-1].ID] *)
Definition last_id {E} (missing : list NellRecord) : res E string :=
  match last missing with Some r => Ok (ID r) | None => Panic end.
Definition check_hasMore (limit : Z) (vector : gmap string HLC) (all missing : list NellRecord) : res Empty_set bool :=
  if (limit <=? len missing)%Z then
    lastID ← last_id missing;
    Ok (existsb (fun rec => negb (str_leb (ID rec) lastID) && is_missing vector rec) all)
  else Ok false.
Definition check_page (limit : Z) (cursor : string) (vector : gmap string HLC) (all : list NellRecord)
    : res Empty_set (list NellRecord * string * bool) :=
  let missing := check_loop limit cursor vector all (bool_decide (cursor = "")) [] in
  hasMore ← check_hasMore limit vector all missing;
  nextCursor ← (if hasMore && (0 <? len missing)%Z then last_id missing else Ok "");
  Ok (missing, nextCursor, hasMore).

Record checkReq := mkCheckReq { ck_vector : gmap string HLC; ck_limit : Z; ck_cursor : string }.

(** ** The binary endpoints *)

(** What [handleBinCheck] streams for one record. *)
Definition bin_record (rec : NellRecord) : bytes :=
  match @Record_MarshalBinary Empty_set rec with
  | Ok b => be_bytes 4 (wrap_u 32 (len b)) ++ b
  | _ => []
  end.
Definition bin_stream (vector : gmap string HLC) (all : list NellRecord) : bytes :=
  concat (map bin_record (filter (fun rec => is_missing vector rec = true) all)).

Section server.
Context {St : Type} `{StoreOps St}.

Record Server := mkServer {
  srv_store : St;
  srv_nodeID : string;
  (** connected WebSocket peers: remote address to node id *)
  srv_peers : gmap string string;
  srv_kv : gmap string HLC;
  srv_authSecret : bytes
}.
Definition srv_set_store (st : St) (s : Server) : Server :=
  mkServer st (srv_nodeID s) (srv_peers s) (srv_kv s) (srv_authSecret s).
Definition srv_set_kv (kv : gmap string HLC) (s : Server) : Server :=
  mkServer (srv_store s) (srv_nodeID s) (srv_peers s) kv (srv_authSecret s).
Definition srv_set_peers (ps : gmap string string) (s : Server) : Server :=
  mkServer (srv_store s) (srv_nodeID s) ps (srv_kv s) (srv_authSecret s).

(** [recordSeen] *)
Definition recordSeen (rec : NellRecord) (s : Server) : Server :=
  srv_set_kv (KnowledgeVector_Update (srv_kv s) (UpdatedBy rec) (Clock rec)) s.
(** [seedKnowledgeVector]: [kvs] is the store's own vector, when it has that method. *)
Definition seedKnowledgeVector (kvs : option (gmap string HLC)) (s : Server) : Server :=
  match kvs with
  | Some kv => srv_set_kv (kv ∪ srv_kv s) s
  | None =>
      let '(st, all) := st_GetChangesSince HLC_zero (srv_store s) in
      let s := srv_set_store st s in
      srv_set_kv (foldl (fun kv rec => KnowledgeVector_Update kv (UpdatedBy rec) (Clock rec)) (srv_kv s) all) s
  end.
Definition Server_New (store : St) (nodeID : string) (kvs : option (gmap string HLC)) : Server :=
  seedKnowledgeVector kvs (mkServer store nodeID ∅ ∅ []).
Definition SetAuthSecret (secret : bytes) (s : Server) : Server :=
  mkServer (srv_store s) (srv_nodeID s) (srv_peers s) (srv_kv s) secret.
(** [knowledgeVector]: a copy. *)
Definition knowledgeVector (s : Server) : gmap string HLC := srv_kv s.

(** The messages [broadcast] starts a goroutine for: one per connected peer. *)
Definition broadcast (changes : list NellRecord) (s : Server) : list (string * list NellRecord) :=
  (fun addr => (addr.1, changes)) <$> map_to_list (srv_peers s).

Definition handlePull (method : string) (body : res body_err HLC) (col : string) (s : Server) : Server * response :=
  if negb (bool_decide (method = MethodPost)) then (s, RespError 405) else
  match body with
  | Err e => (s, writeBodyError e)
  | Panic => (s, RespError 500)
  | Ok since =>
      let col := or_default col in
      let '(st, changes) := st_GetChangesSince since (srv_store s) in
      (srv_set_store st s, RespChanges (filter (fun rec => Collection rec = col) changes))
  end.

(** The loop of [handlePush]: a store error ends it. *)
Fixpoint push_loop (changes : list NellRecord) (accepted : Z) (s : Server) : Server * option Z :=
  match changes with
  | [] => (s, Some accepted)
  | rec :: changes =>
      let '(st, r) := st_Put rec (srv_store s) in
      let s := srv_set_store st s in
      match r with
      | None => (s, None)
      | Some (ok, _) => push_loop changes (if ok then accepted + 1 else accepted)%Z (recordSeen rec s)
      end
  end.
Definition handlePush (method : string) (body : res body_err (list NellRecord)) (s : Server)
    : Server * response * list (string * list NellRecord) :=
  if negb (bool_decide (method = MethodPost)) then (s, RespError 405, []) else
  match body with
  | Err e => (s, writeBodyError e, [])
  | Panic => (s, RespError 500, [])
  | Ok changes =>
      match push_loop changes 0 s with
      | (s, None) => (s, RespError 500, [])
      | (s, Some accepted) => (s, RespAccepted accepted (len changes), broadcast changes s)
      end
  end.

(** [all] is [store.ListAll(col)] as [sort.Slice] left it. *)
Definition handleCheck (method : string) (body : res body_err checkReq) (all : list NellRecord) (s : Server)
    : res Empty_set response :=
  if negb (bool_decide (method = MethodPost)) then Ok (RespError 405) else
  match body with
  | Err e => Ok (writeBodyError e)
  | Panic => Ok (RespError 500)
  | Ok req =>
      let limit := clamp (ck_limit req) 100 10000 in
      '(missing, nextCursor, hasMore) ← check_page limit (ck_cursor req) (ck_vector req) all;
      Ok (RespCheck (srv_nodeID s) missing nextCursor hasMore)
  end.

Definition handleBinCheck (method : string) (body : bytes) (all : list NellRecord) (s : Server) : response :=
  if negb (bool_decide (method = MethodPost)) then RespError 405 else
  match KnowledgeVector_UnmarshalBinary ∅ body with
  | Ok kv => RespBytes (bin_stream kv all)
  | _ => RespError 400
  end.

(** The read loop of [handleBinPush]: a short header or body ends it, an undecodable
    record is skipped.  Each turn reads at least 4 bytes. *)
Fixpoint binpush_loop (fuel : nat) (body : bytes) (accepted total : Z) (recs : list NellRecord) (s : Server)
    : Server * Z * Z * list NellRecord :=
  match fuel with
  | O => (s, accepted, total, recs)
  | S fuel =>
      if (len body <? 4)%Z then (s, accepted, total, recs) else
      let recLen := be_value (take 4 body) in
      let body := drop 4 body in
      if (len body <? recLen)%Z then (s, accepted, total, recs) else
      let recBytes := take (Z.to_nat recLen) body in
      let body := drop (Z.to_nat recLen) body in
      match Record_UnmarshalBinary recBytes with
      | Ok rec =>
          let '(st, r) := st_Put rec (srv_store s) in
          let s := recordSeen rec (srv_set_store st s) in
          match r with
          | Some (true, _) => binpush_loop fuel body (accepted + 1) (total + 1) (recs ++ [rec]) s
          | _ => binpush_loop fuel body accepted (total + 1) recs s
          end
      | _ => binpush_loop fuel body accepted total recs s
      end
  end.
Definition handleBinPush (method : string) (body : bytes) (s : Server)
    : Server * response * list (string * list NellRecord) :=
  if negb (bool_decide (method = MethodPost)) then (s, RespError 405, []) else
  let '(s, accepted, total, recs) := binpush_loop (1 + length body) body 0 0 [] s in
  (s, RespBytes (be_bytes 4 (wrap_u 32 accepted)), if (0 <? len recs)%Z then broadcast recs s else []).

(** [handleWebSocket]: connecting, one message, disconnecting. *)
Definition ws_connect (remoteAddr nodeID : string) (s : Server) : Server :=
  srv_set_peers (<[remoteAddr := if bool_decide (nodeID = "") then "unknown" else nodeID]> (srv_peers s)) s.
Fixpoint ws_loop (changes : list NellRecord) (accepted : Z) (s : Server) : Server * Z :=
  match changes with
  | [] => (s, accepted)
  | rec :: changes =>
      let '(st, r) := st_Put rec (srv_store s) in
      let s := srv_set_store st s in
      match r with
      | None => ws_loop changes accepted s
      | Some (ok, _) => ws_loop changes (if ok then accepted + 1 else accepted)%Z (recordSeen rec s)
      end
  end.
Definition ws_message (changes : list NellRecord) (s : Server) : Server * list (string * list NellRecord) :=
  let '(s, accepted) := ws_loop changes 0 s in
  (s, if (0 <? accepted)%Z then broadcast changes s else []).
Definition ws_close (remoteAddr : string) (s : Server) : Server :=
  srv_set_peers (delete remoteAddr (srv_peers s)) s.

Definition handleHealth (s : Server) : response := RespHealth (srv_nodeID s).
Definition handleReady (s : Server) : response :=
  RespReady (srv_nodeID s) (len (st_List DefaultCollection (srv_store s))).
End server.
Arguments Server St : clear implicits.

(** [requireJSON]: the status it answers with, or none when it lets the request through. *)
Definition requireJSON (method contentType : string) : option Z :=
  if bool_decide (method = MethodPost) then
    if bool_decide (contentType = "application/octet-stream") then None
    else if negb (bool_decide (contentType = "application/json")) then Some 415%Z
    else None
  else None.

(** ** Ingesting records *)

(** The vector after [recordSeen] of each record. *)
Definition see_all (rs : list NellRecord) (kv : gmap string HLC) : gmap string HLC :=
  foldl (fun kv rec => KnowledgeVector_Update kv (UpdatedBy rec) (Clock rec)) kv rs.
Definition saw (rs : list NellRecord) {St} (s : Server St) : Server St :=
  srv_set_kv (see_all rs (srv_kv s)) s.

Lemma see_all_covers rs kv r : r ∈ rs -> kv_covers (see_all rs kv) (UpdatedBy r) (Clock r).
Proof.
  induction rs as [|x rs IH] using rev_ind; [by intros ?%not_elem_of_nil|].
  unfold see_all in *. rewrite foldl_app, elem_of_app, list_elem_of_singleton. cbn [foldl].
  intros [Hr| ->]; [by apply kv_Update_mono, IH|apply kv_Update_covers].
Qed.
Lemma see_all_mono rs kv n c : kv_covers kv n c -> kv_covers (see_all rs kv) n c.
Proof.
  revert kv. induction rs as [|x rs IH]; intros kv Hk; [done|].
  unfold see_all in *. cbn [foldl]. by apply IH, kv_Update_mono.
Qed.
(** An entry of the vector came with the vector or from one of the records. *)
Lemma see_all_from rs kv n c :
  see_all rs kv !! n = Some c -> kv !! n = Some c \/ exists r, r ∈ rs /\ UpdatedBy r = n /\ Clock r = c.
Proof.
  induction rs as [|x rs IH] using rev_ind; [by left|].
  unfold see_all in *. rewrite foldl_app. cbn [foldl]. unfold KnowledgeVector_Update at 1.
  assert (forall y, y ∈ rs -> y ∈ rs ++ [x]) as Hin by set_solver.
  destruct (foldl _ kv rs !! UpdatedBy x) as [e|] eqn:He;
    [destruct (HLC_GreaterThan (Clock x) e)|].
  - rewrite lookup_insert. case_decide as Hn; [intros [= <-]; right; exists x; set_solver|].
    intros [?|(r & ? & ?)]%IH; eauto.
  - intros [?|(r & ? & ?)]%IH; eauto.
  - rewrite lookup_insert. case_decide as Hn; [intros [= <-]; right; exists x; set_solver|].
    intros [?|(r & ? & ?)]%IH; eauto.
Qed.

(** How many of [rs] win when merged one after the other. *)
Fixpoint wins (m : gmap string NellRecord) (rs : list NellRecord) : Z :=
  match rs with
  | [] => 0
  | r :: rs =>
      (match m !! rkey (normalize r) with None => 1 | Some l => if bool_decide (beats r l) then 1 else 0 end
       + wins (put_record m (normalize r)) rs)%Z
  end.
Fixpoint winners (m : gmap string NellRecord) (rs : list NellRecord) : list NellRecord :=
  match rs with
  | [] => []
  | r :: rs =>
      (match m !! rkey (normalize r) with None => [r] | Some l => if bool_decide (beats r l) then [r] else [] end)
      ++ winners (put_record m (normalize r)) rs
  end.

Section ingest.
Context {St : Type} `{StoreLaws St}.

Lemma push_loop_law changes : forall n (s : Server St),
  st_inv (srv_store s) -> puts_ok changes (srv_store s) ->
  push_loop changes n s =
    (srv_set_store (put_all changes (srv_store s)) (saw changes s), Some (n + wins (st_records (srv_store s)) changes)%Z).
Proof.
  induction changes as [|r rs IH]; intros n s I; cbn [push_loop puts_ok wins].
  - intros _. rewrite Z.add_0_r. by destruct s.
  - intros [Hr Hrs]. destruct (st_put_law _ r I Hr) as (st & acc & w & He & I' & Hm & Hacc).
    rewrite He in *. cbn [fst] in Hrs. rewrite (IH _ (recordSeen r (srv_set_store st s)) I' Hrs).
    cbn [srv_store recordSeen srv_set_kv srv_set_store]. rewrite Hm.
    unfold saw, see_all, put_all. cbn [foldl srv_kv recordSeen srv_set_kv srv_set_store]. rewrite He.
    cbn [fst]. do 2 f_equal. rewrite Hacc. destruct (st_records (srv_store s) !! _); [case_bool_decide|]; lia.
Qed.

Lemma ws_loop_law changes : forall n (s : Server St),
  st_inv (srv_store s) -> puts_ok changes (srv_store s) ->
  ws_loop changes n s =
    (srv_set_store (put_all changes (srv_store s)) (saw changes s), (n + wins (st_records (srv_store s)) changes)%Z).
Proof.
  induction changes as [|r rs IH]; intros n s I; cbn [ws_loop puts_ok wins].
  - intros _. rewrite Z.add_0_r. by destruct s.
  - intros [Hr Hrs]. destruct (st_put_law _ r I Hr) as (st & acc & w & He & I' & Hm & Hacc).
    rewrite He in *. cbn [fst] in Hrs. rewrite (IH _ (recordSeen r (srv_set_store st s)) I' Hrs).
    cbn [srv_store recordSeen srv_set_kv srv_set_store]. rewrite Hm.
    unfold saw, see_all, put_all. cbn [foldl srv_kv recordSeen srv_set_kv srv_set_store]. rewrite He.
    cbn [fst]. f_equal. rewrite Hacc. destruct (st_records (srv_store s) !! _); [case_bool_decide|]; lia.
Qed.

(** A stream has a byte or more per record. *)
Lemma bin_stream_length rs : (length rs <= length (concat (map bin_record rs)))%nat.
Proof.
  induction rs as [|r rs IH]; [done|]. cbn [map concat length]. rewrite length_app.
  assert (1 <= length (bin_record r))%nat; [|lia].
  unfold bin_record. rewrite MarshalBinary_ok, length_app, length_be_bytes. lia.
Qed.

Lemma binpush_loop_law fuel rs : forall n t acc (s : Server St) tail,
  st_inv (srv_store s) -> puts_ok rs (srv_store s) -> Forall record_ok rs ->
  Forall (fun r => in_u 32 (len (layout r))) rs -> (len tail < 4)%Z -> (length rs < fuel)%nat ->
  binpush_loop fuel (concat (map bin_record rs) ++ tail) n t acc s =
    (srv_set_store (put_all rs (srv_store s)) (saw rs s), (n + wins (st_records (srv_store s)) rs)%Z, (t + len rs)%Z,
     acc ++ winners (st_records (srv_store s)) rs).
Proof.
  revert fuel. induction rs as [|r rs IH]; intros fuel n t acc s tail I Hp Hok Hlen Htail Hfuel.
  - destruct fuel as [|fuel]; [cbn in Hfuel; lia|]. cbn [map concat app binpush_loop].
    rewrite (proj2 (Z.ltb_lt _ _) Htail). unfold len. cbn. rewrite !Z.add_0_r, app_nil_r. by destruct s.
  - destruct fuel as [|fuel]; [cbn in Hfuel; lia|]. destruct Hp as [Hr Hrs].
    inversion_clear Hok as [|?? Hrok Hok']. inversion_clear Hlen as [|?? Hrlen Hlen'].
    assert (bin_record r = be_bytes 4 (len (layout r)) ++ layout r) as Hb.
    { unfold bin_record. rewrite MarshalBinary_ok. by rewrite be_bytes_mod by lia. }
    cbn [map concat]. rewrite Hb, <-!app_assoc. set (h := be_bytes 4 (len (layout r))).
    assert (length h = 4%nat) as Hh by apply length_be_bytes.
    set (more := concat (map bin_record rs) ++ tail). cbn [binpush_loop].
    rewrite (proj2 (Z.ltb_ge _ _)) by (rewrite len_app; unfold len in *; lia).
    rewrite take_app_length', drop_app_length' by done.
    assert (be_value h = len (layout r)) as -> by by apply be_value_bytes_id.
    rewrite (proj2 (Z.ltb_ge _ _)) by (rewrite len_app; pose proof (len_nonneg more); lia).
    assert (Z.to_nat (len (layout r)) = length (layout r)) as -> by (unfold len; lia).
    rewrite take_app_length, drop_app_length.
    rewrite <-(app_nil_r (layout r)), Unmarshal_layout by done.
    destruct (st_put_law _ r I Hr) as (st & a & w & He & I' & Hm & Hacc). rewrite He in *. cbn [fst] in Hrs.
    set (s1 := recordSeen r (srv_set_store st s)).
    assert (put_all (r :: rs) (srv_store s) = put_all rs (srv_store s1)) as Hput.
    { unfold put_all. cbn [foldl]. by rewrite He. }
    assert (forall n' t' acc', n' = (n + wins (st_records (srv_store s)) [r])%Z -> t' = (t + 1)%Z ->
      acc' = acc ++ winners (st_records (srv_store s)) [r] ->
      binpush_loop fuel more n' t' acc' s1 =
      (srv_set_store (put_all (r :: rs) (srv_store s)) (saw (r :: rs) s), (n + wins (st_records (srv_store s)) (r :: rs))%Z,
       (t + len (r :: rs))%Z, acc ++ winners (st_records (srv_store s)) (r :: rs))) as Hgo.
    { intros n' t' acc' -> -> ->. unfold more. rewrite (IH fuel _ _ _ s1 tail); [|done..|cbn in Hfuel; lia].
      assert (st_records (srv_store s1) = put_record (st_records (srv_store s)) (normalize r)) as -> by exact Hm.
      rewrite Hput. cbn [wins winners]. unfold len. cbn [length]. rewrite app_nil_r, <-app_assoc.
      f_equal. f_equal; [f_equal; lia|lia]. }
    destruct (st_records (srv_store s) !! rkey (normalize r)) as [l|] eqn:Hl; subst a.
    + case_bool_decide as Hbt; apply Hgo; cbn [wins winners]; rewrite ?Hl, ?bool_decide_true, ?bool_decide_false by done;
        rewrite ?app_nil_r; (lia || done).
    + apply Hgo; cbn [wins winners]; rewrite ?Hl, ?app_nil_r; (lia || done).
Qed.
End ingest.

(** ** Pages of a check *)

#[export] Instance clock_LessOrder : LessOrder clock_less.
Proof.
  unfold clock_less. split.
  - intros a b. destruct (total hlc_le (Clock a) (Clock b)); auto.
  - intros a b c Hab Hbc. change (hlc_le (Clock a) (Clock c)). by transitivity (Clock b).
Qed.

Definition all_missing (vector : gmap string HLC) (all : list NellRecord) : list NellRecord :=
  filter (fun rec => is_missing vector rec = true) all.

Lemma check_loop_past limit cursor vector all : forall missing,
  (0 <= limit)%Z -> (len missing <= limit)%Z ->
  check_loop limit cursor vector all true missing =
  missing ++ take (Z.to_nat limit - length missing) (all_missing vector all).
Proof.
  induction all as [|r all IH]; intros missing Hl Hm; cbn [check_loop negb andb].
  - unfold all_missing. by rewrite filter_nil, take_nil, app_nil_r.
  - destruct (Z.leb_spec limit (len missing)) as [Hf|Hf].
    + replace (Z.to_nat limit - length missing) with 0 by (unfold len in *; lia). by rewrite app_nil_r.
    + unfold all_missing in *. rewrite filter_cons.
      destruct (is_missing vector r) eqn:Hmr.
      * rewrite decide_True by done. rewrite IH; [|done|rewrite len_app; unfold len in *; cbn; lia].
        rewrite <-app_assoc, length_app. cbn [length]. f_equal.
        replace (Z.to_nat limit - length missing) with (S (Z.to_nat limit - (length missing + 1))) by (unfold len in *; lia).
        done.
      * rewrite decide_False by congruence. by apply IH.
Qed.
(** Whatever the cursor, a page only has records the sender is missing. *)
Lemma check_loop_sub limit cursor vector all : forall past missing r,
  r ∈ check_loop limit cursor vector all past missing -> r ∈ missing \/ (r ∈ all /\ is_missing vector r = true).
Proof.
  induction all as [|x all IH]; intros past missing r; cbn [check_loop]; [auto|].
  destruct (negb past && str_leb (ID x) cursor).
  { intros [?|[??]]%IH; [auto|]. right. split; [by right|done]. }
  destruct (limit <=? len missing)%Z; [auto|].
  intros [Hr|[??]]%IH; [|right; split; [by right|done]].
  destruct (is_missing vector x) eqn:Hx; [|auto]. apply elem_of_app in Hr as [?|Hr]; [auto|].
  apply list_elem_of_singleton in Hr as ->. right. split; [by left|done].
Qed.

Lemma clamp_range v lo hi : (lo <= hi)%Z -> (lo <= clamp v lo hi <= hi)%Z.
Proof.
  intros. unfold clamp. destruct (Z.leb_spec v 0); [lia|].
  destruct (Z.ltb_spec v lo); [destruct (Z.ltb_spec hi lo)|destruct (Z.ltb_spec hi v)]; lia.
Qed.

(** A page never indexes an empty slice. *)
Lemma check_page_ok limit cursor vector all :
  (0 < limit)%Z -> exists missing next more,
    check_page limit cursor vector all = Ok (missing, next, more) /\
    missing = check_loop limit cursor vector all (bool_decide (cursor = "")) [] /\
    (more = true -> (limit <= len missing)%Z /\ exists r, last missing = Some r /\ next = ID r) /\
    (more = false -> next = "").
Proof.
  intros Hl. unfold check_page. set (missing := check_loop _ _ _ _ _ _).
  assert (forall r, last missing = Some r -> @last_id Empty_set missing = Ok (ID r)) as Hlast
    by (intros r Hr; unfold last_id; by rewrite Hr).
  unfold check_hasMore. destruct (Z.leb_spec limit (len missing)) as [Hf|Hf].
  - destruct (last missing) as [r|] eqn:Hr.
    2: { apply last_None in Hr. rewrite Hr in Hf. unfold len in Hf. cbn in Hf. lia. }
    rewrite (Hlast r eq_refl), !bind_ok. set (more := existsb _ all).
    destruct more; cbn [andb].
    + rewrite (proj2 (Z.ltb_lt 0 _)) by lia. rewrite bind_ok.
      do 3 eexists. split_and!; [done|done| |done]. intros _. split; [lia|eauto].
    + rewrite bind_ok. do 3 eexists. by split_and!.
  - rewrite bind_ok. cbn [andb]. rewrite bind_ok. do 3 eexists. by split_and!.
Qed.
Lemma check_page_first limit vector all :
  (0 < limit)%Z -> (len (all_missing vector all) <= limit)%Z ->
  exists next more, check_page limit "" vector all = Ok (all_missing vector all, next, more).
Proof.
  intros Hl Ha. destruct (check_page_ok limit "" vector all Hl) as (missing & next & more & He & Hm & _).
  exists next, more. rewrite He, Hm. rewrite bool_decide_true by done.
  rewrite check_loop_past; [|lia|unfold len; cbn; lia]. cbn [app length].
  rewrite take_ge; [done|]. unfold len in Ha. lia.
Qed.

(** ** Anti-entropy *)

(** The vector claims nothing the client does not have: a record of [rs] it does not
    count as missing is stored, or something that beats it is. *)
Definition honest (kv : gmap string HLC) (m : gmap string NellRecord) (rs : list NellRecord) : Prop :=
  forall r, r ∈ rs -> is_missing kv r = false -> exists r', m !! rkey r = Some r' /\ ~ beats r r'.

Lemma is_missing_false kv r : is_missing kv r = false <-> kv_covers kv (UpdatedBy r) (Clock r).
Proof.
  unfold is_missing, kv_covers. destruct (kv !! UpdatedBy r) as [c|].
  - split; [eauto|]. by intros (c' & [= <-] & ?).
  - split; [done|]. by intros (? & ? & _).
Qed.
Lemma merge_has m rs r : r ∈ rs -> exists r', merge m rs !! rkey r = Some r' /\ ~ beats r r'.
Proof.
  intros Hr. pose proof (merge_spec rs m (rkey r)) as Hm. destruct (merge m rs !! rkey r) as [w|].
  - exists w. split; [done|]. apply Hm. by right.
  - exfalso. apply (Hm r). by right.
Qed.
Lemma merge_still_has m rs k r :
  (exists r', m !! k = Some r' /\ ~ beats r r') -> exists r', merge m rs !! k = Some r' /\ ~ beats r r'.
Proof.
  intros (r' & Hr' & Hb). destruct (merge_keeps m rs k r' Hr') as (w & Hw & Hbw).
  exists w. split; [done|]. by eapply not_beats_trans.
Qed.
(** Taking in everything the check found missing makes the client complete, and keeps its
    vector honest. *)
Lemma anti_entropy_step kv m all :
  honest kv m all ->
  let missing := all_missing kv all in
  (forall r, r ∈ all -> exists r', merge m missing !! rkey r = Some r' /\ ~ beats r r') /\
  honest (see_all missing kv) (merge m missing) all.
Proof.
  intros Hh missing.
  assert (forall r, r ∈ all -> exists r', merge m missing !! rkey r = Some r' /\ ~ beats r r') as Hall.
  { intros r Hr. destruct (is_missing kv r) eqn:Hm.
    - apply merge_has. unfold missing, all_missing. by apply list_elem_of_filter.
    - by apply merge_still_has, Hh. }
  split; [done|]. intros r Hr _. by apply Hall.
Qed.

(** The records a page holds are at most the limit. *)
Lemma check_loop_len limit cursor vector all : forall past missing,
  (0 <= limit)%Z -> (len missing <= limit)%Z -> (len (check_loop limit cursor vector all past missing) <= limit)%Z.
Proof.
  induction all as [|r all IH]; intros past missing Hl Hm; cbn [check_loop]; [done|].
  destruct (negb past && str_leb (ID r) cursor); [by apply IH|].
  destruct (Z.leb_spec limit (len missing)); [done|]. apply IH; [done|].
  destruct (is_missing vector r); [|done]. rewrite len_app. unfold len in *. cbn. lia.
Qed.

Lemma handleCheck_total {St} `{StoreOps St} (s : Server St) req all :
  exists missing next more, handleCheck MethodPost (Ok req) all s = Ok (RespCheck (srv_nodeID s) missing next more) /\
    forall r, r ∈ missing -> r ∈ all /\ is_missing (ck_vector req) r = true.
Proof.
  pose proof (clamp_range (ck_limit req) 100 10000 ltac:(lia)) as Hc.
  destruct (check_page_ok (clamp (ck_limit req) 100 10000) (ck_cursor req) (ck_vector req) all)
    as (missing & next & more & He & Hm & _); [lia|].
  exists missing, next, more. unfold handleCheck. rewrite bool_decide_true by done. cbn [negb]. rewrite He, bind_ok.
  split; [done|]. intros r Hr. rewrite Hm in Hr. apply check_loop_sub in Hr as [Hr|Hr]; [by apply not_elem_of_nil in Hr|done].
Qed.

(** ** Properties *)

(** [handlePush] on a decoded batch: the store afterwards is the last-write-wins
    merge of the batch, the accepted count is the number of records that won in turn,
    the knowledge vector covers every record of the batch and keeps covering what the
    store held, and every connected peer is sent the whole batch. *)
Theorem handlePush_merges {St} `{StoreLaws St} (s : Server St) changes :
  st_inv (srv_store s) -> puts_ok changes (srv_store s) ->
  map_Forall (fun _ r => kv_covers (srv_kv s) (UpdatedBy r) (Clock r)) (st_records (srv_store s)) ->
  let '(s', resp, sent) := handlePush MethodPost (Ok changes) s in
  resp = RespAccepted (wins (st_records (srv_store s)) changes) (len changes) /\
  st_records (srv_store s') = merge (st_records (srv_store s)) (normalize <$> changes) /\
  (forall r, r ∈ changes -> kv_covers (srv_kv s') (UpdatedBy r) (Clock r)) /\
  map_Forall (fun _ r => kv_covers (srv_kv s') (UpdatedBy r) (Clock r)) (st_records (srv_store s')) /\
  sent ≡ₚ (fun addr => (addr.1, changes)) <$> map_to_list (srv_peers s) /\ st_inv (srv_store s').
Proof.
  intros I Hp Hcov. unfold handlePush. rewrite bool_decide_true by done. cbn [negb].
  rewrite push_loop_law by done. destruct (put_all_law changes (srv_store s) I Hp) as [I' Hm].
  cbn [srv_store srv_kv srv_peers srv_set_store srv_set_kv saw]. split_and!; try done.
  - intros r Hr. by apply see_all_covers.
  - intros k r Hr. cbn [srv_store srv_set_store] in Hr. rewrite Hm in Hr.
    pose proof (merge_spec (normalize <$> changes) (st_records (srv_store s)) k) as Hs. rewrite Hr in Hs.
    destruct Hs as [[Hold|[Hnew _]] _].
    + apply see_all_mono. by apply (Hcov _ _ Hold).
    + apply list_elem_of_fmap in Hnew as (x & -> & Hx). by apply (see_all_covers changes (srv_kv s) x).
Qed.
Definition demo_server : Server MemoryStore := Server_New (NewMemoryStore 0 "B") "B" (Some ∅).
Lemma mem_puts_ok rs (s : MemoryStore) :
  bool_decide (Forall (fun r => (- 2 ^ 31 <= Counter (Clock r) + 1 < 2 ^ 31)%Z /\ colon_free (Collection r)) rs) = true ->
  puts_ok rs s.
Proof.
  intros Hr%bool_decide_eq_true. revert s. induction Hr as [|r rs Hr _ IH]; intros s; [done|].
  split; [exact Hr|apply IH].
Qed.
Definition demo_r1 : NellRecord := mkRecord "c" "1" "text" [] [] (mkHLC 1 0) "X" false.
Definition demo_r2 : NellRecord := mkRecord "c" "2" "text" [] [] (mkHLC 2 0) "X" false.
Lemma handlePush_merges_witness :
  snd (fst (handlePush MethodPost (Ok [demo_r2; demo_r1; demo_r2]) demo_server)) = RespAccepted 2 3.
Proof.
  pose proof (handlePush_merges demo_server [demo_r2; demo_r1; demo_r2] (NewMemoryStore_inv 0 "B")
    (mem_puts_ok [demo_r2; demo_r1; demo_r2] _ ltac:(vm_compute; reflexivity)) (map_Forall_empty _)) as H.
  destruct (handlePush MethodPost (Ok [demo_r2; demo_r1; demo_r2]) demo_server) as [[s' resp] sent].
  etransitivity; [exact (proj1 H)|]. vm_compute. reflexivity.
Defined.

(** The binary path agrees with the JSON path: what [handleBinCheck] streams for a
    peer's vector, fed to [handleBinPush], leaves a server in the state [handlePush] of
    the missing records leaves it in, with the same accepted count; only the records
    that won are broadcast. *)
Theorem binary_sync_agrees {St} `{StoreLaws St} {St2} (a : Server St2) (b : Server St) body kv all stream :
  KnowledgeVector_UnmarshalBinary ∅ body = Ok kv ->
  handleBinCheck MethodPost body all a = RespBytes stream ->
  Forall record_ok all -> Forall (fun r => in_u 32 (len (layout r))) all ->
  st_inv (srv_store b) -> puts_ok (all_missing kv all) (srv_store b) ->
  let '(b1, resp1, sent1) := handleBinPush MethodPost stream b in
  let '(b2, resp2, sent2) := handlePush MethodPost (Ok (all_missing kv all)) b in
  let n := wins (st_records (srv_store b)) (all_missing kv all) in
  b1 = b2 /\ resp1 = RespBytes (be_bytes 4 n) /\ resp2 = RespAccepted n (len (all_missing kv all)) /\
  forall addr recs, (addr, recs) ∈ sent1 -> recs = winners (st_records (srv_store b)) (all_missing kv all).
Proof.
  intros Hkv Hc Hok Hlen I Hp. unfold handleBinCheck in Hc. rewrite bool_decide_true in Hc by done.
  cbn [negb] in Hc. rewrite Hkv in Hc. injection Hc as <-.
  unfold handleBinPush, handlePush. rewrite bool_decide_true by done. cbn [negb].
  unfold bin_stream. fold (all_missing kv all). set (rs := all_missing kv all) in *.
  assert (Forall record_ok rs) as Hok' by (unfold rs, all_missing; rewrite Forall_forall in *; intros r [_ ?]%list_elem_of_filter; auto).
  assert (Forall (fun r => in_u 32 (len (layout r))) rs) as Hlen'
    by (unfold rs, all_missing; rewrite Forall_forall in *; intros r [_ ?]%list_elem_of_filter; auto).
  rewrite <-(app_nil_r (concat (map bin_record rs))).
  pose proof (bin_stream_length rs) as Hfuel.
  rewrite (binpush_loop_law _ rs 0 0 [] b []) by (done || lia || (rewrite app_nil_r; lia)).
  rewrite push_loop_law by done. cbn zeta. split_and!; [done| |done|].
  - by rewrite be_bytes_mod by lia.
  - intros addr recs. cbn [app]. destruct (0 <? _)%Z; [|by intros ?%not_elem_of_nil].
    unfold broadcast. intros ([x y] & [= _ ->] & _)%list_elem_of_fmap. done.
Qed.
Lemma binary_sync_agrees_witness :
  fst (fst (handleBinPush MethodPost (bin_stream ∅ [demo_r1; demo_r2]) demo_server)) =
  fst (fst (handlePush MethodPost (Ok [demo_r1; demo_r2]) demo_server)).
Proof.
  pose proof (binary_sync_agrees demo_server demo_server (be_bytes 2 0) ∅ [demo_r1; demo_r2]
    (bin_stream ∅ [demo_r1; demo_r2]) eq_refl eq_refl) as H.
  destruct (handleBinPush MethodPost (bin_stream ∅ [demo_r1; demo_r2]) demo_server) as [[b1 resp1] sent1].
  assert (all_missing ∅ [demo_r1; demo_r2] = [demo_r1; demo_r2]) as Hm by (vm_compute; reflexivity).
  rewrite Hm in H. destruct (handlePush MethodPost (Ok [demo_r1; demo_r2]) demo_server) as [[b2 resp2] sent2].
  apply H.
  - apply (bool_decide_unpack (Forall record_ok _)). vm_compute. exact I.
  - apply (bool_decide_unpack (Forall (fun r => in_u 32 (len (layout r))) _)). vm_compute. exact I.
  - apply (NewMemoryStore_inv 0 "B").
  - apply mem_puts_ok. vm_compute. reflexivity.
Defined.

(** [handleCheck] is total and sound: for any method, body and sorted listing it
    answers without a panic; a page holds at most the clamped limit of records, all from
    the collection and all missing by the sender's vector; a next cursor is given
    exactly with [has_more]. *)
Theorem handleCheck_sound {St} `{StoreOps St} (s : Server St) method body all :
  exists resp, handleCheck method body all s = Ok resp /\
  match resp with
  | RespCheck node missing next more =>
      exists req, body = Ok req /\ node = srv_nodeID s /\
        (len missing <= clamp (ck_limit req) 100 10000)%Z /\
        (forall r, r ∈ missing -> r ∈ all /\ is_missing (ck_vector req) r = true) /\
        (more = true -> exists r, last missing = Some r /\ next = ID r) /\ (more = false -> next = "")
  | RespError status => status = 405%Z \/ status = 400%Z \/ status = 413%Z \/ (status = 500%Z /\ body = Panic)
  | _ => False
  end.
Proof.
  unfold handleCheck. destruct (bool_decide (method = MethodPost)); cbn [negb];
    [|eexists; split; [reflexivity|cbn; auto 8]].
  destruct body as [req|e|]; [|destruct e; eexists; (split; [reflexivity|]); cbn; auto 8|eexists; split; [reflexivity|cbn; auto 8]].
  pose proof (clamp_range (ck_limit req) 100 10000 ltac:(lia)) as Hc. set (limit := clamp _ _ _) in *.
  destruct (check_page_ok limit (ck_cursor req) (ck_vector req) all) as (missing & next & more & -> & Hm & Ht & Hf); [lia|].
  rewrite bind_ok. eexists. split; [reflexivity|]. exists req. split_and!; try done.
  - rewrite Hm. apply check_loop_len; unfold len; cbn; lia.
  - intros r Hr. rewrite Hm in Hr. apply check_loop_sub in Hr as [Hr|Hr]; [by apply not_elem_of_nil in Hr|done].
  - intros Hmore. by apply Ht.
Qed.

(** Anti-entropy is complete for one page: when no more records are missing than the
    limit and the client's vector is honest about the collection, the page [handleCheck]
    returns is exactly the missing records, and a client of any backend that takes them
    in then holds, for every record of the collection, that record or one it does not
    beat; its vector stays honest, so the next round starts from the same footing. *)
Theorem anti_entropy_complete {A B} `{StoreLaws A, StoreLaws B} (a : Server A) (b : Server B) c limit all :
  st_inv (srv_store a) -> st_inv (srv_store b) ->
  sorts clock_less (st_ListAll c (srv_store a)) all ->
  honest (knowledgeVector b) (st_records (srv_store b)) all ->
  (len (all_missing (knowledgeVector b) all) <= clamp limit 100 10000)%Z ->
  puts_ok (all_missing (knowledgeVector b) all) (srv_store b) ->
  exists missing next more,
    handleCheck MethodPost (Ok (mkCheckReq (knowledgeVector b) limit "")) all a
      = Ok (RespCheck (srv_nodeID a) missing next more) /\
    missing ≡ₚ filter (fun r => is_missing (knowledgeVector b) r = true) (st_ListAll c (srv_store a)) /\
    let '(b', _, _) := handlePush MethodPost (Ok missing) b in
    (forall k r, st_records (srv_store a) !! k = Some r -> Collection r = or_default c ->
      exists r', st_records (srv_store b') !! k = Some r' /\ ~ beats r r') /\
    honest (knowledgeVector b') (st_records (srv_store b')) all.
Proof.
  intros Ia Ib [Hsort _] Hh Hl Hp.
  pose proof (clamp_range limit 100 10000 ltac:(lia)) as Hc.
  destruct (check_page_first (clamp limit 100 10000) (knowledgeVector b) all) as (next & more & He); [lia|done|].
  exists (all_missing (knowledgeVector b) all), next, more.
  unfold handleCheck. rewrite bool_decide_true by done. cbn [negb ck_limit ck_cursor ck_vector]. rewrite He, bind_ok.
  split; [done|]. split; [unfold all_missing; by rewrite Hsort|].
  unfold handlePush. rewrite bool_decide_true by done. cbn [negb]. rewrite push_loop_law by done.
  destruct (st_listall_law c _ Ia) as [_ Hlist]. set (missing := all_missing (knowledgeVector b) all) in *.
  assert (normalize <$> missing = missing) as Hnorm.
  { apply (normalize_stored (srv_store a)); [done|]. intros r Hr. apply list_elem_of_filter in Hr as [_ Hr].
    rewrite Hsort in Hr. by apply Hlist. }
  destruct (anti_entropy_step _ _ _ Hh) as [Hall Hh'].
  cbn [srv_store srv_set_store knowledgeVector srv_kv saw srv_set_kv].
  rewrite (proj2 (put_all_law missing (srv_store b) Ib Hp)), Hnorm. split; [|exact Hh'].
  intros k r Hk Hcol. rewrite <-(st_keyed _ Ia _ _ Hk). apply Hall. rewrite Hsort. apply Hlist.
  split; [|done]. by rewrite (st_keyed _ Ia _ _ Hk).
Qed.
(** A server that holds two records of node X. *)
Definition demo_remote : Server MemoryStore := Server_New (put_all [demo_r1; demo_r2] (NewMemoryStore 0 "A")) "A" (Some ∅).
Lemma demo_remote_inv : st_inv (srv_store demo_remote).
Proof.
  apply (put_all_law [demo_r1; demo_r2] (NewMemoryStore 0 "A")); [apply NewMemoryStore_inv|].
  apply mem_puts_ok. vm_compute. reflexivity.
Qed.
Definition demo_listing : list NellRecord := sort_Slice clock_less (st_ListAll "c" (srv_store demo_remote)).
Lemma anti_entropy_complete_witness :
  exists missing next more,
    handleCheck MethodPost (Ok (mkCheckReq (knowledgeVector demo_server) 0 "")) demo_listing demo_remote
      = Ok (RespCheck "A" missing next more) /\
    missing ≡ₚ filter (fun r => is_missing (knowledgeVector demo_server) r = true) (st_ListAll "c" (srv_store demo_remote)).
Proof.
  destruct (anti_entropy_complete demo_remote demo_server "c" 0 demo_listing) as (missing & next & more & He & Hp & _).
  - exact demo_remote_inv.
  - apply (NewMemoryStore_inv 0 "B").
  - apply sort_Slice_sorts. apply _.
  - intros r _ Hm. vm_compute in Hm. discriminate.
  - apply (bool_decide_unpack _). vm_compute. exact I.
  - apply mem_puts_ok. vm_compute. reflexivity.
  - exists missing, next, more. split; [exact He|exact Hp].
Defined.

(** The vector keeps one clock per node, and a push may leave a gap below it: a
    server that was pushed a node's later record never learns of the earlier one, since
    every check it makes afterwards counts that one as seen. *)
Theorem push_hides_earlier_record :
  let '(b, _, _) := handlePush MethodPost (Ok [demo_r2]) demo_server in
  demo_r1 ∈ st_ListAll "c" (srv_store demo_remote) /\
  st_Get "c" "1" (srv_store b) = Err ErrRecordNotFound /\
  forall limit cursor, exists next more,
    handleCheck MethodPost (Ok (mkCheckReq (knowledgeVector b) limit cursor)) demo_listing demo_remote
      = Ok (RespCheck "A" [] next more).
Proof.
  destruct (handlePush MethodPost (Ok [demo_r2]) demo_server) as [[b resp] sent] eqn:He.
  assert (st_Get "c" "1" (srv_store b) = Err ErrRecordNotFound /\ knowledgeVector b = {["X" := mkHLC 2 0]}) as [Hg Hk].
  { assert (b = fst (fst (handlePush MethodPost (Ok [demo_r2]) demo_server))) as -> by by rewrite He.
    split; vm_compute; reflexivity. }
  split_and!; [apply (bool_decide_unpack _); vm_compute; exact I|done|].
  intros limit cursor.
  destruct (handleCheck_total demo_remote (mkCheckReq (knowledgeVector b) limit cursor) demo_listing)
    as (missing & next & more & Hc & Hm). exists next, more. rewrite Hc. do 2 f_equal.
  destruct missing as [|r missing]; [done|]. exfalso.
  destruct (Hm r ltac:(left)) as [Hr Hmiss]. cbn [ck_vector] in Hmiss. rewrite Hk in Hmiss.
  assert (Forall (fun r => is_missing {["X" := mkHLC 2 0]} r = false) demo_listing) as Hall
    by (apply (bool_decide_unpack _); vm_compute; exact I).
  rewrite Forall_forall in Hall. rewrite (Hall r Hr) in Hmiss. done.
Qed.
