(* ===== verification/GoTime.v ===== *)
(** * Time

    What the code uses of Go's [time] package: an instant as a number of nanoseconds
    since the package's own epoch (year 1), durations in nanoseconds, and the
    saturation and wrap-around of their arithmetic. *)
From S2P Require Import Prelude Float.
Local Open Scope Z_scope.

Definition Nanosecond : Z := 1.
Definition Millisecond : Z := 1000000.
Definition Second : Z := 1000000000.
Definition Minute : Z := 60 * Second.
Definition Hour : Z := 60 * Minute.

(** Seconds from the package's epoch to the Unix epoch. *)
Definition unixToInternal : Z := 62135596800.

Abbreviation Time := Z.
Abbreviation Duration := Z.

(** [time.Unix(sec, 0)]: the addition of the epochs is an int64 one. *)
Definition time_Unix (sec : Z) : Time := wrap_s 64 (sec + unixToInternal) * Second.
(** [t.Unix()] *)
Definition Unix (t : Time) : Z := wrap_s 64 (t / Second - unixToInternal).

Definition minDuration : Duration := - 2 ^ 63.
Definition maxDuration : Duration := 2 ^ 63 - 1.
(** [t.Sub(u)]: saturates. *)
Definition Sub (t u : Time) : Duration := Z.max minDuration (Z.min maxDuration (t - u)).
(** [t.Before(u)] *)
Definition Before (t u : Time) : bool := t <? u.
(** [d.Seconds()] *)
Definition Seconds (d : Duration) : float :=
  f64_add (f64_of_int (Z.quot d Second)) (f64_div (f64_of_int (Z.rem d Second)) (f64_of_int Second)).

(** An instant whose second fits both epochs. *)
Definition time_ok (t : Time) : Prop := in_s 64 (t / Second - unixToInternal) /\ in_s 64 (t / Second).

Lemma time_Unix_trunc t : time_ok t -> time_Unix (Unix t) = t - t mod Second.
Proof.
  intros [Hu Hi]. unfold Unix, time_Unix. rewrite (wrap_s_id _ (_ - _)) by (done || lia).
  replace (t / Second - unixToInternal + unixToInternal) with (t / Second) by lia.
  rewrite wrap_s_id by (done || lia). pose proof (Z.div_mod t Second ltac:(done)). lia.
Qed.
Lemma Unix_in_s t : in_s 64 (Unix t).
Proof. by apply wrap_s_range. Qed.
