(* ===== verification/LogCompaction.v ===== *)
(** * Compaction in the background (logstore/log.go, StartCompaction)

    The goroutine that compacts the log at each tick, between the operations of whoever
    else uses the store, and the function that stops it. *)
From S2P Require Import Prelude BigEndian Hlc Record KnowledgeVector Conflict GoSort MemStore GoTime LogFrame LogStore LogReplay LogDurability.

Section compaction.
Context `{Zstd}.

(** The store with the records its log holds; whether the goroutine runs; the channel the
    stop function closes; the context. *)
Record Compaction := mkCompaction {
  co_store : LogStore * list NellRecord; co_running : bool; co_done : bool; co_ctxDone : bool
}.
(** A tick compacts at a time and in three map orders; an operation is someone else's.
    [select] may take a tick even when the loop has been told to stop. *)
Inductive compaction_event :=
| CoTick (now : Z) (o1 o2 o3 : list (string * NellRecord)) | CoOp (o : log_op) | CoStop | CoCancel | CoReturn.
Definition tick_op (tombstoneTTL : Duration) (now : Z) (o1 o2 o3 : list (string * NellRecord)) : log_op :=
  LCompact now (Z.quot tombstoneTTL Millisecond) o1 o2 o3.
Definition co_step (tombstoneTTL : Duration) (e : compaction_event) (c : Compaction) : option Compaction :=
  match e with
  | CoTick now o1 o2 o3 =>
      if co_running c then
        Some (mkCompaction (log_step (tick_op tombstoneTTL now o1 o2 o3) (co_store c)) true (co_done c) (co_ctxDone c))
      else None
  | CoOp o => Some (mkCompaction (log_step o (co_store c)) (co_running c) (co_done c) (co_ctxDone c))
  | CoStop => Some (mkCompaction (co_store c) (co_running c) true (co_ctxDone c))
  | CoCancel => Some (mkCompaction (co_store c) (co_running c) (co_done c) true)
  | CoReturn =>
      if co_running c && (co_done c || co_ctxDone c) then Some (mkCompaction (co_store c) false (co_done c) (co_ctxDone c)) else None
  end.
Definition StartCompaction (s : LogStore) (rs : list NellRecord) : Compaction := mkCompaction (s, rs) true false false.
(** The events happen in this order, each when it can, with its conditions. *)
Inductive co_run (tombstoneTTL : Duration) : list compaction_event -> Compaction -> Compaction -> Prop :=
| co_run_nil c : co_run tombstoneTTL [] c c
| co_run_cons e es c c1 c2 :
    match e with
    | CoTick now o1 o2 o3 => log_op_ok (tick_op tombstoneTTL now o1 o2 o3) (fst (co_store c))
    | CoOp o => log_op_ok o (fst (co_store c))
    | _ => True
    end -> co_step tombstoneTTL e c = Some c1 -> co_run tombstoneTTL es c1 c2 -> co_run tombstoneTTL (e :: es) c c2.

Definition is_op (e : compaction_event) : bool := match e with CoOp _ => true | _ => false end.
Definition is_tick (e : compaction_event) : bool := match e with CoTick _ _ _ _ => true | _ => false end.
(** A record outlives the ticks: live, or a tombstone no tick finds old. *)
Definition survives (tombstoneTTL : Duration) (es : list compaction_event) (r : NellRecord) : Prop :=
  Deleted r = false \/ forall now o1 o2 o3, CoTick now o1 o2 o3 ∈ es ->
    (wrap_s 64 (now - Z.quot tombstoneTTL Millisecond) <= WallTime (Clock r))%Z.

Lemma log_step_pair o (p : LogStore * list NellRecord) : log_inv (fst p) (snd p) -> log_op_ok o (fst p) ->
  log_inv (fst (log_step o p)) (snd (log_step o p)).
Proof. destruct p as [s rs]. apply log_step_inv. Qed.
Lemma tick_records ttl now o1 o2 o3 (p : LogStore * list NellRecord) k r :
  log_inv (fst p) (snd p) -> log_op_ok (tick_op ttl now o1 o2 o3) (fst p) ->
  ls_records (fst (log_step (tick_op ttl now o1 o2 o3) p)) !! k = Some r <->
  ls_records (fst p) !! k = Some r /\ (Deleted r = false \/ wrap_s 64 (now - Z.quot ttl Millisecond) <= WallTime (Clock r))%Z.
Proof.
  destruct p as [s rs]. cbn [fst snd]. intros I (P1 & P2 & P3).
  destruct (Compact_inv s rs now (Z.quot ttl Millisecond) o1 o2 o3 I P1 P2 P3) as (s' & Hc & _ & Hr & _).
  cbn [log_step tick_op fst]. rewrite Hc. cbn [fst]. rewrite Hr, compact_keep_lookup. unfold stale_tombstone.
  rewrite andb_false_iff, Z.ltb_ge. done.
Qed.
Lemma co_run_inv ttl es c c' : co_run ttl es c c' -> log_inv (fst (co_store c)) (snd (co_store c)) ->
  log_inv (fst (co_store c')) (snd (co_store c')).
Proof.
  induction 1 as [c|e es c c1 c2 Hok Hs _ IH]; [done|]. intros I. apply IH. clear IH.
  destruct e as [now o1 o2 o3|o| | |]; cbn [co_step] in Hs.
  - destruct (co_running c); [|done]. injection Hs as <-. by apply log_step_pair.
  - injection Hs as <-. by apply log_step_pair.
  - by injection Hs as <-.
  - by injection Hs as <-.
  - destruct (_ && _); [|done]. by injection Hs as <-.
Qed.
Lemma co_run_stopped ttl es c c' : co_run ttl es c c' -> co_running c = false ->
  co_running c' = false /\ forallb (fun e => negb (is_tick e)) es = true.
Proof.
  induction 1 as [c|e es c c1 c2 _ Hs _ IH]; [done|]. intros Hr.
  destruct e as [now o1 o2 o3|o| | |]; cbn [co_step] in Hs; rewrite ?Hr in Hs; simplify_eq; by apply IH.
Qed.
Lemma co_run_records ttl es c c' k r : co_run ttl es c c' -> forallb (fun e => negb (is_op e)) es = true ->
  log_inv (fst (co_store c)) (snd (co_store c)) ->
  ls_records (fst (co_store c')) !! k = Some r <-> ls_records (fst (co_store c)) !! k = Some r /\ survives ttl es r.
Proof.
  induction 1 as [c|e es c c1 c2 Hok Hs Hrun IH]; intros Hop I.
  { split; [|tauto]. intros Hr. split; [done|]. right. by intros ? ? ? ? ?%not_elem_of_nil. }
  cbn [forallb] in Hop. apply andb_true_iff in Hop as [He Hop].
  assert (log_inv (fst (co_store c1)) (snd (co_store c1))) as I1.
  { eapply (co_run_inv ttl [e]); [|exact I]. econstructor; [exact Hok|exact Hs|constructor]. }
  rewrite (IH Hop I1). clear IH.
  assert (forall P : Prop, is_tick e = false -> co_store c1 = co_store c ->
    (ls_records (fst (co_store c1)) !! k = Some r /\ survives ttl es r <-> ls_records (fst (co_store c)) !! k = Some r /\ survives ttl (e :: es) r)) as Hother.
  { intros _ Ht ->. unfold survives. setoid_rewrite elem_of_cons. split; (intros [? [?|Hx]]; split; [done|by left|done|right]).
    - intros now o1 o2 o3 [<-|Hin]; [done|]. by eapply Hx.
    - intros now o1 o2 o3 Hin. eapply Hx. by right. }
  destruct e as [now o1 o2 o3|o| | |]; cbn [co_step] in Hs.
  - destruct (co_running c); [|done]. injection Hs as <-. cbn [co_store]. rewrite tick_records by done.
    unfold survives. setoid_rewrite elem_of_cons. split.
    + intros [[Hr Ht] Hx]. split; [done|]. destruct Ht as [?|Ht]; [by left|]. destruct Hx as [?|Hx]; [by left|right].
      intros n p1 p2 p3 [[= -> -> -> ->]|Hin]; [done|by eapply Hx].
    + intros [Hr [?|Hx]]; [by repeat (split || left)|]. split; [split; [done|right; eapply Hx; by left]|right]. intros. eapply Hx. by right.
  - done.
  - injection Hs as <-. by apply (Hother True).
  - injection Hs as <-. by apply (Hother True).
  - destruct (_ && _); [|done]. injection Hs as <-. by apply (Hother True).
Qed.
End compaction.

(** ** Properties *)

(** C25. The compaction loop loses nothing that is live: whatever operations it comes
    between, the store keeps its invariant with its log, so that a restart finds its
    records; over the ticks alone a record stays exactly when it is live or no tick found
    its tombstone older than the age allowed; once the loop was told to stop it can
    return, and after it has no tick compacts again. *)
Theorem StartCompaction_keeps `{ZstdLaws} ttl es s rs c :
  log_run s rs -> co_run ttl es (StartCompaction s rs) c ->
  log_inv (fst (co_store c)) (snd (co_store c)) /\
  (forallb (fun e => negb (is_op e)) es = true ->
    forall k r, ls_records (fst (co_store c)) !! k = Some r <-> ls_records s !! k = Some r /\ survives ttl es r) /\
  (co_running c = true -> co_done c || co_ctxDone c = true -> exists c', co_step ttl CoReturn c = Some c' /\ co_running c' = false) /\
  (co_running c = false -> forall es' c', co_run ttl es' c c' -> co_running c' = false /\ forallb (fun e => negb (is_tick e)) es' = true).
Proof.
  intros Hrun Hco. pose proof (log_run_inv _ _ Hrun) as I. split_and!.
  - by eapply co_run_inv.
  - intros Hop k r. by apply (co_run_records ttl es _ c k r Hco Hop).
  - intros Hr Hd. cbn [co_step]. rewrite Hr, Hd. by eexists.
  - intros Hr es' c' Hx. by eapply co_run_stopped.
Qed.
(** A deletion, an hour-old tombstone limit, and a tick two hours later. *)
Definition tick_demo : LogStore * list NellRecord := log_step (LDelete 5 "c" "1") log_demo.
Definition tick_order (ttl : Duration) (now : Z) (s : LogStore) : list (string * NellRecord) :=
  map_to_list (compact_keep (wrap_s 64 (now - Z.quot ttl Millisecond)) (ls_records s)).
Definition tick_events (ttl : Duration) (now : Z) (s : LogStore) : list compaction_event :=
  [CoTick now (tick_order ttl now s) (tick_order ttl now s) (tick_order ttl now s); CoStop; CoReturn].
Lemma tick_once `{Zstd} ttl now s rs : exists c, co_run ttl (tick_events ttl now s) (StartCompaction s rs) c.
Proof.
  eexists. econstructor; [split; [apply Permutation_refl|split; apply Permutation_refl]|reflexivity|].
  econstructor; [exact I|reflexivity|]. econstructor; [exact I|reflexivity|constructor].
Qed.
Lemma StartCompaction_keeps_witness : exists c,
  log_inv (fst (co_store c)) (snd (co_store c)) /\ ls_records (fst (co_store c)) !! "c:1" = None /\
  ls_records (fst (co_store c)) !! "c:2" = ls_records (fst tick_demo) !! "c:2".
Proof.
  assert (log_run (fst tick_demo) (snd tick_demo)) as Hrun.
  { unfold tick_demo. rewrite (surjective_pairing log_demo). apply run_step; [exact log_demo_run|].
    split; [left; vm_compute; reflexivity|apply (bool_decide_unpack _); vm_compute; exact I]. }
  destruct (tick_once Hour 7200000 (fst tick_demo) (snd tick_demo)) as [c Hc]. exists c.
  destruct (StartCompaction_keeps Hour (tick_events Hour 7200000 (fst tick_demo)) _ _ c Hrun Hc) as (Hi & Hr & _).
  split; [exact Hi|]. specialize (Hr eq_refl).
  assert (ls_records (fst tick_demo) !! "c:1" = Some (mkRecord "c" "1" "text" [] [] (mkHLC 5 0) "n" true)) as H1 by (vm_compute; reflexivity).
  assert (ls_records (fst tick_demo) !! "c:2" = Some (demo_rec "2" 2)) as H2 by (vm_compute; reflexivity).
  split.
  - destruct (ls_records (fst (co_store c)) !! "c:1") as [r|] eqn:Hx; [|done]. apply Hr in Hx as [Hx Hs].
    exfalso. rewrite H1 in Hx. injection Hx as <-. destruct Hs as [Hs|Hs]; [discriminate Hs|].
    specialize (Hs 7200000%Z _ _ _ (list_elem_of_here _ _)). vm_compute in Hs. by apply Hs.
  - rewrite H2. apply Hr. split; [exact H2|]. by left.
Defined.
