(* ===== verification/Mesh.v ===== *)
(** * The mesh of peers (server/peer.go, server/peer_state.go)

    The health state machine of a tracked peer, the peer table of [MeshManager], the
    heartbeat round, and a reconciliation with one peer: a check, the ingestion of the
    page it answers, and the pages that follow while the peer says there are more.
    The peer is the function from a check request to its response. *)
From S2P Require Import Prelude Hlc Record KnowledgeVector Conflict GoSort MemStore StoreApi Server Float GoTime.

(** ** Peer state *)

Inductive PeerState := StateActive | StateDegraded | StateDead.
#[export] Instance PeerState_eq_dec : EqDecision PeerState.
Proof. solve_decision. Defined.
Definition DefaultMaxMissedPings : Z := 3.

Record TrackedPeer := mkTrackedPeer { tp_url : string; tp_state : PeerState; tp_lastSeen : Z; tp_missedPings : Z }.
Definition newTrackedPeer (now : Z) (url : string) : TrackedPeer := mkTrackedPeer url StateActive now 0.
Definition getState (p : TrackedPeer) : PeerState := tp_state p.
Definition isActive (p : TrackedPeer) : bool := bool_decide (getState p = StateActive).
Definition recordPing (now : Z) (p : TrackedPeer) : TrackedPeer := mkTrackedPeer (tp_url p) StateActive now 0.
(** [recordMiss]: the new peer; the call returns its state. *)
Definition recordMiss (maxMissed : Z) (p : TrackedPeer) : TrackedPeer :=
  let missed := (tp_missedPings p + 1)%Z in
  mkTrackedPeer (tp_url p)
    (if (maxMissed <=? missed)%Z then StateDead else if (1 <=? missed)%Z then StateDegraded else tp_state p)
    (tp_lastSeen p) missed.

(** The state a number of misses in a row means. *)
Definition state_of (maxMissed missed : Z) : PeerState :=
  if (missed <=? 0)%Z then StateActive else if (maxMissed <=? missed)%Z then StateDead else StateDegraded.
Definition peer_inv (maxMissed : Z) (p : TrackedPeer) : Prop :=
  (0 <= tp_missedPings p)%Z /\ tp_state p = state_of maxMissed (tp_missedPings p).

Lemma recordMiss_inv m p : (0 < m)%Z -> peer_inv m p -> peer_inv m (recordMiss m p).
Proof.
  intros Hm [Hp _]. unfold peer_inv, recordMiss, state_of. cbn. split; [lia|].
  rewrite (proj2 (Z.leb_gt _ 0)) by lia. rewrite (proj2 (Z.leb_le 1 _)) by lia. done.
Qed.
Lemma recordPing_inv m now p : peer_inv m (recordPing now p).
Proof. by split. Qed.

(** ** The mesh manager *)

Record MeshManager := mkMesh {
  pm_peers : gmap string TrackedPeer;
  pm_lastPushUnix : Z;
  pm_lastPullUnix : Z;
  pm_pullErrors : Z;
  pm_pushErrors : Z;
  pm_interval : Duration;
  (** the ticker was made *)
  pm_running : bool;
  (** [stopCh] is closed *)
  pm_stopped : bool
}.
Definition pm_set_peers (ps : gmap string TrackedPeer) (pm : MeshManager) : MeshManager :=
  mkMesh ps (pm_lastPushUnix pm) (pm_lastPullUnix pm) (pm_pullErrors pm) (pm_pushErrors pm) (pm_interval pm) (pm_running pm) (pm_stopped pm).

Definition AddPeer (now : Z) (url : string) (pm : MeshManager) : MeshManager :=
  match pm_peers pm !! url with
  | Some _ => pm
  | None => pm_set_peers (<[url := newTrackedPeer now url]> (pm_peers pm)) pm
  end.
Definition RemovePeer (url : string) (pm : MeshManager) : MeshManager :=
  pm_set_peers (delete url (pm_peers pm)) pm.
Definition NewMeshManager (now : Z) (peers : list string) (interval : Duration) : MeshManager :=
  mkMesh (foldl (fun ps url => <[url := newTrackedPeer now url]> ps) ∅ peers) 0 0 0 0
    (if (interval <=? 0)%Z then 30 * Second else interval)%Z false false.
(** The URLs of the active peers, in map order. *)
Definition Peers (pm : MeshManager) : list string :=
  omap (fun '(_, p) => if isActive p then Some (tp_url p) else None) (map_to_list (pm_peers pm)).
Definition PeersAll (pm : MeshManager) : list TrackedPeer := snd <$> map_to_list (pm_peers pm).

(** [Start] and [Stop]: a ticker is made once and never cleared, so a stopped manager
    does not start again. *)
Definition Start (pm : MeshManager) : MeshManager :=
  if pm_running pm then pm else
  mkMesh (pm_peers pm) (pm_lastPushUnix pm) (pm_lastPullUnix pm) (pm_pullErrors pm) (pm_pushErrors pm) (pm_interval pm) true (pm_stopped pm).
Definition Stop (pm : MeshManager) : MeshManager :=
  mkMesh (pm_peers pm) (pm_lastPushUnix pm) (pm_lastPullUnix pm) (pm_pullErrors pm) (pm_pushErrors pm) (pm_interval pm) (pm_running pm) true.

(** One ping of [heartbeatAll]: [ok] says whether the HEAD request came back with 200. *)
Definition heartbeat_one (now : Z) (ok : string -> bool) (url : string) (ps : gmap string TrackedPeer)
    : gmap string TrackedPeer :=
  match ps !! url with
  | None => ps
  | Some p => <[url := if ok url then recordPing now p else recordMiss DefaultMaxMissedPings p]> ps
  end.
Definition heartbeatAll (now : Z) (ok : string -> bool) (order : list string) (pm : MeshManager) : MeshManager :=
  pm_set_peers (foldl (fun ps url => heartbeat_one now ok url ps) (pm_peers pm) order) pm.

(** The peers one firing of the ticker reconciles with: the active ones, sixteen at
    random when there are more. *)
Definition maxReconcilePerTick : nat := 16.
Definition tick_selects (pm : MeshManager) (selected : list string) : Prop :=
  if (length (Peers pm) <=? maxReconcilePerTick)%nat then selected ≡ₚ Peers pm
  else exists shuffled, shuffled ≡ₚ Peers pm /\ selected = take maxReconcilePerTick shuffled.

Record SyncHealth := mkSyncHealth {
  sh_LastPush : Time; sh_LastPull : Time; sh_ReplicationLagSecs : float; sh_PushErrors : Z; sh_PullErrors : Z;
  sh_PeersActive : Z; sh_PeersTotal : Z; sh_Replicating : bool
}.
Definition Health (now : Time) (pm : MeshManager) : SyncHealth :=
  let total := Z.of_nat (size (pm_peers pm)) in
  let active := len (filter (fun p => isActive p = true) (PeersAll pm)) in
  let lastPull := time_Unix (pm_lastPullUnix pm) in
  let lastPush := time_Unix (pm_lastPushUnix pm) in
  let lag := if (0 <? pm_lastPullUnix pm)%Z then Seconds (Sub now lastPull) else f_zero in
  mkSyncHealth lastPush lastPull lag (pm_pushErrors pm) (pm_pullErrors pm) active total (0 <? total)%Z.
(** [BroadcastMutation] *)
Definition BroadcastMutation {St} (rec : NellRecord) (s : Server St) : list (string * list NellRecord) := broadcast [rec] s.

(** ** Reconciliation with one peer *)

Inductive reconcile_err := ErrInactive | ErrCheck | ErrIngest.

Section reconcile.
Context {St : Type} `{StoreOps St}.
(** The peer's answer to a check with a vector and a cursor; [None] is a failed request. *)
Variable peer : gmap string HLC -> string -> option (list NellRecord * string * bool).

(** A page is ingested record by record; a store error ends the reconciliation. *)
Fixpoint ingest_page (missing : list NellRecord) (s : Server St) : Server St * bool :=
  match missing with
  | [] => (s, true)
  | rec :: missing =>
      let '(st, r) := st_Put rec (srv_store s) in
      let s := srv_set_store st s in
      match r with
      | None => (s, false)
      | Some _ => ingest_page missing (recordSeen rec s)
      end
  end.
(** [for out.HasMore && cursor != ""]; [None] when the fuel runs out. *)
Fixpoint follow_pages (fuel : nat) (more : bool) (cursor : string) (s : Server St)
    : option (Server St * option reconcile_err) :=
  match fuel with
  | O => None
  | S fuel =>
      if more && negb (bool_decide (cursor = "")) then
        match peer (knowledgeVector s) cursor with
        | None => Some (s, Some ErrCheck)
        | Some (missing, next, more) =>
            match ingest_page missing s with
            | (s, false) => Some (s, Some ErrIngest)
            | (s, true) => follow_pages fuel more next s
            end
        end
      else Some (s, None)
  end.
Definition reconcileOneInner (fuel : nat) (tracked : option TrackedPeer) (s : Server St)
    : option (Server St * option reconcile_err) :=
  if (match tracked with Some p => negb (isActive p) | None => false end) then Some (s, Some ErrInactive) else
  match peer (knowledgeVector s) "" with
  | None => Some (s, Some ErrCheck)
  | Some (missing, next, more) =>
      match ingest_page missing s with
      | (s, false) => Some (s, Some ErrIngest)
      | (s, true) => follow_pages fuel more next s
      end
  end.
End reconcile.

(** A peer that is a [Server]: its [handleCheck], the limit left to the default. *)
Definition check_peer {St} (all : list NellRecord) (a : Server St) (kv : gmap string HLC) (cursor : string)
    : option (list NellRecord * string * bool) :=
  match handleCheck MethodPost (Ok (mkCheckReq kv 0 cursor)) all a with
  | Ok (RespCheck _ missing next more) => Some (missing, next, more)
  | _ => None
  end.
(** [reconcileOne]: the error count, or the times of the last success. *)
Definition reconcileOne_health (now : Z) (err : option reconcile_err) (pm : MeshManager) : MeshManager :=
  match err with
  | Some _ => mkMesh (pm_peers pm) (pm_lastPushUnix pm) (pm_lastPullUnix pm) (pm_pullErrors pm + 1) (pm_pushErrors pm)
      (pm_interval pm) (pm_running pm) (pm_stopped pm)
  | None => mkMesh (pm_peers pm) now now (pm_pullErrors pm) (pm_pushErrors pm) (pm_interval pm) (pm_running pm) (pm_stopped pm)
  end.

(** ** The pagination loop ends *)

Section termination.
Context {St A : Type} `{StoreOps St, StoreOps A}.
Variables (all : list NellRecord) (a : Server A).

Lemma ingest_page_kv missing : forall (s s' : Server St),
  ingest_page missing s = (s', true) -> srv_kv s' = see_all missing (srv_kv s).
Proof.
  induction missing as [|r rs IH]; intros s s'; cbn [ingest_page]; [by intros [= ->]|].
  destruct (st_Put r (srv_store s)) as [st [w|]]; [|done]. intros ->%IH. done.
Qed.
(** Records counted as seen stay so when the vector grows. *)
Lemma is_missing_mono kv rs r : is_missing (see_all rs kv) r = true -> is_missing kv r = true.
Proof.
  destruct (is_missing kv r) eqn:Hk; [done|]. apply is_missing_false in Hk.
  apply (see_all_mono rs) in Hk. apply is_missing_false in Hk. congruence.
Qed.
Lemma missing_shrinks kv rs r :
  r ∈ rs -> r ∈ all -> is_missing kv r = true ->
  (length (all_missing (see_all rs kv) all) < length (all_missing kv all))%nat.
Proof.
  intros Hr Hall Hm.
  assert (is_missing (see_all rs kv) r = false) as Hs by (apply is_missing_false; by apply see_all_covers).
  unfold all_missing. clear -Hall Hm Hs.
  induction all as [|x l IH]; [by apply not_elem_of_nil in Hall|]. rewrite !filter_cons.
  assert (length (filter (fun rec => is_missing (see_all rs kv) rec = true) l) <=
    length (filter (fun rec => is_missing kv rec = true) l)) as Hle.
  { clear. induction l as [|y l IH]; [done|]. rewrite !filter_cons.
    destruct (decide (is_missing (see_all rs kv) y = true)) as [Hy|Hy]; rewrite ?(decide_True _ _ Hy).
    - rewrite decide_True by by eapply is_missing_mono. cbn. lia.
    - case_decide; cbn; lia. }
  apply elem_of_cons in Hall as [->|Hall].
  - rewrite decide_False by congruence. rewrite decide_True by done. cbn. lia.
  - specialize (IH Hall). destruct (decide (is_missing (see_all rs kv) x = true)) as [Hx|Hx].
    + rewrite decide_True by by eapply is_missing_mono. cbn. lia.
    + case_decide; cbn; lia.
Qed.

Lemma check_peer_page kv cursor : exists missing next more,
  check_peer all a kv cursor = Some (missing, next, more) /\
  (forall r, r ∈ missing -> r ∈ all /\ is_missing kv r = true) /\
  (more = true -> exists r, r ∈ missing).
Proof.
  destruct (check_page_ok (clamp 0 100 10000) cursor kv all) as (missing & next & more & He & Hm & Ht & _); [by vm_compute|].
  exists missing, next, more. unfold check_peer, handleCheck. rewrite bool_decide_true by done.
  cbn [negb ck_limit ck_cursor ck_vector]. rewrite He, bind_ok. split_and!; [done| |].
  - intros r Hr. rewrite Hm in Hr. apply check_loop_sub in Hr as [Hr|Hr]; [by apply not_elem_of_nil in Hr|done].
  - intros Hmore. destruct (Ht Hmore) as (_ & r & Hr & _). exists r. by apply last_Some_elem_of.
Qed.

Lemma follow_pages_total fuel : forall more cursor (s : Server St),
  (1 + length (all_missing (srv_kv s) all) < fuel)%nat ->
  is_Some (follow_pages (check_peer all a) fuel more cursor s).
Proof.
  induction fuel as [|fuel IH]; intros more cursor s Hf; [lia|]. cbn [follow_pages].
  destruct (more && _); [|done].
  destruct (check_peer_page (knowledgeVector s) cursor) as (missing & next & more' & -> & Hin & Hmore).
  destruct (ingest_page missing s) as [s' [|]] eqn:Hi; [|done].
  destruct more'.
  - apply IH. destruct (Hmore eq_refl) as (r & Hr). destruct (Hin r Hr) as [Hall Hm].
    rewrite (ingest_page_kv _ _ _ Hi). pose proof (missing_shrinks (srv_kv s) missing r Hr Hall Hm). lia.
  - destruct fuel as [|fuel]; [lia|done].
Qed.
End termination.

(** Nobody is marked missing twice: pagination, as the program runs it. *)
Lemma all_missing_length kv all : (length (all_missing kv all) <= length all)%nat.
Proof. apply length_filter. Qed.
Lemma reconcile_total {St A} `{StoreOps St, StoreOps A} (all : list NellRecord) (a : Server A) (s : Server St) tracked :
  is_Some (reconcileOneInner (check_peer all a) (2 + length all) tracked s).
Proof.
  unfold reconcileOneInner. destruct (match tracked with Some p => negb (isActive p) | None => false end); [done|].
  destruct (check_peer_page all a (knowledgeVector s) "") as (missing & next & more & -> & Hin & Hmore).
  destruct (ingest_page missing s) as [s' [|]] eqn:Hi; [|done].
  destruct more; [|done]. apply follow_pages_total.
  destruct (Hmore eq_refl) as (r & Hr). destruct (Hin r Hr) as [Hall Hm].
  rewrite (ingest_page_kv _ _ _ Hi). pose proof (missing_shrinks all (srv_kv s) missing r Hr Hall Hm).
  pose proof (all_missing_length (srv_kv s) all). lia.
Qed.


(** ** Properties *)

(** The heartbeat's state machine: from a new peer, any sequence of pings answered or
    missed keeps the state a function of the misses in a row, active at none, degraded
    from the first, dead from the third; one answered ping makes any peer active. *)
Theorem TrackedPeer_state_machine now url (pings : list (Z * bool)) :
  let p := foldl (fun p '(t, ok) => if ok : bool then recordPing t p else recordMiss DefaultMaxMissedPings p)
    (newTrackedPeer now url) pings in
  peer_inv DefaultMaxMissedPings p /\ tp_url p = url /\
  tp_missedPings p = foldl (fun n '(_, ok) => if ok : bool then 0 else n + 1)%Z 0%Z pings /\
  (isActive p = true <-> tp_missedPings p = 0%Z) /\
  (getState p = StateDead <-> (3 <= tp_missedPings p)%Z).
Proof.
  cbn zeta. set (p := foldl _ _ _).
  assert (peer_inv DefaultMaxMissedPings p /\ tp_url p = url /\
    tp_missedPings p = foldl (fun n '(_, ok) => if ok : bool then 0 else n + 1)%Z 0%Z pings) as (Hi & Hu & Hm).
  { unfold p. induction pings as [|[t ok] pings IH] using rev_ind; [by split|].
    rewrite !foldl_app. cbn [foldl]. destruct IH as (Hi & Hu & Hm).
    destruct ok; [split_and!; [apply recordPing_inv|done|done]|].
    split_and!; [by apply recordMiss_inv|done|]. cbn. by rewrite Hm. }
  split_and!; try done; destruct Hi as [Hp Hs]; unfold isActive, getState; rewrite Hs; unfold state_of, DefaultMaxMissedPings.
  - rewrite bool_decide_eq_true. destruct (Z.leb_spec (tp_missedPings p) 0); [split; [lia|done]|].
    destruct (Z.leb_spec 3 (tp_missedPings p)); split; (done || lia).
  - destruct (Z.leb_spec (tp_missedPings p) 0); [split; [done|lia]|].
    destruct (Z.leb_spec 3 (tp_missedPings p)); split; (done || lia).
Qed.

(** C28. Following a peer's pages ends: however the records and ids lie, each page that
    promises more has a record the client was missing and then no longer is, so a
    reconciliation with a server makes at most as many turns as the peer's listing is
    long, plus two. *)
Theorem reconcile_terminates {St A} `{StoreOps St, StoreOps A} (all : list NellRecord) (a : Server A) (s : Server St) tracked :
  is_Some (reconcileOneInner (check_peer all a) (2 + length all) tracked s).
Proof. apply reconcile_total. Qed.

(** A node's 102 writes: the first hundred under ids that sort low, then ["a"] and ["z"]. *)
Definition page_id (i : nat) : string :=
  if decide (i = 100) then "a" else if decide (i = 101) then "z" else
  bytes_str (Ascii.ascii_of_nat 109 :: replicate (S i) (Ascii.ascii_of_nat 48)).
Definition page_records : list NellRecord :=
  (fun i => mkRecord "c" (page_id i) "text" [] [] (mkHLC (Z.of_nat (S i)) 0) "X" false) <$> seq 0 102.
Definition page_server : Server MemoryStore := Server_New (put_all page_records (NewMemoryStore 0 "A")) "A" (Some ∅).
Definition page_client : Server MemoryStore := Server_New (NewMemoryStore 0 "B") "B" (Some ∅).

(** Pages are cut in clock order and resumed in id order, so a reconciliation can
    skip a record for good.  Here a peer holds 102 records of one node and the client
    none: the reconciliation reports success, the client ends up without the record
    ["a"], and its vector now covers it, so no later check will ever return it. *)
Theorem reconcile_loses_record :
  let result := reconcileOneInner (check_peer page_records page_server) 104 None page_client in
  exists s, result = Some (s, None) /\
    sorts clock_less (st_ListAll "c" (srv_store page_server)) page_records /\
    is_Some (st_records (srv_store page_server) !! "c:a") /\
    st_Get "c" "a" (srv_store s) = Err ErrRecordNotFound /\
    all_missing (knowledgeVector s) page_records = [].
Proof.
  assert (sort_Slice clock_less (st_ListAll "c" (srv_store page_server)) = page_records) as Hs by (vm_compute; reflexivity).
  cbn zeta. assert (match reconcileOneInner (check_peer page_records page_server) 104 None page_client with
    | Some (s, None) => match st_Get "c" "a" (srv_store s) with Err _ => true | _ => false end &&
        match all_missing (knowledgeVector s) page_records with [] => true | _ => false end
    | _ => false end = true) as Hc by (vm_compute; reflexivity).
  destruct (reconcileOneInner _ _ _ _) as [[s [e|]]|]; [done| |done]. exists s.
  apply andb_true_iff in Hc as [Hg Hm]. split_and!; [done| | | |].
  - rewrite <-Hs. apply sort_Slice_sorts. apply _.
  - assert (match st_records (srv_store page_server) !! "c:a" with Some _ => true | _ => false end = true) as Hr
      by (vm_compute; reflexivity).
    destruct (_ !! "c:a"); [done|discriminate].
  - destruct (st_Get _ _ _) as [|[]|]; done.
  - by destruct (all_missing _ _).
Qed.
