(* ===== verification/Crypto.v ===== *)
(** * Hashes and decimal integers

    What request signing and revision tokens use of Go's standard library:
    [crypto/sha256], [crypto/hmac], [crypto/sha1], [encoding/hex], and the decimal
    [%d] / [strconv.ParseInt] / [strconv.Atoi] of a 64-bit integer. *)
From S2P Require Import Prelude BigEndian.
Local Open Scope Z_scope.

(** ** SHA-256 (FIPS 180-4) *)
Definition add32 (a b : Z) : Z := wrap_u 32 (a + b).
Definition rotr (n x : Z) : Z := wrap_u 32 (Z.lor (Z.shiftr x n) (Z.shiftl x (32 - n))).
Definition sha_K : list Z :=
  [1116352408; 1899447441; 3049323471; 3921009573; 961987163; 1508970993; 2453635748; 2870763221;
   3624381080; 310598401; 607225278; 1426881987; 1925078388; 2162078206; 2614888103; 3248222580;
   3835390401; 4022224774; 264347078; 604807628; 770255983; 1249150122; 1555081692; 1996064986;
   2554220882; 2821834349; 2952996808; 3210313671; 3336571891; 3584528711; 113926993; 338241895;
   666307205; 773529912; 1294757372; 1396182291; 1695183700; 1986661051; 2177026350; 2456956037;
   2730485921; 2820302411; 3259730800; 3345764771; 3516065817; 3600352804; 4094571909; 275423344;
   430227734; 506948616; 659060556; 883997877; 958139571; 1322822218; 1537002063; 1747873779;
   1955562222; 2024104815; 2227730452; 2361852424; 2428436474; 2756734187; 3204031479; 3329325298].
Definition sha_init : list Z :=
  [1779033703; 3144134277; 1013904242; 2773480762; 1359893119; 2600822924; 528734635; 1541459225].

(** The message schedule, the latest word first. *)
Fixpoint sha_schedule (n : nat) (ws : list Z) : list Z :=
  match n with
  | O => ws
  | S n =>
      let w2 := nth 1 ws 0 in let w7 := nth 6 ws 0 in let w15 := nth 14 ws 0 in let w16 := nth 15 ws 0 in
      let s0 := Z.lxor (Z.lxor (rotr 7 w15) (rotr 18 w15)) (Z.shiftr w15 3) in
      let s1 := Z.lxor (Z.lxor (rotr 17 w2) (rotr 19 w2)) (Z.shiftr w2 10) in
      sha_schedule n (add32 (add32 w16 s0) (add32 w7 s1) :: ws)
  end.
Fixpoint sha_rounds (kws : list (Z * Z)) (a b c d e f g h : Z) : list Z :=
  match kws with
  | [] => [a; b; c; d; e; f; g; h]
  | (k, w) :: kws =>
      let S1 := Z.lxor (Z.lxor (rotr 6 e) (rotr 11 e)) (rotr 25 e) in
      let ch := Z.lxor (Z.land e f) (Z.land (2 ^ 32 - 1 - e) g) in
      let t1 := add32 (add32 h S1) (add32 ch (add32 k w)) in
      let S0 := Z.lxor (Z.lxor (rotr 2 a) (rotr 13 a)) (rotr 22 a) in
      let maj := Z.lxor (Z.lxor (Z.land a b) (Z.land a c)) (Z.land b c) in
      sha_rounds kws (add32 t1 (add32 S0 maj)) a b c (add32 d t1) e f g
  end.
Fixpoint be_words (n : nat) (b : bytes) : list Z :=
  match n with O => [] | S n => be_value (take 4 b) :: be_words n (drop 4 b) end.
Definition sha_block (hs : list Z) (block : bytes) : list Z :=
  let ws := rev (sha_schedule 48 (rev (be_words 16 block))) in
  match hs with
  | [a; b; c; d; e; f; g; h] => zip_with add32 hs (sha_rounds (zip sha_K ws) a b c d e f g h)
  | _ => hs
  end.
Fixpoint sha_blocks (n : nat) (hs : list Z) (b : bytes) : list Z :=
  match n with O => hs | S n => sha_blocks n (sha_block hs (take 64 b)) (drop 64 b) end.
Definition sha_pad (msg : bytes) : bytes :=
  msg ++ to_byte 128 :: make_bytes ((55 - len msg) mod 64) ++ be_bytes 8 (8 * len msg).
Definition sha256 (msg : bytes) : bytes :=
  let padded := sha_pad msg in
  concat (be_bytes 4 <$> sha_blocks (length padded / 64) sha_init padded).

(** ** HMAC (RFC 2104) and hex *)
Definition xor_byte (v : Z) (c : Ascii.ascii) : Ascii.ascii := to_byte (Z.lxor v (of_byte c)).
Definition hmac_sha256 (key msg : bytes) : bytes :=
  let key := if 64 <? len key then sha256 key else key in
  let key := key ++ make_bytes (64 - len key) in
  sha256 ((xor_byte 92 <$> key) ++ sha256 ((xor_byte 54 <$> key) ++ msg)).
Definition hex_digit (n : Z) : Ascii.ascii := to_byte (if n <? 10 then 48 + n else 87 + n).
Definition hex_encode (b : bytes) : bytes :=
  flat_map (fun c => [hex_digit (of_byte c / 16); hex_digit (of_byte c mod 16)]) b.

(** Published test vectors. *)
Example sha256_abc :
  hex_encode (sha256 (str_bytes "abc")) =
  str_bytes "ba7816bf8f01cfea414140de5dae2223b00361a396177a9cb410ff61f20015ad".
Proof. vm_compute. reflexivity. Qed.
Example hmac_rfc4231_2 :
  hex_encode (hmac_sha256 (str_bytes "Jefe") (str_bytes "what do ya want for nothing?")) =
  str_bytes "5bdcc146bf60754e6a042426089575c75a003f089d2739839dec58b964ec3843".
Proof. vm_compute. reflexivity. Qed.

(** The sizes of the digests. *)
Lemma length_sha_rounds kws : forall a b c d e f g h, length (sha_rounds kws a b c d e f g h) = 8%nat.
Proof. induction kws as [|[k w] kws IH]; intros; cbn [sha_rounds]; [done|apply IH]. Qed.
Lemma length_sha_block hs block : length hs = 8%nat -> length (sha_block hs block) = 8%nat.
Proof.
  intros Hl. do 8 (destruct hs as [|? hs]; [discriminate Hl|]). destruct hs; [|discriminate Hl].
  unfold sha_block. by rewrite length_zip_with, length_sha_rounds.
Qed.
Lemma length_sha_blocks n : forall hs b, length hs = 8%nat -> length (sha_blocks n hs b) = 8%nat.
Proof. induction n as [|n IH]; intros hs b Hl; cbn [sha_blocks]; [done|]. by apply IH, length_sha_block. Qed.
Lemma length_sha256 msg : length (sha256 msg) = 32%nat.
Proof.
  unfold sha256. set (hs := sha_blocks _ _ _). assert (length hs = 8%nat) as Hl by by apply length_sha_blocks.
  clearbody hs. do 8 (destruct hs as [|? hs]; [discriminate Hl|]). destruct hs; [|discriminate Hl]. reflexivity.
Qed.
Lemma length_hex_encode b : length (hex_encode b) = (2 * length b)%nat.
Proof. induction b as [|c b IH]; [done|]. unfold hex_encode in *. cbn [flat_map length app]. lia. Qed.

(** ** SHA-1 (FIPS 180-4) *)
Definition rotl (n x : Z) : Z := rotr (32 - n) x.
Fixpoint sha1_schedule (n : nat) (ws : list Z) : list Z :=
  match n with
  | O => ws
  | S n =>
      let w := Z.lxor (Z.lxor (nth 2 ws 0) (nth 7 ws 0)) (Z.lxor (nth 13 ws 0) (nth 15 ws 0)) in
      sha1_schedule n (rotl 1 w :: ws)
  end.
Fixpoint sha1_rounds (t : nat) (ws : list Z) (a b c d e : Z) : list Z :=
  match ws with
  | [] => [a; b; c; d; e]
  | w :: ws =>
      let '(f, k) :=
        if (t <? 20)%nat then (Z.lxor (Z.land b c) (Z.land (2 ^ 32 - 1 - b) d), 1518500249)
        else if (t <? 40)%nat then (Z.lxor b (Z.lxor c d), 1859775393)
        else if (t <? 60)%nat then (Z.lxor (Z.land b c) (Z.lxor (Z.land b d) (Z.land c d)), 2400959708)
        else (Z.lxor b (Z.lxor c d), 3395469782) in
      sha1_rounds (S t) ws (add32 (add32 (rotl 5 a) f) (add32 e (add32 k w))) a (rotl 30 b) c d
  end.
Definition sha1_block (hs : list Z) (block : bytes) : list Z :=
  let ws := rev (sha1_schedule 64 (rev (be_words 16 block))) in
  match hs with
  | [a; b; c; d; e] => zip_with add32 hs (sha1_rounds 0 ws a b c d e)
  | _ => hs
  end.
Fixpoint sha1_blocks (n : nat) (hs : list Z) (b : bytes) : list Z :=
  match n with O => hs | S n => sha1_blocks n (sha1_block hs (take 64 b)) (drop 64 b) end.
Definition sha1 (msg : bytes) : bytes :=
  let padded := sha_pad msg in
  concat (be_bytes 4 <$>
    sha1_blocks (length padded / 64) [1732584193; 4023233417; 2562383102; 271733878; 3285377520] padded).
Example sha1_abc : hex_encode (sha1 (str_bytes "abc")) = str_bytes "a9993e364706816aba3e25717850c26c9cd0d89d".
Proof. vm_compute. reflexivity. Qed.

(** ** Decimal integers *)

Definition digit_char (n : Z) : Ascii.ascii := to_byte (48 + n).
(** The digits of [n], most significant first; [fuel] bounds their number. *)
Fixpoint format_nat (fuel : nat) (n : Z) (acc : bytes) : bytes :=
  match fuel with
  | O => acc
  | S fuel =>
      let acc := digit_char (n mod 10) :: acc in
      if n <? 10 then acc else format_nat fuel (n / 10) acc
  end.
(** [%d] of an int64: at most 20 digits. *)
Definition format_int (n : Z) : bytes :=
  if n <? 0 then to_byte 45 :: format_nat 20 (- n) [] else format_nat 20 n [].

Fixpoint parse_digits (b : bytes) (acc : Z) : option Z :=
  match b with
  | [] => Some acc
  | c :: b =>
      let d := of_byte c - 48 in
      if (0 <=? d) && (d <=? 9) then parse_digits b (acc * 10 + d) else None
  end.
(** [strconv.ParseInt(s, 10, 64)]: an optional sign, at least one digit, in range. *)
Definition ParseInt (b : bytes) : option Z :=
  let '(neg, digits) :=
    match b with
    | c :: b' => if of_byte c =? 45 then (true, b') else if of_byte c =? 43 then (false, b') else (false, b)
    | [] => (false, [])
    end in
  match digits with
  | [] => None
  | _ =>
      v ← parse_digits digits 0;
      let v := if neg : bool then - v else v in
      if (- 2 ^ 63 <=? v) && (v <? 2 ^ 63) then Some v else None
  end.

(** [strconv.Atoi(s)]: the value, and whether there was no error; out of range it is the
    nearest int, otherwise 0. *)
Definition Atoi (b : bytes) : Z * bool :=
  let '(neg, digits) :=
    match b with
    | c :: b' => if of_byte c =? 45 then (true, b') else if of_byte c =? 43 then (false, b') else (false, b)
    | [] => (false, [])
    end in
  match digits with
  | [] => (0, false)
  | _ =>
      match parse_digits digits 0 with
      | None => (0, false)
      | Some v =>
          let v := if neg : bool then - v else v in
          if v <? - 2 ^ 63 then (- 2 ^ 63, false) else if 2 ^ 63 <=? v then (2 ^ 63 - 1, false) else (v, true)
      end
  end.

Lemma parse_digits_app b1 b2 acc :
  parse_digits (b1 ++ b2) acc = parse_digits b1 acc ≫= parse_digits b2.
Proof.
  revert acc. induction b1 as [|c b1 IH]; intros acc; cbn [parse_digits app]; [done|].
  destruct (_ && _); [apply IH|done].
Qed.
Lemma of_digit n : 0 <= n < 10 -> of_byte (digit_char n) = 48 + n.
Proof. intros. unfold digit_char. rewrite of_to_byte. apply Z.mod_small. lia. Qed.

Lemma format_nat_spec fuel : forall n acc,
  0 <= n < 10 ^ Z.of_nat fuel -> (0 < fuel)%nat ->
  exists ds, format_nat fuel n acc = ds ++ acc /\ parse_digits ds 0 = Some n /\
    exists d ds', ds = digit_char d :: ds' /\ 0 <= d < 10.
Proof.
  induction fuel as [|fuel IH]; intros n acc Hn Hf; [lia|]. cbn [format_nat].
  pose proof (Z.mod_pos_bound n 10 ltac:(lia)) as Hm.
  assert (forall k, parse_digits [digit_char (n mod 10)] k = Some (k * 10 + n mod 10)) as Hone.
  { intros k. cbn [parse_digits]. rewrite of_digit by done.
    rewrite (proj2 (Z.leb_le _ _)), (proj2 (Z.leb_le _ 9)) by lia. cbn. f_equal. lia. }
  destruct (Z.ltb_spec n 10).
  - exists [digit_char (n mod 10)]. split_and!; [done| |eauto].
    rewrite Hone. f_equal. rewrite Z.mod_small; lia.
  - destruct fuel as [|fuel]; [cbn in Hn; lia|].
    destruct (IH (n / 10) (digit_char (n mod 10) :: acc)) as (ds & -> & Hp & d & ds' & -> & Hd); [|lia|].
    { split; [apply Z.div_pos; lia|]. apply Z.div_lt_upper_bound; [lia|].
      rewrite <-Z.pow_succ_r by lia. replace (Z.succ (Z.of_nat (S fuel))) with (Z.of_nat (S (S fuel))) by lia. lia. }
    exists ((digit_char d :: ds') ++ [digit_char (n mod 10)]). split_and!.
    + by rewrite <-app_assoc.
    + rewrite parse_digits_app, Hp. cbn [mbind option_bind]. rewrite Hone. f_equal.
      rewrite Z.mul_comm, <-Z.div_mod; lia.
    + exists d, (ds' ++ [digit_char (n mod 10)]). done.
Qed.

Lemma ParseInt_format n : in_s 64 n -> ParseInt (format_int n) = Some n.
Proof.
  unfold in_s. change (2 ^ (64 - 1)) with (2 ^ 63). intros Hn. unfold format_int, ParseInt.
  assert (forall m, 0 <= m <= 2 ^ 63 -> exists d ds', format_nat 20 m [] = digit_char d :: ds' /\
    0 <= d < 10 /\ parse_digits (digit_char d :: ds') 0 = Some m) as Hfmt.
  { intros m Hm. destruct (format_nat_spec 20 m []) as (ds & He & Hp & d & ds' & -> & Hd); [|lia|].
    - split; [lia|]. apply Z.le_lt_trans with (2 ^ 63); [lia|]. by vm_compute.
    - exists d, ds'. rewrite He, app_nil_r. done. }
  destruct (Z.ltb_spec n 0).
  - rewrite of_to_byte. cbn [Z.modulo Z.eqb].
    destruct (Hfmt (- n)) as (d & ds' & -> & Hd & Hp); [lia|].
    change ((45 mod 256 =? 45)) with true. cbn iota. rewrite Hp. cbn [mbind option_bind].
    rewrite Z.opp_involutive. by rewrite (proj2 (Z.leb_le _ _)), (proj2 (Z.ltb_lt _ _)) by lia.
  - destruct (Hfmt n) as (d & ds' & -> & Hd & Hp); [lia|]. rewrite of_digit by done.
    rewrite (proj2 (Z.eqb_neq _ 45)), (proj2 (Z.eqb_neq _ 43)) by lia. rewrite Hp. cbn [mbind option_bind].
    by rewrite (proj2 (Z.leb_le _ _)), (proj2 (Z.ltb_lt _ _)) by lia.
Qed.

Lemma Atoi_ParseInt b v : ParseInt b = Some v -> Atoi b = (v, true).
Proof.
  unfold ParseInt, Atoi. destruct (match b with [] => _ | _ => _ end) as [neg [|c digits]]; [done|].
  destruct (parse_digits _ _) as [w|]; [|done]. cbn [mbind option_bind].
  set (x := if neg then - w else w). intros Hx. destruct (_ && _) eqn:Hr in Hx; [|done]. injection Hx as <-.
  apply andb_true_iff in Hr. replace (x <? - 2 ^ 63) with false by lia. by replace (2 ^ 63 <=? x) with false by lia.
Qed.
(** The digits hold no minus sign. *)
Lemma format_nat_no_minus fuel : forall n acc, 0 <= n -> to_byte 45 ∉ acc -> to_byte 45 ∉ format_nat fuel n acc.
Proof.
  induction fuel as [|fuel IH]; intros n acc Hn Ha; cbn [format_nat]; [done|].
  assert (to_byte 45 ∉ digit_char (n mod 10) :: acc) as Hc.
  { intros [He|]%elem_of_cons; [|done]. pose proof (Z.mod_pos_bound n 10 ltac:(lia)).
    apply (f_equal of_byte) in He. rewrite of_digit, of_to_byte in He by done. change (45 mod 256) with 45 in He. lia. }
  destruct (n <? 10); [done|]. apply IH; [apply Z.div_pos; lia|done].
Qed.
Lemma format_int_no_minus n : 0 <= n -> to_byte 45 ∉ format_int n.
Proof.
  intros. unfold format_int. replace (n <? 0) with false by lia. apply format_nat_no_minus; [done|].
  by intros ?%not_elem_of_nil.
Qed.
