(* ===== verification/Strconv.v ===== *)
(** * Decimal and binary numbers (strconv)

    [strconv.ParseFloat] as the correct rounding of a decimal, and [strconv.FormatFloat]
    with precision -1: the shortest decimal that reads back as the float, the nearest one
    among those.  A decimal is a number of digits [d] and a power [x] of ten. *)
From S2P Require Import Prelude BigEndian Float Crypto.
From Stdlib Require Import Zpower.
Local Open Scope Z_scope.

(** [m1 / m2], positive integers, rounded to nearest even. *)
Definition round_ratio (prec emax : Z) (s : bool) (m1 m2 : Z) : float :=
  let '(q, e, l) := SFdiv_core_binary prec emax m1 0 m2 0 in binary_round_aux prec emax s q e l.
(** [d * 10 ^ x] *)
Definition round_decimal (prec emax : Z) (s : bool) (d x : Z) : float :=
  if d =? 0 then S754_zero s
  else if 0 <=? x then round_ratio prec emax s (d * 10 ^ x) 1 else round_ratio prec emax s d (10 ^ (- x)).

(** [m * 2 ^ e] as a decimal, exactly. *)
Definition exact_decimal (m : positive) (e : Z) : Z * Z :=
  if 0 <=? e then (Zpos m * 2 ^ e, 0) else (Zpos m * 5 ^ (- e), e).
(** Trailing zeros moved to the exponent; [fuel] bounds their number. *)
Fixpoint strip_zeros (fuel : nat) (d x : Z) : Z * Z :=
  match fuel with
  | O => (d, x)
  | S fuel => if d mod 10 =? 0 then strip_zeros fuel (d / 10) (x + 1) else (d, x)
  end.
Definition dec_digits (n : Z) : bytes := format_nat (S (Z.to_nat (Z.log2 n))) n [].

Section shortest.
Variables prec emax : Z.

(** The decimals of [n] digits next to the float, [d] being its [N] exact digits: the one
    below, the one above, or the nearer where both read back. *)
Definition candidate_ok (s : bool) (m : positive) (e : Z) (c : Z * Z) : bool :=
  bool_decide (round_decimal prec emax s c.1 c.2 = S754_finite s m e).
Definition shortest_at (s : bool) (m : positive) (e d x : Z) (drop : Z) : option (Z * Z) :=
  let p := 10 ^ drop in
  let lo := d / p in
  let r := d mod p in
  let strip c := strip_zeros (length (dec_digits d)) c (x + drop) in
  match candidate_ok s m e (strip lo), candidate_ok s m e (strip (lo + 1)) with
  | true, true =>
      if 2 * r <? p then Some (strip lo) else if p <? 2 * r then Some (strip (lo + 1))
      else if Z.even lo then Some (strip lo) else Some (strip (lo + 1))
  | true, false => Some (strip lo)
  | false, true => Some (strip (lo + 1))
  | false, false => None
  end.
(** From one digit on; with all of them the decimal is exact. *)
Fixpoint shortest_loop (s : bool) (m : positive) (e d x : Z) (drop : nat) : Z * Z :=
  match drop with
  | O => strip_zeros (length (dec_digits d)) d x
  | S drop' =>
      match shortest_at s m e d x (Z.of_nat drop) with
      | Some c => c
      | None => shortest_loop s m e d x drop'
      end
  end.
Definition shortest (s : bool) (m : positive) (e : Z) : Z * Z :=
  let '(d, x) := exact_decimal m e in shortest_loop s m e d x (length (dec_digits d) - 1).
End shortest.

(** ** Numbers as text *)

Definition is_digit (c : Ascii.ascii) : bool := (48 <=? of_byte c) && (of_byte c <=? 57).
(** The digits a text begins with. *)
Fixpoint digit_run (b : bytes) : bytes :=
  match b with c :: b' => if is_digit c then c :: digit_run b' else [] | [] => [] end.
Definition zeros (n : Z) : bytes := replicate (Z.to_nat n) (to_byte 48).

(** A number literal by its parts: the sign, the digits before and after the point, and the
    exponent with its sign. *)
Record number := mkNumber { nm_neg : bool; nm_int : bytes; nm_frac : bytes; nm_exp : option (bool * bytes) }.
Definition exp_text (e : option (bool * bytes)) : bytes :=
  match e with Some (neg, ds) => to_byte 101 :: (if neg : bool then to_byte 45 else to_byte 43) :: ds | None => [] end.
Definition frac_text (frac : bytes) : bytes := match frac with [] => [] | fr => to_byte 46 :: fr end.
Definition print_number (n : number) : bytes :=
  (if nm_neg n then [to_byte 45] else []) ++ nm_int n ++
  frac_text (nm_frac n) ++ exp_text (nm_exp n).

(** [%f] and [%e] of [d * 10 ^ x], as [encoding/json] writes them: an exponent below ten
    has one digit. *)
Definition number_f (s : bool) (d x : Z) : number :=
  let ds := dec_digits d in
  let k := len ds + x in
  if 0 <=? x then mkNumber s (ds ++ zeros x) [] None
  else if 0 <? k then mkNumber s (take (Z.to_nat k) ds) (drop (Z.to_nat k) ds) None
  else mkNumber s [to_byte 48] (zeros (- k) ++ ds) None.
Definition number_e (s : bool) (d x : Z) : number :=
  let ds := dec_digits d in
  let ex := x + len ds - 1 in
  mkNumber s (take 1 ds) (drop 1 ds) (Some (ex <? 0, dec_digits (Z.abs ex))).

(** What a literal stands for, as [strconv] reads it: an exponent stops growing once it
    has reached 10000. *)
Fixpoint exp_value (b : bytes) (e : Z) : Z :=
  match b with
  | [] => e
  | c :: b => exp_value b (if e <? 10000 then e * 10 + (of_byte c - 48) else e)
  end.
Definition number_value (n : number) : Z * Z :=
  (default 0 (parse_digits (nm_int n ++ nm_frac n) 0),
   match nm_exp n with
   | Some (neg, ds) => let e := exp_value ds 0 in if neg : bool then - e else e
   | None => 0
   end - len (nm_frac n)).
(** [strconv.ParseFloat]; [None] is [ErrRange]. *)
Definition ParseFloat (prec emax : Z) (n : number) : option float :=
  let '(d, x) := number_value n in
  match round_decimal prec emax (nm_neg n) d x with S754_infinity _ => None | f => Some f end.

(** A minus sign, or for an exponent either sign. *)
Definition scan_minus (b : bytes) : bool * bytes :=
  match b with c :: b' => if of_byte c =? 45 then (true, b') else (false, b) | [] => (false, []) end.
Definition scan_sign (b : bytes) : bool * bytes :=
  match b with
  | c :: b' => if of_byte c =? 45 then (true, b') else if of_byte c =? 43 then (false, b') else (false, b)
  | [] => (false, [])
  end.
(** The literal a text begins with, by the grammar of JSON, and the rest. *)
Definition scan_exp (neg : bool) (int frac : bytes) (b : bytes) : option (number * bytes) :=
  match b with
  | c :: b' =>
      if (of_byte c =? 101) || (of_byte c =? 69) then
        let '(eneg, b') := scan_sign b' in
        match digit_run b' with
        | [] => None
        | ds => Some (mkNumber neg int frac (Some (eneg, ds)), drop (length ds) b')
        end
      else Some (mkNumber neg int frac None, b)
  | [] => Some (mkNumber neg int frac None, [])
  end.
Definition scan_frac (b : bytes) : option (bytes * bytes) :=
  match b with
  | c :: b' => if of_byte c =? 46 then match digit_run b' with [] => None | fr => Some (fr, drop (length fr) b') end else Some ([], b)
  | [] => Some ([], [])
  end.
Definition scan_number (b : bytes) : option (number * bytes) :=
  let '(neg, b) := scan_minus b in
  let int := match digit_run b with c :: ds => if of_byte c =? 48 then [c] else c :: ds | [] => [] end in
  let b := drop (length int) b in
  match int with
  | [] => None
  | _ =>
      '(frac, b) ← scan_frac b;
      scan_exp neg int frac b
  end.

(** ** Exact ratios are read exactly *)

Lemma digits2_upper m : Zpos m < 2 ^ Zpos (digits2_pos m).
Proof.
  induction m as [m IH|m IH|]; cbn [digits2_pos]; [| |done];
    replace (Zpos (Pos.succ (digits2_pos m))) with (Z.succ (Zpos (digits2_pos m))) by lia; rewrite Z.pow_succ_r by lia; lia.
Qed.
Lemma digits2_unique m k : 0 < k -> 2 ^ (k - 1) <= Zpos m < 2 ^ k -> Zpos (digits2_pos m) = k.
Proof.
  intros Hk [Hl Hu]. pose proof (digits2_lower m) as Hl'. pose proof (digits2_upper m) as Hu'.
  destruct (Z.lt_trichotomy (Zpos (digits2_pos m)) k) as [H|[H|H]]; [|done|]; exfalso.
  - pose proof (Z.pow_le_mono_r 2 (Zpos (digits2_pos m)) (k - 1) ltac:(lia) ltac:(lia)). lia.
  - pose proof (Z.pow_le_mono_r 2 k (Zpos (digits2_pos m) - 1) ltac:(lia) ltac:(lia)). lia.
Qed.
(** The bits of a product with a power of two. *)
Lemma digits2_mul_pow m k : 0 <= k -> Zdigits2 (Zpos m * 2 ^ k) = Zpos (digits2_pos m) + k.
Proof.
  intros Hk. destruct (Zpos m * 2 ^ k) as [|p|p] eqn:Hp; [pose proof (Z.pow_pos_nonneg 2 k); nia| |pose proof (Z.pow_pos_nonneg 2 k); nia].
  cbn [Zdigits2]. apply digits2_unique; [lia|]. rewrite <-Hp.
  pose proof (digits2_lower m). pose proof (digits2_upper m).
  replace (Zpos (digits2_pos m) + k - 1) with (Zpos (digits2_pos m) - 1 + k) by lia.
  rewrite !Z.pow_add_r by lia. pose proof (Z.pow_pos_nonneg 2 k). nia.
Qed.

Lemma iter_pos_add {A} (f : A -> A) p : forall q x, iter_pos f (p + q) x = iter_pos f p (iter_pos f q x).
Proof.
  assert (forall p x, iter_pos f p x = Pos.iter f x p) as Hi.
  { clear. induction p as [p IH|p IH|]; intros x; cbn [iter_pos Pos.iter]; rewrite ?IH; try done.
    rewrite <-!Pos.iter_swap. done. }
  intros q x. rewrite !Hi. apply Pos.iter_add.
Qed.
(** Shifting zeros out leaves no trace. *)
Lemma shr_1_exact m p : iter_pos shr_1 p (Build_shr_record (Zpos m * 2 ^ Zpos p) false false) = Build_shr_record (Zpos m) false false.
Proof.
  revert m. induction p as [|p IH] using Pos.peano_ind; intros m.
  - cbn [iter_pos]. rewrite Z.pow_1_r. replace (Zpos m * 2) with (Zpos m~0) by lia. done.
  - rewrite <-Pos.add_1_r, iter_pos_add. cbn [iter_pos].
    rewrite Pos2Z.inj_add, Z.pow_add_r, Z.pow_1_r, Z.mul_assoc by lia.
    destruct (Zpos m * 2 ^ Zpos p) as [|q|q] eqn:Hq; [pose proof (Z.pow_pos_nonneg 2 (Zpos p)); nia| |pose proof (Z.pow_pos_nonneg 2 (Zpos p)); nia].
    replace (Zpos q * 2) with (Zpos q~0) by lia. cbn [shr_1 orb]. rewrite <-Hq. apply IH.
Qed.
Section exact.
Variables prec emax : Z.
Lemma shr_fexp_shifted m e e' : e' <= e -> fexp prec emax (Zpos (digits2_pos m) + e) = e ->
  shr_fexp prec emax (Zpos m * 2 ^ (e - e')) e' loc_Exact = (Build_shr_record (Zpos m) false false, e).
Proof.
  intros He Hf. unfold shr_fexp. rewrite digits2_mul_pow by lia.
  replace (Zpos (digits2_pos m) + (e - e') + e') with (Zpos (digits2_pos m) + e) by lia. rewrite Hf.
  cbn [shr_record_of_loc]. unfold shr. destruct (e - e') as [|p|p] eqn:Hp; [|rewrite shr_1_exact; f_equal; lia|lia].
  rewrite Z.mul_1_r. f_equal. lia.
Qed.
Lemma round_aux_shifted s m e e' : e' <= e -> bounded prec emax m e = true ->
  binary_round_aux prec emax s (Zpos m * 2 ^ (e - e')) e' loc_Exact = S754_finite s m e.
Proof.
  unfold bounded, canonical_mantissa. rewrite andb_true_iff. intros He [Hf Hb]. apply Z.eqb_eq in Hf.
  unfold binary_round_aux. rewrite shr_fexp_shifted by done. cbn [shr_m loc_of_shr_record round_nearest_even].
  pose proof (shr_fexp_shifted m e e ltac:(lia) Hf) as Hs. rewrite Z.sub_diag, Z.mul_1_r in Hs. rewrite Hs. cbn [shr_m]. by rewrite Hb.
Qed.
Lemma fexp_mono a b : a <= b -> fexp prec emax a <= fexp prec emax b.
Proof. unfold fexp. lia. Qed.

(** [m1 / m2 = m * 2 ^ e], a float: it is what is read. *)
Lemma round_ratio_exact s m e m1 m2 : bounded prec emax m e = true ->
  Zpos m1 * 2 ^ Z.max 0 (- e) = Zpos m * 2 ^ Z.max 0 e * Zpos m2 ->
  round_ratio prec emax s (Zpos m1) (Zpos m2) = S754_finite s m e.
Proof.
  intros Hb Hv. pose proof Hb as Hc. unfold bounded, canonical_mantissa in Hc. apply andb_true_iff in Hc as [Hf _]. apply Z.eqb_eq in Hf.
  unfold round_ratio, SFdiv_core_binary. cbn [Zdigits2]. rewrite !Z.add_0_r, !Z.sub_0_r.
  set (d1 := Zpos (digits2_pos m1)). set (d2 := Zpos (digits2_pos m2)). set (d := Zpos (digits2_pos m)) in *.
  set (e' := Z.min (fexp prec emax (d1 - d2)) 0).
  assert (e' <= e) as He.
  { assert (d1 - d2 <= d + e) as Hd; [|pose proof (fexp_mono _ _ Hd); unfold e'; lia].
    pose proof (digits2_lower m1) as L1. pose proof (digits2_upper m2) as U2. pose proof (digits2_upper m) as U.
    fold d1 in L1. fold d2 in U2. fold d in U.
    destruct (Z.le_gt_cases (d1 - d2) (d + e)) as [|Hgt]; [done|exfalso].
    assert (Zpos m * 2 ^ Z.max 0 e * Zpos m2 < 2 ^ (d + Z.max 0 e + d2)) as H1.
    { rewrite !Z.pow_add_r by lia. pose proof (Z.pow_pos_nonneg 2 (Z.max 0 e)).
      apply Z.mul_lt_mono_nonneg; nia. }
    assert (2 ^ (d1 - 1 + Z.max 0 (- e)) <= Zpos m1 * 2 ^ Z.max 0 (- e)) as H2.
    { rewrite Z.pow_add_r by lia. pose proof (Z.pow_pos_nonneg 2 (Z.max 0 (- e))). nia. }
    rewrite Hv in H2.
    pose proof (Z.pow_le_mono_r 2 (d + Z.max 0 e + d2) (d1 - 1 + Z.max 0 (- e)) ltac:(lia) ltac:(lia)). lia. }
  assert ((match 0 - e' with Z0 => Zpos m1 | Zpos _ => Z.shiftl (Zpos m1) (0 - e') | Zneg _ => 0 end)
          = Zpos m * 2 ^ (e - e') * Zpos m2) as Hm.
  { assert (Zpos m1 * 2 ^ (- e') = Zpos m * 2 ^ (e - e') * Zpos m2) as Hx.
    { assert (0 <= - e') as He0 by (unfold e'; lia).
      assert (Zpos m1 * 2 ^ (- e') * 2 ^ Z.max 0 (- e) = Zpos m * 2 ^ (e - e') * Zpos m2 * 2 ^ Z.max 0 (- e)) as Hx.
      { replace (Zpos m1 * 2 ^ (- e') * 2 ^ Z.max 0 (- e)) with (Zpos m1 * 2 ^ Z.max 0 (- e) * 2 ^ (- e')) by lia. rewrite Hv.
        transitivity (Zpos m * Zpos m2 * (2 ^ Z.max 0 e * 2 ^ (- e'))); [lia|].
        transitivity (Zpos m * Zpos m2 * (2 ^ (e - e') * 2 ^ Z.max 0 (- e))); [|lia].
        rewrite <-!Z.pow_add_r by lia. do 2 f_equal. lia. }
      pose proof (Z.pow_pos_nonneg 2 (Z.max 0 (- e)) ltac:(lia) ltac:(lia)). nia. }
    destruct (0 - e') as [|p|p] eqn:Hp.
    - replace e' with 0 in * by lia. cbn in Hx. lia.
    - rewrite Z.shiftl_mul_pow2 by lia. rewrite <-Hp. by replace (0 - e') with (- e') by lia.
    - unfold e' in Hp. lia. }
  rewrite Hm. pose proof (Z_div_mod (Zpos m * 2 ^ (e - e') * Zpos m2) (Zpos m2) ltac:(lia)) as Hdm.
  destruct (Z.div_eucl _ _) as [q r]. destruct Hdm as [Hq Hr].
  assert (q = Zpos m * 2 ^ (e - e') /\ r = 0) as [-> ->].
  { assert (Zpos m2 * (Zpos m * 2 ^ (e - e') - q) = r) as Hd by lia.
    assert (Zpos m * 2 ^ (e - e') - q = 0) by nia. split; [lia|nia]. }
  assert (new_location (Zpos m2) 0 = loc_Exact) as ->.
  { unfold new_location. by destruct (Z.even (Zpos m2)). }
  by apply round_aux_shifted.
Qed.
End exact.

(** ** What is printed reads back *)

(** [d * 10 ^ x] is [d' * 10 ^ x'], the second with the zeros in its exponent. *)
Lemma strip_zeros_spec fuel : forall d x, 0 < d ->
  let '(d', x') := strip_zeros fuel d x in 0 < d' /\ x <= x' /\ d = d' * 10 ^ (x' - x).
Proof.
  induction fuel as [|fuel IH]; intros d x Hd; cbn [strip_zeros]; [rewrite Z.sub_diag; lia|].
  destruct (Z.eqb_spec (d mod 10) 0) as [Hm|]; [|rewrite Z.sub_diag; lia].
  pose proof (Z_div_mod_eq_full d 10) as He. specialize (IH (d / 10) (x + 1) ltac:(lia)).
  destruct (strip_zeros fuel (d / 10) (x + 1)) as [d' x']. destruct IH as (? & ? & Hx).
  split_and!; [done|lia|]. replace (x' - x) with (Z.succ (x' - (x + 1))) by lia. rewrite Z.pow_succ_r by lia. lia.
Qed.
Lemma strip_zeros_nonneg fuel : forall d x, 0 <= d -> 0 <= fst (strip_zeros fuel d x).
Proof.
  induction fuel as [|fuel IH]; intros d x Hd; cbn [strip_zeros]; [done|]. case_match; [|done].
  apply IH. apply Z.div_pos; lia.
Qed.

Section roundtrip.
Variables prec emax : Z.
Lemma round_decimal_exact s m e d x : bounded prec emax m e = true -> 0 < d ->
  d * 10 ^ Z.max 0 x * 2 ^ Z.max 0 (- e) = Zpos m * 2 ^ Z.max 0 e * 10 ^ Z.max 0 (- x) ->
  round_decimal prec emax s d x = S754_finite s m e.
Proof.
  intros Hb Hd Hv. unfold round_decimal. rewrite (proj2 (Z.eqb_neq d 0)) by lia.
  destruct (Z.leb_spec 0 x) as [Hx|Hx].
  - rewrite (Z.max_r 0 x), (Z.max_l 0 (- x)) in Hv by lia.
    pose proof (Z.pow_pos_nonneg 10 x ltac:(lia) Hx). destruct (d * 10 ^ x) as [|p|p] eqn:Hp; [nia| |nia].
    apply round_ratio_exact; [done|]. lia.
  - rewrite (Z.max_l 0 x), (Z.max_r 0 (- x)) in Hv by lia. rewrite Z.pow_0_r, Z.mul_1_r in Hv.
    pose proof (Z.pow_pos_nonneg 10 (- x) ltac:(lia) ltac:(lia)).
    destruct (10 ^ (- x)) as [|p|p] eqn:Hp; [lia| |lia]. destruct d as [|q|q]; [lia| |lia]. by apply round_ratio_exact.
Qed.
Lemma exact_stripped s m e fuel : bounded prec emax m e = true ->
  let '(d, x) := exact_decimal m e in
  let '(d', x') := strip_zeros fuel d x in 0 < d' /\ round_decimal prec emax s d' x' = S754_finite s m e.
Proof.
  intros Hb. destruct (exact_decimal m e) as [d x] eqn:He.
  assert (0 < d /\ x <= 0 /\ d * 2 ^ Z.max 0 (- e) = Zpos m * 2 ^ Z.max 0 e * 10 ^ (- x)) as (Hd & Hx & Hv).
  { unfold exact_decimal in He. destruct (Z.leb_spec 0 e); injection He as <- <-.
    - pose proof (Z.pow_pos_nonneg 2 e). rewrite Z.max_l, Z.max_r by lia. split_and!; [nia|lia|]. cbn. lia.
    - pose proof (Z.pow_pos_nonneg 5 (- e)). rewrite Z.max_r, Z.max_l by lia. split_and!; [nia|lia|].
      change 10 with (5 * 2). rewrite Z.pow_mul_l. lia. }
  pose proof (strip_zeros_spec fuel d x Hd) as Hs. destruct (strip_zeros fuel d x) as [d' x']. destruct Hs as (Hd' & Hxx & ->).
  split; [done|]. apply round_decimal_exact; [done|done|].
  pose proof (Z.pow_pos_nonneg 10 (Z.min (- x) (x' - x)) ltac:(lia) ltac:(lia)) as Hpos.
  assert (10 ^ (x' - x) * 10 ^ Z.max 0 (- x') = 10 ^ Z.max 0 x' * 10 ^ (- x)) as H10.
  { rewrite <-!Z.pow_add_r by lia. f_equal. lia. }
  pose proof (Z.pow_pos_nonneg 10 (x' - x) ltac:(lia) ltac:(lia)). pose proof (Z.pow_pos_nonneg 10 (- x) ltac:(lia) ltac:(lia)).
  apply (Z.mul_reg_r _ _ (10 ^ (- x))); [lia|].
  transitivity (d' * 2 ^ Z.max 0 (- e) * (10 ^ Z.max 0 x' * 10 ^ (- x))); [lia|]. rewrite <-H10.
  transitivity (d' * 10 ^ (x' - x) * 2 ^ Z.max 0 (- e) * 10 ^ Z.max 0 (- x')); [lia|]. rewrite Hv. lia.
Qed.

Lemma candidate_ok_spec s m e c : candidate_ok prec emax s m e c = true -> 0 <= c.1 ->
  0 < c.1 /\ round_decimal prec emax s c.1 c.2 = S754_finite s m e.
Proof.
  unfold candidate_ok. rewrite bool_decide_eq_true. intros Hc H0. split; [|done].
  destruct (decide (c.1 = 0)) as [Hz|]; [|lia]. unfold round_decimal in Hc. by rewrite Hz in Hc.
Qed.
Lemma shortest_at_spec s m e d x drop c : 0 <= d -> 0 <= drop -> shortest_at prec emax s m e d x drop = Some c ->
  0 < c.1 /\ round_decimal prec emax s c.1 c.2 = S754_finite s m e.
Proof.
  intros Hd Hdr. unfold shortest_at. pose proof (Z.pow_pos_nonneg 10 drop ltac:(lia) Hdr).
  assert (0 <= d / 10 ^ drop) as Hlo by (apply Z.div_pos; lia).
  set (fuel := length (dec_digits d)).
  pose proof (strip_zeros_nonneg fuel (d / 10 ^ drop) (x + drop) Hlo) as N1.
  pose proof (strip_zeros_nonneg fuel (d / 10 ^ drop + 1) (x + drop) ltac:(lia)) as N2.
  destruct (candidate_ok _ _ s m e (strip_zeros fuel (d / 10 ^ drop) _)) eqn:C1;
    destruct (candidate_ok _ _ s m e (strip_zeros fuel (d / 10 ^ drop + 1) _)) eqn:C2;
    repeat case_match; intros [= <-]; by apply candidate_ok_spec.
Qed.
(** The shortest decimal is positive and reads back as the float. *)
Lemma shortest_spec s m e : bounded prec emax m e = true ->
  let '(d, x) := shortest prec emax s m e in 0 < d /\ round_decimal prec emax s d x = S754_finite s m e.
Proof.
  intros Hb. unfold shortest. pose proof (fun fuel => exact_stripped s m e fuel Hb) as Hex.
  assert (0 <= fst (exact_decimal m e)) as Hd.
  { unfold exact_decimal. destruct (Z.leb_spec 0 e); cbn [fst];
      [pose proof (Z.pow_pos_nonneg 2 e)|pose proof (Z.pow_pos_nonneg 5 (- e))]; nia. }
  destruct (exact_decimal m e) as [d x]. cbn [fst] in Hd. generalize (length (dec_digits d) - 1)%nat. intros drop.
  induction drop as [|drop IH]; cbn [shortest_loop].
  - apply Hex.
  - destruct (shortest_at _ _ s m e d x (Z.of_nat (S drop))) as [c|] eqn:Hc; [|exact IH].
    apply shortest_at_spec in Hc as [? ?]; [|lia..]. by destruct c.
Qed.
End roundtrip.

(** ** Digits *)

Definition all_digits (b : bytes) : Prop := Forall (fun c => is_digit c = true) b.
Lemma parse_digits_all b : forall acc n, parse_digits b acc = Some n -> all_digits b.
Proof.
  induction b as [|c b IH]; intros acc n; [constructor|]. cbn [parse_digits].
  destruct ((0 <=? of_byte c - 48) && (of_byte c - 48 <=? 9)) eqn:Hd; [|done]. intros Hp.
  constructor; [unfold is_digit; lia|by eapply IH].
Qed.
Lemma all_digits_parse b : forall acc, all_digits b -> exists n, parse_digits b acc = Some n.
Proof.
  induction b as [|c b IH]; intros acc Hb; cbn [parse_digits]; [by eexists|]. inversion_clear Hb as [|?? Hc Hb'].
  unfold is_digit in Hc. replace ((0 <=? of_byte c - 48) && (of_byte c - 48 <=? 9)) with true by lia. by apply IH.
Qed.
Lemma digit_run_app ds more : all_digits ds -> match more with c :: _ => is_digit c = false | [] => True end ->
  digit_run (ds ++ more) = ds.
Proof.
  intros Hds Hm. induction Hds as [|c ds Hc _ IH]; cbn [app digit_run]; [|by rewrite Hc, IH].
  destruct more as [|c more]; [done|]. cbn [digit_run]. by rewrite Hm.
Qed.
Lemma digit_run_all ds : all_digits ds -> digit_run ds = ds.
Proof. intros Hds. pose proof (digit_run_app ds [] Hds I) as He. by rewrite app_nil_r in He. Qed.

Lemma format_nat_length fuel : forall n acc, (length (format_nat fuel n acc) <= fuel + length acc)%nat.
Proof.
  induction fuel as [|fuel IH]; intros n acc; cbn [format_nat]; [done|]. case_match; cbn [length]; [lia|].
  specialize (IH (n / 10) (digit_char (n mod 10) :: acc)). cbn [length] in IH. lia.
Qed.
Lemma format_nat_head fuel : forall n acc, 0 < n < 10 ^ Z.of_nat fuel ->
  exists d ds, format_nat fuel n acc = digit_char d :: ds /\ 0 < d < 10.
Proof.
  induction fuel as [|fuel IH]; intros n acc Hn; [cbn in Hn; lia|]. cbn [format_nat].
  destruct (Z.ltb_spec n 10).
  - rewrite Z.mod_small by lia. exists n, acc. split; [done|lia].
  - apply IH. rewrite Nat2Z.inj_succ, Z.pow_succ_r in Hn by lia. Z.div_mod_to_equations. lia.
Qed.
Lemma log2_pow10 n : 0 <= n -> n < 10 ^ Z.of_nat (S (Z.to_nat (Z.log2 n))).
Proof.
  intros Hn. rewrite Nat2Z.inj_succ, Z2Nat.id by apply Z.log2_nonneg.
  destruct (decide (n = 0)) as [->|]; [done|]. pose proof (Z.log2_spec n ltac:(lia)) as [_ Hu].
  eapply Z.lt_le_trans; [exact Hu|]. apply Z.pow_le_mono_l. lia.
Qed.
Lemma dec_digits_spec n : 0 <= n ->
  parse_digits (dec_digits n) 0 = Some n /\ all_digits (dec_digits n) /\ 0 < len (dec_digits n) <= Z.log2 n + 1 /\
  (exists d ds, dec_digits n = digit_char d :: ds /\ 0 <= d < 10 /\ (0 < n -> 0 < d)).
Proof.
  intros Hn. unfold dec_digits. pose proof (log2_pow10 n Hn) as Hl. set (fuel := S (Z.to_nat (Z.log2 n))) in *.
  destruct (format_nat_spec fuel n [] ltac:(lia) ltac:(unfold fuel; lia)) as (ds & He & Hp & d & ds' & Hds & Hd).
  rewrite app_nil_r in He. pose proof (format_nat_length fuel n []) as Hlen. rewrite He in Hlen.
  split_and!; [by rewrite He|rewrite He; by eapply parse_digits_all|rewrite He, Hds; unfold len; cbn [length]; lia| |].
  - rewrite He. unfold len. cbn [length] in Hlen. unfold fuel in Hlen. pose proof (Z.log2_nonneg n). lia.
  - destruct (decide (0 < n)) as [Hpos|].
    + destruct (format_nat_head fuel n [] ltac:(lia)) as (d' & ds'' & He' & Hd'). exists d', ds''. split_and!; (done || lia).
    + exists d, ds'. rewrite He. split_and!; (done || lia).
Qed.
Lemma zeros_all n : all_digits (zeros n).
Proof. apply Forall_replicate. done. Qed.
Lemma parse_digits_zeros k : forall acc, parse_digits (replicate k (to_byte 48)) acc = Some (acc * 10 ^ Z.of_nat k).
Proof.
  induction k as [|k IH]; intros acc; cbn [replicate parse_digits]; [by rewrite Z.mul_1_r|].
  rewrite of_to_byte. change (48 mod 256 - 48) with 0. cbn [Z.leb andb Z.compare]. rewrite IH, Nat2Z.inj_succ, Z.pow_succ_r by lia.
  f_equal. lia.
Qed.
Lemma exp_value_digits b : forall e n, parse_digits b e = Some n -> 0 <= e -> n <= 10000 -> exp_value b e = n.
Proof.
  assert (forall b e n, parse_digits b e = Some n -> 0 <= e -> e <= n) as Hmono.
  { clear. induction b as [|c b IH]; intros e n; cbn [parse_digits]; [intros [= ->]; lia|].
    destruct ((0 <=? of_byte c - 48) && (of_byte c - 48 <=? 9)) eqn:Hd; [|done]. intros Hp He. pose proof (IH _ _ Hp ltac:(lia)). lia. }
  induction b as [|c b IH]; intros e n; cbn [parse_digits exp_value]; [by intros [= ->]|].
  destruct ((0 <=? of_byte c - 48) && (of_byte c - 48 <=? 9)) eqn:Hd; [|done]. intros Hp He Hn.
  pose proof (Hmono _ _ _ Hp ltac:(lia)). destruct (Z.ltb_spec e 10000); [apply IH; (done || lia)|lia].
Qed.

(** ** Literals scan back *)

Definition number_wf (n : number) : Prop :=
  all_digits (nm_int n) /\ all_digits (nm_frac n) /\
  (exists c ds, nm_int n = c :: ds /\ (of_byte c = 48 -> ds = [])) /\
  match nm_exp n with Some (_, ds) => ds <> [] /\ all_digits ds | None => True end.
(** What may follow a literal. *)
Definition delimited (b : bytes) : Prop :=
  match b with c :: _ => is_digit c = false /\ of_byte c <> 46 /\ of_byte c <> 101 /\ of_byte c <> 69 | [] => True end.
Definition no_digit (b : bytes) : Prop := match b with c :: _ => is_digit c = false | [] => True end.
Lemma delimited_no_digit more : delimited more -> no_digit more.
Proof. destruct more; [done|]. by intros [? _]. Qed.
Lemma scan_exp_text neg int frac e more : match e with Some (_, ds) => ds <> [] /\ all_digits ds | None => True end -> delimited more ->
  scan_exp neg int frac (exp_text e ++ more) = Some (mkNumber neg int frac e, more).
Proof.
  intros He Hm. destruct e as [[eneg ds]|]; cbn [exp_text app].
  - destruct He as [Hne Hds]. unfold scan_exp. rewrite of_to_byte. change (101 mod 256 =? 101) with true. cbn [orb].
    assert (scan_sign ((if eneg then to_byte 45 else to_byte 43) :: ds ++ more) = (eneg, ds ++ more)) as -> by by destruct eneg.
    rewrite digit_run_app by (done || by apply delimited_no_digit).
    destruct ds as [|c ds]; [done|]. cbn iota. by rewrite drop_app_length.
  - destruct more as [|c more]; [done|]. destruct Hm as (_ & _ & H1 & H2). unfold scan_exp.
    by rewrite (proj2 (Z.eqb_neq _ _) H1), (proj2 (Z.eqb_neq _ _) H2).
Qed.
Lemma exp_text_head e more : delimited more ->
  no_digit (exp_text e ++ more) /\ match exp_text e ++ more with c :: _ => of_byte c <> 46 | [] => True end.
Proof.
  intros Hm. destruct e as [[eneg ds]|]; cbn [exp_text app no_digit].
  - rewrite of_to_byte. split; [reflexivity|]. by vm_compute.
  - destruct more; [done|]. destruct Hm as (? & ? & _). done.
Qed.
Lemma scan_frac_text frac e more : all_digits frac -> delimited more ->
  scan_frac (frac_text frac ++ exp_text e ++ more) = Some (frac, exp_text e ++ more).
Proof.
  intros Hf Hm. destruct (exp_text_head e more Hm) as [Hd H46]. unfold scan_frac. destruct frac as [|f frac]; cbn [frac_text app].
  - destruct (exp_text e ++ more) as [|c b]; [done|]. by rewrite (proj2 (Z.eqb_neq _ _) H46).
  - rewrite of_to_byte. change (46 mod 256 =? 46) with true. cbn iota.
    change (f :: frac ++ exp_text e ++ more) with ((f :: frac) ++ exp_text e ++ more). rewrite digit_run_app by done. cbn iota.
    by rewrite drop_app_length.
Qed.
Lemma scan_print_number n more : number_wf n -> delimited more -> scan_number (print_number n ++ more) = Some (n, more).
Proof.
  destruct n as [neg int frac e]. unfold number_wf, print_number. cbn [nm_neg nm_int nm_frac nm_exp].
  intros (Hint & Hfrac & (c & ds & -> & Hz) & He) Hm. rewrite <-!app_assoc.
  set (tail := frac_text frac ++ exp_text e ++ more).
  assert (no_digit tail) as Hd by (unfold tail; destruct frac; [by apply exp_text_head|done]).
  assert (is_digit c = true) as Hc by by inversion Hint. unfold is_digit in Hc.
  unfold scan_number.
  assert (scan_minus ((if neg then [to_byte 45] else []) ++ (c :: ds) ++ tail) = (neg, (c :: ds) ++ tail)) as ->.
  { destruct neg; [done|]. cbn [app scan_minus]. by rewrite (proj2 (Z.eqb_neq (of_byte c) 45)) by lia. }
  rewrite digit_run_app by done. cbn iota.
  assert ((if of_byte c =? 48 then [c] else c :: ds) = c :: ds) as ->.
  { destruct (Z.eqb_spec (of_byte c) 48) as [H48|]; [by rewrite (Hz H48)|done]. }
  rewrite drop_app_length. unfold tail. rewrite scan_frac_text by done. cbn [mbind option_bind]. by apply scan_exp_text.
Qed.

(** ** Floats as literals *)

(** The number [encoding/json] writes for a finite float: [%e] below 1e-6 and from 1e21 on. *)
Definition float_number (prec emax : Z) (f : float) : option number :=
  match f with
  | S754_zero s => Some (number_f s 0 0)
  | S754_finite s m e =>
      let '(d, x) := shortest prec emax s m e in
      let abs := S754_finite false m e in
      Some (if SFltb abs (round_decimal prec emax false 1 (-6)) || SFleb (round_decimal prec emax false 1 21) abs
            then number_e s d x else number_f s d x)
  | _ => None
  end.

Lemma len_take_drop {A} (k : Z) (l : list A) : 0 <= k <= len l -> len (take (Z.to_nat k) l) = k /\ len (drop (Z.to_nat k) l) = len l - k.
Proof. intros Hk. unfold len in *. rewrite length_take, length_drop. lia. Qed.
Lemma number_f_value s d x : 0 <= d -> number_value (number_f s d x) = if 0 <=? x then (d * 10 ^ x, 0) else (d, x).
Proof.
  intros Hd. destruct (dec_digits_spec d Hd) as (Hp & _ & Hl & _). unfold number_f, number_value.
  destruct (Z.leb_spec 0 x); cbn [nm_int nm_frac nm_exp].
  - rewrite app_nil_r, parse_digits_app, Hp. cbn [mbind option_bind]. unfold zeros. rewrite parse_digits_zeros, Z2Nat.id by lia. done.
  - destruct (Z.ltb_spec 0 (len (dec_digits d) + x)); cbn [nm_int nm_frac nm_exp].
    + rewrite take_drop, Hp. cbn [default]. f_equal. pose proof (len_take_drop (len (dec_digits d) + x) (dec_digits d) ltac:(lia)). lia.
    + change ([to_byte 48]) with (replicate 1 (to_byte 48)). rewrite app_assoc.
      unfold zeros. rewrite <-replicate_add, parse_digits_app, parse_digits_zeros. cbn [mbind option_bind]. rewrite Z.mul_0_l, Hp. cbn [default].
      f_equal. rewrite len_app. unfold len at 1. rewrite length_replicate. lia.
Qed.
Lemma number_e_value s d x : 0 <= d -> Z.abs (x + len (dec_digits d) - 1) <= 10000 -> number_value (number_e s d x) = (d, x).
Proof.
  intros Hd Hx. destruct (dec_digits_spec d Hd) as (Hp & _ & Hl & _). unfold number_e, number_value. cbn [nm_int nm_frac nm_exp].
  rewrite take_drop, Hp. cbn [default]. set (ex := x + len (dec_digits d) - 1) in *.
  destruct (dec_digits_spec (Z.abs ex) ltac:(lia)) as (Hpe & _). rewrite (exp_value_digits _ 0 _ Hpe) by lia.
  pose proof (len_take_drop 1 (dec_digits d) ltac:(lia)) as [_ Hdr]. change (Z.to_nat 1) with 1%nat in Hdr. rewrite Hdr.
  f_equal. destruct (Z.ltb_spec ex 0); unfold ex in *; lia.
Qed.
Lemma number_f_wf s d x : 0 < d \/ (d = 0 /\ x = 0) -> number_wf (number_f s d x).
Proof.
  intros Hd. destruct (dec_digits_spec d ltac:(lia)) as (Hp & Ha & Hl & c & ds & Hc & Hcr & Hpos). unfold number_f.
  assert (forall c', of_byte (digit_char c) = 48 -> 0 < d -> c' = c -> False) as Hz.
  { intros c' H48 H0 _. specialize (Hpos H0). rewrite of_digit in H48 by lia. lia. }
  destruct (Z.leb_spec 0 x) as [Hx|Hx]; [|destruct (Z.ltb_spec 0 (len (dec_digits d) + x)) as [Hk|Hk]];
    unfold number_wf; cbn [nm_int nm_frac nm_exp]; (split; [|split; [|split; [|done]]]).
  - apply Forall_app; split; [done|apply zeros_all].
  - constructor.
  - rewrite Hc. eexists _, _. split; [done|]. intros H48. destruct Hd as [Hd|[-> ->]]; [destruct (Hz c H48 Hd eq_refl)|].
    revert Hc. vm_compute (dec_digits 0). intros [= _ <-]. done.
  - by apply Forall_take.
  - by apply Forall_drop.
  - rewrite Hc. destruct (Z.to_nat (len (digit_char c :: ds) + x)) as [|n] eqn:Hn; [rewrite <-Hc in Hn; lia|].
    cbn [take]. eexists _, _. split; [done|]. intros H48. destruct Hd as [Hd|[-> ->]]; [destruct (Hz c H48 Hd eq_refl)|lia].
  - by repeat constructor.
  - apply Forall_app; split; [apply zeros_all|done].
  - by eexists _, _.
Qed.
Lemma number_e_wf s d x : 0 < d -> number_wf (number_e s d x).
Proof.
  intros Hd. destruct (dec_digits_spec d ltac:(lia)) as (Hp & Ha & Hl & c & ds & Hc & Hcr & Hpos). unfold number_e, number_wf. cbn [nm_int nm_frac nm_exp].
  destruct (dec_digits_spec (Z.abs (x + len (dec_digits d) - 1)) ltac:(lia)) as (_ & Hae & Hle & _).
  split_and!; [by apply Forall_take|by apply Forall_drop| | |done].
  - rewrite Hc. cbn [take]. by eexists _, _.
  - intros He. rewrite He in Hle. unfold len in Hle. cbn in Hle. lia.
Qed.

(** Exponents stay far below the bound of [exp_value]. *)
Lemma strip_zeros_bounds fuel : forall d x, 0 <= d ->
  let '(d', x') := strip_zeros fuel d x in d' <= d /\ x <= x' <= x + Z.of_nat fuel.
Proof.
  induction fuel as [|fuel IH]; intros d x Hd; cbn [strip_zeros]; [lia|]. destruct (d mod 10 =? 0); [|lia].
  pose proof (Z.div_le_upper_bound d 10 d ltac:(lia) ltac:(lia)). specialize (IH (d / 10) (x + 1) ltac:(apply Z.div_pos; lia)).
  destruct (strip_zeros fuel (d / 10) (x + 1)). lia.
Qed.
Definition float_range (m : positive) (e : Z) : Prop := Zpos m < 2 ^ 53 /\ -1074 <= e <= 971.
Lemma exact_decimal_bounds m e : float_range m e -> let '(d, x) := exact_decimal m e in 0 < d < 2 ^ 3275 /\ -1074 <= x <= 0.
Proof.
  intros [Hm He]. unfold exact_decimal. destruct (Z.leb_spec 0 e) as [H0|H0].
  - pose proof (Z.pow_pos_nonneg 2 e ltac:(lia) H0). split; [split; [nia|]|lia].
    apply Z.lt_le_trans with (2 ^ 53 * 2 ^ e); [by apply Z.mul_lt_mono_pos_r|].
    rewrite <-Z.pow_add_r by lia. apply Z.pow_le_mono_r; lia.
  - pose proof (Z.pow_pos_nonneg 5 (- e) ltac:(lia) ltac:(lia)). split; [split; [nia|]|lia].
    apply Z.lt_le_trans with (2 ^ 53 * 5 ^ (- e)); [by apply Z.mul_lt_mono_pos_r|].
    apply Z.le_trans with (2 ^ 53 * (2 ^ 3) ^ (- e)).
    + apply Z.mul_le_mono_nonneg_l; [lia|]. apply Z.pow_le_mono_l. lia.
    + rewrite <-Z.pow_mul_r, <-Z.pow_add_r by lia. apply Z.pow_le_mono_r; lia.
Qed.
Lemma dec_digits_len d k : 0 <= d -> 0 <= k -> d < 2 ^ k -> len (dec_digits d) <= Z.max 1 k.
Proof.
  intros Hd Hk Hlt. destruct (dec_digits_spec d Hd) as (_ & _ & Hl & _).
  destruct (decide (d = 0)) as [->|]; [change (Z.log2 0) with 0 in Hl; lia|].
  pose proof (Z.log2_lt_pow2 d k ltac:(lia)) as [H _]. specialize (H Hlt). lia.
Qed.
Lemma shortest_bounds prec emax s m e : float_range m e ->
  let '(d, x) := shortest prec emax s m e in Z.abs (x + len (dec_digits d) - 1) <= 10000.
Proof.
  intros Hr. unfold shortest. pose proof (exact_decimal_bounds m e Hr) as Hb. destruct (exact_decimal m e) as [d x].
  destruct Hb as [[Hd Hu] Hx]. pose proof (dec_digits_len d 3275 ltac:(lia) ltac:(lia) Hu) as Hn.
  pose proof (dec_digits_spec d ltac:(lia)) as (_ & _ & Hl & _).
  assert (forall c k, 0 <= c <= d + 1 -> 0 <= k <= len (dec_digits d) ->
    let '(d', x') := strip_zeros (length (dec_digits d)) c (x + k) in Z.abs (x' + len (dec_digits d') - 1) <= 10000) as Hs.
  { intros c k Hc Hk. pose proof (strip_zeros_bounds (length (dec_digits d)) c (x + k) ltac:(lia)) as Hsb.
    pose proof (strip_zeros_nonneg (length (dec_digits d)) c (x + k) ltac:(lia)) as Hsn.
    destruct (strip_zeros _ c _) as [d' x']. cbn [fst] in Hsn.
    assert (2 ^ 3276 = 2 * 2 ^ 3275) as H2 by (change 3276 with (Z.succ 3275); rewrite Z.pow_succ_r; lia).
    pose proof (dec_digits_len d' 3276 Hsn ltac:(lia) ltac:(lia)) as Hd'. pose proof (dec_digits_spec d' Hsn) as (_ & _ & Hl' & _).
    unfold len in Hn, Hk, Hl. lia. }
  assert (forall drop, (drop <= length (dec_digits d) - 1)%nat -> let '(d', x') := shortest_loop prec emax s m e d x drop in
    Z.abs (x' + len (dec_digits d') - 1) <= 10000) as Hloop; [|by apply Hloop].
  induction drop as [|drop IH]; intros Hdr; cbn [shortest_loop].
  - specialize (Hs d 0 ltac:(lia) ltac:(lia)). by rewrite Z.add_0_r in Hs.
  - destruct (shortest_at prec emax s m e d x (Z.of_nat (S drop))) as [[d' x']|] eqn:Hat; [|apply IH; lia].
    unfold shortest_at in Hat. set (k := Z.of_nat (S drop)) in *.
    pose proof (Z.pow_pos_nonneg 10 k ltac:(lia) ltac:(lia)) as Hp.
    assert (0 <= d / 10 ^ k <= d) as Hq by (split; [apply Z.div_pos; lia|apply Z.div_le_upper_bound; nia]).
    pose proof (Hs (d / 10 ^ k) k ltac:(lia) ltac:(unfold len, k; lia)) as H1.
    pose proof (Hs (d / 10 ^ k + 1) k ltac:(lia) ltac:(unfold len, k; lia)) as H2.
    destruct (strip_zeros _ (d / 10 ^ k) _) as [d1 x1], (strip_zeros _ (d / 10 ^ k + 1) _) as [d2 x2].
    repeat case_match; by simplify_eq.
Qed.

(** Every finite float reads back from the literal written for it. *)
Lemma bounded_range prec emax m e : prec <= 53 -> emax <= 1024 -> 0 < prec -> 3 - emax - prec >= -1074 -> emax - prec <= 971 ->
  bounded prec emax m e = true -> float_range m e.
Proof.
  intros Hp Hem H0 Hmin Hmax. unfold bounded, canonical_mantissa, fexp, emin. rewrite andb_true_iff, Z.eqb_eq, Z.leb_le. intros [Hf He].
  split; [|lia]. pose proof (digits2_upper m). eapply Z.lt_le_trans; [done|]. apply Z.pow_le_mono_r; lia.
Qed.
Definition known_format (prec emax : Z) : Prop := (prec = 53 /\ emax = 1024) \/ (prec = 24 /\ emax = 128).
Lemma ParseFloat_number prec emax f : known_format prec emax -> valid_binary prec emax f = true ->
  match f with S754_infinity _ | S754_nan => float_number prec emax f = None
  | _ => exists n, float_number prec emax f = Some n /\ number_wf n /\ ParseFloat prec emax n = Some f end.
Proof.
  intros Hk Hv. destruct f as [s|s| |s m e]; cbn [valid_binary float_number] in *; try done.
  - eexists. split; [done|]. split; [apply number_f_wf; by right|]. unfold ParseFloat. by rewrite number_f_value by done.
  - assert (float_range m e) as Hr by (eapply bounded_range; [..|exact Hv]; destruct Hk as [[-> ->]|[-> ->]]; lia).
    pose proof (shortest_spec prec emax s m e Hv) as Hs. pose proof (shortest_bounds prec emax s m e Hr) as Hb.
    destruct (shortest prec emax s m e) as [d x]. destruct Hs as [Hd Hrd].
    eexists. split; [done|]. unfold ParseFloat. destruct (_ || _).
    + split; [by apply number_e_wf|]. rewrite number_e_value by (done || lia). cbn [nm_neg number_e]. by rewrite Hrd.
    + split; [apply number_f_wf; by left|]. rewrite number_f_value by lia.
      assert (nm_neg (number_f s d x) = s) as -> by (unfold number_f; by repeat case_match).
      destruct (Z.leb_spec 0 x); [|by rewrite Hrd].
      assert (round_decimal prec emax s (d * 10 ^ x) 0 = S754_finite s m e) as ->; [|done].
      rewrite <-Hrd. unfold round_decimal. pose proof (Z.pow_pos_nonneg 10 x ltac:(lia) ltac:(lia)).
      rewrite (proj2 (Z.eqb_neq (d * 10 ^ x) 0)), (proj2 (Z.eqb_neq d 0)) by nia. cbn [Z.leb Z.compare].
      rewrite (proj2 (Z.leb_le 0 x)) by lia. by rewrite Z.pow_0_r, Z.mul_1_r.
Qed.
