(* ===== verification/Json.v ===== *)
(** * JSON values

    The values a document holds, and [encoding/json] as the SDK uses it: marshalling an
    object, a clock and a knowledge vector, and reading them back.  [JsonLaws] states the
    round trips the package documents, on values JSON can carry: finite numbers, strings of
    valid UTF-8, no Go integers and no slices of other types.  The package's text is file JsonText, and
    file JsonCodec the instance of the two classes. *)
From S2P Require Import Prelude BigEndian Float Hlc KnowledgeVector.
Local Open Scope Z_scope.

(** What an [any] of a document holds: what [json.Unmarshal] produces (an object by its
    fields in key order), a [[]float32], a [[]byte], an [int] or an [int64]. *)
Inductive value :=
| VNull | VBool (b : bool) | VNum (f : float) | VStr (s : string) | VArr (l : list value)
| VObj (fields : list (string * value)) | VF32s (l : list Z) | VBytes (b : bytes) | VInt (n : Z).
Abbreviation object := (gmap string value).

(** [utf8.Valid] *)
Definition cont_byte (lo hi : Z) (c : Ascii.ascii) : bool := (lo <=? of_byte c) && (of_byte c <=? hi).
Fixpoint valid_utf8 (b : bytes) : bool :=
  match b with
  | [] => true
  | c :: b =>
      let v := of_byte c in
      if v <? 128 then valid_utf8 b else
      match b with
      | [] => false
      | c1 :: b =>
          if (194 <=? v) && (v <=? 223) then cont_byte 128 191 c1 && valid_utf8 b else
          match b with
          | [] => false
          | c2 :: b =>
              if (224 <=? v) && (v <=? 239) then
                cont_byte (if v =? 224 then 160 else 128) (if v =? 237 then 159 else 191) c1 &&
                cont_byte 128 191 c2 && valid_utf8 b
              else
                match b with
                | [] => false
                | c3 :: b =>
                    (240 <=? v) && (v <=? 244) &&
                    cont_byte (if v =? 240 then 144 else 128) (if v =? 244 then 143 else 191) c1 &&
                    cont_byte 128 191 c2 && cont_byte 128 191 c3 && valid_utf8 b
                end
          end
      end
  end.
Definition json_string (s : string) : bool := valid_utf8 (str_bytes s).

(** The values that survive a round trip. *)
Definition finite_f64 (f : float) : bool :=
  match f with S754_infinity _ | S754_nan => false | _ => true end && valid_binary 53 1024 f.
Fixpoint keys_sorted (l : list string) : bool :=
  match l with
  | [] => true
  | k1 :: l => match l with k2 :: _ => str_ltb k1 k2 | [] => true end && keys_sorted l
  end.
(** How deep arrays and objects nest; the decoder stops at 10000. *)
Fixpoint depth (v : value) : Z :=
  match v with
  | VArr l => 1 + foldr Z.max 0 (map depth l)
  | VObj fields => 1 + foldr Z.max 0 (map (fun p => depth p.2) fields)
  | _ => 0
  end.
Fixpoint json_value (v : value) : bool :=
  match v with
  | VNull | VBool _ => true
  | VNum f => finite_f64 f
  | VStr s => json_string s
  | VArr l => forallb json_value l
  | VObj fields => forallb (fun p => json_string p.1 && json_value p.2) fields && keys_sorted (map fst fields)
  | VF32s _ | VBytes _ | VInt _ => false
  end.
Definition json_object (m : object) : Prop := map_Forall (fun k v => json_string k = true /\ json_value v = true /\ depth v < 10000) m.

Class Json := {
  (** [json.Marshal] of a map; [None] is an error *)
  MarshalObj : object -> option bytes;
  (** [json.Unmarshal] into a nil map *)
  UnmarshalObj : bytes -> option object;
  MarshalHLC : HLC -> bytes;
  UnmarshalHLC : bytes -> option HLC;
  MarshalKV : gmap string HLC -> bytes;
  UnmarshalKV : bytes -> option (gmap string HLC)
}.
Class JsonLaws `{Json} : Prop := {
  Obj_roundtrip m : json_object m -> exists b, MarshalObj m = Some b /\ b <> [] /\ UnmarshalObj b = Some m;
  HLC_json_roundtrip c : hlc_ok c -> UnmarshalHLC (MarshalHLC c) = Some c;
  KV_json_roundtrip kv : map_Forall (fun n c => json_string n = true /\ hlc_ok c) kv -> UnmarshalKV (MarshalKV kv) = Some kv
}.

(** ** Equality *)

Section value_ind.
Variable P : value -> Prop.
Hypotheses (Hnull : P VNull) (Hbool : forall b, P (VBool b)) (Hnum : forall f, P (VNum f)) (Hstr : forall s, P (VStr s))
  (Harr : forall l, Forall P l -> P (VArr l)) (Hobj : forall fields, Forall (fun f => P f.2) fields -> P (VObj fields))
  (Hf32s : forall l, P (VF32s l)) (Hbytes : forall b, P (VBytes b)) (Hint : forall n, P (VInt n)).
Fixpoint value_nested_ind (v : value) : P v :=
  match v with
  | VNull => Hnull | VBool b => Hbool b | VNum f => Hnum f | VStr s => Hstr s | VF32s l => Hf32s l | VBytes b => Hbytes b | VInt n => Hint n
  | VArr l => Harr l ((fix go l := match l return Forall P l with
      [] => Forall_nil_2 _ | v :: l => Forall_cons_2 _ _ _ (value_nested_ind v) (go l) end) l)
  | VObj fs => Hobj fs ((fix go fs := match fs return Forall (fun f => P f.2) fs with
      [] => Forall_nil_2 _ | f :: fs => Forall_cons_2 _ _ _ (value_nested_ind f.2) (go fs) end) fs)
  end.
End value_ind.

Section equality.
Abbreviation leaf := (bool + float + string + list Z + bytes)%type.
Fixpoint value_tree (v : value) : gen_tree leaf :=
  match v with
  | VNull => GenNode 0 []
  | VBool b => GenLeaf (inl (inl (inl (inl b))))
  | VNum f => GenLeaf (inl (inl (inl (inr f))))
  | VStr s => GenLeaf (inl (inl (inr s)))
  | VF32s l => GenLeaf (inl (inr l))
  | VBytes b => GenLeaf (inr b)
  | VInt n => GenNode 4 [GenLeaf (inl (inr [n]))]
  | VArr l => GenNode 1 (map value_tree l)
  | VObj fields => GenNode 2 (map (fun p => GenNode 3 [GenLeaf (inl (inl (inr p.1))); value_tree p.2]) fields)
  end.
Fixpoint tree_value (t : gen_tree leaf) : value :=
  match t with
  | GenLeaf (inl (inl (inl (inl b)))) => VBool b
  | GenLeaf (inl (inl (inl (inr f)))) => VNum f
  | GenLeaf (inl (inl (inr s))) => VStr s
  | GenLeaf (inl (inr l)) => VF32s l
  | GenLeaf (inr b) => VBytes b
  | GenNode 1 l => VArr (map tree_value l)
  | GenNode 2 l => VObj (map (fun t => match t with GenNode _ [GenLeaf (inl (inl (inr k))); t] => (k, tree_value t) | _ => ("", VNull) end) l)
  | GenNode 4 [GenLeaf (inl (inr [n]))] => VInt n
  | GenNode _ _ => VNull
  end.
Fixpoint tree_value_tree (v : value) : tree_value (value_tree v) = v.
Proof.
  destruct v as [| | | |l|fields| | |]; cbn [value_tree tree_value]; try reflexivity; f_equal.
  - induction l as [|v l IH]; cbn; [done|]. by rewrite tree_value_tree, IH.
  - induction fields as [|[k v] fields IH]; cbn; [done|]. by rewrite tree_value_tree, IH.
Qed.
End equality.

#[export] Instance value_inj : Inj (=) (=) value_tree.
Proof. intros x y He. rewrite <-(tree_value_tree x), <-(tree_value_tree y). by rewrite He. Qed.
#[export] Instance value_eq_dec : EqDecision value.
Proof. intros x y. refine (cast_if (decide (value_tree x = value_tree y))); [by apply (inj value_tree)|naive_solver]. Defined.
