(* ===== verification/JsonText.v ===== *)
(** * The text of JSON (encoding/json)

    What [json.Marshal] writes and [json.Unmarshal] reads, as trees: numbers stay literals,
    strings are bytes, an object is its members in order.  The printer escapes as the
    package does (HTML characters too); the parser accepts the package's grammar, white
    space included, and stops at its nesting depth of 10000. *)
From S2P Require Import Prelude BigEndian Float Crypto Strconv Json.
Local Open Scope Z_scope.

Inductive jtree :=
| JNull | JBool (b : bool) | JNum (n : number) | JStr (s : bytes) | JArr (l : list jtree)
| JObj (fields : list (bytes * jtree)).

Section jtree_ind.
Variable P : jtree -> Prop.
Hypotheses (Hnull : P JNull) (Hbool : forall b, P (JBool b)) (Hnum : forall n, P (JNum n)) (Hstr : forall s, P (JStr s))
  (Harr : forall l, Forall P l -> P (JArr l)) (Hobj : forall fields, Forall (fun f => P f.2) fields -> P (JObj fields)).
Fixpoint jtree_nested_ind (t : jtree) : P t :=
  match t with
  | JNull => Hnull | JBool b => Hbool b | JNum n => Hnum n | JStr s => Hstr s
  | JArr l => Harr l ((fix go l := match l return Forall P l with
      [] => Forall_nil_2 _ | t :: l => Forall_cons_2 _ _ _ (jtree_nested_ind t) (go l) end) l)
  | JObj fs => Hobj fs ((fix go fs := match fs return Forall (fun f => P f.2) fs with
      [] => Forall_nil_2 _ | f :: fs => Forall_cons_2 _ _ _ (jtree_nested_ind f.2) (go fs) end) fs)
  end.
End jtree_ind.

(** ** Strings *)

(** [utf8.DecodeRune]: the length of the encoding a text begins with; none when it begins
    with no valid one. *)
Definition DecodeRune (b : bytes) : option nat :=
  match b with
  | [] => None
  | c :: b =>
      let v := of_byte c in
      if v <? 128 then Some 1%nat else
      match b with
      | [] => None
      | c1 :: b =>
          if (194 <=? v) && (v <=? 223) then (if cont_byte 128 191 c1 then Some 2%nat else None) else
          match b with
          | [] => None
          | c2 :: b =>
              if (224 <=? v) && (v <=? 239) then
                (if cont_byte (if v =? 224 then 160 else 128) (if v =? 237 then 159 else 191) c1 && cont_byte 128 191 c2
                 then Some 3%nat else None)
              else
                match b with
                | [] => None
                | c3 :: _ =>
                    if (240 <=? v) && (v <=? 244) &&
                       cont_byte (if v =? 240 then 144 else 128) (if v =? 244 then 143 else 191) c1 &&
                       cont_byte 128 191 c2 && cont_byte 128 191 c3
                    then Some 4%nat else None
                end
          end
      end
  end.
(** [utf8.EncodeRune] of a code point; a surrogate becomes U+FFFD. *)
Definition rune_error : bytes := to_byte <$> [239; 191; 189].
Definition EncodeRune (cp : Z) : bytes :=
  if cp <? 128 then [to_byte cp]
  else if cp <? 2048 then [to_byte (192 + cp / 64); to_byte (128 + cp mod 64)]
  else if (55296 <=? cp) && (cp <=? 57343) then rune_error
  else if cp <? 65536 then [to_byte (224 + cp / 4096); to_byte (128 + cp / 64 mod 64); to_byte (128 + cp mod 64)]
  else [to_byte (240 + cp / 262144); to_byte (128 + cp / 4096 mod 64); to_byte (128 + cp / 64 mod 64); to_byte (128 + cp mod 64)].

Definition backslash_u (v : Z) : bytes :=
  to_byte 92 :: to_byte 117 :: concat ((fun k => [hex_digit (v / k mod 16)]) <$> [4096; 256; 16; 1]).
(** A character below 128. *)
Definition escape_char (c : Ascii.ascii) : bytes :=
  let v := of_byte c in
  if (v =? 34) || (v =? 92) then [to_byte 92; c]
  else if v =? 8 then str_bytes "\b" else if v =? 12 then str_bytes "\f" else if v =? 10 then str_bytes "\n"
  else if v =? 13 then str_bytes "\r" else if v =? 9 then str_bytes "\t"
  else if (v <? 32) || (v =? 60) || (v =? 62) || (v =? 38) then backslash_u v
  else [c].
(** [appendString]; a text has no more characters than bytes. *)
Fixpoint escape (fuel : nat) (b : bytes) : bytes :=
  match fuel, b with
  | S fuel, c :: b' =>
      if of_byte c <? 128 then escape_char c ++ escape fuel b' else
      match DecodeRune b with
      | None => backslash_u 65533 ++ escape fuel b'
      | Some n =>
          (if bool_decide (take n b = EncodeRune 8232) then backslash_u 8232
           else if bool_decide (take n b = EncodeRune 8233) then backslash_u 8233 else take n b) ++ escape fuel (drop n b)
      end
  | _, _ => []
  end.
Definition print_string (s : bytes) : bytes := to_byte 34 :: escape (length s) s ++ [to_byte 34].

Definition hex_value (c : Ascii.ascii) : option Z :=
  let v := of_byte c in
  if (48 <=? v) && (v <=? 57) then Some (v - 48)
  else if (97 <=? v) && (v <=? 102) then Some (v - 87)
  else if (65 <=? v) && (v <=? 70) then Some (v - 55) else None.
(** [getu4]: an escape of four hexadecimal digits, and what follows it. *)
Definition getu4 (b : bytes) : option (Z * bytes) :=
  match b with
  | c :: u :: h1 :: h2 :: h3 :: h4 :: b =>
      if (of_byte c =? 92) && (of_byte u =? 117) then
        v1 ← hex_value h1; v2 ← hex_value h2; v3 ← hex_value h3; v4 ← hex_value h4;
        Some (v1 * 4096 + v2 * 256 + v3 * 16 + v4, b)
      else None
  | _ => None
  end.
(** What a string's text goes on with: its end, a character, or what no string has. *)
Inductive str_item := SEnd (rest : bytes) | SChar (out rest : bytes) | SBad.
Definition str_step (b : bytes) : str_item :=
  match b with
  | [] => SBad
  | c :: b' =>
      let v := of_byte c in
      if v =? 34 then SEnd b'
      else if v <? 32 then SBad
      else if v =? 92 then
        match b' with
        | [] => SBad
        | e :: b'' =>
            let w := of_byte e in
            if (w =? 34) || (w =? 92) || (w =? 47) then SChar [e] b''
            else if w =? 98 then SChar [to_byte 8] b'' else if w =? 102 then SChar [to_byte 12] b''
            else if w =? 110 then SChar [to_byte 10] b'' else if w =? 114 then SChar [to_byte 13] b''
            else if w =? 116 then SChar [to_byte 9] b''
            else
              match getu4 b with
              | None => SBad
              | Some (rr, rest) =>
                  if (55296 <=? rr) && (rr <=? 57343) then
                    match getu4 rest with
                    | Some (rr1, rest1) =>
                        if (rr <? 56320) && (56320 <=? rr1) && (rr1 <=? 57343)
                        then SChar (EncodeRune (65536 + (rr - 55296) * 1024 + (rr1 - 56320))) rest1
                        else SChar rune_error rest
                    | None => SChar rune_error rest
                    end
                  else SChar (EncodeRune rr) rest
              end
        end
      else if v <? 128 then SChar [c] b'
      else match DecodeRune b with Some n => SChar (take n b) (drop n b) | None => SChar rune_error b' end
  end.
(** After the opening quote: the string, and what follows the closing one. *)
Fixpoint parse_string (fuel : nat) (b : bytes) : option (bytes * bytes) :=
  match fuel with
  | O => None
  | S fuel =>
      match str_step b with
      | SEnd rest => Some ([], rest)
      | SChar out rest => '(s, rest) ← parse_string fuel rest; Some (out ++ s, rest)
      | SBad => None
      end
  end.

(** ** Trees *)

Fixpoint join (sep : bytes) (l : list bytes) : bytes :=
  match l with [] => [] | [x] => x | x :: l => x ++ sep ++ join sep l end.
Fixpoint print_tree (t : jtree) : bytes :=
  match t with
  | JNull => str_bytes "null"
  | JBool b => if b then str_bytes "true" else str_bytes "false"
  | JNum n => print_number n
  | JStr s => print_string s
  | JArr l => to_byte 91 :: join [to_byte 44] (map print_tree l) ++ [to_byte 93]
  | JObj fs => to_byte 123 :: join [to_byte 44] (map (fun f => print_string f.1 ++ to_byte 58 :: print_tree f.2) fs) ++ [to_byte 125]
  end.

Definition is_space (c : Ascii.ascii) : bool :=
  let v := of_byte c in (v =? 32) || (v =? 9) || (v =? 13) || (v =? 10).
Fixpoint skip_space (b : bytes) : bytes :=
  match b with c :: b' => if is_space c then skip_space b' else b | [] => [] end.
Fixpoint strip_prefix (p b : bytes) : option bytes :=
  match p, b with
  | [], _ => Some b
  | x :: p, y :: b => if bool_decide (x = y) then strip_prefix p b else None
  | _ :: _, [] => None
  end.
(** [depth] is how many arrays and objects may still open. *)
Fixpoint parse_value (fuel : nat) (depth : Z) (b : bytes) : option (jtree * bytes) :=
  match fuel with
  | O => None
  | S fuel =>
      match skip_space b with
      | [] => None
      | c :: b' =>
          let v := of_byte c in
          if v =? 123 then
            if depth <=? 0 then None else
            match skip_space b' with
            | c2 :: b2 => if of_byte c2 =? 125 then Some (JObj [], b2)
                          else '(fs, rest) ← parse_members fuel (depth - 1) (c2 :: b2); Some (JObj fs, rest)
            | [] => None
            end
          else if v =? 91 then
            if depth <=? 0 then None else
            match skip_space b' with
            | c2 :: b2 => if of_byte c2 =? 93 then Some (JArr [], b2)
                          else '(l, rest) ← parse_elems fuel (depth - 1) (c2 :: b2); Some (JArr l, rest)
            | [] => None
            end
          else if v =? 34 then '(s, rest) ← parse_string (S (length b')) b'; Some (JStr s, rest)
          else if v =? 110 then rest ← strip_prefix (str_bytes "null") (c :: b'); Some (JNull, rest)
          else if v =? 116 then rest ← strip_prefix (str_bytes "true") (c :: b'); Some (JBool true, rest)
          else if v =? 102 then rest ← strip_prefix (str_bytes "false") (c :: b'); Some (JBool false, rest)
          else '(n, rest) ← scan_number (c :: b'); Some (JNum n, rest)
      end
  end
with parse_elems (fuel : nat) (depth : Z) (b : bytes) : option (list jtree * bytes) :=
  match fuel with
  | O => None
  | S fuel =>
      '(t, b) ← parse_value fuel depth b;
      match skip_space b with
      | c :: b' =>
          if of_byte c =? 44 then '(l, rest) ← parse_elems fuel depth b'; Some (t :: l, rest)
          else if of_byte c =? 93 then Some ([t], b') else None
      | [] => None
      end
  end
with parse_members (fuel : nat) (depth : Z) (b : bytes) : option (list (bytes * jtree) * bytes) :=
  match fuel with
  | O => None
  | S fuel =>
      match skip_space b with
      | [] => None
      | q :: b1 =>
          if of_byte q =? 34 then
            '(k, b2) ← parse_string (S (length b1)) b1;
            match skip_space b2 with
            | colon :: b3 =>
                if of_byte colon =? 58 then
                  '(t, b4) ← parse_value fuel depth b3;
                  match skip_space b4 with
                  | c :: b' =>
                      if of_byte c =? 44 then '(fs, rest) ← parse_members fuel depth b'; Some ((k, t) :: fs, rest)
                      else if of_byte c =? 125 then Some ([(k, t)], b') else None
                  | [] => None
                  end
                else None
            | [] => None
            end
          else None
      end
  end.
(** [maxNestingDepth]; every call of the parser but the literals' consumes a byte. *)
Definition maxNestingDepth : Z := 10000.
Definition Decode (b : bytes) : option (jtree * bytes) := parse_value (S (length b)) maxNestingDepth b.
(** [json.Unmarshal] reads one value and white space; a [json.Decoder] leaves the rest. *)
Definition Unmarshal (b : bytes) : option jtree :=
  '(t, rest) ← Decode b;
  match skip_space rest with [] => Some t | _ => None end.

(** A tree with white space between its tokens: [gap n] starts a line at depth [n], [after]
    follows a colon. *)
Section layout.
Variables (gap : nat -> bytes) (after : bytes).
Fixpoint print_at (n : nat) (t : jtree) : bytes :=
  match t with
  | JArr [] | JObj [] | JNull | JBool _ | JNum _ | JStr _ => print_tree t
  | JArr l => to_byte 91 :: gap (S n) ++ join (to_byte 44 :: gap (S n)) (map (print_at (S n)) l) ++ gap n ++ [to_byte 93]
  | JObj fs =>
      to_byte 123 :: gap (S n) ++
      join (to_byte 44 :: gap (S n)) (map (fun f => print_string f.1 ++ to_byte 58 :: after ++ print_at (S n) f.2) fs) ++ gap n ++ [to_byte 125]
  end.
End layout.
(** [json.MarshalIndent] with no prefix and two spaces. *)
Definition indent_line (n : nat) : bytes := to_byte 10 :: concat (replicate n (str_bytes "  ")).
Definition print_indent (t : jtree) : bytes := print_at indent_line (str_bytes " ") 0 t.

(** ** Strings read back *)

Lemma DecodeRune_valid c b : 128 <= of_byte c -> valid_utf8 (c :: b) = true ->
  exists n, DecodeRune (c :: b) = Some n /\ (2 <= n <= length (c :: b))%nat /\ valid_utf8 (drop n (c :: b)) = true.
Proof.
  intros Hc. cbn [valid_utf8 DecodeRune]. rewrite (proj2 (Z.ltb_ge (of_byte c) 128)) by lia.
  destruct b as [|c1 b]; [done|]. destruct ((194 <=? of_byte c) && (of_byte c <=? 223)).
  { rewrite andb_true_iff. intros [-> Hv]. exists 2%nat. cbn [drop length]. split_and!; (done || lia). }
  destruct b as [|c2 b]; [done|]. destruct ((224 <=? of_byte c) && (of_byte c <=? 239)).
  { rewrite !andb_true_iff. intros [[-> ->] Hv]. exists 3%nat. cbn [drop length]. split_and!; (done || lia). }
  destruct b as [|c3 b]; [done|]. rewrite !andb_true_iff. intros [[[[[-> ->] ->] ->] ->] Hv].
  exists 4%nat. cbn [drop length]. split_and!; (done || lia).
Qed.
(** A valid encoding stays one whatever follows. *)
Lemma DecodeRune_app b n more : DecodeRune b = Some n -> DecodeRune (take n b ++ more) = Some n /\ (0 < n)%nat.
Proof.
  destruct b as [|c b]; [done|]. cbn [DecodeRune]. destruct (of_byte c <? 128) eqn:Hc.
  { intros [= <-]. cbn [take app DecodeRune]. rewrite Hc. split; [done|lia]. }
  destruct b as [|c1 b]; [done|]. destruct ((194 <=? of_byte c) && (of_byte c <=? 223)) eqn:H2.
  { destruct (cont_byte 128 191 c1) eqn:C1; [|done]. intros [= <-]. cbn [take app DecodeRune]. rewrite Hc, H2, C1. split; [done|lia]. }
  destruct b as [|c2 b]; [done|]. destruct ((224 <=? of_byte c) && (of_byte c <=? 239)) eqn:H3.
  { destruct (cont_byte _ _ c1 && _) eqn:C1; [|done]. intros [= <-]. cbn [take app DecodeRune]. rewrite Hc, H2, H3, C1. split; [done|lia]. }
  destruct b as [|c3 b]; [done|]. destruct (_ && cont_byte 128 191 c3) eqn:C1; [|done].
  intros [= <-]. cbn [take app DecodeRune]. rewrite Hc, H2, H3, C1. split; [done|lia].
Qed.
Lemma str_step_escape c more : of_byte c < 128 -> str_step (escape_char c ++ more) = SChar [c] more.
Proof. intros Hc. destruct c as [[] [] [] [] [] [] [] []]; try reflexivity; exfalso; revert Hc; vm_compute; done. Qed.
Lemma str_step_rune b n more : 128 <= match b with c :: _ => of_byte c | [] => 0 end -> DecodeRune b = Some n ->
  str_step (take n b ++ more) = SChar (take n b) more.
Proof.
  intros Hc Hd. destruct (DecodeRune_app b n more Hd) as [Ha Hn]. destruct b as [|c b]; [done|].
  destruct n as [|n]; [lia|]. cbn [take app] in *. unfold str_step.
  rewrite (proj2 (Z.eqb_neq (of_byte c) 34)), (proj2 (Z.ltb_ge (of_byte c) 32)), (proj2 (Z.eqb_neq (of_byte c) 92)), (proj2 (Z.ltb_ge (of_byte c) 128)) by lia.
  rewrite Ha. assert (length (take n b) = n) as Hl.
  { destruct (decide (n <= length b)%nat); [by rewrite length_take_le|]. exfalso.
    rewrite <-(app_nil_r (c :: b)) in Hd.
    assert (forall b n, DecodeRune b = Some n -> (n <= length b)%nat) as Hlen; [|apply Hlen in Hd; rewrite app_nil_r in Hd; cbn in Hd; lia].
    clear. intros b n. destruct b as [|c b]; [done|]. cbn [DecodeRune]. repeat case_match; intros [= <-]; cbn; lia. }
  f_equal.
  - change (c :: take n b ++ more) with ((c :: take n b) ++ more). rewrite <-Hl at 1.
    change (S (length (take n b))) with (length (c :: take n b)). by rewrite take_app_length.
  - change (c :: take n b ++ more) with ((c :: take n b) ++ more). rewrite <-Hl at 1.
    change (S (length (take n b))) with (length (c :: take n b)). by rewrite drop_app_length.
Qed.
Lemma str_step_backslash_u v more : v = 8232 \/ v = 8233 -> str_step (backslash_u v ++ more) = SChar (EncodeRune v) more.
Proof. intros [-> | ->]; reflexivity. Qed.

Lemma escape_char_length c : (1 <= length (escape_char c))%nat.
Proof. destruct c as [[] [] [] [] [] [] [] []]; vm_compute; lia. Qed.
(** A valid text, its first character and how that one is written. *)
Lemma escape_step b : valid_utf8 b = true -> b <> [] ->
  exists head tail text, b = head ++ tail /\ (0 < length head <= length text)%nat /\ valid_utf8 tail = true /\
    (forall more, str_step (text ++ more) = SChar head more) /\ (forall fuel, escape (S fuel) b = text ++ escape fuel tail).
Proof.
  intros Hv Hne. destruct b as [|c b]; [done|]. destruct (Z.lt_ge_cases (of_byte c) 128) as [Hc|Hc].
  - exists [c], b, (escape_char c). cbn [escape]. rewrite (proj2 (Z.ltb_lt _ _) Hc). split_and!; try done.
    + cbn [length]. lia.
    + apply escape_char_length.
    + cbn [valid_utf8] in Hv. by rewrite (proj2 (Z.ltb_lt _ _) Hc) in Hv.
    + intros more. by apply str_step_escape.
  - destruct (DecodeRune_valid c b Hc Hv) as (n & Hd & Hn & Ht).
    set (text := if bool_decide (take n (c :: b) = EncodeRune 8232) then backslash_u 8232
           else if bool_decide (take n (c :: b) = EncodeRune 8233) then backslash_u 8233 else take n (c :: b)).
    assert (forall fuel, escape (S fuel) (c :: b) = text ++ escape fuel (drop n (c :: b))) as He.
    { intros fuel. cbn [escape]. rewrite (proj2 (Z.ltb_ge _ _) Hc), Hd. done. }
    exists (take n (c :: b)), (drop n (c :: b)), text. split_and!; try done.
    + by rewrite take_drop.
    + rewrite length_take. cbn [length] in *. lia.
    + unfold text. case_bool_decide as H1; [rewrite H1; vm_compute; lia|]. case_bool_decide as H2; [rewrite H2; vm_compute; lia|done].
    + intros more. unfold text. case_bool_decide as H1; [rewrite H1; apply str_step_backslash_u; by left|].
      case_bool_decide as H2; [rewrite H2; apply str_step_backslash_u; by right|]. by apply str_step_rune.
Qed.
Lemma escape_length b : valid_utf8 b = true -> forall fuel, (length b <= fuel)%nat -> (length b <= length (escape fuel b))%nat.
Proof.
  induction b as [b IH] using (induction_ltof1 _ (@length _)); unfold ltof in IH. intros Hv fuel Hf.
  destruct (decide (b = [])) as [->|Hne]; [cbn; lia|]. destruct fuel as [|fuel]; [destruct b; [done|cbn in Hf; lia]|].
  destruct (escape_step b Hv Hne) as (head & tail & text & -> & Hl & Ht & _ & ->). rewrite !length_app in *.
  specialize (IH tail ltac:(lia) Ht fuel ltac:(lia)). lia.
Qed.
Lemma parse_escape b : valid_utf8 b = true -> forall f1 f2 more, (length b <= f1)%nat -> (length b < f2)%nat ->
  parse_string f2 (escape f1 b ++ to_byte 34 :: more) = Some (b, more).
Proof.
  induction b as [b IH] using (induction_ltof1 _ (@length _)); unfold ltof in IH. intros Hv f1 f2 more H1 H2.
  destruct f2 as [|f2]; [lia|]. destruct (decide (b = [])) as [->|Hne]; [by destruct f1|].
  destruct f1 as [|f1]; [destruct b; [done|cbn in H1; lia]|].
  destruct (escape_step b Hv Hne) as (head & tail & text & -> & Hl & Ht & Hs & He). rewrite length_app in *.
  cbn [parse_string]. rewrite He, <-app_assoc, Hs. rewrite (IH tail) by (done || lia). done.
Qed.
Lemma parse_print_string s more : valid_utf8 s = true ->
  exists b, print_string s ++ more = to_byte 34 :: b /\ parse_string (S (length b)) b = Some (s, more).
Proof.
  intros Hv. exists (escape (length s) s ++ to_byte 34 :: more). unfold print_string. cbn [app]. rewrite <-app_assoc. split; [done|].
  apply parse_escape; [done..|]. rewrite length_app. pose proof (escape_length s Hv (length s) ltac:(done)). lia.
Qed.

(** ** Trees read back *)

Fixpoint tree_ok (t : jtree) : Prop :=
  match t with
  | JNum n => number_wf n
  | JStr s => valid_utf8 s = true
  | JArr l => foldr and True (map tree_ok l)
  | JObj fs => foldr and True (map (fun f => valid_utf8 f.1 = true /\ tree_ok f.2) fs)
  | _ => True
  end.
Fixpoint tree_depth (t : jtree) : Z :=
  match t with
  | JArr l => 1 + foldr Z.max 0 (map tree_depth l)
  | JObj fs => 1 + foldr Z.max 0 (map (fun f => tree_depth f.2) fs)
  | _ => 0
  end.
Lemma skip_space_id c b : is_space c = false -> skip_space (c :: b) = c :: b.
Proof. cbn [skip_space]. by intros ->. Qed.
Lemma digit_not_space c : is_digit c = true -> is_space c = false /\ of_byte c <> 93.
Proof. unfold is_digit, is_space. lia. Qed.
Lemma print_number_head n : number_wf n -> exists c b, print_number n = c :: b /\ (is_digit c = true \/ of_byte c = 45).
Proof.
  destruct n as [neg int frac e]. unfold number_wf, print_number. cbn [nm_neg nm_int]. intros (Ha & _ & (c & ds & -> & _) & _).
  destruct neg; cbn [app]; eexists _, _; (split; [done|]); [by right|left; by inversion Ha].
Qed.
Lemma print_tree_head t : tree_ok t -> exists c b, print_tree t = c :: b /\ is_space c = false /\ of_byte c <> 93.
Proof.
  destruct t as [|[]|n|s|l|fs]; cbn [print_tree tree_ok]; intros Hok; try (by eexists _, _).
  destruct (print_number_head n Hok) as (c & b & -> & [Hc|Hc]); exists c, b; (split; [done|]); [by apply digit_not_space|unfold is_space; lia].
Qed.

(** The texts of a tree, read in the parser's way, whatever its layout. *)
Definition all_space (b : bytes) : Prop := Forall (fun c => is_space c = true) b.
Lemma skip_space_all g b : all_space g -> skip_space (g ++ b) = skip_space b.
Proof. induction 1 as [|c g Hc _ IH]; [done|]. cbn [app skip_space]. by rewrite Hc. Qed.
Lemma delimited_space g b : all_space g -> delimited b -> delimited (g ++ b).
Proof.
  intros Hg Hb. destruct Hg as [|c g Hc _]; [done|]. cbn [app delimited]. unfold is_space, is_digit in *. lia.
Qed.
Lemma parse_value_space fuel d g b : all_space g -> parse_value fuel d (g ++ b) = parse_value fuel d b.
Proof. intros Hg. destruct fuel; [done|]. cbn [parse_value]. by rewrite skip_space_all. Qed.
Lemma parse_elems_space fuel d g b : all_space g -> parse_elems fuel d (g ++ b) = parse_elems fuel d b.
Proof. intros Hg. destruct fuel; [done|]. cbn [parse_elems]. by rewrite parse_value_space. Qed.
Lemma parse_members_space fuel d g b : all_space g -> parse_members fuel d (g ++ b) = parse_members fuel d b.
Proof. intros Hg. destruct fuel; [done|]. cbn [parse_members]. by rewrite skip_space_all. Qed.
Definition print_member (f : bytes * jtree) : bytes := print_string f.1 ++ to_byte 58 :: print_tree f.2.
Lemma foldr_and_Forall {A} (P : A -> Prop) l : foldr and True (map P l) <-> Forall P l.
Proof. induction l as [|x l IH]; cbn; [done|]. rewrite IH, Forall_cons. done. Qed.
Lemma foldr_max_le {A} (f : A -> Z) l x : x ∈ l -> f x <= foldr Z.max 0 (map f l).
Proof. induction 1; cbn; lia. Qed.
Lemma join_cons {A} sep (f : A -> bytes) x y l : join sep (map f (x :: y :: l)) = f x ++ sep ++ join sep (map f (y :: l)).
Proof. done. Qed.

Section layout_reads.
Variables (gap : nat -> bytes) (after : bytes).
Hypotheses (Hgap : forall n, all_space (gap n)) (Hafter : all_space after).
Abbreviation text := (print_at gap after).
Definition reads_at (fuel : nat) (d : Z) (n : nat) (t : jtree) : Prop :=
  forall more, delimited more -> parse_value fuel d (text n t ++ more) = Some (t, more).
Definition member_at (n : nat) (f : bytes * jtree) : bytes := print_string f.1 ++ to_byte 58 :: after ++ text n f.2.
Lemma print_at_head n t : tree_ok t -> exists c b, text n t = c :: b /\ is_space c = false /\ of_byte c <> 93.
Proof. destruct t as [| | | |[|]|[|]]; intros Hok; solve [by apply print_tree_head | by eexists _, _]. Qed.

Lemma parse_elems_at d n l : l <> [] ->
  (forall fuel t, t ∈ l -> (length (text n t) <= fuel)%nat -> reads_at fuel d n t) ->
  forall fuel g more, all_space g -> (length (join (to_byte 44 :: gap n) (map (text n) l)) < fuel)%nat ->
    parse_elems fuel d (join (to_byte 44 :: gap n) (map (text n) l) ++ g ++ to_byte 93 :: more) = Some (l, more).
Proof.
  induction l as [|t l IH]; [done|]. intros _ Hr fuel g more Hg Hf.
  destruct fuel as [|fuel]; [lia|]. destruct l as [|t2 l].
  - cbn [map join parse_elems] in *. rewrite (Hr fuel t ltac:(left) ltac:(lia)) by (apply delimited_space; [done|split_and!; vm_compute; done]).
    cbn [mbind option_bind]. rewrite skip_space_all, skip_space_id by done. rewrite of_to_byte. reflexivity.
  - rewrite join_cons in *. rewrite !length_app in Hf. cbn [length app] in Hf. rewrite <-!app_assoc. cbn [app parse_elems].
    rewrite (Hr fuel t ltac:(left) ltac:(lia)) by (split_and!; vm_compute; done). cbn [mbind option_bind].
    rewrite skip_space_id by reflexivity. rewrite of_to_byte. change (44 mod 256 =? 44) with true. cbn iota.
    rewrite parse_elems_space, IH; [done|done| |done|lia|done]. intros f t' Ht'. apply Hr. by right.
Qed.
(** A member up to its value's end. *)
Lemma parse_member_at fuel d n f c rest : valid_utf8 f.1 = true -> reads_at fuel d n f.2 -> delimited (c :: rest) -> is_space c = false ->
  forall g, all_space g -> parse_members (S fuel) d (member_at n f ++ g ++ c :: rest) =
    (if of_byte c =? 44 then '(fs, rest) ← parse_members fuel d rest; Some (f :: fs, rest)
     else if of_byte c =? 125 then Some ([f], rest) else None).
Proof.
  intros Hk Hr Hd Hc g Hg. destruct f as [k t]. unfold member_at. cbn [fst snd] in *.
  destruct (parse_print_string k (to_byte 58 :: (after ++ text n t) ++ g ++ c :: rest) Hk) as (b1 & He & Hs).
  rewrite <-app_assoc. cbn [app]. rewrite He. cbn [parse_members]. rewrite skip_space_id by reflexivity.
  rewrite of_to_byte. change (34 mod 256 =? 34) with true. cbn iota. rewrite Hs. cbn [mbind option_bind].
  rewrite skip_space_id by reflexivity. rewrite of_to_byte. change (58 mod 256 =? 58) with true. cbn iota.
  rewrite <-app_assoc, parse_value_space by done. rewrite Hr by by apply delimited_space. cbn [mbind option_bind].
  by rewrite skip_space_all, skip_space_id by done.
Qed.
Lemma parse_members_at d n fs : fs <> [] -> Forall (fun f => valid_utf8 f.1 = true) fs ->
  (forall fuel f, f ∈ fs -> (length (text n f.2) <= fuel)%nat -> reads_at fuel d n f.2) ->
  forall fuel g more, all_space g -> (length (join (to_byte 44 :: gap n) (map (member_at n) fs)) < fuel)%nat ->
    parse_members fuel d (join (to_byte 44 :: gap n) (map (member_at n) fs) ++ g ++ to_byte 125 :: more) = Some (fs, more).
Proof.
  induction fs as [|f fs IH]; [done|]. intros _ Hok Hr fuel g more Hg Hf. inversion_clear Hok as [|?? Hk Hok'].
  assert (length (text n f.2) < length (member_at n f))%nat as Hlen by (unfold member_at; rewrite !length_app; cbn [length]; rewrite length_app; lia).
  destruct fuel as [|fuel]; [lia|]. destruct fs as [|f2 fs].
  - cbn [map join] in *. rewrite parse_member_at; [|done|apply Hr; [left|lia]|split_and!; vm_compute; done|done|done].
    rewrite of_to_byte. reflexivity.
  - rewrite join_cons in *. rewrite !length_app in Hf. cbn [length app] in Hf. rewrite <-!app_assoc. cbn [app].
    change (member_at n f ++ to_byte 44 :: ?x) with (member_at n f ++ [] ++ to_byte 44 :: x).
    rewrite parse_member_at; [|done|apply Hr; [left|lia]|split_and!; vm_compute; done|done|by constructor].
    rewrite of_to_byte. change (44 mod 256 =? 44) with true. cbn iota.
    rewrite parse_members_space, IH; [done|done|done| |done|lia|done]. intros fu f' Hf'. apply Hr. by right.
Qed.

Lemma parse_arr_at fuel d n l : Forall tree_ok l -> tree_depth (JArr l) <= d -> (length (text n (JArr l)) <= S fuel)%nat ->
  (forall f t, t ∈ l -> (length (text (S n) t) <= f)%nat -> reads_at f (d - 1) (S n) t) -> reads_at (S fuel) d n (JArr l).
Proof.
  intros Hok Hd Hf Hr more Hm. cbn [tree_depth] in *.
  assert (0 <= foldr Z.max 0 (map tree_depth l)) as H0 by (clear; induction l; cbn; lia).
  destruct l as [|t l]; [cbn [print_at print_tree map join app]|cbn [print_at app] in *]; cbn [parse_value]; rewrite skip_space_id by reflexivity;
    rewrite of_to_byte; change (91 mod 256) with 91; cbn [Z.eqb Pos.eqb]; replace (d <=? 0) with false by lia; [reflexivity|].
  rewrite <-!app_assoc. rewrite skip_space_all by done. cbn [length] in Hf. rewrite !length_app in Hf. cbn [length] in Hf.
  assert (exists c b, join (to_byte 44 :: gap (S n)) (map (text (S n)) (t :: l)) ++ gap n ++ [to_byte 93] ++ more = c :: b /\ is_space c = false /\ of_byte c <> 93)
    as (c & b & He & Hsp & Hc).
  { inversion_clear Hok as [|?? Ht _]. destruct (print_at_head (S n) t Ht) as (c & b & Hp & Hsp & Hc).
    cbn [map join]. destruct (map (text (S n)) l); rewrite Hp; cbn [app]; by eexists _, _. }
  rewrite He, skip_space_id by done. rewrite (proj2 (Z.eqb_neq _ _) Hc), <-He. cbn [app].
  rewrite parse_elems_at; [done|done|done|done|lia].
Qed.
Lemma parse_obj_at fuel d n fs : Forall (fun f => valid_utf8 f.1 = true /\ tree_ok f.2) fs ->
  tree_depth (JObj fs) <= d -> (length (text n (JObj fs)) <= S fuel)%nat ->
  (forall m f, f ∈ fs -> (length (text (S n) f.2) <= m)%nat -> reads_at m (d - 1) (S n) f.2) -> reads_at (S fuel) d n (JObj fs).
Proof.
  intros Hok Hd Hf Hr more Hm. cbn [tree_depth] in *.
  assert (0 <= foldr Z.max 0 (map (fun f => tree_depth f.2) fs)) as H0 by (clear; induction fs; cbn; lia).
  destruct fs as [|f fs]; [cbn [print_at print_tree map join app]|cbn [print_at app] in *]; cbn [parse_value]; rewrite skip_space_id by reflexivity;
    rewrite of_to_byte; change (123 mod 256) with 123; cbn [Z.eqb Pos.eqb]; replace (d <=? 0) with false by lia; [reflexivity|].
  rewrite <-!app_assoc. rewrite skip_space_all by done. cbn [length] in Hf. rewrite !length_app in Hf. cbn [length] in Hf.
  change (fun f => print_string f.1 ++ to_byte 58 :: after ++ text (S n) f.2) with (member_at (S n)) in *.
  assert (exists b, join (to_byte 44 :: gap (S n)) (map (member_at (S n)) (f :: fs)) ++ gap n ++ [to_byte 125] ++ more = to_byte 34 :: b) as (b & He).
  { assert (exists b, member_at (S n) f = to_byte 34 :: b) as [b Hb] by by eexists.
    cbn [map join]. rewrite Hb. destruct (map (member_at (S n)) fs); by eexists. }
  rewrite He, skip_space_id by reflexivity. rewrite of_to_byte. change (34 mod 256 =? 125) with false. cbn iota. rewrite <-He. cbn [app].
  rewrite parse_members_at; [done|done| |done|done|lia]. eapply Forall_impl; [exact Hok|]. by intros ? [? _].
Qed.

(** A text is never empty, so there is fuel to read it. *)
Lemma parse_print_at t : tree_ok t -> forall d fuel n, tree_depth t <= d -> (length (text n t) <= fuel)%nat -> reads_at fuel d n t.
Proof.
  induction t as [|b|m|s|l IH|fs IH] using jtree_nested_ind; intros Hok d fuel n Hd Hf;
    (destruct fuel as [|fuel]; [exfalso; destruct (print_at_head n _ Hok) as (? & ? & He & _); rewrite He in Hf; cbn in Hf; lia|]).
  - done.
  - by destruct b.
  - intros more Hm. cbn [print_at print_tree tree_ok] in *. pose proof (scan_print_number m more Hok Hm) as Hs.
    destruct (print_number_head m Hok) as (c & b & Hp & Hc). rewrite Hp in *. cbn [app] in *.
    assert (is_space c = false) as Hsp by (destruct Hc as [Hc|Hc]; [by apply digit_not_space|unfold is_space; lia]).
    cbn [parse_value]. rewrite skip_space_id by done.
    unfold is_digit in Hc. repeat (rewrite (proj2 (Z.eqb_neq (of_byte c) _)) by lia). by rewrite Hs.
  - intros more Hm. cbn [print_at print_tree tree_ok] in *. destruct (parse_print_string s more Hok) as (b & -> & Hs).
    cbn [parse_value]. rewrite skip_space_id by reflexivity. rewrite of_to_byte.
    change (34 mod 256) with 34. cbn iota. cbn [Z.eqb Pos.eqb]. by rewrite Hs.
  - cbn [tree_ok] in Hok. rewrite foldr_and_Forall in Hok. apply parse_arr_at; [done..|]. rewrite Forall_forall in IH, Hok.
    intros f t Ht Hl. apply IH; [done|by apply Hok| |done]. pose proof (foldr_max_le tree_depth _ _ Ht). cbn [tree_depth] in Hd. lia.
  - cbn [tree_ok] in Hok. rewrite foldr_and_Forall in Hok. apply parse_obj_at; [done..|]. rewrite Forall_forall in IH, Hok.
    intros m f Hfs Hl. apply IH; [done|by apply Hok| |done].
    pose proof (foldr_max_le (fun f => tree_depth f.2) _ _ Hfs) as Hmax. cbn beta in Hmax. cbn [tree_depth] in Hd. lia.
Qed.
Lemma Unmarshal_print_at t : tree_ok t -> tree_depth t <= maxNestingDepth -> Unmarshal (text 0 t) = Some t.
Proof.
  intros Hok Hd. unfold Unmarshal, Decode.
  pose proof (parse_print_at t Hok maxNestingDepth (S (length (text 0 t))) 0 Hd ltac:(lia) [] I) as Hp.
  rewrite app_nil_r in Hp. by rewrite Hp.
Qed.
End layout_reads.

(** The compact text is the layout of no white space. *)
Lemma print_tree_at t n : print_at (fun _ => []) [] n t = print_tree t.
Proof.
  revert n. induction t as [| | | |l IH|fs IH] using jtree_nested_ind; intros d; try done.
  - destruct l as [|t l]; [done|]. cbn [print_at print_tree app]. do 3 f_equal. rewrite Forall_forall in IH. apply map_ext_in.
    intros t' Ht%list_elem_of_In. by apply IH.
  - destruct fs as [|f fs]; [done|]. cbn [print_at print_tree app]. do 3 f_equal. rewrite Forall_forall in IH. apply map_ext_in.
    intros f' Hf%list_elem_of_In. by rewrite IH.
Qed.
Lemma parse_print_tree t : tree_ok t -> forall d fuel, tree_depth t <= d -> (length (print_tree t) <= fuel)%nat ->
  forall more, delimited more -> parse_value fuel d (print_tree t ++ more) = Some (t, more).
Proof.
  rewrite <-(print_tree_at t 0). intros Hok d fuel. apply parse_print_at; [intros _; constructor|constructor|done].
Qed.
Lemma indent_line_space n : all_space (indent_line n).
Proof. constructor; [done|]. induction n; cbn [replicate concat]; [constructor|]. apply Forall_app. split; [by repeat constructor|done]. Qed.
Lemma Unmarshal_print_indent t : tree_ok t -> tree_depth t <= maxNestingDepth -> Unmarshal (print_indent t) = Some t.
Proof. apply Unmarshal_print_at; [apply indent_line_space|by repeat constructor]. Qed.
Lemma Unmarshal_print t : tree_ok t -> tree_depth t <= maxNestingDepth -> Unmarshal (print_tree t) = Some t.
Proof.
  intros Hok Hd. unfold Unmarshal, Decode.
  pose proof (parse_print_tree t Hok maxNestingDepth (S (length (print_tree t))) Hd ltac:(lia) [] I) as Hp.
  rewrite app_nil_r in Hp. by rewrite Hp.
Qed.
Lemma foldr_max_bound {A} (f : A -> Z) l n : 0 <= n -> Forall (fun x => f x <= n) l -> foldr Z.max 0 (map f l) <= n.
Proof. intros Hn. induction 1; cbn; lia. Qed.
