(* ===== verification/JsonCodec.v ===== *)
(** * Documents, clocks and vectors as JSON (encoding/json)

    The package at the types the SDK marshals: an object of any values, a clock, a knowledge
    vector; an instance of class [Json], and its laws.  A nil slice is an empty one here. *)
From S2P Require Import Prelude BigEndian Float Hlc KnowledgeVector GoSort Crypto Strconv Json JsonText.
Local Open Scope Z_scope.

Fixpoint all_some {A} (l : list (option A)) : option (list A) :=
  match l with
  | [] => Some []
  | x :: l => x ← x; l ← all_some l; Some (x :: l)
  end.

(** Map keys in the order the encoder sorts them. *)
Definition key_less {A} (p q : string * A) : bool := str_ltb p.1 q.1.
Definition sorted_fields {A} (m : gmap string A) : list (string * A) := sort_Slice key_less (map_to_list m).

(** [base64.StdEncoding] *)
Definition base64_digit (v : Z) : Ascii.ascii :=
  to_byte (if v <? 26 then 65 + v else if v <? 52 then 71 + v else if v <? 62 then v - 4 else if v =? 62 then 43 else 47).
Fixpoint base64 (b : bytes) : bytes :=
  match b with
  | c1 :: c2 :: c3 :: b =>
      let v := of_byte c1 * 65536 + of_byte c2 * 256 + of_byte c3 in
      base64_digit (v / 262144) :: base64_digit (v / 4096 mod 64) :: base64_digit (v / 64 mod 64) :: base64_digit (v mod 64) :: base64 b
  | [c1; c2] =>
      let v := of_byte c1 * 65536 + of_byte c2 * 256 in
      [base64_digit (v / 262144); base64_digit (v / 4096 mod 64); base64_digit (v / 64 mod 64); to_byte 61]
  | [c1] =>
      let v := of_byte c1 * 65536 in [base64_digit (v / 262144); base64_digit (v / 4096 mod 64); to_byte 61; to_byte 61]
  | [] => []
  end.

(** ** Values *)

(** [strconv.FormatInt] *)
Definition int_number (z : Z) : number := number_f (z <? 0) (Z.abs z) 0.
Fixpoint to_tree (v : value) : option jtree :=
  match v with
  | VNull => Some JNull
  | VBool b => Some (JBool b)
  | VNum f => JNum <$> float_number 53 1024 f
  | VStr s => Some (JStr (str_bytes s))
  | VArr l => JArr <$> all_some (map to_tree l)
  | VObj fields => JObj <$> all_some (map (fun p => pair (str_bytes p.1) <$> to_tree p.2) fields)
  | VF32s l => JArr <$> all_some (map (fun w => JNum <$> float_number 24 128 (f32_of_bits w)) l)
  | VBytes b => Some (JStr (base64 b))
  | VInt n => Some (JNum (int_number n))
  end.
(** Of two members of one name the later counts. *)
Definition fields_map {A} (l : list (string * A)) : gmap string A := list_to_map (reverse l).
Fixpoint of_tree (t : jtree) : option value :=
  match t with
  | JNull => Some VNull
  | JBool b => Some (VBool b)
  | JNum n => VNum <$> ParseFloat 53 1024 n
  | JStr s => Some (VStr (bytes_str s))
  | JArr l => VArr <$> all_some (map of_tree l)
  | JObj fs => (fun l => VObj (sorted_fields (fields_map l))) <$> all_some (map (fun f => pair (bytes_str f.1) <$> of_tree f.2) fs)
  end.
Definition object_tree (m : object) : option jtree :=
  JObj <$> all_some (map (fun p => pair (str_bytes p.1) <$> to_tree p.2) (sorted_fields m)).
Definition tree_object (t : jtree) : option object :=
  match t with
  | JNull => Some ∅
  | JObj fs => fields_map <$> all_some (map (fun f => pair (bytes_str f.1) <$> of_tree f.2) fs)
  | _ => None
  end.

(** ** Structures *)

(** The names of fields match whatever the case of their letters; the Kelvin sign and the
    long s fold to ASCII letters. *)
Fixpoint foldName (b : bytes) : bytes :=
  match b with
  | [] => []
  | c :: b1 =>
      let v := of_byte c in
      let fold_c := if (97 <=? v) && (v <=? 122) then to_byte (v - 32) else c in
      match b1 with
      | c1 :: b2 =>
          if (v =? 197) && (of_byte c1 =? 191) then to_byte 83 :: foldName b2 else
          match b2 with
          | c2 :: b3 =>
              if (v =? 226) && (of_byte c1 =? 132) && (of_byte c2 =? 170) then to_byte 75 :: foldName b3
              else fold_c :: foldName b1
          | [] => fold_c :: foldName b1
          end
      | [] => [fold_c]
      end
  end.
Definition is_field (name : string) (key : bytes) : bool := bool_decide (foldName key = foldName (str_bytes name)).
(** [strconv.ParseInt] of a literal that has neither fraction nor exponent. *)
Definition number_int (bits : Z) (n : number) : option Z :=
  match nm_frac n, nm_exp n with
  | [], None =>
      v ← parse_digits (nm_int n) 0;
      let v := if nm_neg n then - v else v in
      if (- 2 ^ (bits - 1) <=? v) && (v <? 2 ^ (bits - 1)) then Some v else None
  | _, _ => None
  end.
(** Decoding into a variable: [null] leaves it, and a value of another kind is an error. *)
Definition decode_int (bits : Z) (t : jtree) (old : Z) : option Z :=
  match t with JNull => Some old | JNum n => number_int bits n | _ => None end.
Definition hlc_tree (c : HLC) : jtree :=
  JObj [(str_bytes "wall_time", JNum (int_number (WallTime c))); (str_bytes "counter", JNum (int_number (Counter c)))].
Fixpoint decode_hlc_fields (fs : list (bytes * jtree)) (c : HLC) : option HLC :=
  match fs with
  | [] => Some c
  | (k, t) :: fs =>
      c ← (if is_field "wall_time" k then (fun w => mkHLC w (Counter c)) <$> decode_int 64 t (WallTime c)
           else if is_field "counter" k then (fun n => mkHLC (WallTime c) n) <$> decode_int 32 t (Counter c)
           else Some c);
      decode_hlc_fields fs c
  end.
Definition decode_hlc (t : jtree) (c : HLC) : option HLC :=
  match t with JNull => Some c | JObj fs => decode_hlc_fields fs c | _ => None end.
Definition kv_tree (kv : gmap string HLC) : jtree := JObj ((fun p => (str_bytes p.1, hlc_tree p.2)) <$> sorted_fields kv).
Definition decode_kv (t : jtree) : option (gmap string HLC) :=
  match t with
  | JNull => Some ∅
  | JObj fs => fields_map <$> all_some (map (fun f => pair (bytes_str f.1) <$> decode_hlc f.2 HLC_zero) fs)
  | _ => None
  end.

#[export] Instance json_text : Json := {|
  MarshalObj m := print_tree <$> object_tree m;
  UnmarshalObj b := Unmarshal b ≫= tree_object;
  MarshalHLC c := print_tree (hlc_tree c);
  UnmarshalHLC b := t ← Unmarshal b; decode_hlc t HLC_zero;
  MarshalKV kv := print_tree (kv_tree kv);
  UnmarshalKV b := Unmarshal b ≫= decode_kv
|}.

(** ** Members in order *)

Lemma all_some_map {A B C} (f : A -> option B) (g : B -> option C) (P : B -> Prop) (l : list A) (h : A -> C) :
  Forall (fun x => exists y, f x = Some y /\ P y /\ g y = Some (h x)) l ->
  exists ys, all_some (map f l) = Some ys /\ Forall P ys /\ all_some (map g ys) = Some (map h l).
Proof.
  induction 1 as [|x l (y & Hy & Hp & Hg) _ (ys & Hys & Hps & Hgs)]; cbn [map all_some]; [by eexists|].
  exists (y :: ys). rewrite Hy, Hys. cbn [mbind option_bind map all_some]. rewrite Hg, Hgs. split_and!; [done|by constructor|done].
Qed.
#[export] Instance key_less_order {A} : LessOrder (@key_less A).
Proof.
  split; unfold key_less.
  - intros a b. destruct (str_ltb b.1 a.1) eqn:H; [left; by apply str_ltb_asym|by right].
  - intros a b c Hba Hcb. destruct (str_ltb c.1 a.1) eqn:H; [|done].
    destruct (str_ltb_trichotomy b.1 a.1) as [[H1|H1]|H1]; [congruence|congruence|].
    by rewrite (str_ltb_trans _ _ _ H H1) in Hcb.
Qed.
Lemma sorted_fields_perm {A} (m : gmap string A) : sorted_fields m ≡ₚ map_to_list m.
Proof. apply sort_Slice_sorts, _. Qed.
Lemma fields_map_sorted {A} (m : gmap string A) : fields_map (sorted_fields m) = m.
Proof.
  unfold fields_map. rewrite <-(list_to_map_to_list m) at 2. apply list_to_map_proper.
  - rewrite reverse_Permutation, sorted_fields_perm. apply NoDup_fst_map_to_list.
  - rewrite reverse_Permutation. apply sorted_fields_perm.
Qed.
(** Sorted members are the members of their map. *)
Lemma keys_sorted_strong (l : list string) : keys_sorted l = true -> StronglySorted (fun a b => str_ltb a b = true) l.
Proof.
  induction l as [|k l IH]; [constructor|]. cbn [keys_sorted]. rewrite andb_true_iff. intros [Hk Hl]. specialize (IH Hl).
  constructor; [done|]. destruct l as [|k2 l]; [constructor|]. constructor; [done|].
  inversion_clear IH as [|?? _ Hf]. eapply Forall_impl; [exact Hf|]. intros x Hx. by eapply str_ltb_trans.
Qed.
Lemma sorted_fields_map {A} (l : list (string * A)) : keys_sorted (map fst l) = true -> sorted_fields (fields_map l) = l.
Proof.
  intros Hs%keys_sorted_strong. assert (NoDup l.*1) as Hnd.
  { change l.*1 with (map fst l). induction Hs as [|k ks _ IH Hk]; constructor; [|done].
    intros Hin. rewrite Forall_forall in Hk. specialize (Hk _ Hin). by rewrite str_ltb_irrefl in Hk. }
  assert (map_to_list (fields_map l) ≡ₚ l) as Hp.
  { unfold fields_map. rewrite map_to_list_to_map; [apply reverse_Permutation|]. by rewrite reverse_Permutation. }
  eapply (sorts_unique key_less (map_to_list (fields_map l))).
  - intros [k1 v1] [k2 v2] H1 H2. unfold key_less. cbn [fst]. intros A1 A2.
    destruct (str_ltb_trichotomy k1 k2) as [[H|H]|H]; [congruence| |congruence]. subst k2.
    apply elem_of_map_to_list in H1, H2. congruence.
  - apply sort_Slice_sorts, _.
  - split; [by symmetry|]. change (map fst l) with l.*1 in Hs. clear -Hs.
    induction l as [|p l IH]; [constructor|]. cbn [fmap list_fmap] in Hs. inversion_clear Hs as [|?? Hs' Hf]. constructor; [by apply IH|].
    rewrite Forall_fmap in Hf. eapply Forall_impl; [exact Hf|]. intros q Hq. unfold not_less, key_less. by apply str_ltb_asym.
Qed.

(** ** Values read back *)

Definition tree_reads (v : value) (t : jtree) : Prop := to_tree v = Some t /\ tree_ok t /\ tree_depth t = depth v /\ of_tree t = Some v.
Lemma all_some_trees l : Forall (fun v => exists t, tree_reads v t) l ->
  exists ts, all_some (map to_tree l) = Some ts /\ Forall tree_ok ts /\ map tree_depth ts = map depth l /\ all_some (map of_tree ts) = Some l.
Proof.
  induction 1 as [|v l (t & Ht & Hok & Hd & Ho) _ (ts & Hts & Hoks & Hds & Hos)]; cbn [map all_some]; [by eexists|].
  exists (t :: ts). rewrite Ht, Hts. cbn [mbind option_bind map all_some]. rewrite Ho, Hos, Hd, Hds. split_and!; [done|by constructor|done|done].
Qed.
Lemma all_some_members (l : list (string * value)) : Forall (fun p => json_string p.1 = true /\ exists t, tree_reads p.2 t) l ->
  exists fs, all_some (map (fun p => pair (str_bytes p.1) <$> to_tree p.2) l) = Some fs /\
    Forall (fun f => valid_utf8 f.1 = true /\ tree_ok f.2) fs /\ map (fun f => tree_depth f.2) fs = map (fun p => depth p.2) l /\
    all_some (map (fun f => pair (bytes_str f.1) <$> of_tree f.2) fs) = Some l.
Proof.
  induction 1 as [|[k v] l (Hk & t & Ht & Hok & Hd & Ho) _ (ts & Hts & Hoks & Hds & Hos)]; cbn [map all_some fst snd]; [by eexists|].
  exists ((str_bytes k, t) :: ts). cbn [fst snd] in *. rewrite Ht, Hts. cbn [mbind option_bind map all_some fst snd fmap option_fmap option_map].
  rewrite Ho. cbn [mbind option_bind fmap option_fmap option_map]. rewrite Hos, Hd, Hds, bytes_str_bytes.
  split_and!; [done|by repeat constructor|done|done].
Qed.
Lemma to_tree_reads v : json_value v = true -> exists t, tree_reads v t.
Proof.
  induction v as [|b|f|s|l IH|fields IH|l|b|n] using value_nested_ind; cbn [json_value]; try done.
  - intros _. by exists JNull.
  - intros _. by exists (JBool b).
  - unfold finite_f64. rewrite andb_true_iff. intros [Hf Hv].
    pose proof (ParseFloat_number 53 1024 f ltac:(by left) Hv) as Hn. destruct f as [| | |]; try done;
      destruct Hn as (n & Hn & Hwf & Hp); exists (JNum n); unfold tree_reads; cbn [to_tree of_tree]; rewrite Hn, Hp; done.
  - intros Hs. exists (JStr (str_bytes s)). split_and!; [done|done|done|]. cbn [of_tree]. by rewrite bytes_str_bytes.
  - intros Hl. rewrite forallb_forall in Hl.
    assert (Forall (fun v => exists t, tree_reads v t) l) as Hr.
    { rewrite Forall_forall in IH |- *. intros v Hv. apply IH; [done|]. apply Hl. by apply list_elem_of_In. }
    destruct (all_some_trees l Hr) as (ts & Hts & Hok & Hd & Ho). exists (JArr ts). unfold tree_reads. cbn [to_tree of_tree tree_ok tree_depth depth].
    rewrite Hts, Ho, Hd, foldr_and_Forall. done.
  - rewrite andb_true_iff, forallb_forall. intros [Hl Hs].
    assert (Forall (fun p => json_string p.1 = true /\ exists t, tree_reads p.2 t) fields) as Hr.
    { rewrite Forall_forall in IH |- *. intros p Hp. specialize (Hl p ltac:(by apply list_elem_of_In)). apply andb_true_iff in Hl as [Hk Hv].
      split; [done|]. by apply IH. }
    destruct (all_some_members fields Hr) as (ts & Hts & Hok & Hd & Ho). exists (JObj ts). unfold tree_reads. cbn [to_tree of_tree tree_ok tree_depth depth].
    rewrite Hts, Ho, Hd, foldr_and_Forall. cbn [fmap option_fmap option_map]. rewrite sorted_fields_map by done. done.
Qed.

(** ** Integers and clocks read back *)

Lemma int_number_spec bits z : 0 < bits -> in_s bits z -> number_wf (int_number z) /\ number_int bits (int_number z) = Some z.
Proof.
  intros Hb Hz. unfold in_s in Hz. split; [apply number_f_wf; destruct (decide (z = 0)) as [->|]; [by right|left; lia]|].
  destruct (dec_digits_spec (Z.abs z) ltac:(lia)) as (Hp & _). unfold int_number, number_int, number_f. cbn [Z.leb Z.compare nm_frac nm_exp nm_int nm_neg zeros Z.to_nat replicate].
  rewrite app_nil_r, Hp. cbn [mbind option_bind]. destruct (Z.ltb_spec z 0).
  - replace (- Z.abs z) with z by lia. by replace ((- 2 ^ (bits - 1) <=? z) && (z <? 2 ^ (bits - 1))) with true by lia.
  - replace (Z.abs z) with z by lia. by replace ((- 2 ^ (bits - 1) <=? z) && (z <? 2 ^ (bits - 1))) with true by lia.
Qed.
Lemma hlc_tree_reads c : hlc_ok c -> tree_ok (hlc_tree c) /\ tree_depth (hlc_tree c) = 1 /\ forall old, decode_hlc (hlc_tree c) old = Some c.
Proof.
  intros [Hw Hc]. destruct (int_number_spec 64 (WallTime c) ltac:(lia) Hw) as [W1 W2], (int_number_spec 32 (Counter c) ltac:(lia) Hc) as [C1 C2].
  split_and!; [cbn; by split_and!|done|]. intros old. unfold hlc_tree. cbn [decode_hlc decode_hlc_fields].
  change (is_field "wall_time" (str_bytes "wall_time")) with true. change (is_field "wall_time" (str_bytes "counter")) with false.
  change (is_field "counter" (str_bytes "counter")) with true. cbn iota. unfold decode_int. rewrite W2. cbn [fmap option_fmap option_map mbind option_bind].
  rewrite C2. cbn [fmap option_fmap option_map mbind option_bind WallTime Counter]. by destruct c.
Qed.

Lemma kv_members l : Forall (fun p : string * HLC => hlc_ok p.2) l ->
  all_some (map (fun f => pair (bytes_str f.1) <$> decode_hlc f.2 HLC_zero) ((fun p => (str_bytes p.1, hlc_tree p.2)) <$> l)) = Some l.
Proof.
  induction 1 as [|[k c] l Hc _ IH]; [done|]. cbn [fmap list_fmap map all_some fst snd] in *.
  destruct (hlc_tree_reads c Hc) as (_ & _ & ->). cbn [fmap option_fmap option_map mbind option_bind].
  change (list_fmap ?A ?B ?f l) with (f <$> l) in *. rewrite IH. cbn [mbind option_bind]. by rewrite bytes_str_bytes.
Qed.
Lemma kv_tree_ok kv : map_Forall (fun n c => json_string n = true /\ hlc_ok c) kv ->
  tree_ok (kv_tree kv) /\ tree_depth (kv_tree kv) <= 2 /\ decode_kv (kv_tree kv) = Some kv.
Proof.
  intros Hkv. assert (Forall (fun p : string * HLC => json_string p.1 = true /\ hlc_ok p.2) (sorted_fields kv)) as Hall.
  { apply Forall_forall. intros [k v]. rewrite sorted_fields_perm, elem_of_map_to_list. apply Hkv. }
  split_and!.
  - cbn [tree_ok kv_tree]. rewrite foldr_and_Forall, Forall_fmap. eapply Forall_impl; [exact Hall|].
    intros [k c] [Hk Hc]. split; [done|]. by apply hlc_tree_reads.
  - cbn [tree_depth kv_tree].
    pose proof (foldr_max_bound (fun f : bytes * jtree => tree_depth f.2) ((fun p => (str_bytes p.1, hlc_tree p.2)) <$> sorted_fields kv) 1 ltac:(lia)) as Hb.
    enough (Forall (fun f : bytes * jtree => tree_depth f.2 <= 1) ((fun p => (str_bytes p.1, hlc_tree p.2)) <$> sorted_fields kv)) as Hf by (specialize (Hb Hf); lia).
    rewrite Forall_fmap. eapply Forall_impl; [exact Hall|]. intros [k c] [_ Hc]. cbn. lia.
  - cbn [decode_kv kv_tree]. rewrite kv_members by (eapply Forall_impl; [exact Hall|]; by intros ? [_ ?]).
    cbn [fmap option_fmap option_map]. by rewrite fields_map_sorted.
Qed.

(** ** The laws *)
#[export] Instance json_text_laws : JsonLaws.
Proof.
  split; cbn [json_text MarshalObj UnmarshalObj MarshalHLC UnmarshalHLC MarshalKV UnmarshalKV].
  - intros m Hm. unfold object_tree.
    assert (forall p, p ∈ sorted_fields m -> json_string p.1 = true /\ json_value p.2 = true /\ depth p.2 < 10000) as Hall.
    { intros [k v]. rewrite sorted_fields_perm, elem_of_map_to_list. apply Hm. }
    destruct (all_some_members (sorted_fields m)) as (fs & Hfs & Hok & Hd & Ho).
    { apply Forall_forall. intros p Hp. destruct (Hall p Hp) as (? & ? & _). split; [done|]. by apply to_tree_reads. }
    rewrite Hfs. cbn [fmap option_fmap option_map]. eexists. split_and!; [done|done|].
    rewrite Unmarshal_print; [|cbn [tree_ok]; by rewrite foldr_and_Forall|].
    + cbn [mbind option_bind tree_object]. rewrite Ho. cbn [fmap option_fmap option_map]. by rewrite fields_map_sorted.
    + cbn [tree_depth]. rewrite Hd. unfold maxNestingDepth.
      pose proof (foldr_max_bound (fun p : string * value => depth p.2) (sorted_fields m) 9999 ltac:(lia)) as Hb.
      enough (Forall (fun p : string * value => depth p.2 <= 9999) (sorted_fields m)) as Hf by (specialize (Hb Hf); lia).
      apply Forall_forall. intros p Hp. destruct (Hall p Hp) as (_ & _ & ?). lia.
  - intros c Hc. destruct (hlc_tree_reads c Hc) as (Hok & Hd & Ho). rewrite Unmarshal_print by (done || rewrite Hd; done).
    cbn [mbind option_bind]. apply Ho.
  - intros kv Hkv. destruct (kv_tree_ok kv Hkv) as (Hok & Hd & Hr). by rewrite Unmarshal_print by (done || (unfold maxNestingDepth; lia)).
Qed.
