(* ===== verification/JsonRecord.v ===== *)
(** * Records as JSON (types.go, encoding/json)

    What the field tags of [nell.Record] make of a record: the object the encoder writes and
    the record the decoder reads, with the base64 of its payload and the float32 literals of
    its vector.  A nil slice is an empty one; the elements of a repeated array member are
    decoded afresh, as documented. *)
From S2P Require Import Prelude BigEndian Float Hlc KnowledgeVector Record GoSort Crypto Strconv Json JsonText JsonCodec.
Local Open Scope Z_scope.

(** ** Bytes and floats *)

(** [math.Float32bits] *)
Definition f32_bits (f : float) : Z :=
  match f with
  | S754_zero s => if s then 2 ^ 31 else 0
  | S754_infinity s => (if s then 2 ^ 31 else 0) + 255 * 2 ^ 23
  | S754_nan => 2143289344
  | S754_finite s m e =>
      (if s then 2 ^ 31 else 0) + if Zpos m <? 2 ^ 23 then Zpos m else (e + 150) * 2 ^ 23 + (Zpos m - 2 ^ 23)
  end.
Definition f32_finite (w : Z) : bool := match f32_of_bits w with S754_infinity _ | S754_nan => false | _ => true end.

Definition base64_value (c : Ascii.ascii) : option Z :=
  let v := of_byte c in
  if (65 <=? v) && (v <=? 90) then Some (v - 65)
  else if (97 <=? v) && (v <=? 122) then Some (v - 71)
  else if (48 <=? v) && (v <=? 57) then Some (v + 4)
  else if v =? 43 then Some 62 else if v =? 47 then Some 63 else None.
Fixpoint unbase64 (b : bytes) : option bytes :=
  match b with
  | [] => Some []
  | c1 :: c2 :: c3 :: c4 :: rest =>
      v1 ← base64_value c1; v2 ← base64_value c2;
      let b1 := to_byte (v1 * 4 + v2 / 16) in
      if of_byte c3 =? 61 then
        match rest with [] => if of_byte c4 =? 61 then Some [b1] else None | _ => None end
      else
        v3 ← base64_value c3;
        let b2 := to_byte (v2 mod 16 * 16 + v3 / 4) in
        if of_byte c4 =? 61 then match rest with [] => Some [b1; b2] | _ => None end
        else v4 ← base64_value c4; tl ← unbase64 rest; Some (b1 :: b2 :: to_byte (v3 mod 4 * 64 + v4) :: tl)
  | _ => None
  end.
(** [base64.StdEncoding.Decode] skips line ends. *)
Definition is_newline (c : Ascii.ascii) : bool := (of_byte c =? 10) || (of_byte c =? 13).
Definition base64_Decode (b : bytes) : option bytes := unbase64 (List.filter (fun c => negb (is_newline c)) b).

(** ** Decoding into fields *)

(** An object's members one after the other; [null] leaves the structure as it is. *)
Definition decode_struct {A} (field : bytes -> jtree -> A -> option A) (t : jtree) (old : A) : option A :=
  match t with
  | JNull => Some old
  | JObj fs => foldl (fun a f => a ← a; field f.1 f.2 a) (Some old) fs
  | _ => None
  end.
Definition decode_string (t : jtree) (old : string) : option string :=
  match t with JNull => Some old | JStr b => Some (bytes_str b) | _ => None end.
Definition decode_bool (t : jtree) (old : bool) : option bool :=
  match t with JNull => Some old | JBool b => Some b | _ => None end.
Definition decode_slice {A} (elem : jtree -> option A) (t : jtree) : option (list A) :=
  match t with JNull => Some [] | JArr l => all_some (map elem l) | _ => None end.
Definition decode_uint8 (t : jtree) : option Ascii.ascii :=
  match t with
  | JNull => Some (to_byte 0)
  | JNum n => if nm_neg n then None else v ← number_int 64 n; if v <? 256 then Some (to_byte v) else None
  | _ => None
  end.
Definition decode_bytes (t : jtree) : option bytes :=
  match t with JStr s => base64_Decode s | _ => decode_slice decode_uint8 t end.
Definition decode_f32 (t : jtree) : option Z :=
  match t with JNull => Some 0 | JNum n => f32_bits <$> ParseFloat 24 128 n | _ => None end.

(** ** The record *)

Definition record_tree (r : NellRecord) : option jtree :=
  vector ← all_some (map (fun w => JNum <$> float_number 24 128 (f32_of_bits w)) (Vector r));
  Some (JObj ([(str_bytes "collection", JStr (str_bytes (Collection r))); (str_bytes "id", JStr (str_bytes (ID r)));
               (str_bytes "type", JStr (str_bytes (Type_ r)))]
    ++ (match Payload r with [] => [] | p => [(str_bytes "payload", JStr (base64 p))] end)
    ++ (match vector with [] => [] | v => [(str_bytes "vector", JArr v)] end)
    ++ [(str_bytes "clock", hlc_tree (Clock r)); (str_bytes "updated_by", JStr (str_bytes (UpdatedBy r)));
        (str_bytes "deleted", JBool (Deleted r))])).
Definition record_field (k : bytes) (t : jtree) (r : NellRecord) : option NellRecord :=
  let 'mkRecord col id type_ payload vector clock updatedBy deleted := r in
  if is_field "collection" k then (fun x => mkRecord x id type_ payload vector clock updatedBy deleted) <$> decode_string t col
  else if is_field "id" k then (fun x => mkRecord col x type_ payload vector clock updatedBy deleted) <$> decode_string t id
  else if is_field "type" k then (fun x => mkRecord col id x payload vector clock updatedBy deleted) <$> decode_string t type_
  else if is_field "payload" k then (fun x => mkRecord col id type_ x vector clock updatedBy deleted) <$> decode_bytes t
  else if is_field "vector" k then (fun x => mkRecord col id type_ payload x clock updatedBy deleted) <$> decode_slice decode_f32 t
  else if is_field "clock" k then (fun x => mkRecord col id type_ payload vector x updatedBy deleted) <$> decode_hlc t clock
  else if is_field "updated_by" k then (fun x => mkRecord col id type_ payload vector clock x deleted) <$> decode_string t updatedBy
  else if is_field "deleted" k then (fun x => mkRecord col id type_ payload vector clock updatedBy x) <$> decode_bool t deleted
  else Some r.
Definition record_zero : NellRecord := mkRecord "" "" "" [] [] HLC_zero "" false.
Definition decode_record (t : jtree) : option NellRecord := decode_struct record_field t record_zero.

(** What JSON can carry: names of valid UTF-8, finite vector entries, and fields of their types. *)
Definition record_json (r : NellRecord) : Prop :=
  (json_string (Collection r) = true /\ json_string (ID r) = true /\ json_string (Type_ r) = true /\ json_string (UpdatedBy r) = true) /\
  Forall (fun w => in_u 32 w /\ f32_finite w = true) (Vector r) /\ hlc_ok (Clock r).
#[export] Instance record_json_dec r : Decision (record_json r).
Proof. unfold record_json, hlc_ok, in_s, in_u. apply _. Defined.

(** ** Bytes read back *)

Lemma base64_digit_value v : 0 <= v < 64 ->
  base64_value (base64_digit v) = Some v /\ (of_byte (base64_digit v) =? 61) = false /\ is_newline (base64_digit v) = false /\
  of_byte (base64_digit v) < 128.
Proof.
  intros Hv. assert (forallb (fun n => let c := base64_digit (Z.of_nat n) in
    bool_decide (base64_value c = Some (Z.of_nat n)) && negb (of_byte c =? 61) && negb (is_newline c) && (of_byte c <? 128)) (seq 0 64) = true) as Ha by by vm_compute.
  rewrite forallb_forall in Ha. specialize (Ha (Z.to_nat v) ltac:(apply in_seq; lia)). cbn zeta in Ha. rewrite Z2Nat.id in Ha by lia.
  rewrite !andb_true_iff, bool_decide_eq_true, !negb_true_iff, Z.ltb_lt in Ha. tauto.
Qed.
(** Induction three bytes at a time. *)
Lemma bytes_ind3 (P : bytes -> Prop) : P [] -> (forall c, P [c]) -> (forall c d, P [c; d]) ->
  (forall c d e b, P b -> P (c :: d :: e :: b)) -> forall b, P b.
Proof.
  intros H0 H1 H2 H3 b. cut (forall n b, (length b <= n)%nat -> P b); [intros H; by apply (H (length b))|].
  clear b. induction n as [|n IH]; intros [|c [|d [|e b]]] Hb; cbn in Hb; try lia; auto. apply H3, IH. lia.
Qed.
Lemma unbase64_base64 b : unbase64 (base64 b) = Some b.
Proof.
  induction b as [|c|c d|c d e b IH] using bytes_ind3; [done|..]; cbn [base64 unbase64];
    pose proof (of_byte_range c); try pose proof (of_byte_range d); try pose proof (of_byte_range e).
  all: repeat match goal with |- context [base64_value (base64_digit ?v)] =>
    let Hv := fresh in assert (0 <= v < 64) as Hv by (Z.to_euclidean_division_equations; lia);
    destruct (base64_digit_value v Hv) as (-> & ? & _); clear Hv end; cbn [mbind option_bind];
    rewrite ?of_to_byte; change (61 mod 256 =? 61) with true; cbn iota.
  - do 2 f_equal. apply to_byte_eq. Z.to_euclidean_division_equations; lia.
  - match goal with H : (_ =? 61) = false |- _ => rewrite H end. do 2 f_equal; [|f_equal]; apply to_byte_eq;
      Z.to_euclidean_division_equations; lia.
  - repeat match goal with H : (_ =? 61) = false |- _ => rewrite H; clear H end. rewrite IH. cbn [mbind option_bind].
    do 2 f_equal; [|f_equal; [|f_equal]]; apply to_byte_eq; Z.to_euclidean_division_equations; lia.
Qed.
(** What an encoding is made of. *)
Definition plain (c : Ascii.ascii) : Prop := of_byte c < 128 /\ is_newline c = false.
Lemma base64_plain b : Forall plain (base64 b).
Proof.
  assert (forall v, 0 <= v < 64 -> plain (base64_digit v)) as Hd.
  { intros v Hv. destruct (base64_digit_value v Hv) as (_ & _ & ? & ?). by split. }
  induction b as [|c|c d|c d e b IH] using bytes_ind3; cbn [base64]; repeat constructor; try done.
  all: try (apply Hd; pose proof (of_byte_range c); try pose proof (of_byte_range d); try pose proof (of_byte_range e);
    Z.to_euclidean_division_equations; lia).
Qed.
Lemma base64_roundtrip b : base64_Decode (base64 b) = Some b /\ valid_utf8 (base64 b) = true.
Proof.
  pose proof (base64_plain b) as Hp. unfold base64_Decode. split.
  - assert (List.filter (fun c => negb (is_newline c)) (base64 b) = base64 b) as ->; [|apply unbase64_base64].
    induction Hp as [|c l [_ Hc] _ IH]; [done|]. cbn. rewrite Hc. cbn. by f_equal.
  - induction Hp as [|c l [Hc _] _ IH]; [done|]. cbn [valid_utf8]. by rewrite (proj2 (Z.ltb_lt _ _) Hc).
Qed.

(** ** Floats read back *)

Lemma f32_fields w : in_u 32 w ->
  exists s ex frac, Z.testbit w 31 = s /\ Z.land (Z.shiftr w 23) 255 = ex /\ Z.land w (2 ^ 23 - 1) = frac /\
    0 <= ex < 256 /\ 0 <= frac < 2 ^ 23 /\ w = (if s then 2 ^ 31 else 0) + ex * 2 ^ 23 + frac.
Proof.
  intros Hw. unfold in_u in Hw. pose proof (Z.testbit_spec' w 31 ltac:(lia)) as Ht.
  exists (Z.testbit w 31), (w / 2 ^ 23 mod 2 ^ 8), (w mod 2 ^ 23).
  change 255 with (Z.ones 8). change (2 ^ 23 - 1) with (Z.ones 23). rewrite !Z.land_ones, Z.shiftr_div_pow2 by lia.
  split_and!; [done..| | | | |]; [apply Z.mod_pos_bound; lia..|].
  destruct (Z.testbit w 31); cbn [Z.b2z] in Ht; Z.to_euclidean_division_equations; lia.
Qed.
Lemma bounded_intro m e : (e = -149 /\ Zpos (digits2_pos m) <= 24) \/ (Zpos (digits2_pos m) = 24 /\ -149 <= e) -> e <= 104 ->
  bounded 24 128 m e = true.
Proof. intros H He. unfold bounded, canonical_mantissa, fexp, emin. lia. Qed.
Lemma f32_bits_of_bits w : in_u 32 w -> f32_finite w = true -> f32_bits (f32_of_bits w) = w /\ valid_binary 24 128 (f32_of_bits w) = true.
Proof.
  intros Hw. unfold f32_finite, f32_of_bits. destruct (f32_fields w Hw) as (s & ex & frac & -> & -> & -> & Hex & Hfr & ->).
  destruct (Z.eqb_spec ex 255) as [->|H255]; [by destruct (frac =? 0)|]. intros _.
  destruct (Z.eqb_spec ex 0) as [->|H0].
  - destruct frac as [|p|p]; [by destruct s| |lia]. cbn [f32_bits valid_binary].
    rewrite (proj2 (Z.ltb_lt _ _)) by lia. split; [destruct s; lia|]. apply bounded_intro; [|lia].
    pose proof (digits2_lower p). pose proof (digits2_upper p). left. split; [done|].
    destruct (Z.le_gt_cases (Zpos (digits2_pos p)) 24) as [|Hgt]; [done|].
    pose proof (Z.pow_le_mono_r 2 24 (Zpos (digits2_pos p) - 1) ltac:(lia) ltac:(lia)). lia.
  - destruct (frac + 2 ^ 23) as [|p|p] eqn:Hp; [lia| |lia]. cbn [f32_bits valid_binary].
    rewrite (proj2 (Z.ltb_ge _ _)) by lia. split; [destruct s; lia|]. apply bounded_intro; [|lia].
    right. split; [apply digits2_unique; lia|lia].
Qed.

(** ** Records read back *)

Lemma vector_reads v : Forall (fun w => in_u 32 w /\ f32_finite w = true) v ->
  exists ts, all_some (map (fun w => JNum <$> float_number 24 128 (f32_of_bits w)) v) = Some ts /\
    Forall tree_ok ts /\ Forall (fun t => tree_depth t = 0) ts /\ all_some (map decode_f32 ts) = Some v.
Proof.
  induction 1 as [|w v [Hw Hf] _ (ts & Hts & Hok & Hd & Hv)]; cbn [map all_some]; [by eexists|].
  destruct (f32_bits_of_bits w Hw Hf) as [Hb Hvb]. pose proof (ParseFloat_number 24 128 _ ltac:(by right) Hvb) as Hn.
  assert (exists n, float_number 24 128 (f32_of_bits w) = Some n /\ number_wf n /\ ParseFloat 24 128 n = Some (f32_of_bits w)) as (n & Hn1 & Hn2 & Hn3).
  { unfold f32_finite in Hf. by destruct (f32_of_bits w). }
  exists (JNum n :: ts). rewrite Hn1, Hts. cbn [fmap option_fmap option_map mbind option_bind map all_some decode_f32].
  rewrite Hn3. cbn [fmap option_fmap option_map mbind option_bind]. rewrite Hv, Hb. split_and!; [done|by constructor..|done].
Qed.
(** A vector with an infinity or a NaN has no encoding. *)
Lemma vector_tree_none v : Exists (fun w => f32_finite w = false) v ->
  all_some (map (fun w => JNum <$> float_number 24 128 (f32_of_bits w)) v) = None.
Proof.
  induction 1 as [w v Hw|w v _ IH]; cbn [map all_some].
  - unfold f32_finite in Hw. by destruct (f32_of_bits w).
  - rewrite IH. by destruct (float_number _ _ _).
Qed.
Lemma record_tree_none r : Exists (fun w => f32_finite w = false) (Vector r) -> record_tree r = None.
Proof. intros He. unfold record_tree. by rewrite vector_tree_none. Qed.

(** Compares the closed names of members. *)
Ltac field_names :=
  repeat match goal with |- context [is_field ?n (str_bytes ?k)] =>
    let v := eval vm_compute in (is_field n (str_bytes k)) in change (is_field n (str_bytes k)) with v end; cbn iota.
Lemma record_tree_reads r : record_json r ->
  exists t, record_tree r = Some t /\ tree_ok t /\ tree_depth t <= 2 /\ decode_record t = Some r.
Proof.
  destruct r as [col id ty payload vector clock upd del]. unfold record_json. cbn [Collection ID Type_ UpdatedBy Vector Clock].
  intros ((Hc & Hi & Ht & Hu) & Hv & Hk). destruct (vector_reads vector Hv) as (ts & Hts & Hok & Hd & Hrd).
  destruct (hlc_tree_reads clock Hk) as (Ko & Kd & Kr). destruct (base64_roundtrip payload) as [Bd Bv].
  unfold record_tree. cbn [Collection ID Type_ UpdatedBy Vector Clock Payload Deleted]. rewrite Hts. cbn [mbind option_bind].
  eexists. split; [done|]. cbn [tree_ok tree_depth].
  assert (payload = [] \/ exists p b, payload = p :: b) as Hp by (destruct payload; eauto).
  assert ((ts = [] /\ vector = []) \/ exists p b, ts = p :: b) as Ht'.
  { destruct ts; [left|eauto]. split; [done|]. cbn in Hrd. congruence. }
  assert (foldr Z.max 0 (map tree_depth ts) <= 0) as Hmax.
  { apply foldr_max_bound; [done|]. eapply Forall_impl; [exact Hd|]. cbn. lia. }
  assert (forall s, json_string s = true -> valid_utf8 (str_bytes s) = true) as Hjs by done.
  pose proof (proj2 (foldr_and_Forall tree_ok ts) Hok) as Hok'.
  split; [|split].
  - destruct Hp as [->|(p & b & ->)]; destruct Ht' as [[-> ->]|(q & qs & ->)]; cbn [app map foldr fst snd]; rewrite ?Kd;
      split_and!; try done; auto.
  - destruct Hp as [->|(p & b & ->)]; destruct Ht' as [[-> ->]|(q & qs & ->)]; cbn [app map foldr fst snd]; rewrite ?Kd;
      cbn [tree_depth]; lia.
  - unfold decode_record, record_zero. cbn [decode_struct].
    destruct Hp as [->|(p & b & ->)]; destruct Ht' as [[-> ->]|(q & qs & ->)]; cbn [app foldl fst snd];
      repeat (progress (cbn [mbind option_bind record_field]; field_names;
        cbn [decode_string decode_bool decode_bytes decode_slice fmap option_fmap option_map]; rewrite ?Bd, ?Hrd, ?Kr, ?bytes_str_bytes));
      done.
Qed.

(** C37. A record's JSON is exact: a record of typed fields and valid UTF-8 names marshals
    exactly when every entry of its vector is finite, and then what [json.Unmarshal] makes of
    the text is the record, its payload byte for byte and its vector bit for bit. *)
Theorem Record_json_roundtrip (r : NellRecord) :
  json_string (Collection r) = true -> json_string (ID r) = true -> json_string (Type_ r) = true -> json_string (UpdatedBy r) = true ->
  hlc_ok (Clock r) -> Forall (in_u 32) (Vector r) ->
  match record_tree r with
  | Some t => Forall (fun w => f32_finite w = true) (Vector r) /\ Unmarshal (print_tree t) ≫= decode_record = Some r
  | None => Exists (fun w => f32_finite w = false) (Vector r)
  end.
Proof.
  intros Hc Hi Ht Hu Hk Hv. destruct (decide (Forall (fun w => f32_finite w = true) (Vector r))) as [Hf|Hf].
  - assert (record_json r) as Hj by (split_and!; try done; by apply Forall_and).
    destruct (record_tree_reads r Hj) as (t & -> & Hok & Hd & Hr). split; [done|].
    rewrite Unmarshal_print by (done || (unfold maxNestingDepth; lia)). done.
  - apply not_Forall_Exists in Hf; [|apply _]. rewrite record_tree_none; eapply Exists_impl; try exact Hf;
      intros w; cbn; by destruct (f32_finite w).
Qed.
Lemma Record_json_roundtrip_witness :
  let r := mkRecord "c" "a<b" "vector" (str_bytes "hi!") [1056964608; 2147483648] (mkHLC (-5) 7) "X" true in
  match record_tree r with Some t => Unmarshal (print_tree t) ≫= decode_record = Some r | None => False end.
Proof.
  cbn zeta. set (r := mkRecord _ _ _ _ _ _ _ _).
  assert (Forall (in_u 32) (Vector r)) as Hv by (repeat constructor; vm_compute; congruence).
  assert (hlc_ok (Clock r)) as Hk by (split; split; vm_compute; congruence).
  pose proof (Record_json_roundtrip r eq_refl eq_refl eq_refl eq_refl Hk Hv) as H.
  destruct (record_tree r) as [t|] eqn:Ht; [exact (proj2 H)|]. vm_compute in Ht. discriminate Ht.
Defined.
