(* ===== verification/Wire.v ===== *)
(** * The sync protocol on bytes (server/main.go, server/peer.go)

    The JSON bodies of the sync API: what a handler reads of a request's bytes and writes to
    the response, what a peer sends and reads, the frames of the WebSocket.  The handlers are
    those of file Server between a decoder and an encoder, as in the code. *)
From S2P Require Import Prelude BigEndian Float Hlc Record KnowledgeVector Conflict GoSort MemStore StoreApi Server Mesh Strconv Json JsonText JsonCodec JsonRecord.
Local Open Scope Z_scope.

(** ** Reading a body *)

(** [http.MaxBytesReader]: what the decoder gets to see of a body. *)
Definition MaxBodyBytes : Z := 10 * 2 ^ 20.
Definition limited (b : bytes) : bytes := if len b <=? MaxBodyBytes then b else take (Z.to_nat MaxBodyBytes) b.

(** The decoder's scanner, which looks at a text byte by byte and sees an error in it before
    its end: what it expects next, and the arrays and objects that are open (true). *)
Inductive scan_state :=
| SValue (close : bool) | SKey (close : bool) | SColon | SAfter
| SString (key : bool) | SEscape (key : bool) | SHex (key : bool) (n : nat) | SLiteral (rest : bytes)
| SNeg | SZero | SInt | SDot | SFrac | SExp | SExpSign | SExpDigits.
Definition scan_after (v : Z) (stack : list bool) : option (scan_state * list bool) :=
  match stack with
  | [] => Some (SAfter, [])
  | obj :: st =>
      if v =? 44 then Some (if obj then SKey false else SValue false, stack)
      else if v =? (if obj : bool then 125 else 93) then Some (SAfter, st) else None
  end.
Definition scan_value (v : Z) (stack : list bool) : option (scan_state * list bool) :=
  let push obj s := if len stack <? maxNestingDepth then Some (s, obj :: stack) else None in
  if v =? 34 then Some (SString false, stack) else if v =? 91 then push false (SValue true) else if v =? 123 then push true (SKey true)
  else if v =? 45 then Some (SNeg, stack) else if v =? 48 then Some (SZero, stack) else if (49 <=? v) && (v <=? 57) then Some (SInt, stack)
  else if v =? 116 then Some (SLiteral (str_bytes "rue"), stack) else if v =? 102 then Some (SLiteral (str_bytes "alse"), stack)
  else if v =? 110 then Some (SLiteral (str_bytes "ull"), stack) else None.
Definition scan_step (c : Ascii.ascii) (s : scan_state) (stack : list bool) : option (scan_state * list bool) :=
  let v := of_byte c in
  let digit := (48 <=? v) && (v <=? 57) in
  let exp := (v =? 101) || (v =? 69) in
  let after := if is_space c then Some (SAfter, stack) else scan_after v stack in
  match s with
  | SValue close => if is_space c then Some (s, stack) else if close && (v =? 93) then Some (SAfter, tail stack) else scan_value v stack
  | SKey close => if is_space c then Some (s, stack) else if close && (v =? 125) then Some (SAfter, tail stack)
                  else if v =? 34 then Some (SString true, stack) else None
  | SColon => if is_space c then Some (s, stack) else if v =? 58 then Some (SValue false, stack) else None
  | SAfter => after
  | SString key => if v =? 34 then Some (if key then SColon else SAfter, stack) else if v =? 92 then Some (SEscape key, stack)
                   else if v <? 32 then None else Some (s, stack)
  | SEscape key => if v =? 117 then Some (SHex key 4, stack) else if existsb (Z.eqb v) [98; 102; 110; 114; 116; 92; 47; 34]
                   then Some (SString key, stack) else None
  | SHex key n => match hex_value c with Some _ => Some (match n with S (S n) => SHex key (S n) | _ => SString key end, stack) | None => None end
  | SLiteral rest => match rest with
                     | d :: rest => if bool_decide (c = d) then Some (match rest with [] => SAfter | _ => SLiteral rest end, stack) else None
                     | [] => after
                     end
  | SNeg => if v =? 48 then Some (SZero, stack) else if digit then Some (SInt, stack) else None
  | SZero => if v =? 46 then Some (SDot, stack) else if exp then Some (SExp, stack) else after
  | SInt => if digit then Some (s, stack) else if v =? 46 then Some (SDot, stack) else if exp then Some (SExp, stack) else after
  | SDot => if digit then Some (SFrac, stack) else None
  | SFrac => if digit then Some (s, stack) else if exp then Some (SExp, stack) else after
  | SExp => if (v =? 43) || (v =? 45) then Some (SExpSign, stack) else if digit then Some (SExpDigits, stack) else None
  | SExpSign => if digit then Some (SExpDigits, stack) else None
  | SExpDigits => if digit then Some (s, stack) else after
  end.
Fixpoint syntax_error (b : bytes) (s : scan_state) (stack : list bool) : bool :=
  match b with
  | [] => false
  | c :: b => match scan_step c s stack with None => true | Some (s, stack) => syntax_error b s stack end
  end.

(** [json.NewDecoder(r.Body).Decode(&req)]: one value, whatever follows it. *)
Definition read_body {A} (decode : jtree -> option A) (body : bytes) : res body_err A :=
  match Decode (limited body) with
  | Some (t, _) => match decode t with Some x => Ok x | None => Err BodyBad end
  | None => Err (if (MaxBodyBytes <? len body) && negb (syntax_error (limited body) (SValue false) []) then BodyTooLarge else BodyBad)
  end.
(** The same of a response or a frame, which have no limit. *)
Definition read_json {A} (decode : jtree -> option A) (b : bytes) : option A := '(t, _) ← Decode b; decode t.

(** ** Requests *)

Definition decode_pull (t : jtree) : option HLC :=
  decode_struct (fun k t since => if is_field "since" k then decode_hlc t since else Some since) t HLC_zero.
(** [{"changes": ...}], of a push and of a frame *)
Definition changes_field (name : string) (k : bytes) (t : jtree) (old : list NellRecord) : option (list NellRecord) :=
  if is_field name k then decode_slice decode_record t else Some old.
Definition decode_changes (t : jtree) : option (list NellRecord) := decode_struct (changes_field "changes") t [].
Definition decode_vector (t : jtree) (old : gmap string HLC) : option (gmap string HLC) :=
  match t with JNull => Some ∅ | _ => (fun kv => kv ∪ old) <$> decode_kv t end.
Definition check_field (k : bytes) (t : jtree) (p : string * checkReq) : option (string * checkReq) :=
  let '(sender, mkCheckReq vector limit cursor) := p in
  if is_field "sender_node_id" k then (fun x => (x, mkCheckReq vector limit cursor)) <$> decode_string t sender
  else if is_field "vector" k then (fun x => (sender, mkCheckReq x limit cursor)) <$> decode_vector t vector
  else if is_field "limit" k then (fun x => (sender, mkCheckReq vector x cursor)) <$> decode_int 64 t limit
  else if is_field "cursor" k then (fun x => (sender, mkCheckReq vector limit x)) <$> decode_string t cursor
  else Some p.
Definition decode_check (t : jtree) : option checkReq := snd <$> decode_struct check_field t ("", mkCheckReq ∅ 0 "").

(** ** Responses and frames *)

(** A member of a [map[string]any]; the encoder sorts them. *)
Definition member (name : string) (t : jtree) : bytes * jtree := (str_bytes name, t).
Definition jstr (s : string) : jtree := JStr (str_bytes s).
Definition jint (z : Z) : jtree := JNum (int_number z).
Definition records_tree (rs : list NellRecord) : option jtree := JArr <$> all_some (map record_tree rs).
Definition changes_tree (rs : list NellRecord) : option jtree := (fun t => JObj [member "changes" t]) <$> records_tree rs.

Definition http_error (status : Z) : Z * bytes :=
  (status, str_bytes (if status =? 405 then "method not allowed" else if status =? 413 then "request body too large"
                      else if status =? 400 then "bad request" else "internal error") ++ [to_byte 10]).
(** [writeJSON]: a value that cannot be marshalled is an internal error. *)
Definition writeJSON (status : Z) (v : option jtree) : Z * bytes :=
  match v with Some t => (status, print_tree t) | None => http_error 500 end.
(** The status and body of a response; [handleHealth] without a mesh manager. *)
Definition respond (r : response) : Z * bytes :=
  match r with
  | RespError status => http_error status
  | RespChanges changes => writeJSON 200 (changes_tree changes)
  | RespAccepted accepted total => writeJSON 200 (Some (JObj [member "accepted" (jint accepted); member "total" (jint total)]))
  | RespCheck receiver missing next_cursor has_more =>
      writeJSON 200 ((fun t => JObj [member "has_more" (JBool has_more); member "missing_changes" t; member "next_cursor" (jstr next_cursor);
                                     member "receiver_node_id" (jstr receiver)])
                     <$> match missing with [] => Some JNull | _ => records_tree missing end)
  | RespBytes b => (200, b)
  | RespHealth node_id => writeJSON 200 (Some (JObj [member "node_id" (jstr node_id); member "status" (jstr "ok")]))
  | RespReady node_id doc_count =>
      writeJSON 200 (Some (JObj [member "doc_count" (jint doc_count); member "node_id" (jstr node_id); member "status" (jstr "ready")]))
  end.
(** [conn.WriteJSON]: a message, with the line end of [json.Encoder]; none on an error. *)
Definition frame_text (changes : list NellRecord) : option bytes :=
  (fun t => print_tree t ++ [to_byte 10]) <$> changes_tree changes.

Section handlers.
Context {St : Type} `{StoreOps St}.
Implicit Types s : Server St.

Definition handlePull_wire (method : string) (body : bytes) (col : string) s : Server St * (Z * bytes) :=
  let '(s, r) := handlePull method (read_body decode_pull body) col s in (s, respond r).
Definition send_frames (msgs : list (string * list NellRecord)) : list (string * option bytes) :=
  (fun m => (m.1, frame_text m.2)) <$> msgs.
Definition handlePush_wire (method : string) (body : bytes) s : Server St * (Z * bytes) * list (string * option bytes) :=
  let '(s, r, msgs) := handlePush method (read_body decode_changes body) s in (s, respond r, send_frames msgs).
Definition handleCheck_wire (method : string) (body : bytes) (all : list NellRecord) s : res Empty_set (Z * bytes) :=
  r ← handleCheck method (read_body decode_check body) all s; Ok (respond r).
(** A frame a peer sent; none when [ReadJSON] fails, which ends the connection. *)
Definition ws_frame (frame : bytes) s : option (Server St * list (string * option bytes)) :=
  changes ← read_json decode_changes frame;
  let '(s, msgs) := ws_message changes s in Some (s, send_frames msgs).
End handlers.

(** ** What a peer sends and reads (reconcileOneInner) *)

Definition check_request_tree (sender : string) (kv : gmap string HLC) (cursor : string) : jtree :=
  JObj ((if bool_decide (cursor = "") then [] else [member "cursor" (jstr cursor)])
    ++ [member "sender_node_id" (jstr sender); member "vector" (kv_tree kv)]).
Definition check_request (sender : string) (kv : gmap string HLC) (cursor : string) : bytes :=
  print_tree (check_request_tree sender kv cursor).
Abbreviation page := (list NellRecord * string * bool)%type.
Definition page_field (k : bytes) (t : jtree) (p : page) : option page :=
  let '(missing, next, more) := p in
  if is_field "missing_changes" k then (fun x => (x, next, more)) <$> decode_slice decode_record t
  else if is_field "next_cursor" k then (fun x => (missing, x, more)) <$> decode_string t next
  else if is_field "has_more" k then (fun x => (missing, next, x)) <$> decode_bool t more
  else Some p.
Definition decode_page (t : jtree) : option page := decode_struct page_field t ([], "", false).
(** A peer that is a [Server], asked over the wire. *)
Definition wire_peer {St} (sender : string) (all : list NellRecord) (a : Server St) (kv : gmap string HLC) (cursor : string) : option page :=
  match handleCheck_wire MethodPost (check_request sender kv cursor) all a with
  | Ok (status, body) => if status =? 200 then read_json decode_page body else None
  | _ => None
  end.

(** ** Texts read back *)

Lemma Decode_print t more : tree_ok t -> tree_depth t <= maxNestingDepth -> delimited more -> Decode (print_tree t ++ more) = Some (t, more).
Proof. intros Hok Hd Hm. unfold Decode. apply parse_print_tree; [done..| |done]. rewrite length_app. lia. Qed.
Lemma read_body_print {A} (decode : jtree -> option A) t x : tree_ok t -> tree_depth t <= maxNestingDepth -> decode t = Some x ->
  len (print_tree t) <= MaxBodyBytes -> read_body decode (print_tree t) = Ok x.
Proof.
  intros Hok Hd Hx Hl. unfold read_body, limited. rewrite (proj2 (Z.leb_le _ _) Hl), <-(app_nil_r (print_tree t)) at 1.
  rewrite Decode_print by done. by rewrite Hx.
Qed.
Lemma read_json_print {A} (decode : jtree -> option A) t more : tree_ok t -> tree_depth t <= maxNestingDepth -> delimited more ->
  read_json decode (print_tree t ++ more) = decode t.
Proof. intros. unfold read_json. by rewrite Decode_print. Qed.

Lemma records_tree_reads rs : Forall record_json rs ->
  exists t, records_tree rs = Some t /\ tree_ok t /\ tree_depth t <= 3 /\ decode_slice decode_record t = Some rs.
Proof.
  intros Hrs. destruct (all_some_map record_tree decode_record (fun t => tree_ok t /\ tree_depth t <= 2) rs id) as (ts & Hts & Hok & Hr).
  { eapply Forall_impl; [exact Hrs|]. intros r Hr. destruct (record_tree_reads r Hr) as (t & ? & ? & ? & ?). exists t. by split_and!. }
  exists (JArr ts). unfold records_tree. rewrite Hts. split_and!; [done| | |by rewrite <-(list_fmap_id rs) at 1].
  - cbn [tree_ok]. rewrite foldr_and_Forall. eapply Forall_impl; [exact Hok|]. by intros ? [? _].
  - cbn [tree_depth]. enough (foldr Z.max 0 (map tree_depth ts) <= 2) by lia. apply foldr_max_bound; [done|].
    eapply Forall_impl; [exact Hok|]. by intros ? [_ ?].
Qed.
Lemma changes_tree_reads rs : Forall record_json rs ->
  exists t, changes_tree rs = Some t /\ tree_ok t /\ tree_depth t <= maxNestingDepth /\ decode_changes t = Some rs.
Proof.
  intros Hrs. destruct (records_tree_reads rs Hrs) as (t & Ht & Hok & Hd & Hr). unfold changes_tree. rewrite Ht.
  eexists. split; [done|]. unfold member, maxNestingDepth. split_and!; [by cbn|cbn [tree_depth map foldr snd]; lia|].
  unfold decode_changes. cbn [decode_struct foldl mbind option_bind fst snd changes_field]. unfold changes_field. by field_names.
Qed.
(** A record of an infinity or a NaN cannot be sent, nor anything with it. *)
Lemma records_tree_none rs bad : bad ∈ rs -> Exists (fun w => f32_finite w = false) (Vector bad) -> records_tree rs = None.
Proof.
  intros Hin Hb. unfold records_tree. enough (all_some (map record_tree rs) = None) as -> by done.
  induction Hin as [bad rs|bad r rs Hin IH]; cbn [map all_some]; [by rewrite record_tree_none|]. rewrite IH by done. by destruct (record_tree r).
Qed.

Definition names_json (kv : gmap string HLC) : Prop := map_Forall (fun n c => json_string n = true /\ hlc_ok c) kv.
Lemma check_request_reads sender kv cursor : json_string sender = true -> json_string cursor = true -> names_json kv ->
  let t := check_request_tree sender kv cursor in
  tree_ok t /\ tree_depth t <= maxNestingDepth /\ decode_check t = Some (mkCheckReq kv 0 cursor).
Proof.
  intros Hs Hc Hkv. destruct (kv_tree_ok kv Hkv) as (Kok & Kd & Kr). unfold check_request_tree, maxNestingDepth.
  assert (decode_vector (kv_tree kv) ∅ = Some kv) as Hv.
  { unfold decode_vector. rewrite Kr. cbn [kv_tree fmap option_fmap option_map]. by rewrite map_union_empty. }
  split_and!.
  - case_bool_decide; cbn -[kv_tree]; by split_and!.
  - case_bool_decide; cbn [app tree_depth map foldr snd member jstr]; lia.
  - unfold decode_check. case_bool_decide as He; cbn [app decode_struct foldl mbind option_bind fst snd member jstr];
      repeat (progress (cbn [mbind option_bind check_field]; field_names;
        cbn [jstr decode_string fmap option_fmap option_map]; rewrite ?bytes_str_bytes, ?Hv));
      by rewrite ?He.
Qed.
Definition page_tree (receiver : string) (missing next : jtree) (more : bool) : jtree :=
  JObj [member "has_more" (JBool more); member "missing_changes" missing; member "next_cursor" next; member "receiver_node_id" (jstr receiver)].
Lemma page_reads receiver missing next more : json_string receiver = true -> json_string next = true -> Forall record_json missing ->
  exists body, respond (RespCheck receiver missing next more) = (200, body) /\ read_json decode_page body = Some (missing, next, more).
Proof.
  intros Hr Hn Hm.
  assert (exists t, match missing with [] => Some JNull | _ => records_tree missing end = Some t /\ tree_ok t /\ tree_depth t <= 3 /\
    decode_slice decode_record t = Some missing) as (t & Ht & Hok & Hd & Hdec).
  { destruct missing as [|r rs]; [by exists JNull|]. by apply records_tree_reads. }
  exists (print_tree (page_tree receiver t (jstr next) more)). unfold respond. rewrite Ht. split; [done|].
  rewrite <-(app_nil_r (print_tree _)), read_json_print; [|by cbn; split_and!|unfold page_tree, maxNestingDepth; cbn [tree_depth map foldr snd member jstr]; lia|done].
  unfold decode_page, page_tree. cbn [decode_struct foldl fst snd member jstr].
  repeat (progress (cbn [mbind option_bind page_field]; field_names;
        cbn [jstr decode_string decode_bool fmap option_fmap option_map]; rewrite ?bytes_str_bytes, ?Hdec)). done.
Qed.

(** ** The size of a request *)

Definition name_size (n : string) : Z := 6 * strlen n + 150.
Definition names_size (l : list string) : Z := foldr (fun n acc => name_size n + acc) 0 l.
Lemma escape_char_size c : len (escape_char c) <= 6.
Proof. unfold escape_char. repeat case_match; done. Qed.
Lemma escape_size fuel : forall b, len (escape fuel b) <= 6 * len b.
Proof.
  induction fuel as [|fuel IH]; intros [|c b]; cbn [escape]; try (unfold len; cbn; lia).
  destruct (of_byte c <? 128) eqn:Hc.
  { rewrite len_app. pose proof (escape_char_size c). pose proof (IH b). unfold len in *. cbn [length] in *. lia. }
  destruct (DecodeRune (c :: b)) as [n|] eqn:Hn.
  - destruct (DecodeRune_app _ _ [] Hn) as [_ Hpos]. rewrite len_app. pose proof (IH (drop n (c :: b))) as Hd.
    assert (len (c :: b) = len (take n (c :: b)) + len (drop n (c :: b))) as -> by by rewrite <-len_app, take_drop.
    assert (1 <= len (take n (c :: b))) as Ht by (destruct n; [lia|]; unfold len; cbn [take length]; lia).
    repeat case_bool_decide; unfold backslash_u; unfold len in *; cbn [length concat fmap list_fmap app] in *; lia.
  - rewrite len_app. pose proof (IH b). unfold backslash_u. unfold len in *. cbn [length concat fmap list_fmap app] in *. lia.
Qed.
Lemma print_string_size s : len (print_string (str_bytes s)) <= 6 * strlen s + 2.
Proof.
  unfold print_string. pose proof (escape_size (length (str_bytes s)) (str_bytes s)) as He. rewrite len_str_bytes in He.
  unfold len in *. cbn [length]. rewrite length_app. cbn [length]. lia.
Qed.
Lemma int_number_size z k : 0 < k -> in_s k z -> len (print_number (int_number z)) <= k + 1.
Proof.
  intros Hk Hz. unfold in_s in Hz. unfold int_number, number_f, print_number. cbn [Z.leb Z.compare nm_neg nm_int nm_frac nm_exp zeros Z.to_nat replicate].
  cbn [frac_text exp_text]. rewrite !app_nil_r, len_app.
  destruct (dec_digits_spec (Z.abs z) ltac:(lia)) as (_ & _ & [_ Hl] & _).
  assert (Z.log2 (Z.abs z) <= k - 1).
  { replace (k - 1) with (Z.log2 (2 ^ (k - 1))) by (apply Z.log2_pow2; lia). apply Z.log2_le_mono. lia. }
  destruct (z <? 0); unfold len in *; cbn [length]; lia.
Qed.
Lemma hlc_tree_size c : hlc_ok c -> len (print_tree (hlc_tree c)) <= 130.
Proof.
  intros [Hw Hc]. pose proof (int_number_size _ 64 ltac:(lia) Hw). pose proof (int_number_size _ 32 ltac:(lia) Hc).
  unfold hlc_tree, len in *. cbn [print_tree map join fst snd]. repeat (cbn [length app] || rewrite length_app).
  assert (length (print_string (str_bytes "wall_time")) = 11%nat) as -> by by vm_compute.
  assert (length (print_string (str_bytes "counter")) = 9%nat) as -> by by vm_compute. lia.
Qed.
Lemma members_size (fs : list (bytes * jtree)) :
  len (join [to_byte 44] (map print_member fs)) <= foldr (fun f acc => len (print_member f) + 1 + acc) 0 fs.
Proof.
  induction fs as [|f [|g fs] IH]; cbn [map join foldr] in *; [done|unfold len in *; lia|].
  rewrite !len_app. unfold len in *. cbn [length] in *. lia.
Qed.
Lemma len_cons (c : Ascii.ascii) b : len (c :: b) = 1 + len b.
Proof. unfold len. cbn [length]. lia. Qed.
Lemma names_size_sub l k : l ⊆+ k -> names_size l <= names_size k.
Proof.
  assert (forall x, 0 <= name_size x) as H0 by (intros; unfold name_size, strlen; lia).
  induction 1; cbn [names_size foldr] in *; unfold names_size in *; try lia.
  pose proof (H0 x). lia.
Qed.
Lemma kv_tree_size kv l : map_Forall (fun _ => hlc_ok) kv -> (forall n, is_Some (kv !! n) -> n ∈ l) ->
  len (print_tree (kv_tree kv)) <= names_size l + 2.
Proof.
  intros Hok Hl. unfold kv_tree. cbn [print_tree]. rewrite len_cons, len_app, len_cons. change (len []) with 0.
  set (fs := (fun p : string * HLC => (str_bytes p.1, hlc_tree p.2)) <$> sorted_fields kv).
  change (fun f : bytes * jtree => print_string f.1 ++ to_byte 58 :: print_tree f.2) with print_member.
  pose proof (members_size fs) as Hm. enough (foldr (fun f acc => len (print_member f) + 1 + acc) 0 fs <= names_size (sorted_fields kv).*1) as H1.
  { enough ((sorted_fields kv).*1 ⊆+ l) as H2%names_size_sub by lia. apply NoDup_submseteq.
    - rewrite sorted_fields_perm. apply NoDup_fst_map_to_list.
    - intros n (p & -> & Hp)%list_elem_of_fmap. apply Hl. rewrite sorted_fields_perm in Hp. destruct p as [n c].
      apply elem_of_map_to_list in Hp. by eexists. }
  assert (Forall (fun p => hlc_ok p.2) (sorted_fields kv)) as Hall.
  { apply Forall_forall. intros [n c]. rewrite sorted_fields_perm, elem_of_map_to_list. apply Hok. }
  unfold fs. clear -Hall. induction Hall as [|[n c] ps Hc _ IH]; [done|]. cbn [fmap list_fmap foldr names_size] in *.
  unfold names_size in IH. unfold print_member at 1. cbn [fst snd]. rewrite len_app, len_cons.
  pose proof (print_string_size n). pose proof (hlc_tree_size c Hc). unfold name_size at 1. lia.
Qed.
Lemma check_request_size sender kv cursor l : map_Forall (fun _ => hlc_ok) kv -> (forall n, is_Some (kv !! n) -> n ∈ l) ->
  len (check_request sender kv cursor) <= names_size l + 6 * (strlen sender + strlen cursor) + 100.
Proof.
  intros Hok Hl. pose proof (kv_tree_size kv l Hok Hl). pose proof (print_string_size sender). pose proof (print_string_size cursor).
  assert (0 <= strlen cursor) by (unfold strlen; lia).
  unfold check_request, check_request_tree. cbn [print_tree]. rewrite len_cons, len_app, len_cons. change (len []) with 0.
  change (fun f : bytes * jtree => print_string f.1 ++ to_byte 58 :: print_tree f.2) with print_member.
  match goal with |- context [join _ (map print_member ?fs)] => pose proof (members_size fs) as Hm; set (fs0 := fs) in * end.
  assert (len (print_string (str_bytes "cursor")) = 8) by by vm_compute. assert (len (print_string (str_bytes "sender_node_id")) = 16) by by vm_compute.
  assert (len (print_string (str_bytes "vector")) = 8) by by vm_compute.
  enough (foldr (fun f acc => len (print_member f) + 1 + acc) 0 fs0 <= names_size l + 6 * (strlen sender + strlen cursor) + 50) by lia.
  unfold fs0. case_bool_decide; unfold member, jstr, print_member; cbn [app foldr fst snd]; rewrite !len_app, !len_cons;
    cbn [print_tree]; lia.
Qed.

(** ** Reconciling over the wire *)

(** Every request fits: [l] the names its vector can have, [ids] its cursors. *)
Definition requests_fit (sender : string) (l ids : list string) : Prop :=
  Forall (fun cursor => names_size l + 6 * (strlen sender + strlen cursor) + 100 <= MaxBodyBytes) ("" :: ids).
Lemma requests_fit_cursor sender l ids cursor : requests_fit sender l ids -> cursor ∈ "" :: ids ->
  names_size l + 6 * (strlen sender + strlen cursor) + 100 <= MaxBodyBytes.
Proof. intros Hf Hc. unfold requests_fit in Hf. rewrite Forall_forall in Hf. by apply Hf. Qed.

Section reconcile.
Context {St A : Type} `{StoreOps St, StoreOps A}.
Variables (sender : string) (all : list NellRecord) (a : Server A) (l : list string).
Hypotheses (Hsender : json_string sender = true) (Hnode : json_string (srv_nodeID a) = true) (Hall : Forall record_json all)
  (Hauthors : (UpdatedBy <$> all) ⊆ l) (Hfit : requests_fit sender l (ID <$> all)).

(** A vector of known names. *)
Definition known_names (kv : gmap string HLC) : Prop := names_json kv /\ forall n, is_Some (kv !! n) -> n ∈ l.

Lemma wire_page kv cursor : known_names kv -> cursor ∈ "" :: (ID <$> all) ->
  wire_peer sender all a kv cursor = check_peer all a kv cursor /\
  forall missing next more, check_peer all a kv cursor = Some (missing, next, more) ->
    (forall r, r ∈ missing -> r ∈ all) /\ next ∈ "" :: (ID <$> all).
Proof.
  intros [Hkv Hn] Hc. unfold wire_peer, check_peer, handleCheck_wire.
  assert (forall x, x ∈ "" :: (ID <$> all) -> json_string x = true) as Hids.
  { intros x [->|(r & -> & Hr)%list_elem_of_fmap]%elem_of_cons; [done|]. rewrite Forall_forall in Hall. by apply Hall. }
  destruct (check_request_reads sender kv cursor Hsender (Hids _ Hc) Hkv) as (Hok & Hd & Hdec).
  assert (read_body decode_check (check_request sender kv cursor) = Ok (mkCheckReq kv 0 cursor)) as ->.
  { apply read_body_print; [done..|]. eapply Z.le_trans; [apply (check_request_size sender kv cursor l)|by eapply requests_fit_cursor].
    - intros n c Hnc. by apply (Hkv n c).
    - done. }
  unfold handleCheck. rewrite bool_decide_true by done. cbn [negb ck_limit ck_cursor ck_vector].
  destruct (check_page_ok (clamp 0 100 10000) cursor kv all) as (missing & next & more & -> & Hm & Ht & Hf); [by vm_compute|].
  cbn [mbind res_bind].
  assert (forall r, r ∈ missing -> r ∈ all) as Hsub.
  { intros r Hr. rewrite Hm in Hr. by apply check_loop_sub in Hr as [Hr%not_elem_of_nil|[Hr _]]. }
  assert (next ∈ "" :: (ID <$> all)) as Hnext.
  { destruct more; [|rewrite Hf by done; by left]. destruct (Ht eq_refl) as (_ & r & Hr%last_Some_elem_of & ->).
    right. apply list_elem_of_fmap. eauto. }
  split; [|by intros ??? [= <- <- <-]].
  destruct (page_reads (srv_nodeID a) missing next more Hnode (Hids _ Hnext)) as (body & -> & Hread).
  { rewrite Forall_forall in Hall |- *. auto. }
  by rewrite Hread.
Qed.
Lemma see_all_known rs kv : known_names kv -> (forall r, r ∈ rs -> r ∈ all) -> known_names (see_all rs kv).
Proof.
  intros [Hkv Hn] Hrs. rewrite Forall_forall in Hall. split.
  - intros n c [Hc|(r & Hr & <- & <-)]%see_all_from; [by apply Hkv|]. apply Hrs, Hall in Hr as ((_ & _ & _ & ?) & _ & ?). done.
  - intros n [c [Hc|(r & Hr & <- & _)]%see_all_from]; [by apply Hn; eexists|]. apply Hauthors, list_elem_of_fmap. eauto.
Qed.
Lemma wire_follow fuel : forall more cursor (s : Server St), known_names (srv_kv s) -> cursor ∈ "" :: (ID <$> all) ->
  follow_pages (wire_peer sender all a) fuel more cursor s = follow_pages (check_peer all a) fuel more cursor s.
Proof.
  induction fuel as [|fuel IH]; intros more cursor s Hs Hc; cbn [follow_pages]; [done|]. destruct (more && _); [|done].
  destruct (wire_page (knowledgeVector s) cursor Hs Hc) as [-> Hpage].
  destruct (check_peer all a (knowledgeVector s) cursor) as [[[missing next] more']|]; [|done].
  destruct (Hpage _ _ _ eq_refl) as [Hsub Hnext]. destruct (ingest_page missing s) as [s' [|]] eqn:Hi; [|done].
  apply IH; [|done]. rewrite (ingest_page_kv _ _ _ Hi). by apply see_all_known.
Qed.
Lemma wire_reconcile_agrees fuel tracked (s : Server St) : known_names (srv_kv s) ->
  reconcileOneInner (wire_peer sender all a) fuel tracked s = reconcileOneInner (check_peer all a) fuel tracked s.
Proof.
  intros Hs. unfold reconcileOneInner. destruct (match tracked with Some p => negb (isActive p) | None => false end); [done|].
  destruct (wire_page (knowledgeVector s) "" Hs ltac:(left)) as [-> Hpage].
  destruct (check_peer all a (knowledgeVector s) "") as [[[missing next] more']|]; [|done].
  destruct (Hpage _ _ _ eq_refl) as [Hsub Hnext]. destruct (ingest_page missing s) as [s' [|]] eqn:Hi; [|done].
  apply wire_follow; [|done]. rewrite (ingest_page_kv _ _ _ Hi). by apply see_all_known.
Qed.
End reconcile.

(** ** Properties *)

(** C12. The formats of the protocol agree on bytes: a batch sent as a JSON push, as a WebSocket
    message, or as a binary stream leaves the server in the same state; the JSON answer says
    how many records won and how many came, the binary one how many won; and every frame
    broadcast to a connected peer reads back as the records that were sent. *)
Theorem push_formats_agree {St} `{StoreLaws St} (s : Server St) rs :
  st_inv (srv_store s) -> puts_ok rs (srv_store s) -> Forall record_json rs -> Forall record_ok rs ->
  Forall (fun r => in_u 32 (len (layout r))) rs ->
  (forall t, changes_tree rs = Some t -> len (print_tree t) <= MaxBodyBytes) ->
  exists text, frame_text rs = Some (text ++ [to_byte 10]) /\
  let n := wins (st_records (srv_store s)) rs in
  let '(s1, (status, body), frames) := handlePush_wire MethodPost text s in
  let '(s2, resp2, _) := handleBinPush MethodPost (concat (map bin_record rs)) s in
  s1 = s2 /\ fst <$> ws_frame text s = Some s1 /\
  status = 200 /\ body = print_tree (JObj [member "accepted" (jint n); member "total" (jint (len rs))]) /\
  resp2 = RespBytes (be_bytes 4 n) /\
  forall addr frame, (addr, frame) ∈ frames ->
    is_Some (srv_peers s !! addr) /\ (frame ≫= read_json decode_changes) = Some rs.
Proof.
  intros Is Hp Hj Hok Hlen Hsize. destruct (changes_tree_reads rs Hj) as (t & Ht & Hto & Htd & Hdec).
  exists (print_tree t). unfold frame_text at 1. rewrite Ht. split; [done|]. cbn zeta.
  assert (forall more, delimited more -> read_json decode_changes (print_tree t ++ more) = Some rs) as Hread
    by (intros more Hm; by rewrite read_json_print).
  unfold handlePush_wire. rewrite (read_body_print decode_changes t rs) by (done || by apply Hsize).
  unfold handlePush, handleBinPush, ws_frame. rewrite bool_decide_true by done. cbn [negb].
  rewrite <-(app_nil_r (print_tree t)), (Hread [] I). cbn [mbind option_bind].
  unfold ws_message. rewrite push_loop_law, ws_loop_law by done.
  rewrite <-(app_nil_r (concat _)). pose proof (bin_stream_length rs).
  rewrite (binpush_loop_law _ rs 0 0 [] s []) by (done || lia || (rewrite app_nil_r; lia)).
  cbn [fst fmap option_fmap option_map respond]. split_and!; [done|done|done|done|by rewrite be_bytes_mod by lia|].
  intros addr frame ((addr' & recs) & [= -> ->] & ([x node] & [= -> ->] & Hx)%list_elem_of_fmap)%list_elem_of_fmap.
  apply elem_of_map_to_list in Hx. split; [by eexists|].
  unfold frame_text. rewrite Ht. cbn [fmap option_fmap option_map mbind option_bind]. by apply Hread.
Qed.
Lemma push_formats_agree_witness :
  fst (fst (handleBinPush MethodPost (concat (map bin_record [demo_r1; demo_r2])) demo_server)) =
  fst (fst (handlePush_wire MethodPost (default [] (print_tree <$> changes_tree [demo_r1; demo_r2])) demo_server)).
Proof.
  destruct (push_formats_agree demo_server [demo_r1; demo_r2]) as (text & Htext & H).
  - apply (NewMemoryStore_inv 0 "B").
  - apply mem_puts_ok. vm_compute. reflexivity.
  - apply (bool_decide_unpack (Forall record_json _)). vm_compute. exact I.
  - apply (bool_decide_unpack (Forall record_ok _)). vm_compute. exact I.
  - apply (bool_decide_unpack (Forall (fun r => in_u 32 (len (layout r))) _)). vm_compute. exact I.
  - intros t Ht. assert (default [] (print_tree <$> changes_tree [demo_r1; demo_r2]) = print_tree t) as <- by (rewrite Ht; reflexivity).
    apply (bool_decide_unpack _). vm_compute. exact I.
  - assert (default [] (print_tree <$> changes_tree [demo_r1; demo_r2]) = text) as ->.
    { unfold frame_text in Htext. destruct (changes_tree [demo_r1; demo_r2]) as [t|]; [|done].
      injection Htext as Htext. by apply app_inj_tail in Htext as [<- _]. }
    cbn zeta in H. destruct (handlePush_wire MethodPost text demo_server) as [[s1 [status body]] frames].
    destruct (handleBinPush _ _ demo_server) as [[s2 resp2] sent]. cbn [fst]. symmetry. apply H.
Defined.

(** C13. One vector entry that is not finite stops the mesh: a record with an infinity or a NaN
    in its vector comes in over the binary endpoint and is accepted; from then on the server
    cannot marshal any page with that record, so a peer that is missing it gets an error
    instead of the page and takes in nothing, whatever else it is missing, and a pull from
    before the record is answered with an internal error. *)
Theorem nonfinite_blocks_mesh {St A} `{StoreOps St, StoreLaws A} (a : Server A) (b : Server St) bad :
  st_inv (srv_store a) -> st_put_ok bad (srv_store a) -> record_ok bad -> in_u 32 (len (layout bad)) ->
  Collection bad = DefaultCollection -> st_records (srv_store a) !! rkey bad = None ->
  Exists (fun w => f32_finite w = false) (Vector bad) ->
  let '(a', resp, _) := handleBinPush MethodPost (bin_record bad) a in
  resp = RespBytes (be_bytes 4 1) /\
  (forall all fuel tracked sender l, sorts clock_less (st_ListAll DefaultCollection (srv_store a')) all ->
    is_missing (knowledgeVector b) bad = true -> len (all_missing (knowledgeVector b) all) <= 100 ->
    json_string sender = true -> known_names l (knowledgeVector b) -> requests_fit sender l [] ->
    (forall p, tracked = Some p -> isActive p = true) ->
    reconcileOneInner (wire_peer sender all a') fuel tracked b = Some (b, Some ErrCheck)) /\
  forall body since, read_body decode_pull body = Ok since -> HLC_GreaterThan (Clock bad) since = true ->
    snd (handlePull_wire MethodPost body "" a') = http_error 500.
Proof.
  intros Ia Hput Hok Hlen Hcol Hnew Hbad. assert (normalize bad = bad) as Hnorm by (apply normalize_id; by rewrite Hcol).
  assert (puts_ok [bad] (srv_store a)) as Hp by by split.
  destruct (put_all_law [bad] (srv_store a) Ia Hp) as [Ia' Hm].
  unfold handleBinPush. rewrite bool_decide_true by done. cbn [negb].
  assert (bin_record bad = concat (map bin_record [bad]) ++ []) as -> by (cbn [map concat]; by rewrite !app_nil_r).
  rewrite (binpush_loop_law _ [bad] 0 0 [] a []); [|done|done|by constructor|by constructor|done|]; cycle 1.
  { pose proof (bin_stream_length [bad]). rewrite app_nil_r. cbn [length] in *. lia. }
  cbn [wins]. rewrite Hnorm, Hnew. split; [done|].
  set (a' := srv_set_store _ _). assert (st_records (srv_store a') !! rkey bad = Some bad) as Hin.
  { unfold a'. cbn [srv_set_store srv_store saw srv_set_kv]. rewrite Hm. cbn [map merge foldl fmap list_fmap]. rewrite Hnorm.
    unfold merge. cbn [foldl]. unfold put_record. rewrite Hnew. by rewrite lookup_insert_eq. }
  assert (st_inv (srv_store a')) as I' by done. clearbody a'. split.
  - intros all fuel tracked sender l [Hall _] Hmiss Hpage Hsender Hnames Hfit Ht.
    assert (bad ∈ all_missing (knowledgeVector b) all) as Hbm.
    { apply list_elem_of_filter. split; [done|]. rewrite Hall. apply (st_listall_law _ _ I'). by rewrite Hcol. }
    unfold reconcileOneInner.
    replace (match tracked with Some p => negb (isActive p) | None => false end) with false
      by (destruct tracked as [p|]; [by rewrite (Ht p eq_refl)|done]).
    enough (wire_peer sender all a' (knowledgeVector b) "" = None) as -> by done.
    unfold wire_peer, handleCheck_wire.
    destruct (check_request_reads sender (knowledgeVector b) "" Hsender eq_refl (proj1 Hnames)) as (To & Td & Tdec).
    unfold check_request at 1. rewrite (read_body_print decode_check _ _ To Td Tdec); cycle 1.
    { eapply Z.le_trans; [apply (check_request_size sender _ "" l)|by eapply requests_fit_cursor, list_elem_of_here].
      - intros n c Hc. by apply (proj1 Hnames n c).
      - apply Hnames. }
    unfold handleCheck. rewrite bool_decide_true by done. cbn [negb ck_limit ck_cursor ck_vector].
    destruct (check_page_first (clamp 0 100 10000) (knowledgeVector b) all) as (next & more & ->); [done|exact Hpage|].
    cbn [mbind res_bind respond]. rewrite (records_tree_none _ bad) by done.
    by destruct (all_missing _ _) as [|]; [apply not_elem_of_nil in Hbm|].
  - intros body since Hb Hgt. unfold handlePull_wire, handlePull. rewrite bool_decide_true, Hb by done. cbn [negb].
    destruct (st_changes_law since _ I') as (_ & _ & Hch). destruct (st_GetChangesSince since (srv_store a')) as [st ch].
    cbn [snd respond] in *. unfold changes_tree. rewrite (records_tree_none _ bad); [done| |done].
    apply list_elem_of_filter. split; [done|]. by apply Hch.
Qed.
Definition nan_record : NellRecord := mkRecord DefaultCollection "1" "vector" [] [2143289344] (mkHLC 1 0) "X" false.
Definition other_server : Server MemoryStore := Server_New (NewMemoryStore 0 "C") "C" (Some ∅).
Lemma nonfinite_blocks_mesh_witness :
  let a' := fst (fst (handleBinPush MethodPost (bin_record nan_record) demo_server)) in
  reconcileOneInner (wire_peer "C" [nan_record] a') 10 None other_server = Some (other_server, Some ErrCheck).
Proof.
  cbn zeta. assert (st_ListAll DefaultCollection (srv_store (fst (fst (handleBinPush MethodPost (bin_record nan_record) demo_server)))) = [nan_record]) as Hl
    by (vm_compute; reflexivity).
  pose proof (nonfinite_blocks_mesh demo_server other_server nan_record) as H.
  destruct (handleBinPush MethodPost (bin_record nan_record) demo_server) as [[a' resp] sent]. cbn [fst] in *.
  apply H with (l := []).
  - apply (NewMemoryStore_inv 0 "B").
  - split; apply (bool_decide_unpack _); vm_compute; exact I.
  - apply (bool_decide_unpack (record_ok _)). vm_compute. exact I.
  - apply (bool_decide_unpack (in_u 32 _)). vm_compute. exact I.
  - reflexivity.
  - vm_compute. reflexivity.
  - constructor. vm_compute. reflexivity.
  - rewrite Hl. split; [reflexivity|]. constructor; constructor.
  - vm_compute. reflexivity.
  - apply (bool_decide_unpack _). vm_compute. exact I.
  - reflexivity.
  - split; [intros n c Hc|intros n [c Hc]]; vm_compute in Hc; discriminate Hc.
  - repeat constructor; apply (bool_decide_unpack _); vm_compute; exact I.
  - intros p Hp. discriminate Hp.
Defined.

(** A name JSON cannot carry changes on the way: a record whose id is no valid UTF-8 comes in
    over the binary endpoint, and the peer that reconciles stores it under another id, counts
    it as seen, and never gets the one that was pushed. *)
Definition latin_record : NellRecord := mkRecord DefaultCollection (bytes_str [to_byte 255]) "text" [] [] (mkHLC 1 0) "X" false.
Lemma mesh_renames_record :
  let a := fst (fst (handleBinPush MethodPost (bin_record latin_record) demo_server)) in
  match reconcileOneInner (wire_peer "C" (st_ListAll DefaultCollection (srv_store a)) a) 10 None other_server with
  | Some (b, None) =>
      st_Get DefaultCollection (ID latin_record) (srv_store a) = Ok latin_record /\
      st_Get DefaultCollection (ID latin_record) (srv_store b) = Err ErrRecordNotFound /\
      st_Get DefaultCollection (bytes_str rune_error) (srv_store b) <> Err ErrRecordNotFound /\
      is_missing (knowledgeVector b) latin_record = false
  | _ => False
  end.
Proof. vm_compute. repeat split; discriminate. Qed.
