(* ===== verification/Pages.v ===== *)
(** * Reconciliations of many pages (server/peer.go against server/main.go)

    When the loop of [reconcileOneInner] over [handleCheck]'s pages takes in all that the
    peer lists and the caller misses: when that fits one page, or when the ids of what is
    missing ascend with the clocks, as the cursor, an id, supposes of a listing sorted by clock. *)
From S2P Require Import Prelude Hlc Record KnowledgeVector Conflict GoSort MemStore StoreApi Server Mesh.

(** A peer some of whose answers are lost: those to requests with a cursor of [lost]. *)
Definition lossy {A} (lost : list string) (peer : gmap string HLC -> string -> option A) (kv : gmap string HLC) (cursor : string) : option A :=
  if bool_decide (cursor ∈ lost) then None else peer kv cursor.

Definition id_lt (r s : NellRecord) : Prop := str_ltb (ID r) (ID s) = true.
#[export] Instance id_lt_dec : RelDecision id_lt.
Proof. intros r s. unfold id_lt. apply _. Defined.
(** What is missing, in clock order, fits a page, or its ids ascend. *)
Definition whole_pages (missing : list NellRecord) : Prop := (len missing <= 100)%Z \/ StronglySorted id_lt missing.

(** ** One page *)

Lemma check_loop_skip limit cursor kv all : forall missing,
  (0 <= limit)%Z -> (len missing <= limit)%Z -> (forall r, r ∈ all_missing kv all -> str_ltb cursor (ID r) = true) ->
  check_loop limit cursor kv all false missing = missing ++ take (Z.to_nat limit - length missing) (all_missing kv all).
Proof.
  induction all as [|x all IH]; intros missing Hl Hm Hc; [cbn; by rewrite take_nil, app_nil_r|].
  rewrite <-(check_loop_past limit cursor kv) by done. cbn [check_loop negb andb]. unfold str_leb. destruct (str_ltb cursor (ID x)) eqn:Hx; cbn [negb]; [done|].
  assert (is_missing kv x = false) as Hk.
  { destruct (is_missing kv x) eqn:Hk; [|done]. rewrite (Hc x) in Hx; [done|]. apply list_elem_of_filter. split; [done|by left]. }
  rewrite IH, <-(check_loop_past limit cursor kv) by (done || (intros r Hr; apply Hc; unfold all_missing; rewrite filter_cons_False by congruence; done)).
  rewrite Hk. destruct (Z.leb_spec limit (len missing)) as [Hf|Hf]; [|done].
  rewrite check_loop_past by done. replace (Z.to_nat limit - length missing)%nat with 0%nat by (unfold len in *; lia). by rewrite app_nil_r.
Qed.
Lemma sorted_last_lt l k x y : StronglySorted id_lt l -> last (take k l) = Some x -> y ∈ drop k l -> id_lt x y.
Proof.
  intros Hs Hx Hy. rewrite <-(take_drop k l) in Hs. apply StronglySorted_app in Hs as (Hlt & _ & _). apply Hlt; [|done].
  by apply last_Some_elem_of.
Qed.
Lemma sorted_last_ge l x y : StronglySorted id_lt l -> last l = Some x -> y ∈ l -> str_leb (ID y) (ID x) = true.
Proof.
  intros Hs Hx Hy. unfold str_leb. apply last_Some in Hx as [l' ->]. apply StronglySorted_app in Hs as (Hlt & _ & _).
  apply elem_of_app in Hy as [Hy|Hy%list_elem_of_singleton]; [|subst; by rewrite str_ltb_irrefl].
  assert (id_lt y x) as Hyx by (apply Hlt; [done|by apply list_elem_of_singleton]). by rewrite (str_ltb_asym _ _ Hyx).
Qed.
(** In a sorted list of more than one, the last id is not empty. *)
Lemma sorted_last_named l x : StronglySorted id_lt l -> (1 < length l)%nat -> last l = Some x -> ID x <> "".
Proof.
  intros Hs Hl Hx. destruct l as [|y [|z l]]; [cbn in Hl; lia..|]. intros He. apply last_Some in Hx as [l' Hx].
  rewrite Hx in Hs. apply StronglySorted_app in Hs as (Hlt & _ & _). destruct l' as [|y' l']; [by destruct l|].
  assert (id_lt y' x) as Hyx by (apply Hlt; [by left|by apply list_elem_of_singleton]). unfold id_lt in Hyx. rewrite He in Hyx. by destruct (ID y').
Qed.

(** A page with a cursor all of whose missing records are past it: the first hundred of
    them, and a promise of more, with a cursor that the rest is past, just when there are more. *)
Lemma check_page_whole limit cursor kv all : (1 < limit)%Z -> StronglySorted id_lt (all_missing kv all) ->
  cursor = "" \/ (forall r, r ∈ all_missing kv all -> str_ltb cursor (ID r) = true) ->
  exists next more, check_page limit cursor kv all = Ok (take (Z.to_nat limit) (all_missing kv all), next, more) /\
    (more && negb (bool_decide (next = "")) = false -> drop (Z.to_nat limit) (all_missing kv all) = []) /\
    (more = true -> forall r, r ∈ drop (Z.to_nat limit) (all_missing kv all) -> str_ltb next (ID r) = true).
Proof.
  intros Hl Hs Hc. set (M := all_missing kv all) in *. unfold check_page.
  assert (check_loop limit cursor kv all (bool_decide (cursor = "")) [] = take (Z.to_nat limit) M) as ->.
  { destruct Hc as [->|Hc]; [rewrite check_loop_past; [|lia|unfold len; cbn; lia]; cbn [length app]; by rewrite Nat.sub_0_r|].
    case_bool_decide; [rewrite check_loop_past; [|lia|unfold len; cbn; lia]|rewrite check_loop_skip; [|lia|unfold len; cbn; lia|done]];
      cbn [length app]; by rewrite Nat.sub_0_r. }
  unfold check_hasMore, len. rewrite length_take. destruct (Z.leb_spec limit (Z.of_nat (Z.to_nat limit `min` length M))) as [Hf|Hf].
  2: { rewrite bind_ok. cbn [andb]. rewrite bind_ok. exists "", false. split_and!; [done| |done]. intros _. apply drop_ge. lia. }
  destruct (last (take (Z.to_nat limit) M)) as [x|] eqn:Hx; [|apply last_None in Hx; apply (f_equal length) in Hx; rewrite length_take in Hx; cbn in Hx; lia].
  assert (@last_id Empty_set (take (Z.to_nat limit) M) = Ok (ID x)) as Hlid by (unfold last_id; by rewrite Hx).
  rewrite Hlid, !bind_ok. set (more := existsb _ all).
  assert (StronglySorted id_lt (take (Z.to_nat limit) M)) as Hst by (rewrite <-(take_drop (Z.to_nat limit) M) in Hs; by apply StronglySorted_app in Hs as (_ & ? & _)).
  assert (more = true <-> exists r, r ∈ drop (Z.to_nat limit) M) as Hmore.
  { unfold more. rewrite existsb_exists. split.
    - intros (r & Hr%list_elem_of_In & [Hlt Hk]%andb_true_iff). exists r.
      assert (r ∈ M) as Hin by (by apply list_elem_of_filter). rewrite <-(take_drop (Z.to_nat limit) M) in Hin. apply elem_of_app in Hin as [Hin|Hin]; [|done].
      rewrite (sorted_last_ge _ _ _ Hst Hx Hin) in Hlt. done.
    - intros (r & Hr). exists r. pose proof (sorted_last_lt _ _ _ _ Hs Hx Hr) as Hlt.
      assert (r ∈ M) as [Hk Hin]%list_elem_of_filter by (rewrite <-(take_drop (Z.to_nat limit) M); apply elem_of_app; by right).
      split; [by apply list_elem_of_In|]. unfold str_leb. unfold id_lt in Hlt. by rewrite Hlt, Hk. }
  assert (ID x <> "") as Hne by (apply (sorted_last_named _ _ Hst); [rewrite length_take; lia|done]).
  destruct more; cbn [andb].
  - rewrite (proj2 (Z.ltb_lt 0 _)) by lia. rewrite bind_ok. exists (ID x), true. split_and!; [done|by rewrite bool_decide_false|].
    intros _ r Hr. by apply (sorted_last_lt M (Z.to_nat limit)).
  - rewrite bind_ok. exists "", false. split_and!; [done| |done]. intros _. destruct (drop _ M) as [|r l]; [done|].
    assert (false = true) by (apply Hmore; exists r; by left). done.
Qed.

(** ** What is missing after a page *)

(** What a server's listing of records with distinct stamps is, sorted. *)
Record listing_ok (all : list NellRecord) : Prop := {
  lo_sorted : StronglySorted (not_less clock_less) all;
  lo_nodup : NoDup all;
  lo_stamp : forall x y, x ∈ all -> y ∈ all -> stamp x = stamp y -> x = y
}.
Lemma all_missing_again kv kv' all : (forall r, is_missing kv' r = true -> is_missing kv r = true) ->
  all_missing kv' all = filter (fun r => is_missing kv' r = true) (all_missing kv all).
Proof.
  intros Hm. unfold all_missing. symmetry. by apply list_filter_filter_l.
Qed.
Lemma all_missing_page all kv n : listing_ok all -> all_missing (see_all (take n (all_missing kv all)) kv) all = drop n (all_missing kv all).
Proof.
  intros L. set (M := all_missing kv all).
  assert (StronglySorted (not_less clock_less) M) as Hs by (apply StronglySorted_filter; apply L).
  assert (NoDup M) as Hnd by (apply NoDup_filter; apply L).
  assert (forall r, r ∈ M -> r ∈ all /\ is_missing kv r = true) as HM by (intros r [? ?]%list_elem_of_filter; done).
  rewrite (all_missing_again kv) by (intros r; apply is_missing_mono). fold M.
  rewrite <-(take_drop n M) in Hs, Hnd. apply StronglySorted_app in Hs as (Hlt & _ & _). apply NoDup_app in Hnd as (_ & Hnd & _).
  transitivity (filter (fun r => is_missing (see_all (take n M) kv) r = true) (take n M ++ drop n M)); [by rewrite take_drop|]. rewrite filter_app.
  assert (filter (fun r => is_missing (see_all (take n M) kv) r = true) (take n M) = []) as ->.
  { apply filter_true_none, Forall_forall. intros r Hr. by apply is_missing_false, see_all_covers. }
  cbn [app]. apply filter_true_all, Forall_forall. intros r Hr. destruct (is_missing (see_all (take n M) kv) r) eqn:Hk; [done|]. exfalso.
  assert (r ∈ M) as [Hin Hrm]%HM by (rewrite <-(take_drop n M); apply elem_of_app; by right).
  apply is_missing_false in Hk as (c & [Hc|(x & Hx & Hu & <-)]%see_all_from & Hle).
  - assert (is_missing kv r = false) by (apply is_missing_false; by exists c). congruence.
  - assert (x ∈ M) as [Hxin _]%HM by (rewrite <-(take_drop n M); apply elem_of_app; by left).
    assert (stamp x = stamp r) as Hst; [|apply (lo_stamp _ L) in Hst; [subst; by apply (Hnd r)|done..]].
    unfold stamp. rewrite Hu. f_equal. apply (anti_symm hlc_le); [|done]. apply (Hlt x r Hx Hr).
Qed.

(** ** Taking in a peer's pages *)

Section pages.
Context {St A : Type} `{StoreLaws St, StoreOps A}.

Lemma ingest_page_law missing : forall s : Server St,
  st_inv (srv_store s) -> puts_ok missing (srv_store s) ->
  ingest_page missing s = (srv_set_store (put_all missing (srv_store s)) (saw missing s), true).
Proof.
  induction missing as [|r rs IH]; intros s I; cbn [ingest_page puts_ok]; [by destruct s|].
  intros [Hr Hrs]. destruct (st_put_law _ r I Hr) as (st & acc & w & He & I' & _).
  rewrite He in *. cbn [fst] in Hrs. rewrite (IH (recordSeen r (srv_set_store st s)) I' Hrs).
  unfold saw, see_all, put_all. cbn. by rewrite He.
Qed.
(** Taking in records: the store is merged, the vector has seen them. *)
Definition took (rs : list NellRecord) (s : Server St) : Server St :=
  srv_set_store (put_all rs (srv_store s)) (saw rs s).
Lemma took_app rs1 rs2 (s : Server St) : took (rs1 ++ rs2) s = took rs2 (took rs1 s).
Proof. unfold took, put_all, saw, see_all. cbn. by rewrite !foldl_app. Qed.
Lemma puts_ok_app rs1 rs2 : forall s : St, puts_ok (rs1 ++ rs2) s <-> puts_ok rs1 s /\ puts_ok rs2 (put_all rs1 s).
Proof.
  induction rs1 as [|r rs IH]; intros s; cbn [app puts_ok]; [unfold put_all; cbn; tauto|]. rewrite IH. unfold put_all. cbn [foldl]. tauto.
Qed.

(** With everything seen, no page follows. *)
Lemma follow_pages_seen all (a : Server A) fuel more cursor (s s' : Server St) err :
  all_missing (srv_kv s) all = [] ->
  follow_pages (check_peer all a) fuel more cursor s = Some (s', err) -> s' = s /\ err = None.
Proof.
  intros Hm. destruct fuel as [|fuel]; [done|]. cbn [follow_pages].
  destruct (more && _); [|by intros [= <- <-]].
  destruct (check_peer_page all a (knowledgeVector s) cursor) as (missing & next & more' & -> & Hin & Hmore).
  assert (missing = []) as ->.
  { destruct missing as [|r rs]; [done|]. destruct (Hin r ltac:(left)) as [Hr Hk].
    assert (r ∈ all_missing (srv_kv s) all) as Hx by (by apply list_elem_of_filter).
    rewrite Hm in Hx. by apply not_elem_of_nil in Hx. }
  destruct more'; [destruct (Hmore eq_refl) as (r & Hr); by apply not_elem_of_nil in Hr|].
  cbn [ingest_page]. destruct fuel as [|fuel]; [done|]. by intros [= <- <-].
Qed.
Lemma all_missing_seen all kv : all_missing (see_all (all_missing kv all) kv) all = [].
Proof.
  destruct (all_missing (see_all _ kv) all) as [|r rs] eqn:He; [done|].
  assert (r ∈ all_missing (see_all (all_missing kv all) kv) all) as Hr by (rewrite He; left).
  apply list_elem_of_filter in Hr as [Hm Hr]. pose proof (is_missing_mono _ _ _ Hm) as Hk.
  assert (is_missing (see_all (all_missing kv all) kv) r = false) as Hs; [|congruence].
  apply is_missing_false, see_all_covers. by apply list_elem_of_filter.
Qed.

(** A page, wherever the cursor is before what is missing, and what it leaves. *)
Lemma page_step all (a : Server A) cursor (b : Server St) :
  let M := all_missing (srv_kv b) all in
  st_inv (srv_store b) -> listing_ok all -> StronglySorted id_lt M -> puts_ok M (srv_store b) ->
  cursor = "" \/ (forall r, r ∈ M -> str_ltb cursor (ID r) = true) ->
  exists next more, let b1 := took (take 100 M) b in
    check_peer all a (knowledgeVector b) cursor = Some (take 100 M, next, more) /\ ingest_page (take 100 M) b = (b1, true) /\
    st_inv (srv_store b1) /\ all_missing (srv_kv b1) all = drop 100 M /\ StronglySorted id_lt (drop 100 M) /\ puts_ok (drop 100 M) (srv_store b1) /\
    (more && negb (bool_decide (next = "")) = false -> drop 100 M = []) /\
    (more = true -> forall r, r ∈ drop 100 M -> str_ltb next (ID r) = true).
Proof.
  intros M I L Hs Hp Hc. destruct (check_page_whole 100 cursor (knowledgeVector b) all) as (next & more & He & Hend & Hnext); [done..|].
  change (Z.to_nat 100) with 100%nat in *. fold M in He, Hend, Hnext. exists next, more. intros b1.
  rewrite <-(take_drop 100 M) in Hp. apply puts_ok_app in Hp as [Hp1 Hp2]. split_and!.
  - unfold check_peer, handleCheck. rewrite bool_decide_true by done. cbn [negb ck_limit ck_cursor ck_vector]. change (clamp 0 100 10000) with 100%Z.
    by rewrite He, bind_ok.
  - by apply ingest_page_law.
  - by apply put_all_law.
  - by apply all_missing_page.
  - rewrite <-(take_drop 100 M) in Hs. by apply StronglySorted_app in Hs as (_ & _ & ?).
  - done.
  - done.
  - done.
Qed.
Lemma follow_pages_took all (a : Server A) fuel : forall more cursor (b b' : Server St) err,
  let M := all_missing (srv_kv b) all in
  st_inv (srv_store b) -> listing_ok all -> StronglySorted id_lt M -> puts_ok M (srv_store b) ->
  (more && negb (bool_decide (cursor = "")) = false -> M = []) ->
  (more = true -> forall r, r ∈ M -> str_ltb cursor (ID r) = true) ->
  follow_pages (check_peer all a) fuel more cursor b = Some (b', err) -> b' = took M b /\ err = None.
Proof.
  induction fuel as [|fuel IH]; intros more cursor b b' err M I L Hs Hp Hend Hc; [done|]. cbn [follow_pages].
  destruct (more && negb _) eqn:Hm; [|intros [= <- <-]; rewrite Hend by done; by destruct b].
  apply andb_true_iff in Hm as [Hm _]. destruct (page_step all a cursor b I L Hs Hp (or_intror (Hc Hm)))
    as (next & more' & -> & -> & I1 & Hm1 & Hs1 & Hp1 & Hend1 & Hc1). fold M in Hm1, Hs1, Hp1, Hend1, Hc1 |- *. rewrite <-Hm1 in Hs1, Hp1, Hend1, Hc1.
  intros [-> ->]%IH; [|done..]. by rewrite Hm1, <-took_app, take_drop.
Qed.
(** A reconciliation takes in what it was missing, all of it. *)
Lemma reconcile_took all (a : Server A) (b b' : Server St) fuel tracked err :
  let M := all_missing (knowledgeVector b) all in
  st_inv (srv_store b) -> listing_ok all -> whole_pages M -> puts_ok M (srv_store b) -> (forall p, tracked = Some p -> isActive p = true) ->
  reconcileOneInner (check_peer all a) fuel tracked b = Some (b', err) -> b' = took M b /\ err = None.
Proof.
  intros M I L Hw Hp Ht. unfold reconcileOneInner.
  replace (match tracked with Some p => negb (isActive p) | None => false end) with false
    by (destruct tracked as [p|]; [by rewrite (Ht p eq_refl)|done]).
  destruct Hw as [Hl|Hs].
  - unfold check_peer at 1, handleCheck. rewrite bool_decide_true by done. cbn [negb ck_limit ck_cursor ck_vector].
    destruct (check_page_first (clamp 0 100 10000) (knowledgeVector b) all) as (next & more & He); [done|exact Hl|].
    rewrite He, bind_ok. rewrite ingest_page_law by done. cbn zeta.
    apply follow_pages_seen. apply all_missing_seen.
  - destruct (page_step all a "" b I L Hs Hp (or_introl eq_refl)) as (next & more & -> & -> & I1 & Hm1 & Hs1 & Hp1 & Hend1 & Hc1).
    fold M in Hm1, Hs1, Hp1, Hend1, Hc1 |- *. rewrite <-Hm1 in Hs1, Hp1, Hend1, Hc1.
    intros [-> ->]%follow_pages_took; [|done..]. by rewrite Hm1, <-took_app, take_drop.
Qed.
(** One whose first request is lost takes in nothing. *)
Lemma reconcile_lost lost (peer : gmap string HLC -> string -> option (list NellRecord * string * bool)) fuel tracked (b b' : Server St) err :
  "" ∈ lost -> reconcileOneInner (lossy lost peer) fuel tracked b = Some (b', err) -> b' = b.
Proof. intros Hl. unfold reconcileOneInner, lossy. rewrite bool_decide_true by done. case_match; by intros [= <- _]. Qed.
End pages.

(** ** Properties *)

(** A reconciliation of many pages is complete: against a peer whose listing has one record per stamp, where
    what is missing fits a page or has ids that ascend with the clocks, it stores the merge of all that was
    missing, its vector has seen all of it, and asking again brings nothing. *)
Theorem reconcile_whole {St A} `{StoreLaws St, StoreOps A} all (a : Server A) (b : Server St) :
  let missing := all_missing (knowledgeVector b) all in
  st_inv (srv_store b) -> listing_ok all -> whole_pages missing -> puts_ok missing (srv_store b) ->
  reconcileOneInner (check_peer all a) (2 + length all) None b = Some (took missing b, None) /\
  all_missing (knowledgeVector (took missing b)) all = [].
Proof.
  intros missing I L Hw Hp. destruct (reconcile_total all a b None) as [[b' err] He]. split; [|apply all_missing_seen].
  rewrite He. by destruct (reconcile_took all a b b' (2 + length all)%nat None err) as [-> ->].
Qed.
(** A node's 150 writes, under ids that count up: two pages, and nothing is left behind. *)
Definition rising_records : list NellRecord :=
  (fun i => mkRecord DefaultCollection (bytes_str (Ascii.ascii_of_nat <$> [48 + Nat.div i 100; 48 + Nat.modulo (Nat.div i 10) 10; 48 + Nat.modulo i 10]))
    "text" [] [] (mkHLC (Z.of_nat (S i)) 0) "X" false) <$> seq 0 150.
Definition rising_server : Server MemoryStore := Server_New (put_all rising_records (NewMemoryStore 0 "A")) "A" (Some ∅).
Lemma reconcile_whole_witness : exists s,
  reconcileOneInner (check_peer rising_records rising_server) 152 None page_client = Some (s, None) /\
  all_missing (knowledgeVector s) rising_records = [] /\ (len (all_missing (knowledgeVector page_client) rising_records) = 150)%Z.
Proof.
  destruct (reconcile_whole rising_records rising_server page_client) as [He Hn].
  - apply NewMemoryStore_inv.
  - split.
    + assert (rising_records = sort_Slice clock_less rising_records) as -> by (vm_compute; reflexivity). apply sort_Slice_sorts. apply _.
    + apply (bool_decide_unpack _). vm_compute. exact Logic.I.
    + assert (NoDup (Clock <$> rising_records)) as Hnd by (apply (bool_decide_unpack _); vm_compute; exact Logic.I).
      intros x y [i Hx]%list_elem_of_lookup [j Hy]%list_elem_of_lookup [= Hc _].
      assert (i = j) as -> by (apply (NoDup_lookup _ _ _ (Clock x) Hnd); rewrite list_lookup_fmap, ?Hx, ?Hy; cbn; congruence). congruence.
  - right. assert (all_missing (knowledgeVector page_client) rising_records = rising_records) as -> by (vm_compute; reflexivity).
    apply Sorted_StronglySorted; [intros x y z; apply str_ltb_trans|].
    apply (bool_decide_unpack (Sorted id_lt _)). vm_compute. exact Logic.I.
  - apply mem_puts_ok. vm_compute. reflexivity.
  - exists (took (all_missing (knowledgeVector page_client) rising_records) page_client).
    split; [exact He|]. split; [exact Hn|]. vm_compute. reflexivity.
Defined.
