(* ===== verification/Convergence.v ===== *)
(** * Convergence of the whole mesh (server/main.go with server/peer.go)

    Any number of servers over one backend type, each reconciling with its peers and
    taking pushes: a step relation on the list of servers together with the records
    ever pushed, which is what the handlers do; the conditions under which the mesh loses
    nothing, as a predicate on the events apart; the invariant of the runs that meet them, and eventual
    convergence of the collection the mesh replicates (the default one) once the pushes stop. *)
From S2P Require Import Prelude Hlc Record KnowledgeVector Conflict GoSort MemStore StoreApi Server GoTime Mesh Json JsonText JsonCodec JsonRecord Wire Pages.

Abbreviation records := (gmap string NellRecord).

(** ** What a store knows of a record *)

(** The record, or one under its key that it does not beat. *)
Definition has (m : records) (r : NellRecord) : Prop := exists r', m !! rkey r = Some r' /\ ~ beats r r'.
(** The records a reconciliation carries: the peer answers for its default collection. *)
Definition in_mesh (r : NellRecord) : Prop := Collection r = DefaultCollection.

Lemma has_stored m r : keyed m -> forall k, m !! k = Some r -> has m r.
Proof. intros K k Hk. exists r. rewrite (K _ _ Hk). split; [done|apply beats_irrefl]. Qed.
Lemma has_merge m rs r : has m r -> has (merge m rs) r.
Proof. apply merge_still_has. Qed.
Lemma has_merged m rs r : r ∈ rs -> has (merge m rs) r.
Proof. apply merge_has. Qed.
Lemma has_trans m r r' : has m r' -> rkey r' = rkey r -> ~ beats r r' -> has m r.
Proof.
  intros (w & Hw & Hb) Hk Hr. exists w. rewrite <-Hk. split; [done|]. by eapply not_beats_trans.
Qed.
#[export] Hint Resolve has_merge has_merged : nell.

(** ** The system *)

Inductive event :=
  (** a batch of records is pushed to a server, as JSON or in binary *)
  | EPush (i : nat) (changes : list NellRecord)
  | EBinPush (i : nat) (changes : list NellRecord)
  (** server [j] reconciles with server [i], however many pages it takes, and reports no error *)
  | ESync (i j : nat)
  (** a reconciliation in which the answers to the requests with a cursor of [lost] do not come *)
  | EDown (i j : nat) (lost : list string).
#[export] Instance event_eq_dec : EqDecision event.
Proof. solve_decision. Defined.
Definition is_push (e : event) : bool := match e with EPush _ _ | EBinPush _ _ => true | _ => false end.

(** The contract of a push, given the records [known] to have been pushed before and what
    the server holds afterwards.  The pushing clients own the writers' names: a record is
    known or later than every known record of its writer (a node's clock only moves
    forward), stamps name one record, and a writer's earlier records are not held back. *)
Record push_contract (known changes : list NellRecord) (after : records) : Prop := {
  pc_coll : Forall (fun r => coll_ok (Collection r)) changes;
  pc_json : Forall record_json changes;
  pc_order : forall x, x ∈ changes -> x ∈ known \/ forall r, r ∈ known -> UpdatedBy r = UpdatedBy x -> hlc_gt (Clock x) (Clock r);
  pc_stamp : forall x y, x ∈ changes ++ known -> y ∈ changes ++ known -> stamp x = stamp y -> x = y;
  pc_closed : forall x r, x ∈ changes -> r ∈ changes ++ known -> UpdatedBy r = UpdatedBy x ->
    hlc_le (Clock r) (Clock x) -> in_mesh r -> has after r
}.

Section mesh.
Context {St : Type} `{StoreLaws St}.

Record MeshState := mkMeshState { net : list (Server St); known : list NellRecord }.

(** What a pushed body brings. *)
Definition body_changes (body : bytes) : list NellRecord :=
  match read_body decode_changes body with Ok changes => changes | _ => [] end.

(** What the servers do, whatever is pushed and whatever is missing. *)
Inductive mesh_step : event -> MeshState -> MeshState -> Prop :=
  | step_push i body s s' resp sent ns known :
      ns !! i = Some s -> handlePush_wire MethodPost body s = (s', resp, sent) ->
      mesh_step (EPush i (body_changes body)) (mkMeshState ns known) (mkMeshState (<[i := s']> ns) (body_changes body ++ known))
  | step_binpush i changes s s' resp sent ns known :
      ns !! i = Some s -> handleBinPush MethodPost (concat (map bin_record changes)) s = (s', resp, sent) ->
      mesh_step (EBinPush i changes) (mkMeshState ns known) (mkMeshState (<[i := s']> ns) (changes ++ known))
  | step_sync i j a b b' all fuel tracked ns known :
      ns !! i = Some a -> ns !! j = Some b -> sorts clock_less (st_ListAll DefaultCollection (srv_store a)) all ->
      reconcileOneInner (wire_peer (srv_nodeID b) all a) fuel tracked b = Some (b', None) ->
      mesh_step (ESync i j) (mkMeshState ns known) (mkMeshState (<[j := b']> ns) known)
  | step_down i j lost a b b' err all fuel tracked ns known :
      ns !! i = Some a -> ns !! j = Some b -> sorts clock_less (st_ListAll DefaultCollection (srv_store a)) all ->
      reconcileOneInner (lossy lost (wire_peer (srv_nodeID b) all a)) fuel tracked b = Some (b', err) ->
      mesh_step (EDown i j lost) (mkMeshState ns known) (mkMeshState (<[j := b']> ns) known).

(** The conditions under which an event loses nothing, none of which the code checks: what is pushed fits
    the stores' limits and keeps the contract; what a reconciliation finds missing, in each order the
    peer's sort may give, fits a page or has ids that ascend, and fits stores and requests; one
    that fails gets no answer at all. *)
Definition push_ok (i : nat) (changes : list NellRecord) (σ : MeshState) : Prop :=
  forall s, net σ !! i = Some s -> puts_ok changes (srv_store s) /\ push_contract (known σ) changes (merge (st_records (srv_store s)) changes).
Definition sync_ok (names : list string) (all : list NellRecord) (b : Server St) : Prop :=
  whole_pages (all_missing (knowledgeVector b) all) /\ puts_ok (all_missing (knowledgeVector b) all) (srv_store b) /\
  requests_fit (srv_nodeID b) names (ID <$> all).
Definition mesh_ok (e : event) (σ : MeshState) : Prop :=
  match e with
  | EPush i changes => push_ok i changes σ
  | EBinPush i changes => push_ok i changes σ /\ Forall record_ok changes /\ Forall (fun r => in_u 32 (len (layout r))) changes
  | ESync i j => forall a b all, net σ !! i = Some a -> net σ !! j = Some b ->
      sorts clock_less (st_ListAll DefaultCollection (srv_store a)) all -> sync_ok (UpdatedBy <$> known σ) all b
  | EDown _ _ lost => "" ∈ lost
  end.

(** A run, each event of which meets the conditions where it happens. *)
Inductive mesh_run : list event -> MeshState -> MeshState -> Prop :=
  | run_nil σ : mesh_run [] σ σ
  | run_cons e es σ1 σ2 σ3 : mesh_ok e σ1 -> mesh_step e σ1 σ2 -> mesh_run es σ2 σ3 -> mesh_run (e :: es) σ1 σ3.

(** A new mesh: servers made over stores with nothing in them. *)
Definition fresh_server (s : Server St) : Prop :=
  exists st node, s = Server_New st node (Some (st_KnowledgeVector st)) /\ json_string node = true /\
    st_inv st /\ st_records st = ∅ /\ st_KnowledgeVector st = ∅.
Definition mesh_init (σ : MeshState) : Prop := Forall fresh_server (net σ) /\ known σ = [].
Definition mesh_reachable (σ : MeshState) : Prop := exists σ0 es, mesh_init σ0 /\ mesh_run es σ0 σ.

(** ** The invariant *)

(** What holds of each server: its store is in order and holds only pushed records; its
    vector counts everything stored, has no entry beyond what its node pushed, and claims
    nothing the store lacks. *)
Record node_inv (U : list NellRecord) (s : Server St) : Prop := {
  ni_node : json_string (srv_nodeID s) = true;
  ni_inv : st_inv (srv_store s);
  ni_known : map_Forall (fun _ r => r ∈ U) (st_records (srv_store s));
  ni_cover : map_Forall (fun _ r => kv_covers (srv_kv s) (UpdatedBy r) (Clock r)) (st_records (srv_store s));
  ni_entry : forall n c, srv_kv s !! n = Some c -> exists r, r ∈ U /\ UpdatedBy r = n /\ Clock r = c;
  ni_honest : forall r, r ∈ U -> in_mesh r -> kv_covers (srv_kv s) (UpdatedBy r) (Clock r) -> has (st_records (srv_store s)) r
}.
Record mesh_inv (σ : MeshState) : Prop := {
  mi_nodes : Forall (node_inv (known σ)) (net σ);
  mi_coll : Forall (fun r => coll_ok (Collection r)) (known σ);
  mi_json : Forall record_json (known σ);
  mi_stamp : forall x y, x ∈ known σ -> y ∈ known σ -> stamp x = stamp y -> x = y;
  (** nothing pushed is lost *)
  mi_held : forall r, r ∈ known σ -> exists i s, net σ !! i = Some s /\ has (st_records (srv_store s)) r
}.

Lemma mesh_init_inv σ : mesh_init σ -> mesh_inv σ.
Proof.
  destruct σ as [ns U]. intros [Hf Hk]. cbn in Hf, Hk. subst U. split; cbn [known net].
  - eapply Forall_impl; [exact Hf|]. intros s (st & node & -> & Hnd & I & Hr & Hv).
    split; cbn [Server_New seedKnowledgeVector srv_set_kv srv_store srv_kv srv_nodeID]; rewrite ?Hr, ?Hv.
    + done.
    + done.
    + apply map_Forall_empty.
    + apply map_Forall_empty.
    + intros n c. by rewrite lookup_union, !lookup_empty.
    + intros r Hin. by apply not_elem_of_nil in Hin.
  - done.
  - done.
  - intros x y Hx. by apply not_elem_of_nil in Hx.
  - intros r Hr. by apply not_elem_of_nil in Hr.
Qed.

Lemma took_records rs (s : Server St) :
  st_inv (srv_store s) -> puts_ok rs (srv_store s) -> Forall (fun r => coll_ok (Collection r)) rs ->
  st_inv (srv_store (took rs s)) /\ st_records (srv_store (took rs s)) = merge (st_records (srv_store s)) rs /\
  srv_kv (took rs s) = see_all rs (srv_kv s).
Proof.
  intros I Hp Hc. destruct (put_all_law rs _ I Hp) as [I' Hm]. cbn. split_and!; [done| |done].
  rewrite Hm. f_equal. clear -Hc. induction Hc as [|r rs [_ Hr] Hc IH]; [done|]. cbn. by rewrite normalize_id, IH.
Qed.
(** Whatever a server takes in, as long as it lands in [U'], the parts of its invariant
    about the records it stores and the entries of its vector are kept. *)
Lemma took_inv U U' rs (s : Server St) :
  node_inv U s -> puts_ok rs (srv_store s) -> Forall (fun r => coll_ok (Collection r)) rs ->
  (forall r, r ∈ U -> r ∈ U') -> (forall r, r ∈ rs -> r ∈ U') ->
  (forall r, r ∈ U' -> in_mesh r -> kv_covers (see_all rs (srv_kv s)) (UpdatedBy r) (Clock r) ->
    has (merge (st_records (srv_store s)) rs) r) ->
  node_inv U' (took rs s).
Proof.
  intros N Hp Hc HU Hrs Hh. destruct (took_records rs s (ni_inv _ _ N) Hp Hc) as (I' & Hm & Hk).
  assert (forall k r, merge (st_records (srv_store s)) rs !! k = Some r ->
    st_records (srv_store s) !! k = Some r \/ r ∈ rs) as Hfrom.
  { intros k r Hr. pose proof (merge_spec rs (st_records (srv_store s)) k) as Hs. rewrite Hr in Hs.
    destruct Hs as [[?|[? _]] _]; auto. }
  split; rewrite ?Hm, ?Hk; [apply N|done| | | |done].
  - intros k r [Hr|Hr]%Hfrom; [|auto]. by eapply HU, (ni_known _ _ N).
  - intros k r [Hr|Hr]%Hfrom; [|by apply see_all_covers]. by apply see_all_mono, (ni_cover _ _ N _ _ Hr).
  - intros n c [Hn|(r & Hr & Hu & He)]%see_all_from; [|eauto].
    destruct (ni_entry _ _ N _ _ Hn) as (r & Hr & ?). eauto.
Qed.

(** A covered record comes from the vector or from a later record of its writer taken in. *)
Lemma see_all_covered rs kv n c :
  kv_covers (see_all rs kv) n c -> kv_covers kv n c \/ exists x, x ∈ rs /\ UpdatedBy x = n /\ hlc_le c (Clock x).
Proof.
  intros (d & [Hd|(x & Hx & Hu & <-)]%see_all_from & Hle); [left; by exists d|right; eauto].
Qed.
(** A vector never covers a record later than all its writer pushed. *)
Lemma not_covered U (s : Server St) x :
  node_inv U s -> (forall r, r ∈ U -> UpdatedBy r = UpdatedBy x -> hlc_gt (Clock x) (Clock r)) ->
  ~ kv_covers (srv_kv s) (UpdatedBy x) (Clock x).
Proof.
  intros N Hx (c & Hc & Hle). destruct (ni_entry _ _ N _ _ Hc) as (r & Hr & Hu & <-).
  apply hlc_not_gt in Hle. by apply Hle, Hx.
Qed.

(** A push under its contract keeps the invariant of the server it reaches. *)
Lemma push_node_inv U rs (s : Server St) :
  node_inv U s -> puts_ok rs (srv_store s) -> push_contract U rs (merge (st_records (srv_store s)) rs) ->
  node_inv (rs ++ U) (took rs s).
Proof.
  intros N Hp C. apply (took_inv U); [done|done|apply C|set_solver|set_solver|].
  intros r Hr Hd [Hk|(x & Hx & Hu & Hle)]%see_all_covered; [|by eapply (pc_closed _ _ _ C)].
  apply elem_of_app in Hr as [Hr|Hr]; [by apply has_merged|].
  by apply has_merge, (ni_honest _ _ N).
Qed.
(** The other servers do not notice it. *)
Lemma push_other_inv U rs m (s : Server St) :
  node_inv U s -> push_contract U rs m -> node_inv (rs ++ U) s.
Proof.
  intros N C. split; [apply N|apply N| |apply N| |].
  - intros k r Hr. apply elem_of_app. right. by apply (ni_known _ _ N _ _ Hr).
  - intros n c Hn. destruct (ni_entry _ _ N _ _ Hn) as (r & Hr & ?). exists r. split; [set_solver|done].
  - intros r Hr Hd Hk. apply (ni_honest _ _ N); [|done..].
    apply elem_of_app in Hr as [Hr|Hr]; [|done].
    destruct (pc_order _ _ _ C r Hr) as [?|Hx]; [done|]. by destruct (not_covered U s r N Hx).
Qed.

(** Two servers that reconciled: the client then has every record of the mesh its peer has. *)
Lemma sync_has U all (a b : Server St) :
  node_inv U a -> node_inv U b -> Forall (fun r => coll_ok (Collection r)) U ->
  sorts clock_less (st_ListAll DefaultCollection (srv_store a)) all ->
  let rs := all_missing (knowledgeVector b) all in
  (forall r, r ∈ rs -> st_records (srv_store a) !! rkey r = Some r) /\
  forall r, in_mesh r -> r ∈ U -> has (st_records (srv_store a)) r -> has (merge (st_records (srv_store b)) rs) r.
Proof.
  intros Na Nb HU [Hsort _] rs. destruct (st_listall_law DefaultCollection _ (ni_inv _ _ Na)) as [_ Hl].
  assert (forall r, r ∈ all <-> st_records (srv_store a) !! rkey r = Some r /\ in_mesh r) as Hall.
  { intros r. rewrite Hsort, Hl. done. }
  split. { intros r Hr. apply list_elem_of_filter in Hr as [_ Hr]. by apply Hall. }
  intros r Hd Hr (w & Hw & Hb). pose proof (st_keyed _ (ni_inv _ _ Na) _ _ Hw) as Hkw.
  pose proof (ni_known _ _ Na _ _ Hw) as HwU. cbn in HwU.
  assert (in_mesh w) as Hdw.
  { rewrite Forall_forall in HU. unfold in_mesh in *. rewrite <-Hd.
    apply rkey_collection; [apply HU; done|apply HU; done|done]. }
  assert (w ∈ all) as Hwa by (apply Hall; by rewrite Hkw).
  apply (has_trans _ r w); [|done|done].
  destruct (is_missing (knowledgeVector b) w) eqn:Hm.
  - apply has_merged. by apply list_elem_of_filter.
  - apply has_merge, (ni_honest _ _ Nb); [done|done|]. by apply is_missing_false.
Qed.
Lemma sync_inv U all (a b : Server St) :
  node_inv U a -> node_inv U b -> Forall (fun r => coll_ok (Collection r)) U ->
  sorts clock_less (st_ListAll DefaultCollection (srv_store a)) all -> puts_ok (all_missing (knowledgeVector b) all) (srv_store b) ->
  node_inv U (took (all_missing (knowledgeVector b) all) b).
Proof.
  intros Na Nb HU Hs Ho. destruct (sync_has U all a b Na Nb HU Hs) as [Hst Hhas].
  set (rs := all_missing (knowledgeVector b) all) in *.
  assert (forall r, r ∈ rs -> r ∈ U) as HrsU by (intros r Hr; apply (ni_known _ _ Na _ _ (Hst r Hr))).
  apply (took_inv U); [done|exact Ho| |done|done|].
  - apply Forall_forall. intros r Hr. rewrite Forall_forall in HU. auto.
  - intros r Hr Hd [Hk|(x & Hx & Hu & Hle)]%see_all_covered.
    + by apply has_merge, (ni_honest _ _ Nb).
    + apply Hhas; [done|done|]. apply (ni_honest _ _ Na); [done|done|]. rewrite <-Hu.
      eapply kv_covers_le; [|exact Hle]. apply (ni_cover _ _ Na _ _ (Hst x Hx)).
Qed.

(** ** Steps and runs *)

(** A step replaces one server by itself after taking records in, or leaves the servers
    as they are. *)
Lemma handlePush_took body (s s' : Server St) resp sent :
  st_inv (srv_store s) -> puts_ok (body_changes body) (srv_store s) ->
  handlePush_wire MethodPost body s = (s', resp, sent) -> s' = took (body_changes body) s.
Proof.
  intros I. unfold handlePush_wire, handlePush, body_changes. rewrite bool_decide_true by done. cbn [negb].
  destruct (read_body decode_changes body) as [changes|e|]; [|intros _ [= <- _ _]; by destruct s..].
  intros Hp. rewrite push_loop_law by done. by intros [= <- _ _].
Qed.
Lemma handleBinPush_took changes (s s' : Server St) resp sent :
  st_inv (srv_store s) -> Forall record_ok changes -> Forall (fun r => in_u 32 (len (layout r))) changes -> puts_ok changes (srv_store s) ->
  handleBinPush MethodPost (concat (map bin_record changes)) s = (s', resp, sent) -> s' = took changes s.
Proof.
  intros I Hok Hlen Hp. unfold handleBinPush. rewrite bool_decide_true by done. cbn [negb].
  rewrite <-(app_nil_r (concat _)). pose proof (bin_stream_length changes).
  rewrite (binpush_loop_law _ changes 0 0 [] s []) by (done || lia || (rewrite app_nil_r; lia)). by intros [= <- _ _].
Qed.
(** What a peer lists is known; so the wire carries it and the vectors of those who ask. *)
Lemma listed_known U all (a : Server St) : node_inv U a -> sorts clock_less (st_ListAll DefaultCollection (srv_store a)) all ->
  forall r, r ∈ all -> r ∈ U /\ in_mesh r.
Proof.
  intros Na [Hsort _] r. destruct (st_listall_law DefaultCollection _ (ni_inv _ _ Na)) as [_ Hl].
  rewrite Hsort, Hl. intros [Hr Hd]. split; [apply (ni_known _ _ Na _ _ Hr)|done].
Qed.
Lemma sync_decoded U all (a b : Server St) fuel tracked :
  node_inv U a -> node_inv U b -> Forall record_json U -> sorts clock_less (st_ListAll DefaultCollection (srv_store a)) all ->
  requests_fit (srv_nodeID b) (UpdatedBy <$> U) (ID <$> all) ->
  reconcileOneInner (wire_peer (srv_nodeID b) all a) fuel tracked b = reconcileOneInner (check_peer all a) fuel tracked b.
Proof.
  intros Na Nb Hj Hs Hf. pose proof (listed_known U all a Na Hs) as Hall. rewrite Forall_forall in Hj.
  apply (wire_reconcile_agrees _ all a (UpdatedBy <$> U)); [apply Nb|apply Na| | |done|].
  - apply Forall_forall. intros r Hr. by apply Hj, Hall.
  - intros n (r & -> & Hr)%list_elem_of_fmap. apply list_elem_of_fmap. exists r. split; [done|]. by apply Hall.
  - split; [|intros n [c (r & Hr & <- & _)%(ni_entry _ _ Nb)]; apply list_elem_of_fmap; eauto].
    intros n c (r & Hr & <- & <-)%(ni_entry _ _ Nb). destruct (Hj r Hr) as ((_ & _ & _ & ?) & _ & ?). done.
Qed.
(** A peer's listing, sorted: clocks do not fall, and nothing is there twice. *)
Lemma listed_ok U all (a : Server St) : node_inv U a -> (forall x y, x ∈ U -> y ∈ U -> stamp x = stamp y -> x = y) ->
  sorts clock_less (st_ListAll DefaultCollection (srv_store a)) all -> listing_ok all.
Proof.
  intros Na Hst Hs. pose proof (listed_known U all a Na Hs) as Hall. destruct Hs as [Hp Hs].
  destruct (st_listall_law DefaultCollection _ (ni_inv _ _ Na)) as [Hnd _]. split; [done|by rewrite Hp|].
  intros x y [Hx _]%Hall [Hy _]%Hall. by apply Hst.
Qed.
(** A reconciliation under its conditions takes in what was missing, over as many pages as that is. *)
Lemma wire_took U all (a b b' : Server St) fuel tracked err :
  node_inv U a -> node_inv U b -> Forall record_json U -> (forall x y, x ∈ U -> y ∈ U -> stamp x = stamp y -> x = y) ->
  sorts clock_less (st_ListAll DefaultCollection (srv_store a)) all -> sync_ok (UpdatedBy <$> U) all b ->
  (forall p, tracked = Some p -> isActive p = true) ->
  reconcileOneInner (wire_peer (srv_nodeID b) all a) fuel tracked b = Some (b', err) ->
  b' = took (all_missing (knowledgeVector b) all) b /\ err = None.
Proof.
  intros Na Nb Hj Hst Hs (Hw & Hp & Hf) Ht. rewrite (sync_decoded U all a b) by done.
  apply reconcile_took; [apply Nb|by apply (listed_ok U all a)|done..].
Qed.
(** One that reports no error asked an active peer. *)
Lemma synced_active peer fuel tracked (b b' : Server St) :
  reconcileOneInner peer fuel tracked b = Some (b', None) -> forall p, tracked = Some p -> isActive p = true.
Proof. unfold reconcileOneInner. intros He p ->. by destruct (isActive p). Qed.

(** A server replaced by one that has all it had. *)
Lemma held_insert (ns : list (Server St)) i s s' r :
  ns !! i = Some s -> (has (st_records (srv_store s)) r -> has (st_records (srv_store s')) r) ->
  forall j b, ns !! j = Some b -> has (st_records (srv_store b)) r ->
  exists b', <[i:=s']> ns !! j = Some b' /\ has (st_records (srv_store b')) r.
Proof.
  intros Hi Hs j b Hj Hb. destruct (decide (i = j)) as [->|Hne].
  - exists s'. rewrite list_lookup_insert_eq by by eapply lookup_lt_Some. simplify_eq. auto.
  - exists b. by rewrite list_lookup_insert_ne.
Qed.
Definition keeps (σ σ' : MeshState) : Prop := forall r j b, net σ !! j = Some b -> has (st_records (srv_store b)) r ->
  exists b', net σ' !! j = Some b' /\ has (st_records (srv_store b')) r.
Lemma push_preserves ns U i (s s' : Server St) changes : mesh_inv (mkMeshState ns U) -> ns !! i = Some s ->
  puts_ok changes (srv_store s) -> s' = took changes s -> push_contract U changes (merge (st_records (srv_store s)) changes) ->
  mesh_inv (mkMeshState (<[i:=s']> ns) (changes ++ U)) /\ keeps (mkMeshState ns U) (mkMeshState (<[i:=s']> ns) (changes ++ U)).
Proof.
  intros [Hn Hc Hjs Hs Hh] Hi Hp -> C. unfold keeps. cbn [net known] in *. rewrite Forall_forall in Hn.
  assert (node_inv U s) as N by (apply Hn; by eapply list_elem_of_lookup_2).
  destruct (took_records changes s (ni_inv _ _ N) Hp (pc_coll _ _ _ C)) as (_ & Hm & _).
  assert (forall r j b, ns !! j = Some b -> has (st_records (srv_store b)) r ->
    exists b', <[i:=took changes s]> ns !! j = Some b' /\ has (st_records (srv_store b')) r) as Hkeep.
  { intros r. eapply held_insert; [done|]. rewrite Hm. apply has_merge. }
  split; [split; cbn [net known]|done].
  - apply Forall_insert; [|by apply push_node_inv].
    apply Forall_forall. intros x Hx. eapply push_other_inv; [by apply Hn|done].
  - apply Forall_app. split; [apply C|done].
  - apply Forall_app. split; [apply C|done].
  - apply C.
  - intros r [Hr|Hr]%elem_of_app.
    + exists i, (took changes s). rewrite list_lookup_insert_eq by by eapply lookup_lt_Some.
      split; [done|]. rewrite Hm. by apply has_merged.
    + destruct (Hh r Hr) as (j & b & Hj & Hb). exists j. by eapply Hkeep.
Qed.
Lemma sync_preserves ns U i j all (a b : Server St) : mesh_inv (mkMeshState ns U) -> ns !! i = Some a -> ns !! j = Some b ->
  sorts clock_less (st_ListAll DefaultCollection (srv_store a)) all -> puts_ok (all_missing (knowledgeVector b) all) (srv_store b) ->
  let b' := took (all_missing (knowledgeVector b) all) b in
  mesh_inv (mkMeshState (<[j:=b']> ns) U) /\ keeps (mkMeshState ns U) (mkMeshState (<[j:=b']> ns) U).
Proof.
  intros [Hn Hc Hjs Hs Hh] Hi Hj Hsort Ho b'. unfold keeps. cbn [net known] in *. rewrite Forall_forall in Hn.
  assert (node_inv U a) as Na by (apply Hn; by eapply list_elem_of_lookup_2).
  assert (node_inv U b) as Nb by (apply Hn; by eapply list_elem_of_lookup_2).
  assert (node_inv U b') as N' by exact (sync_inv U all a b Na Nb Hc Hsort Ho).
  destruct (took_records (all_missing (knowledgeVector b) all) b) as (_ & Hm & _); [apply Nb|exact Ho| |].
  { destruct (sync_has U all a b Na Nb Hc Hsort) as [Hst _].
    apply Forall_forall. intros r Hr. rewrite Forall_forall in Hc. apply Hc. apply (ni_known _ _ Na _ _ (Hst r Hr)). }
  assert (forall r k x, ns !! k = Some x -> has (st_records (srv_store x)) r ->
    exists x', <[j:=b']> ns !! k = Some x' /\ has (st_records (srv_store x')) r) as Hkeep.
  { intros r. eapply held_insert; [done|]. unfold b'. rewrite Hm. apply has_merge. }
  split; [|done]. split; cbn [net known]; [|done..|].
  - apply Forall_insert; [by apply Forall_forall|done].
  - intros r Hr. destruct (Hh r Hr) as (k & x & Hk & Hx). exists k. by eapply Hkeep.
Qed.
Lemma step_preserves e σ σ' :
  mesh_inv σ -> mesh_ok e σ -> mesh_step e σ σ' ->
  mesh_inv σ' /\ length (net σ') = length (net σ) /\ (is_push e = false -> known σ' = known σ) /\ keeps σ σ'.
Proof.
  intros I Hok Hstep.
  assert (forall i s, net σ !! i = Some s -> node_inv (known σ) s) as Hnode
    by (intros i s Hi; pose proof (mi_nodes _ I) as Hn; rewrite Forall_forall in Hn; apply Hn; by eapply list_elem_of_lookup_2).
  destruct Hstep as [i body s s' resp sent ns U Hi He|i changes s s' resp sent ns U Hi He
    |i j a b b' all fuel tracked ns U Hi Hj Hsort He|i j lost a b b' err all fuel tracked ns U Hi Hj Hsort He]; cbn [mesh_ok net known] in *.
  - destruct (Hok s Hi) as [Hp C]. apply handlePush_took in He; [|by eapply ni_inv, Hnode|done].
    destruct (push_preserves ns U i s s' _ I Hi Hp He C). split_and!; [done|apply length_insert|done|done].
  - destruct Hok as (Hok & Hrec & Hlen). destruct (Hok s Hi) as [Hp C]. apply handleBinPush_took in He; [|by eapply ni_inv, Hnode|done..].
    destruct (push_preserves ns U i s s' changes I Hi Hp He C). split_and!; [done|apply length_insert|done|done].
  - specialize (Hok a b all Hi Hj Hsort). pose proof (synced_active _ _ _ _ _ He) as Ht.
    destruct (wire_took U all a b b' fuel tracked None) as [-> _]; [by eauto|by eauto|apply I|apply I|done..|].
    destruct (sync_preserves ns U i j all a b I Hi Hj Hsort (proj1 (proj2 Hok))). split_and!; [done|apply length_insert|done|done].
  - apply reconcile_lost in He as ->; [|done]. rewrite list_insert_id by done. split_and!; [done|done|done|intros ?; eauto].
Qed.
Lemma run_preserves es σ σ' :
  mesh_inv σ -> mesh_run es σ σ' ->
  mesh_inv σ' /\ length (net σ') = length (net σ) /\ (Forall (fun e => is_push e = false) es -> known σ' = known σ) /\ keeps σ σ'.
Proof.
  intros I Hrun. induction Hrun as [σ|e es σ1 σ2 σ3 Hok Hstep Hrun IH]; [by split_and!; [..|intros ?; eauto]|].
  destruct (step_preserves e σ1 σ2 I Hok Hstep) as (I2 & Hl & Hk & Hkeep).
  destruct (IH I2) as (I3 & Hl3 & Hk3 & Hkeep3). split_and!; [done|congruence| |].
  - intros Hf. inversion_clear Hf. rewrite Hk3 by done. by apply Hk.
  - intros r j b Hj Hb. destruct (Hkeep r j b Hj Hb) as (b2 & Hj2 & Hb2). by eapply Hkeep3.
Qed.
Lemma reachable_inv σ : mesh_reachable σ -> mesh_inv σ.
Proof. intros (σ0 & es & Hi & Hrun). by eapply (run_preserves es σ0), Hrun; apply mesh_init_inv. Qed.
Lemma run_app es1 es2 σ σ' : mesh_run (es1 ++ es2) σ σ' -> exists σ1, mesh_run es1 σ σ1 /\ mesh_run es2 σ1 σ'.
Proof.
  revert σ. induction es1 as [|e es IH]; intros σ Hrun; [exists σ; split; [constructor|done]|].
  cbn in Hrun. inversion Hrun as [|? ? ? σ2 ? Ho Hs Hr]; subst. destruct (IH _ Hr) as (σ1 & ? & ?).
  exists σ1. split; [by econstructor|done].
Qed.

(** ** Steps that can be taken *)

Lemma puts_ok_all rs : forall s : St,
  st_inv s -> (forall s r, st_inv s -> r ∈ rs -> st_put_ok r s) -> puts_ok rs s.
Proof.
  induction rs as [|r rs IH]; intros s I Ha; [done|]. assert (st_put_ok r s) as Hr by (apply Ha; [done|left]).
  split; [done|]. destruct (st_put_law s r I Hr) as (s' & acc & w & -> & I' & _). apply IH; [done|].
  intros s2 x I2 Hx. apply Ha; [done|by right].
Qed.
(** The pages suffice whoever reconciles with whom: the mesh's records fit one, or their ids ascend
    with their clocks. *)
Definition pages_suffice (U : list NellRecord) : Prop :=
  (len (filter in_mesh U) <= 100)%Z \/
  forall r s, r ∈ U -> s ∈ U -> in_mesh r -> in_mesh s -> r <> s -> hlc_le (Clock r) (Clock s) -> id_lt r s.
Lemma ascending_sorted l : NoDup l -> StronglySorted (not_less clock_less) l ->
  (forall r s, r ∈ l -> s ∈ l -> r <> s -> hlc_le (Clock r) (Clock s) -> id_lt r s) -> StronglySorted id_lt l.
Proof.
  intros Hnd Hs. induction Hs as [|x l Hs IH Hx]; intros Hid; [constructor|]. apply NoDup_cons in Hnd as [Hn Hnd].
  constructor; [apply IH; [done|]; intros r s Hr Hs'; apply Hid; by right|]. rewrite Forall_forall in Hx |- *. intros s Hsl.
  apply Hid; [by left|by right|by intros ->|apply (Hx s Hsl)].
Qed.
Lemma pages_whole U all (a b : Server St) :
  node_inv U a -> node_inv U b -> (forall x y, x ∈ U -> y ∈ U -> stamp x = stamp y -> x = y) ->
  sorts clock_less (st_ListAll DefaultCollection (srv_store a)) all -> pages_suffice U -> whole_pages (all_missing (knowledgeVector b) all).
Proof.
  intros Na Nb Hst Hs Hpg. pose proof (listed_known U all a Na Hs) as Hall. pose proof (listed_ok U all a Na Hst Hs) as L.
  assert (forall r, r ∈ all_missing (knowledgeVector b) all -> r ∈ U /\ in_mesh r) as Hm by (intros r [_ ?%Hall]%list_elem_of_filter; done).
  destruct Hpg as [Hlen|Hid]; [left|right].
  - pose proof (all_missing_length (knowledgeVector b) all) as Hml.
    assert (length all <= length (filter in_mesh U))%nat as Hle; [|unfold len in *; lia].
    apply submseteq_length, NoDup_submseteq; [apply L|]. intros r [HU Hd]%Hall. by apply list_elem_of_filter.
  - apply ascending_sorted; [apply NoDup_filter, L|apply StronglySorted_filter, L|].
    intros r s [? ?]%Hm [? ?]%Hm. by apply Hid.
Qed.
Lemma puts_ok_listed U all (a b : Server St) : node_inv U a -> node_inv U b -> sorts clock_less (st_ListAll DefaultCollection (srv_store a)) all ->
  (forall (s : St) r, st_inv s -> r ∈ U -> st_put_ok r s) -> puts_ok (all_missing (knowledgeVector b) all) (srv_store b).
Proof.
  intros Na Nb Hs Hok. apply puts_ok_all; [apply Nb|]. intros s r I [_ Hr]%list_elem_of_filter. apply Hok; [done|].
  by apply (listed_known U all a Na Hs).
Qed.
(** A reconciliation leaves the server's name alone. *)
Lemma ingest_page_nodeID missing : forall s : Server St, srv_nodeID (fst (ingest_page missing s)) = srv_nodeID s.
Proof.
  induction missing as [|r rs IH]; intros s; cbn [ingest_page]; [done|].
  destruct (st_Put r (srv_store s)) as [st [w|]]; [by rewrite IH|done].
Qed.
Lemma follow_pages_nodeID peer fuel : forall more cursor (s s' : Server St) err,
  follow_pages peer fuel more cursor s = Some (s', err) -> srv_nodeID s' = srv_nodeID s.
Proof.
  induction fuel as [|fuel IH]; intros more cursor s s' err; cbn [follow_pages]; [done|].
  destruct (more && _); [|by intros [= <- _]]. destruct (peer _ cursor) as [[[missing next] more']|]; [|by intros [= <- _]].
  pose proof (ingest_page_nodeID missing s) as Hi. destruct (ingest_page missing s) as [s1 [|]]; [|by intros [= <- _]].
  intros Hf%IH. by rewrite Hf.
Qed.
Lemma reconcile_nodeID peer fuel tracked (s s' : Server St) err :
  reconcileOneInner peer fuel tracked s = Some (s', err) -> srv_nodeID s' = srv_nodeID s.
Proof.
  unfold reconcileOneInner. case_match; [by intros [= <- _]|]. destruct (peer _ "") as [[[missing next] more']|]; [|by intros [= <- _]].
  pose proof (ingest_page_nodeID missing s) as Hi. destruct (ingest_page missing s) as [s1 [|]]; [|by intros [= <- _]].
  intros Hf%follow_pages_nodeID. by rewrite Hf.
Qed.
(** What the mesh knows fits into requests: no server's vector outgrows a body. *)
Definition mesh_fits (σ : MeshState) : Prop :=
  Forall (fun s => requests_fit (srv_nodeID s) (UpdatedBy <$> known σ) (ID <$> known σ)) (net σ).
Lemma requests_fit_sub sender l ids ids' : requests_fit sender l ids -> ids' ⊆ ids -> requests_fit sender l ids'.
Proof. unfold requests_fit. rewrite !Forall_forall. intros Hf Hs c Hc. apply Hf. set_solver. Qed.
Definition sync_between (n : nat) (e : event) : Prop := exists i j, e = ESync i j /\ i < n /\ j < n.
Lemma syncs_run es σ :
  mesh_inv σ -> mesh_fits σ -> Forall (sync_between (length (net σ))) es ->
  pages_suffice (known σ) -> (forall (s : St) r, st_inv s -> r ∈ known σ -> st_put_ok r s) ->
  exists σ', mesh_run es σ σ'.
Proof.
  revert σ. induction es as [|e es IH]; intros σ I Hfits Hes Hpg Hok; [exists σ; constructor|].
  inversion_clear Hes as [|?? (i & j & -> & Hi & Hj) Hes'].
  destruct (lookup_lt_is_Some_2 _ _ Hi) as [a Ha]. destruct (lookup_lt_is_Some_2 _ _ Hj) as [b Hb].
  assert (forall k s, net σ !! k = Some s -> node_inv (known σ) s) as Hnode.
  { intros k s Hk. pose proof (mi_nodes _ I) as Hn. rewrite Forall_forall in Hn.
    apply Hn. by eapply list_elem_of_lookup_2. }
  pose proof (Hnode i a Ha) as Na. pose proof (Hnode j b Hb) as Nb.
  assert (forall all, sorts clock_less (st_ListAll DefaultCollection (srv_store a)) all -> sync_ok (UpdatedBy <$> known σ) all b) as Hsync.
  { intros all Hs. split_and!; [apply (pages_whole (known σ) all a b); [done..|apply I|done|done]|by apply (puts_ok_listed (known σ) all a b)|].
    apply (requests_fit_sub _ _ (ID <$> known σ)).
    - unfold mesh_fits in Hfits. rewrite Forall_forall in Hfits. apply Hfits. by eapply list_elem_of_lookup_2.
    - intros n (r & -> & Hr)%list_elem_of_fmap. apply list_elem_of_fmap. exists r. split; [done|]. by apply (listed_known _ all a Na Hs). }
  set (all := sort_Slice clock_less (st_ListAll DefaultCollection (srv_store a))).
  assert (sorts clock_less (st_ListAll DefaultCollection (srv_store a)) all) as Hs by (apply sort_Slice_sorts; apply _).
  destruct (reconcile_total all a b None) as [[b' err] He]. pose proof (Hsync all Hs) as Hso.
  rewrite <-(sync_decoded (known σ) all a b) in He by (done || apply I || apply Hso).
  destruct (wire_took (known σ) all a b b' (2 + length all)%nat None err) as [_ ->]; [done|done|apply I|apply I|done..|].
  assert (mesh_ok (ESync i j) σ) as Hmo by (intros a0 b0 all0 Ha0 Hb0; simplify_eq; apply Hsync).
  assert (mesh_step (ESync i j) σ (mkMeshState (<[j:=b']> (net σ)) (known σ))) as Hstep.
  { destruct σ as [ns U]. cbn [net known] in *. by apply (step_sync i j a b b' all (2 + length all)%nat None). }
  destruct (step_preserves _ _ _ I Hmo Hstep) as (I' & Hl' & _).
  destruct (IH _ I') as [σ' Hrun]; cbn [net known] in *; [|by rewrite Hl'|done..|].
  { apply Forall_insert; [done|]. unfold mesh_fits in Hfits. rewrite Forall_forall in Hfits.
    rewrite (reconcile_nodeID _ _ _ _ _ _ He). apply Hfits. by eapply list_elem_of_lookup_2. }
  exists σ'. by econstructor.
Qed.

(** ** Records travel *)

(** The reconciliations in [es], in order, pass what [i] has on to [j]. *)
Inductive relay : list event -> nat -> nat -> Prop :=
  | relay_here es i : relay es i i
  | relay_skip e es i j : relay es i j -> relay (e :: es) i j
  | relay_hop es i k j : relay es k j -> relay (ESync i k :: es) i j.

Lemma relay_app es1 es2 i k j : relay es1 i k -> relay es2 k j -> relay (es1 ++ es2) i j.
Proof.
  induction 1 as [es i|e es i k Hr IH|es i l k Hr IH]; intros H2; cbn; [|apply relay_skip; auto|apply relay_hop; auto].
  induction es as [|e es IH]; [done|]. cbn. by apply relay_skip.
Qed.
Lemma relay_one es i j : ESync i j ∈ es -> relay es i j.
Proof.
  induction es as [|e es IH]; [by intros ?%not_elem_of_nil|]. intros [<-|Hin]%elem_of_cons.
  - apply relay_hop. constructor.
  - apply relay_skip. by apply IH.
Qed.
Lemma relay_carries es σ σ' i j r b :
  mesh_inv σ -> mesh_run es σ σ' -> relay es i j -> r ∈ known σ -> in_mesh r ->
  net σ !! i = Some b -> has (st_records (srv_store b)) r ->
  exists b', net σ' !! j = Some b' /\ has (st_records (srv_store b')) r.
Proof.
  intros I Hrun Hrel. revert σ b I Hrun. induction Hrel as [es i|e es i j Hrel IH|es i k j Hrel IH];
    intros σ b I Hrun Hr Hd Hi Hb; [by eapply run_preserves|inversion Hrun as [|? ? ? σ2 ? Hok Hstep Hrun2]; subst..].
  - destruct (step_preserves _ _ _ I Hok Hstep) as (I2 & _ & _ & Hkeep).
    destruct (Hkeep r i b Hi Hb) as (b2 & Hi2 & Hb2). eapply (IH σ2 b2); try done.
    destruct Hstep; cbn [known] in *; try done; apply elem_of_app; by right.
  - destruct (step_preserves _ _ _ I Hok Hstep) as (I2 & _).
    inversion Hstep as [| |? ? a b0 b' all fuel tracked ns U Ha Hk Hs He|]; subst.
    cbn [mesh_ok net known] in *. simplify_eq. specialize (Hok b b0 all Hi Hk Hs). pose proof I as [Hn Hc Hjs Hst _]. cbn [net known] in *.
    rewrite Forall_forall in Hn.
    assert (node_inv U b) as Na by (apply Hn; by eapply list_elem_of_lookup_2).
    assert (node_inv U b0) as Nb by (apply Hn; by eapply list_elem_of_lookup_2).
    pose proof (synced_active _ _ _ _ _ He) as Ht. destruct (wire_took U all b b0 b' fuel tracked None) as [-> _]; [done..|].
    destruct (sync_has U all b b0 Na Nb Hc Hs) as [Hfrom Hhas].
    destruct (took_records (all_missing (knowledgeVector b0) all) b0) as (_ & Hm & _); [apply Nb|apply Hok| |].
    { apply Forall_forall. intros x Hx. rewrite Forall_forall in Hc. apply Hc, (ni_known _ _ Na _ _ (Hfrom x Hx)). }
    eapply (IH _ (took (all_missing (knowledgeVector b0) all) b0)); [exact I2|exact Hrun2|done|done| |].
    + cbn [net]. apply list_lookup_insert_eq. by eapply lookup_lt_Some.
    + rewrite Hm. by apply Hhas.
Qed.
End mesh.

(** ** Rounds of the ticker *)

Section rounds.
(** The peer table of each server, and the URL each is known under. *)
Context (n : nat) (pm : nat -> MeshManager) (url : nat -> string).

(** One firing of every server's ticker, in any interleaving: each server reconciles with
    the peers its table selects. *)
Definition tick_round (es : list event) : Prop :=
  Forall (sync_between n) es /\
  forall j, j < n -> exists selected, tick_selects (pm j) selected /\ forall i, i < n -> url i ∈ selected -> ESync i j ∈ es.
Definition peer_edge (i j : nat) : Prop := i < n /\ j < n /\ url i ∈ Peers (pm j).

Lemma tick_round_edge es i j :
  tick_round es -> (length (Peers (pm j)) <= maxReconcilePerTick)%nat -> peer_edge i j -> ESync i j ∈ es.
Proof.
  intros [_ Hr] Hl (Hi & Hj & Hu). destruct (Hr j Hj) as (sel & Hsel & Hin). apply Hin; [done|].
  unfold tick_selects in Hsel. rewrite (proj2 (Nat.leb_le _ _) Hl) in Hsel. by rewrite Hsel.
Qed.
(** Each round moves a record one edge of a path further. *)
Lemma rounds_relay rounds k i j :
  Forall tick_round rounds -> (forall j, j < n -> (length (Peers (pm j)) <= maxReconcilePerTick)%nat) ->
  nsteps peer_edge k i j -> k <= length rounds -> relay (concat rounds) i j.
Proof.
  intros Hr Hl. revert k i. induction Hr as [|es rounds Hes Hr IH]; intros k i Hp Hk; cbn [length concat] in *.
  - destruct k; [|lia]. inversion Hp; subst. constructor.
  - inversion Hp as [|k' ? m ? He Hp']; subst; [constructor|].
    apply (relay_app _ _ _ m); [|apply (IH k'); [done|lia]].
    apply relay_one, tick_round_edge; [done| |done]. destruct He as (_ & Hm & _). by apply Hl.
Qed.
End rounds.

(** ** Agreement *)

Section agreement.
Context {St : Type} `{StoreLaws St}.

Lemma has_all_winner U (b : Server St) r :
  node_inv U b -> (forall x, x ∈ U -> in_mesh x -> has (st_records (srv_store b)) x) -> Forall (fun r => coll_ok (Collection r)) U ->
  r ∈ U -> in_mesh r -> exists w, st_Get DefaultCollection (ID r) (srv_store b) = Ok w /\ w ∈ U /\ rkey w = rkey r /\
    forall x, x ∈ U -> rkey x = rkey r -> ~ beats x w.
Proof.
  intros N Hall HU Hr Hd. destruct (Hall r Hr Hd) as (w & Hw & Hb). exists w.
  pose proof (st_keyed _ (ni_inv _ _ N) _ _ Hw) as Hk. cbn in Hk. split_and!; [| |done|].
  - rewrite st_get_law. change (or_default DefaultCollection) with DefaultCollection. unfold rkey in Hw. rewrite Hd in Hw.
    by rewrite Hw.
  - apply (ni_known _ _ N _ _ Hw).
  - intros x Hx Hkx. assert (in_mesh x) as Hdx.
    { rewrite Forall_forall in HU. unfold in_mesh in *. rewrite <-Hd. apply rkey_collection; [by apply HU..|done]. }
    destruct (Hall x Hx Hdx) as (w' & Hw' & Hb'). rewrite Hkx, Hw in Hw'. by injection Hw' as <-.
Qed.
(** A default-collection key a store holds is that of a pushed record. *)
Lemma stored_known U (b : Server St) i w :
  node_inv U b -> st_Get DefaultCollection i (srv_store b) = Ok w ->
  w ∈ U /\ rkey w = record_key DefaultCollection i.
Proof.
  intros N. rewrite st_get_law. change (or_default DefaultCollection) with DefaultCollection.
  destruct (_ !! _) as [r|] eqn:Hr; [|done]. intros [= ->].
  split; [apply (ni_known _ _ N _ _ Hr)|apply (st_keyed _ (ni_inv _ _ N) _ _ Hr)].
Qed.
Lemma same_winner (U : list NellRecord) w w' :
  (forall x y, x ∈ U -> y ∈ U -> stamp x = stamp y -> x = y) -> w ∈ U -> w' ∈ U -> ~ beats w w' -> ~ beats w' w -> w = w'.
Proof. intros Hs ? ? ? ?. apply Hs; [done..|]. destruct (beats_trichotomy w w') as [?|[?|?]]; done. Qed.

Lemma all_agree U (a b : Server St) i :
  node_inv U a -> node_inv U b -> Forall (fun r => coll_ok (Collection r)) U ->
  (forall x y, x ∈ U -> y ∈ U -> stamp x = stamp y -> x = y) ->
  (forall x, x ∈ U -> in_mesh x -> has (st_records (srv_store a)) x) ->
  (forall x, x ∈ U -> in_mesh x -> has (st_records (srv_store b)) x) ->
  st_Get DefaultCollection i (srv_store a) = st_Get DefaultCollection i (srv_store b).
Proof.
  intros Na Nb HU Hs Ha Hb.
  assert (forall (s t : Server St) r, node_inv U s -> node_inv U t ->
    (forall x, x ∈ U -> in_mesh x -> has (st_records (srv_store s)) x) ->
    (forall x, x ∈ U -> in_mesh x -> has (st_records (srv_store t)) x) ->
    st_Get DefaultCollection i (srv_store s) = Ok r -> st_Get DefaultCollection i (srv_store t) = Ok r) as Hone.
  { intros s t r Ns Nt Hsa Hta Hg. destruct (stored_known U s i r Ns Hg) as [HrU Hk].
    assert (in_mesh r /\ ID r = i) as [Hd Hid].
    { rewrite Forall_forall in HU. destruct (HU r HrU) as [Hc _]. apply record_key_inj in Hk; [done|done|].
      by apply (bool_decide_unpack (colon_free DefaultCollection)). }
    destruct (has_all_winner U s r Ns Hsa HU HrU Hd) as (w & Hw & HwU & _ & Hmax).
    destruct (has_all_winner U t r Nt Hta HU HrU Hd) as (w' & Hw' & HwU' & Hkw & Hmax').
    rewrite Hid in *. rewrite Hg in Hw. injection Hw as <-. rewrite Hw'. f_equal.
    apply (same_winner U); auto. }
  destruct (st_Get DefaultCollection i (srv_store a)) as [r|e|] eqn:Ea; [symmetry; by eapply (Hone a b)|..].
  - destruct (st_Get DefaultCollection i (srv_store b)) as [r|e'|] eqn:Eb; [|by destruct e, e'|].
    + apply (Hone b a r) in Eb; [|done..]. congruence.
    + rewrite st_get_law in Eb. by case_match.
  - rewrite st_get_law in Ea. by case_match.
Qed.
End agreement.

(** ** What the rounds do *)

Lemma rounds_sync n pm url rounds : Forall (tick_round n pm url) rounds -> Forall (sync_between n) (concat rounds).
Proof. induction 1 as [|es rs [Hes _] Hr IH]; [done|]. cbn. by apply Forall_app. Qed.
Lemma sync_no_push n es : Forall (sync_between n) es -> Forall (fun e => is_push e = false) es.
Proof. intros Hs. eapply Forall_impl; [exact Hs|]. by intros e (i & j & -> & _). Qed.
(** Everything pushed reaches every server. *)
Lemma rounds_spread {St} `{StoreLaws St} pm url (σ σ' : MeshState (St := St)) rounds :
  mesh_reachable σ ->
  (forall j, j < length (net σ) -> (length (Peers (pm j)) <= maxReconcilePerTick)%nat) ->
  Forall (tick_round (length (net σ)) pm url) rounds ->
  (forall i j, i < length (net σ) -> j < length (net σ) ->
    exists k, k <= length rounds /\ nsteps (peer_edge (length (net σ)) pm url) k i j) ->
  mesh_run (concat rounds) σ σ' ->
  known σ' = known σ /\ mesh_inv σ' /\
  forall j b, net σ' !! j = Some b -> forall x, x ∈ known σ -> in_mesh x -> has (st_records (srv_store b)) x.
Proof.
  intros I%reachable_inv Hpeers Hr Hpath Hrun. destruct (run_preserves _ _ _ I Hrun) as (I' & Hlen & Hknown & _).
  split_and!; [by eapply Hknown, sync_no_push, rounds_sync|done|]. intros j b Hj x Hx Hd. destruct (mi_held _ I x Hx) as (i & s & Hi & Hs).
  destruct (Hpath i j) as (k & Hkl & Hp); [by eapply lookup_lt_Some|rewrite <-Hlen; by eapply lookup_lt_Some|].
  destruct (relay_carries _ _ _ i j x s I Hrun) as (b' & Hb' & Hh); [by eapply rounds_relay|done..|].
  by simplify_eq.
Qed.

(** ** Properties *)


(** Two servers, each with the other for a peer; the first was pushed a record. *)
Definition pair_url (i : nat) : string := if decide (i = 0) then "http://a" else "http://b".
Definition pair_pm (j : nat) : MeshManager := NewMeshManager 0 [if decide (j = 0) then "http://b" else "http://a"] 0.
Definition pair_server (node : string) : Server MemoryStore := Server_New (NewMemoryStore 0 node) node (Some ∅).
Definition pair_record : NellRecord := mkRecord DefaultCollection "1" "text" [] [] (mkHLC 1 0) "X" false.
Definition pair_start : MeshState := mkMeshState [pair_server "A"; pair_server "B"] [].
Definition pair_body : bytes := default [] (print_tree <$> changes_tree [pair_record]).
Definition pair_push := handlePush_wire MethodPost pair_body (pair_server "A").
Definition pair_pushed : MeshState := mkMeshState [fst (fst pair_push); pair_server "B"] [pair_record].
Definition pair_round : list event := [ESync 1 0; ESync 0 1].

Lemma pair_server_fresh node : json_string node = true -> fresh_server (pair_server node).
Proof. intros Hn. exists (NewMemoryStore 0 node), node. split_and!; [done|done|apply NewMemoryStore_inv|done..]. Qed.
Lemma pair_body_changes : body_changes pair_body = [pair_record].
Proof. vm_compute. reflexivity. Qed.
Lemma pair_push_ok : mesh_ok (EPush 0 [pair_record]) pair_start.
Proof.
  intros s [= <-]. split; [apply mem_puts_ok; vm_compute; reflexivity|]. split.
  - constructor; [|done]. apply (bool_decide_unpack _). vm_compute. exact I.
  - constructor; [|done]. apply (bool_decide_unpack _). vm_compute. exact I.
  - intros x _. right. intros r Hr. by apply not_elem_of_nil in Hr.
  - intros x y. rewrite app_nil_r, !list_elem_of_singleton. by intros -> ->.
  - intros x r _. rewrite app_nil_r, list_elem_of_singleton. intros -> _ _ _. apply has_merged. by left.
Qed.
Lemma pair_reachable : mesh_reachable pair_pushed.
Proof.
  exists pair_start, [EPush 0 [pair_record]]. split; [split; [repeat constructor; by apply pair_server_fresh|done]|].
  eapply run_cons; [exact pair_push_ok| |constructor].
  change pair_pushed with (mkMeshState (<[0:=fst (fst pair_push)]> (net pair_start)) ([pair_record] ++ known pair_start)).
  rewrite <-pair_body_changes.
  apply (step_push 0 pair_body (pair_server "A") _ (snd (fst pair_push)) (snd pair_push) (net pair_start) []); [done|].
  by destruct pair_push as [[? ?] ?] eqn:Hp.
Qed.
Lemma pair_peers j : j < 2 -> Peers (pair_pm j) = [pair_url (1 - j)].
Proof. intros Hj. destruct j as [|[|j]]; [vm_compute; reflexivity..|lia]. Qed.
Lemma pair_path i j : i < 2 -> j < 2 -> exists k, k <= 1 /\ nsteps (peer_edge 2 pair_pm pair_url) k i j.
Proof.
  intros Hi Hj. destruct (decide (i = j)) as [->|Hne]; [exists 0; split; [lia|constructor]|].
  exists 1. split; [lia|]. apply nsteps_once. split_and!; [done|done|]. rewrite pair_peers by done.
  apply list_elem_of_singleton. f_equal. lia.
Qed.
Lemma pair_round_ok : Forall (tick_round 2 pair_pm pair_url) [pair_round].
Proof.
  apply Forall_singleton. split.
  { apply Forall_cons. split; [exists 1, 0; split_and!; [done|lia..]|].
    apply Forall_singleton. exists 0, 1. split_and!; [done|lia..]. }
  intros j Hj. exists (Peers (pair_pm j)). split; [unfold tick_selects; rewrite pair_peers by exact Hj; cbn; reflexivity|].
  intros i Hi. rewrite pair_peers by exact Hj. rewrite list_elem_of_singleton. intros Hu.
  destruct i as [|[|i]], j as [|[|j]]; cbn in Hi, Hj; try lia; try (exfalso; vm_compute in Hu; discriminate);
    apply (bool_decide_unpack _); vm_compute; exact I.
Qed.
Lemma pair_peers_few j : j < 2 -> (length (Peers (pair_pm j)) <= maxReconcilePerTick)%nat.
Proof. intros Hj. rewrite pair_peers by exact Hj. cbn. unfold maxReconcilePerTick. lia. Qed.

