(* ===== verification/Auth.v ===== *)
(** * Request signing and authentication

    [sign.go], [server/auth.go], the routing of [server/main.go]'s [Handler], and the
    client's [signingTransport] of [sdk/replicate.go].  A request is its path, method,
    headers and body; the body is the bytes a read of it gives, or a read error. *)
From S2P Require Import Prelude BigEndian Crypto GoTime Server.
Local Open Scope Z_scope.

(** [nell.SignBody]: [fmt.Fprintf(mac, "%d\n", timestamp)] and the body, in hex. *)
Definition SignBody (secret : bytes) (timestamp : Z) (body : bytes) : string :=
  bytes_str (hex_encode (hmac_sha256 secret (format_int timestamp ++ to_byte 10 :: body))).
(** The server package's deprecated wrapper. *)
Definition server_SignBody (secret : bytes) (timestamp : Z) (body : bytes) : string :=
  SignBody secret timestamp body.

(** ** bodyReader *)
Record bodyReader := mkBodyReader { br_data : bytes; br_pos : Z }.
(** [Read(p)] into a buffer of [n] bytes: what it puts there, or [io.EOF]. *)
Definition bodyReader_Read (n : Z) (r : bodyReader) : bodyReader * option bytes :=
  if len (br_data r) <=? br_pos r then (r, None)
  else
    let p := take (Z.to_nat n) (drop (Z.to_nat (br_pos r)) (br_data r)) in
    (mkBodyReader (br_data r) (br_pos r + len p), Some p).
(** [io.ReadAll]: reads into buffers of the sizes [sizes] chooses until the end;
    [None] when the fuel runs out. *)
Fixpoint ReadAll (fuel : nat) (sizes : nat -> Z) (r : bodyReader) (acc : bytes) : option bytes :=
  match fuel with
  | O => None
  | S fuel =>
      match bodyReader_Read (sizes fuel) r with
      | (_, None) => Some acc
      | (r, Some p) => ReadAll fuel sizes r (acc ++ p)
      end
  end.

(** ** HMACAuth *)
Record Request := mkRequest {
  rq_path : string;
  rq_method : string;
  rq_contentType : string;
  (** [X-Nell-Timestamp] and [X-Nell-Signature]; empty when absent *)
  rq_timestamp : string;
  rq_signature : string;
  rq_body : res unit bytes
}.
(** What a handler finds as the request's body. *)
Inductive req_body := Unread (b : res unit bytes) | Reader (r : bodyReader).
Inductive auth_outcome := Next (b : req_body) | Rejected (status : Z) (error : string).

Definition DefaultMaxSkew : Duration := 30 * Second.

Definition HMACAuth (secret : bytes) (now : Time) (r : Request) : auth_outcome :=
  if len secret =? 0 then Next (Unread (rq_body r)) else
  let tsStr := rq_timestamp r in
  let sigStr := rq_signature r in
  if bool_decide (tsStr = "") || bool_decide (sigStr = "") then Rejected 401 "missing authentication headers" else
  match ParseInt (str_bytes tsStr) with
  | None => Rejected 401 "invalid timestamp"
  | Some ts =>
      let skew := Sub now (time_Unix ts) in
      if (skew <? - DefaultMaxSkew) || (DefaultMaxSkew <? skew) then Rejected 401 "timestamp out of range" else
      match rq_body r with
      | Ok body =>
          let want := SignBody secret ts body in
          if negb (bool_decide (want = sigStr)) then Rejected 401 "invalid signature"
          else Next (Reader (mkBodyReader body 0))
      | _ => Rejected 400 "failed to read body"
      end
  end.

(** ** Routing *)
Inductive Route := RHealth | RReady | RPull | RPush | RCheck | RBinCheck | RBinPush | RWebSocket.
#[export] Instance Route_eq_dec : EqDecision Route.
Proof. solve_decision. Defined.
Inductive dispatch := Answered (status : Z) | Redirected (location : string) | Dispatched (h : Route) (b : req_body).

(** The inner mux: exact patterns. *)
Definition sync_mux (path : string) : option Route :=
  if bool_decide (path = "/sync/pull") then Some RPull
  else if bool_decide (path = "/sync/push") then Some RPush
  else if bool_decide (path = "/sync/check") then Some RCheck
  else if bool_decide (path = "/sync/bin/check") then Some RBinCheck
  else if bool_decide (path = "/sync/bin/push") then Some RBinPush
  else if bool_decide (path = "/sync/ws") then Some RWebSocket
  else None.
Definition serve_sync (path : string) (b : req_body) : dispatch :=
  match sync_mux path with Some h => Dispatched h b | None => Answered 404 end.
(** [Handler], on a clean path: [requireJSON] around the two muxes, the sync one behind
    [HMACAuth] when there is a secret.  A mux redirects ["/sync"] to the subtree. *)
Definition Handler {St} (s : Server St) (now : Time) (r : Request) : dispatch :=
  match requireJSON (rq_method r) (rq_contentType r) with
  | Some status => Answered status
  | None =>
      if bool_decide (rq_path r = "/health") then Dispatched RHealth (Unread (rq_body r))
      else if bool_decide (rq_path r = "/ready") then Dispatched RReady (Unread (rq_body r))
      else if bool_decide (rq_path r = "/sync") then Redirected "/sync/"
      else if String.prefix "/sync/" (rq_path r) then
        if 0 <? len (srv_authSecret s) then
          match HMACAuth (srv_authSecret s) now r with
          | Next b => serve_sync (rq_path r) b
          | Rejected status _ => Answered status
          end
        else serve_sync (rq_path r) (Unread (rq_body r))
      else Answered 404
  end.

(** ** signingTransport *)
Definition RoundTrip (secret : bytes) (now : Time) (r : Request) : option Request :=
  match rq_body r with
  | Ok body =>
      let ts := Unix now in
      Some (mkRequest (rq_path r) (rq_method r) (rq_contentType r) (bytes_str (format_int ts))
        (SignBody secret ts body) (Ok body))
  | _ => None
  end.

(** ** Lemmas *)

(** Reading a [bodyReader] to the end, whatever the buffers, gives its data. *)
Lemma ReadAll_rest fuel sizes : forall data pos acc,
  (forall i, 0 < sizes i) -> 0 <= pos <= len data -> len data - pos < Z.of_nat fuel ->
  ReadAll fuel sizes (mkBodyReader data pos) acc = Some (acc ++ drop (Z.to_nat pos) data).
Proof.
  induction fuel as [|fuel IH]; intros data pos acc Hs Hp Hf; [lia|].
  cbn [ReadAll]. unfold bodyReader_Read. cbn [br_data br_pos].
  destruct (Z.leb_spec (len data) pos) as [Hge|Hlt].
  - rewrite drop_ge by (unfold len in *; lia). by rewrite app_nil_r.
  - set (rest := drop (Z.to_nat pos) data). specialize (Hs fuel) as Hn.
    assert (length rest = Z.to_nat (len data - pos)) as Hl.
    { unfold rest, len. rewrite length_drop. lia. }
    assert (len (take (Z.to_nat (sizes fuel)) rest) = Z.min (sizes fuel) (len data - pos)) as Ht.
    { unfold len at 1. rewrite length_take. lia. }
    rewrite IH; [|done|lia..]. f_equal. rewrite <-app_assoc. f_equal. rewrite Ht.
    rewrite <-(take_drop (Z.to_nat (sizes fuel)) rest) at 2. f_equal. unfold rest. rewrite drop_drop.
    destruct (Z.le_ge_cases (sizes fuel) (len data - pos)).
    + f_equal. lia.
    + rewrite !drop_ge; [done|unfold len in *; lia..].
Qed.
Lemma ReadAll_body sizes body : (forall i, 0 < sizes i) ->
  ReadAll (S (length body)) sizes (mkBodyReader body 0) [] = Some body.
Proof. intros. rewrite ReadAll_rest; [done|done|unfold len; lia..]. Qed.

Lemma Sub_skew now t : (- DefaultMaxSkew <= Sub now t <= DefaultMaxSkew) <-> (- DefaultMaxSkew <= now - t <= DefaultMaxSkew).
Proof. unfold Sub, minDuration, maxDuration, DefaultMaxSkew, Second. lia. Qed.

Lemma HMACAuth_next secret now r b : secret <> [] ->
  HMACAuth secret now r = Next b <->
  exists ts body, ParseInt (str_bytes (rq_timestamp r)) = Some ts /\
    - DefaultMaxSkew <= now - time_Unix ts <= DefaultMaxSkew /\ rq_body r = Ok body /\
    rq_signature r = SignBody secret ts body /\ rq_signature r <> "" /\ b = Reader (mkBodyReader body 0).
Proof.
  intros Hne. unfold HMACAuth. replace (len secret =? 0) with false by (destruct secret; [done|by cbn]).
  case_bool_decide as Hts; cbn [orb].
  { split; [done|]. intros (ts & body & Hp & _). rewrite Hts in Hp. done. }
  case_bool_decide as Hsig.
  { split; [done|]. by intros (ts & body & _ & _ & _ & _ & ? & _). }
  destruct (ParseInt _) as [ts|] eqn:Hp.
  2:{ split; [done|]. by intros (ts & body & [=] & _). }
  destruct (_ || _) eqn:Hskew.
  { split; [done|]. intros (ts' & body & [= <-] & Hs%Sub_skew & _). apply orb_true_iff in Hskew. lia. }
  apply orb_false_iff in Hskew. assert (- DefaultMaxSkew <= now - time_Unix ts <= DefaultMaxSkew) as Hs.
  { apply Sub_skew. lia. }
  destruct (rq_body r) as [body|e|].
  - case_bool_decide as Hw; cbn [negb].
    + split; [intros [= <-]; exists ts, body; split_and!; (done || lia)|].
      intros (ts' & body' & [= <-] & _ & [= <-] & _ & _ & ->). done.
    + split; [done|]. intros (ts' & body' & [= <-] & _ & [= <-] & Hx & _). congruence.
  - split; [done|]. by intros (ts' & body' & _ & _ & [=] & _).
  - split; [done|]. by intros (ts' & body' & _ & _ & [=] & _).
Qed.
Lemma HMACAuth_rejects secret now r status e : secret <> [] ->
  HMACAuth secret now r = Rejected status e -> status = 401 \/ status = 400.
Proof.
  intros Hne. unfold HMACAuth. replace (len secret =? 0) with false by (destruct secret; [done|by cbn]).
  repeat case_match; intros [= <- _]; auto.
Qed.
Lemma SignBody_length secret ts body : String.length (SignBody secret ts body) = 64%nat.
Proof.
  unfold SignBody. rewrite <-length_str_bytes, str_bytes_str, length_hex_encode.
  unfold hmac_sha256. by rewrite length_sha256.
Qed.
Lemma SignBody_nonempty secret ts body : SignBody secret ts body <> "".
Proof. intros He. pose proof (SignBody_length secret ts body) as Hl. by rewrite He in Hl. Qed.

Lemma Handler_sync {St} (s : Server St) now r h b : srv_authSecret s <> [] -> h <> RHealth -> h <> RReady ->
  Handler s now r = Dispatched h b ->
  HMACAuth (srv_authSecret s) now r = Next b /\ sync_mux (rq_path r) = Some h.
Proof.
  intros Hne Hh Hr. unfold Handler, serve_sync.
  replace (0 <? len (srv_authSecret s)) with true by (destruct (srv_authSecret s); [done|by cbn]).
  repeat case_match; intros [=]; simplify_eq; done.
Qed.

Lemma sync_mux_path path h : sync_mux path = Some h ->
  path <> "/health" /\ path <> "/ready" /\ path <> "/sync" /\ String.prefix "/sync/" path = true.
Proof. unfold sync_mux. repeat (case_bool_decide as Hpath; [subst path; intros _; split_and!; by vm_compute|clear Hpath]). done. Qed.
Lemma Handler_dispatches {St} (s : Server St) now r h b :
  srv_authSecret s <> [] -> requireJSON (rq_method r) (rq_contentType r) = None -> sync_mux (rq_path r) = Some h ->
  HMACAuth (srv_authSecret s) now r = Next b -> Handler s now r = Dispatched h b.
Proof.
  intros Hne Hj Hm Ha. destruct (sync_mux_path _ _ Hm) as (? & ? & ? & Hpre).
  unfold Handler, serve_sync. rewrite Hj, Ha, Hm, Hpre, !bool_decide_false by done.
  by replace (0 <? len (srv_authSecret s)) with true by (destruct (srv_authSecret s); [done|by cbn]).
Qed.

(** ** Properties *)

(** C23. Only signed requests reach a sync handler: when the server has a secret,
    [Handler] hands a request to one of the [/sync/] handlers exactly when the path and
    content type are right and its signature is the HMAC of its timestamp and body
    under that secret, the timestamp within 30 seconds of the server's clock; the
    handler then reads exactly the signed body, whatever the buffers it reads into.
    The health probes are answered without a signature. *)
Theorem Handler_requires_signature {St} (s : Server St) now r h :
  srv_authSecret s <> [] -> h <> RHealth -> h <> RReady ->
  ((exists b, Handler s now r = Dispatched h b) <->
   requireJSON (rq_method r) (rq_contentType r) = None /\ sync_mux (rq_path r) = Some h /\
   exists ts body, ParseInt (str_bytes (rq_timestamp r)) = Some ts /\
     - (30 * Second) <= now - time_Unix ts <= 30 * Second /\ rq_body r = Ok body /\
     rq_signature r = SignBody (srv_authSecret s) ts body) /\
  (forall b, Handler s now r = Dispatched h b -> exists rd body,
     b = Reader rd /\ rq_body r = Ok body /\
     forall sizes, (forall i, 0 < sizes i) -> ReadAll (S (length body)) sizes rd [] = Some body).
Proof.
  intros Hne Hh Hr. split; [split|].
  - intros [b Hd]. pose proof (Handler_sync s now r h b Hne Hh Hr Hd) as [Ha Hm].
    apply HMACAuth_next in Ha; [|done]. destruct Ha as (ts & body & ? & ? & ? & ? & _ & _).
    split_and!; [|done|by exists ts, body]. revert Hd. unfold Handler. by case_match.
  - intros (Hj & Hm & ts & body & Hp & Hskew & Hb & Hsig).
    assert (HMACAuth (srv_authSecret s) now r = Next (Reader (mkBodyReader body 0))) as Ha.
    { apply HMACAuth_next; [done|]. exists ts, body. unfold DefaultMaxSkew.
      split_and!; try done; try lia. rewrite Hsig. apply SignBody_nonempty. }
    exists (Reader (mkBodyReader body 0)). by apply Handler_dispatches.
  - intros b Hd. apply Handler_sync in Hd as [Ha _]; [|done..].
    apply HMACAuth_next in Ha as (ts & body & _ & _ & Hb & _ & _ & ->); [|done].
    exists (mkBodyReader body 0), body. split_and!; [done..|]. intros. by apply ReadAll_body.
Qed.
Definition demo_secret : bytes := str_bytes "k".
Definition demo_now : Time := (unixToInternal + 1700000000) * Second.
Definition demo_secured : Server MemStore.MemoryStore := SetAuthSecret demo_secret demo_server.
Definition demo_request : Request :=
  mkRequest "/sync/push" "POST" "application/json" "1700000000"
    (SignBody demo_secret 1700000000 (str_bytes "{}")) (Ok (str_bytes "{}")).
Lemma Handler_requires_signature_witness :
  srv_authSecret demo_secured <> [] /\ exists b, Handler demo_secured demo_now demo_request = Dispatched RPush b.
Proof.
  assert (srv_authSecret demo_secured <> []) as Hne by discriminate. split; [done|].
  apply (proj1 (Handler_requires_signature demo_secured demo_now demo_request RPush Hne ltac:(done) ltac:(done))).
  split; [reflexivity|]. split; [reflexivity|]. exists 1700000000, (str_bytes "{}").
  split_and!; [by vm_compute|by vm_compute|by vm_compute|done|done].
Defined.

(** C34. A signed request arrives: whatever [signingTransport] sends, a server with the
    same secret and a clock at most 29 seconds ahead of the client's or 30 behind
    dispatches to the handler of its path, and the handler reads the client's body. *)
Theorem signed_request_dispatched {St} (s : Server St) (r r' : Request) t now h body :
  srv_authSecret s <> [] -> RoundTrip (srv_authSecret s) t r = Some r' -> rq_body r = Ok body ->
  requireJSON (rq_method r) (rq_contentType r) = None -> sync_mux (rq_path r) = Some h ->
  time_ok t -> - (30 * Second) <= now - t <= 29 * Second ->
  exists rd, Handler s now r' = Dispatched h (Reader rd) /\
    forall sizes, (forall i, 0 < sizes i) -> ReadAll (S (length body)) sizes rd [] = Some body.
Proof.
  unfold RoundTrip. intros Hne Hrt Hb Hj Hm Hok Hskew. rewrite Hb in Hrt. simplify_eq.
  exists (mkBodyReader body 0). split; [|intros; by apply ReadAll_body].
  assert (HMACAuth (srv_authSecret s) now (mkRequest (rq_path r) (rq_method r) (rq_contentType r)
    (bytes_str (format_int (Unix t))) (SignBody (srv_authSecret s) (Unix t) body) (Ok body))
    = Next (Reader (mkBodyReader body 0))) as Ha.
  { apply HMACAuth_next; [done|]. exists (Unix t), body. cbn [rq_timestamp rq_signature rq_body].
    rewrite str_bytes_str, ParseInt_format by apply Unix_in_s. rewrite time_Unix_trunc by done.
    pose proof (Z.mod_pos_bound t Second ltac:(done)) as Hmod. unfold DefaultMaxSkew, Second in *.
    split_and!; (done || lia || apply SignBody_nonempty). }
  by apply Handler_dispatches.
Qed.
Definition demo_signed : Request := default demo_request (RoundTrip demo_secret demo_now demo_request).
Lemma signed_request_dispatched_witness :
  exists rd, Handler demo_secured (demo_now + 29 * Second) demo_signed = Dispatched RPush (Reader rd).
Proof.
  destruct (signed_request_dispatched demo_secured demo_request demo_signed demo_now (demo_now + 29 * Second) RPush (str_bytes "{}"))
    as (rd & Hd & _); [discriminate|by vm_compute|reflexivity|reflexivity|reflexivity| | |].
  - split; by vm_compute.
  - vm_compute. split; discriminate.
  - exists rd. exact Hd.
Defined.
