(* ===== verification/Metrics.v ===== *)
(** * Request metrics (server/metrics.go)

    The middleware that counts requests, and what it makes of the response writer it
    hands on.  The instruments belong to the OpenTelemetry library: making one may fail,
    and what the code records with them is a list of measurements.  A handler is the
    calls it makes on its writer, which may depend on what the writer can do, and
    whether it panics; [net/http] makes the response of the calls. *)
From S2P Require Import Prelude BigEndian Float GoTime Record StoreApi Server Auth.
Local Open Scope Z_scope.

(** ** Response writers (net/http) *)
Inductive rw_call := WriteHeader (status : Z) | Write (b : bytes) | Hijack.
Record served := mkServed { sv_calls : list rw_call; sv_panicked : bool }.
(** A handler on one request: the argument is the method set of its writer's type, which a type
    assertion such as [w.(http.Hijacker)] looks at; what becomes of the state it works on, and
    what it did to the writer. *)
Abbreviation handler St := (list string -> St * served).
(** The methods of the interface [http.ResponseWriter]. *)
Definition ResponseWriter_methods : list string := ["Header"; "Write"; "WriteHeader"].

(** The status of the response so far: the first [WriteHeader] that is not informational,
    or 200 at the first [Write]; a later [WriteHeader] is superfluous. *)
Definition rw_status (st : option Z) (c : rw_call) : option Z :=
  match st, c with
  | None, WriteHeader s => if (100 <=? s) && (s <=? 199) && negb (s =? 101) then None else Some s
  | None, Write _ => Some 200
  | _, _ => st
  end.
(** The status the client sees of a handler that returned. *)
Definition response_status (calls : list rw_call) : Z := default 200 (foldl rw_status None calls).
Definition rw_body (calls : list rw_call) : bytes :=
  concat (map (fun c => match c with Write b => b | _ => [] end) calls).

(** ** The instruments *)
Inductive counter := requestsTotal | requests4xx | requests5xx | recordsAccepted | recordsRejected.
#[export] Instance counter_eq_dec : EqDecision counter.
Proof. solve_decision. Defined.
Inductive measurement := Add (c : counter) (n : Z) (attrs : list (string * string)) | RecordDuration (seconds : float).

Record Metrics := mkMetrics { m_counters : list (counter * string); m_duration : string * string }.
(** [NewMetrics], given how the exporter and each instrument are made. *)
Definition NewMetrics {E} (exporter : res E unit) (Int64Counter : string -> res E unit)
    (Float64Histogram : string -> string -> res E unit) : res E Metrics :=
  _ ← exporter;
  _ ← Int64Counter "nell.requests.total";
  _ ← Int64Counter "nell.requests.4xx";
  _ ← Int64Counter "nell.requests.5xx";
  _ ← Int64Counter "nell.records.accepted";
  _ ← Int64Counter "nell.records.rejected";
  _ ← Float64Histogram "nell.request.duration" "s";
  Ok (mkMetrics
    [(requestsTotal, "nell.requests.total"); (requests4xx, "nell.requests.4xx"); (requests5xx, "nell.requests.5xx");
     (recordsAccepted, "nell.records.accepted"); (recordsRejected, "nell.records.rejected")]
    ("nell.request.duration", "s")).

(** ** metricsWriter *)

(** Its [status] field after a call; the call goes on to the writer it embeds. *)
Definition metricsWriter_call (status : Z) (c : rw_call) : Z :=
  match c with
  | WriteHeader s => s
  | Write _ => if status =? 0 then 200 else status
  | Hijack => status
  end.
(** Its method set: the two methods declared on it, and those promoted from the field it embeds,
    whose type is the interface, whatever else the writer stored there can do. *)
Definition metricsWriter_methods : list string := ["WriteHeader"; "Write"] ++ ResponseWriter_methods.

(** [Wrap]: the request of [method] and [path], between the readings [start] and [stop]
    of the clock.  A panic of the handler skips what follows it. *)
Definition Wrap {St} (method path : string) (start stop : Time) (next : handler St) : St * served * list measurement :=
  let '(st, r) := next metricsWriter_methods in
  let status := foldl metricsWriter_call 0 (sv_calls r) in
  (st, r,
   Add requestsTotal 1 [("method", method); ("path", path)] ::
   if sv_panicked r then [] else
   RecordDuration (Seconds (Sub stop start)) ::
   if 500 <=? status then [Add requests5xx 1 []]
   else if 400 <=? status then [Add requests4xx 1 []] else []).

(** [RecordPush] *)
Definition RecordPush (accepted total : Z) : list measurement :=
  [Add recordsAccepted accepted []; Add recordsRejected (wrap_s 64 (total - accepted)) []].

(** What a counter shows after some measurements: the sum of what was added to it. *)
Definition count (c : counter) (ms : list measurement) : Z :=
  foldr Z.add 0 (map (fun m => match m with Add c' n _ => if decide (c' = c) then n else 0 | _ => 0 end) ms).
Definition durations (ms : list measurement) : Z :=
  foldr Z.add 0 (map (fun m => match m with RecordDuration _ => 1 | _ => 0 end) ms).

(** ** What the sync handlers write *)

(** [http.Error] and [writeJSON] write a status and a body, the binary handlers only
    bodies; [body] is the text of the response. *)
Definition resp_status (r : response) : Z := match r with RespError status => status | _ => 200 end.
Definition response_calls (body : response -> bytes) (r : response) : list rw_call :=
  match r with
  | RespBytes [] => []
  | RespBytes b => [Write b]
  | _ => [WriteHeader (resp_status r); Write (body r)]
  end.
(** What the push handlers record: nothing when they fail. *)
Definition push_measurements (r : response) : list measurement :=
  match r with RespAccepted accepted total => RecordPush accepted total | _ => [] end.
Definition binpush_measurements {St} `{StoreOps St} (method : string) (body : bytes) (s : Server St) : list measurement :=
  if negb (bool_decide (method = MethodPost)) then [] else
  let '(_, accepted, total, _) := binpush_loop (1 + length body) body 0 0 [] s in RecordPush accepted total.

(** ** Lemmas *)

(** Calls that answer once: at most one final status, before any body. *)
Definition tidy (calls : list rw_call) : Prop :=
  match calls with
  | WriteHeader s :: calls => 200 <= s /\ Forall (fun c => exists b, c = Write b) calls
  | calls => Forall (fun c => exists b, c = Write b) calls
  end.
Lemma writes_status calls s st : Forall (fun c => exists b, c = Write b) calls -> s <> 0 ->
  foldl metricsWriter_call s calls = s /\ foldl rw_status (Some st) calls = Some st.
Proof.
  intros Hc Hs. induction Hc as [|c calls [b ->] _ [IH1 IH2]]; [done|]. cbn [foldl metricsWriter_call rw_status].
  by rewrite (proj2 (Z.eqb_neq s 0)).
Qed.
(** Of tidy calls the writer's field is the client's status, but for an empty answer. *)
Lemma tidy_status calls : tidy calls ->
  let status := foldl metricsWriter_call 0 calls in status = response_status calls \/ status = 0 /\ response_status calls = 200.
Proof.
  unfold response_status. destruct calls as [|[s|b|] calls]; cbn [tidy foldl metricsWriter_call rw_status]; intros Ht.
  - by right.
  - destruct Ht as [Hs Ht]. replace ((100 <=? s) && (s <=? 199) && negb (s =? 101)) with false by lia.
    destruct (writes_status calls s s Ht ltac:(lia)) as [-> ->]. by left.
  - inversion_clear Ht as [|?? _ Ht']. cbn [Z.eqb]. destruct (writes_status calls 200 200 Ht' ltac:(lia)) as [-> ->]. by left.
  - inversion_clear Ht as [|?? [b Hb] _]. done.
Qed.
Lemma response_calls_tidy body r : 200 <= resp_status r -> tidy (response_calls body r).
Proof.
  intros Hs. destruct r as [| | | |b| |]; cbn [response_calls tidy]; try (split; [done|]; by repeat constructor; eexists).
  - destruct b; cbn [tidy]; repeat constructor. by eexists.
Qed.
Lemma response_calls_status body r : 200 <= resp_status r -> response_status (response_calls body r) = resp_status r.
Proof.
  intros Hs. destruct r as [| | | |b| |]; try done; [|by destruct b].
  unfold response_status. cbn [response_calls foldl rw_status resp_status] in *.
  by replace ((100 <=? status) && (status <=? 199) && negb (status =? 101)) with false by lia.
Qed.
Lemma count_app c a b : count c (a ++ b) = count c a + count c b.
Proof. unfold count. rewrite map_app, foldr_app. induction (map _ a) as [|x l IH]; cbn [foldr]; lia. Qed.
Lemma durations_app a b : durations (a ++ b) = durations a + durations b.
Proof. unfold durations. rewrite map_app, foldr_app. induction (map _ a) as [|x l IH]; cbn [foldr]; lia. Qed.
Lemma count_RecordPush accepted total : in_s 64 (total - accepted) ->
  count recordsAccepted (RecordPush accepted total) = accepted /\ count recordsRejected (RecordPush accepted total) = total - accepted.
Proof. intros Hd. unfold RecordPush. rewrite wrap_s_id by (done || lia). unfold count. cbn [map foldr]. repeat case_decide; try done; lia. Qed.

Lemma push_loop_bounds {St} `{StoreOps St} changes : forall n (s s' : Server St) a,
  push_loop changes n s = (s', Some a) -> n <= a <= n + len changes.
Proof.
  induction changes as [|r rs IH]; intros n s s' a; cbn [push_loop].
  - intros [= _ <-]. unfold len. cbn. lia.
  - destruct (st_Put r (srv_store s)) as [st [[ok w]|]]; [|done]. intros Ha%IH. unfold len in *. cbn [length].
    destruct ok; lia.
Qed.
Lemma binpush_loop_bounds {St} `{StoreOps St} fuel : forall body a t recs (s s' : Server St) a' t' recs',
  binpush_loop fuel body a t recs s = (s', a', t', recs') -> a <= a' /\ t <= t' /\ a' - a <= t' - t <= Z.of_nat fuel.
Proof.
  induction fuel as [|fuel IH]; intros body a t recs s s' a' t' recs'; cbn [binpush_loop].
  - intros [= _ <- <- _]. lia.
  - repeat case_match; intros Hr; simplify_eq; try lia; apply IH in Hr; lia.
Qed.

(** One request the middleware served: its method and path, the clock before and after,
    and the handler. *)
Record exchange := mkExchange { ex_method : string; ex_path : string; ex_start : Time; ex_stop : Time; ex_next : handler unit }.
Definition ex_wrap (e : exchange) : unit * served * list measurement :=
  Wrap (ex_method e) (ex_path e) (ex_start e) (ex_stop e) (ex_next e).
(** The status the client sees. *)
Definition ex_response (e : exchange) : Z := response_status (sv_calls (snd (fst (ex_wrap e)))).
Definition ex_measurements (es : list exchange) : list measurement := concat (map (fun e => snd (ex_wrap e)) es).
Definition answers_once (e : exchange) : Prop :=
  let '(_, r) := ex_next e metricsWriter_methods in sv_panicked r = false /\ tidy (sv_calls r).

Lemma wrap_counts e : answers_once e ->
  count requestsTotal (snd (ex_wrap e)) = 1 /\
  count requests4xx (snd (ex_wrap e)) = (if (400 <=? ex_response e) && (ex_response e <? 500) then 1 else 0) /\
  count requests5xx (snd (ex_wrap e)) = (if 500 <=? ex_response e then 1 else 0) /\
  durations (snd (ex_wrap e)) = 1.
Proof.
  unfold answers_once, ex_response, ex_wrap, Wrap. destruct (ex_next e metricsWriter_methods) as [[] r]. cbn [fst snd].
  intros [-> Ht]. destruct (tidy_status _ Ht) as [->|[-> ->]]; [|done].
  generalize (response_status (sv_calls r)). intros st. unfold count, durations.
  destruct (Z.leb_spec 500 st), (Z.leb_spec 400 st), (Z.ltb_spec st 500); try lia; by vm_compute.
Qed.

(** ** Properties *)

(** The counters agree with what the clients saw: after any requests to handlers that
    answer once, through the middleware, [nell.requests.total]
    is their number, [nell.requests.4xx] and [nell.requests.5xx] are the numbers of
    responses in those classes, and there is one latency per request.  Every response of
    the sync handlers is such an answer; and what a push or a binary push adds to
    [nell.records.accepted] and [nell.records.rejected] is not negative and sums to the
    records it counted, whatever the store does. *)
Theorem Metrics_count_responses (es : list exchange) : Forall answers_once es ->
  let ms := ex_measurements es in
  count requestsTotal ms = len es /\ durations ms = len es /\
  count requests4xx ms = len (filter (fun e => 400 <= ex_response e < 500) es) /\
  count requests5xx ms = len (filter (fun e => 500 <= ex_response e) es) /\
  (forall body r method path t1 t2, 200 <= resp_status r ->
     let e := mkExchange method path t1 t2 (fun _ => (tt, mkServed (response_calls body r) false)) in
     answers_once e /\ ex_response e = resp_status r) /\
  (forall St (O : StoreOps St) (s : Server St) method changes, len changes < 2 ^ 63 ->
     let ms := push_measurements (snd (fst (handlePush method (Ok changes) s))) in
     0 <= count recordsAccepted ms /\ 0 <= count recordsRejected ms /\
     (ms <> [] -> count recordsAccepted ms + count recordsRejected ms = len changes)) /\
  (forall St (O : StoreOps St) (s : Server St) method body, len body < 2 ^ 63 - 1 ->
     let ms := binpush_measurements method body s in 0 <= count recordsAccepted ms /\ 0 <= count recordsRejected ms).
Proof.
  intros Hes ms.
  assert (count requestsTotal ms = len es /\ durations ms = len es /\
    count requests4xx ms = len (filter (fun e => 400 <= ex_response e < 500) es) /\
    count requests5xx ms = len (filter (fun e => 500 <= ex_response e) es)) as (? & ? & ? & ?).
  { subst ms. induction Hes as [|e es He _ IH]; [done|]. destruct IH as (I1 & I2 & I3 & I4).
    destruct (wrap_counts e He) as (W1 & W2 & W3 & W4). unfold ex_measurements in *. cbn [map concat].
    rewrite !count_app, durations_app, W1, W2, W3, W4, I1, I2, I3, I4, !filter_cons. unfold len.
    destruct (Z.leb_spec 400 (ex_response e)), (Z.ltb_spec (ex_response e) 500), (Z.leb_spec 500 (ex_response e));
      cbn [andb]; split_and!; try case_decide; cbn [length]; lia. }
  split_and!; try done.
  - intros body r method path t1 t2 Hr. split.
    + split; [done|]. by apply response_calls_tidy.
    + by apply response_calls_status.
  - intros St Hst s method changes Hl. unfold handlePush. case_bool_decide; [cbn [negb]|done].
    destruct (push_loop changes 0 s) as [s' [a|]] eqn:Hp; [|done]. apply push_loop_bounds in Hp.
    cbn [fst snd push_measurements]. destruct (count_RecordPush a (len changes)) as [-> ->]; [unfold in_s, len in *|]; lia.
  - intros St Hst s method body Hl. unfold binpush_measurements. case_bool_decide; [cbn [negb]|done].
    destruct (binpush_loop _ _ _ _ _ _) as [[[s' a] t] recs] eqn:Hp. apply binpush_loop_bounds in Hp.
    destruct (count_RecordPush a t) as [-> ->]; [unfold in_s, len in *|]; lia.
Qed.
Definition demo_exchanges : list exchange :=
  [mkExchange "GET" "/sync/pull" 0 (3 * Millisecond) (fun _ => (tt, mkServed (response_calls (fun _ => []) (RespError 405)) false));
   mkExchange "POST" "/sync/push" 5 6 (fun _ => (tt, mkServed (response_calls (fun _ => []) (RespAccepted 1 2)) false))].
Lemma Metrics_count_responses_witness :
  count requestsTotal (ex_measurements demo_exchanges) = 2 /\ count requests4xx (ex_measurements demo_exchanges) = 1.
Proof.
  assert (Forall answers_once demo_exchanges) as Hd.
  { repeat constructor; cbn; try lia; by eexists. }
  destruct (Metrics_count_responses demo_exchanges Hd) as (Ht & _ & H4 & _). rewrite Ht, H4. split; reflexivity.
Defined.
