(* ===== verification/RateLimit.v ===== *)
(** * Rate limiting

    [server/ratelimit.go]: a token bucket per client address, in [float64] arithmetic. *)
From S2P Require Import Prelude Float GoTime.
Local Open Scope Z_scope.

Record bucket := mkBucket { tokens : float; lastRef : Time }.
Record RateLimiter := mkRateLimiter { rl_rate : float; rl_burst : Z; rl_state : gmap string bucket }.
Definition NewRateLimiter (rate : float) (burst : Z) : RateLimiter := mkRateLimiter rate burst ∅.
Definition rl_set (ip : string) (b : bucket) (rl : RateLimiter) : RateLimiter :=
  mkRateLimiter (rl_rate rl) (rl_burst rl) (<[ip := b]> (rl_state rl)).

Definition f_one : float := S754_finite false 4503599627370496 (-52).
(** The refill of [Allow]. *)
Definition refill (rate : float) (burst : Z) (now : Time) (b : bucket) : float :=
  let elapsed := Seconds (Sub now (lastRef b)) in
  let t := f64_add (tokens b) (f64_mul elapsed rate) in
  if SFltb (f64_of_int burst) t then f64_of_int burst else t.
Definition Allow (ip : string) (now : Time) (rl : RateLimiter) : RateLimiter * bool :=
  if SFleb (rl_rate rl) f_zero then (rl, true) else
  let b := default (mkBucket (f64_of_int (rl_burst rl)) now) (rl_state rl !! ip) in
  let t := refill (rl_rate rl) (rl_burst rl) now b in
  if SFleb f_one t then (rl_set ip (mkBucket (f64_sub t f_one) now) rl, true)
  else (rl_set ip (mkBucket t now) rl, false).

(** One tick of [cleanupLoop]. *)
Definition cleanup (now : Time) (rl : RateLimiter) : RateLimiter :=
  let cutoff := now - 5 * Minute in
  mkRateLimiter (rl_rate rl) (rl_burst rl) (filter (fun p => Before (lastRef p.2) cutoff = false) (rl_state rl)).

Definition clientIP (forwardedFor remoteAddr : string) : string :=
  if negb (bool_decide (forwardedFor = "")) then forwardedFor else remoteAddr.
(** [Middleware]: the status it answers with, or none when the request goes on. *)
Definition Middleware (forwardedFor remoteAddr : string) (now : Time) (rl : RateLimiter) : RateLimiter * option Z :=
  let ip := clientIP forwardedFor remoteAddr in
  let '(rl, ok) := Allow ip now rl in
  (rl, if ok then None else Some 429).

(** A sequence of requests, and how many were allowed. *)
Fixpoint allow_run (reqs : list (string * Time)) (rl : RateLimiter) : RateLimiter * list bool :=
  match reqs with
  | [] => (rl, [])
  | (ip, now) :: reqs =>
      let '(rl, ok) := Allow ip now rl in
      let '(rl, oks) := allow_run reqs rl in
      (rl, ok :: oks)
  end.

(** ** Lemmas *)

(** Whole numbers of tokens, by evaluation up to 4096. *)
Definition whole_step (k : Z) : bool :=
  match f64_of_int k with S754_finite false _ _ => true | _ => false end &&
  SFleb f_one (f64_of_int k) && bool_decide (f64_sub (f64_of_int k) f_one = f64_of_int (k - 1)) &&
  negb (SFltb (f64_of_int k) (f64_of_int (k - 1))).
Lemma whole_steps : forallb (fun n => whole_step (Z.of_nat n)) (seq 1 4096) = true.
Proof. vm_compute. reflexivity. Qed.
Definition max_burst : Z := 4096.
Lemma whole k : 1 <= k <= max_burst ->
  ~ is_nan (f64_of_int k) /\ SFleb f_one (f64_of_int k) = true /\ f64_sub (f64_of_int k) f_one = f64_of_int (k - 1) /\
  SFltb (f64_of_int k) (f64_of_int (k - 1)) = false.
Proof.
  unfold max_burst. intros Hk. pose proof whole_steps as Hs. rewrite forallb_forall in Hs.
  specialize (Hs (Z.to_nat k)). rewrite in_seq in Hs. specialize (Hs ltac:(lia)). rewrite Z2Nat.id in Hs by lia.
  unfold whole_step in Hs. rewrite !andb_true_iff, negb_true_iff, bool_decide_eq_true in Hs.
  destruct Hs as [[[Hf Ho] Hsub] Hlt]. split_and!; try done. intros Hn. by rewrite Hn in Hf.
Qed.
Lemma whole_not_nan k : 0 <= k <= max_burst -> ~ is_nan (f64_of_int k).
Proof. intros Hk. destruct (decide (k = 0)) as [->|]; [done|]. apply whole. lia. Qed.
Lemma whole_mono n k : 0 <= k -> k + Z.of_nat n <= max_burst ->
  ~ key_lt (float_key (f64_of_int (k + Z.of_nat n))) (float_key (f64_of_int k)).
Proof.
  intros Hk Hn. induction n as [|n IH]; [rewrite Z.add_0_r; unfold key_lt; lia|].
  specialize (IH ltac:(lia)). destruct (whole (k + Z.of_nat (S n))) as (Hnan & _ & _ & Hlt); [lia|].
  replace (k + Z.of_nat (S n) - 1) with (k + Z.of_nat n) in Hlt by lia.
  rewrite <-not_true_iff_false, SFltb_key in Hlt by (done || apply whole_not_nan; lia).
  unfold key_lt in *. lia.
Qed.
Lemma whole_le k b : 0 <= k <= b -> b <= max_burst -> SFltb (f64_of_int b) (f64_of_int k) = false.
Proof.
  intros Hk Hb. rewrite <-not_true_iff_false, SFltb_key by (apply whole_not_nan; lia).
  replace b with (k + Z.of_nat (Z.to_nat (b - k))) by lia. apply whole_mono; lia.
Qed.

(** A refill after no time leaves whole tokens as they are. *)
Lemma refill_now m e burst now k : 0 <= k <= burst -> burst <= max_burst ->
  refill (S754_finite false m e) burst now (mkBucket (f64_of_int k) now) = f64_of_int k.
Proof.
  intros Hk Hb. unfold refill. cbn [tokens lastRef].
  replace (Sub now now) with 0 by (unfold Sub, minDuration, maxDuration; lia).
  change (f64_mul (Seconds 0) (S754_finite false m e)) with f_zero.
  replace (f64_add (f64_of_int k) f_zero) with (f64_of_int k); [by rewrite whole_le|].
  destruct (decide (k = 0)) as [->|]; [done|].
  pose proof whole_steps as Hs. rewrite forallb_forall in Hs. unfold max_burst in Hb.
  specialize (Hs (Z.to_nat k)). rewrite in_seq in Hs. specialize (Hs ltac:(lia)). rewrite Z2Nat.id in Hs by lia.
  unfold whole_step in Hs. by destruct (f64_of_int k).
Qed.
(** The bucket [Allow] works on. *)
Definition bucket_of (ip : string) (now : Time) (rl : RateLimiter) : bucket :=
  default (mkBucket (f64_of_int (rl_burst rl)) now) (rl_state rl !! ip).
Definition limited (rl : RateLimiter) : Prop := exists m e, rl_rate rl = S754_finite false m e.

Lemma Allow_now ip now rl k : limited rl -> 0 <= k <= rl_burst rl -> rl_burst rl <= max_burst ->
  bucket_of ip now rl = mkBucket (f64_of_int k) now ->
  Allow ip now rl = (rl_set ip (mkBucket (f64_of_int (Z.max 0 (k - 1))) now) rl, 0 <? k).
Proof.
  intros (m & e & Hr) Hk Hb Hd. unfold Allow. rewrite Hr.
  change (SFleb (S754_finite false m e) f_zero) with false. cbn iota. fold (bucket_of ip now rl). rewrite Hd.
  rewrite refill_now by done. destruct (decide (k = 0)) as [->|].
  - done.
  - destruct (whole k) as (_ & -> & -> & _); [lia|]. rewrite Z.max_r by lia.
    by replace (0 <? k) with true by lia.
Qed.
Lemma Allow_other ip ip' now rl : ip <> ip' ->
  let '(rl', _) := Allow ip' now rl in
  rl_state rl' !! ip = rl_state rl !! ip /\ rl_rate rl' = rl_rate rl /\ rl_burst rl' = rl_burst rl.
Proof.
  intros Hne. unfold Allow. repeat case_match; simplify_eq; cbn; rewrite ?lookup_insert_ne by done; done.
Qed.

(** The answers to one address. *)
Definition answers (ip : string) (reqs : list (string * Time)) (oks : list bool) : list bool :=
  (fun p : string * Time * bool => p.2) <$> filter (fun p : string * Time * bool => p.1.1 = ip) (zip reqs oks).

Lemma allow_run_burst ip now reqs : forall rl k, limited rl -> 0 <= k <= rl_burst rl -> rl_burst rl <= max_burst ->
  bucket_of ip now rl = mkBucket (f64_of_int k) now ->
  (forall t, (ip, t) ∈ reqs -> t = now) ->
  let '(_, oks) := allow_run reqs rl in
  let n := length (filter (fun p : string * Time => p.1 = ip) reqs) in
  answers ip reqs oks = replicate (n `min` Z.to_nat k) true ++ replicate (n - Z.to_nat k) false.
Proof.
  induction reqs as [|[ip' t] reqs IH]; intros rl k Hl Hk Hb Hd Ht; cbn [allow_run]; [done|].
  unfold answers in *. rewrite filter_cons. cbn [fst]. destruct (decide (ip' = ip)) as [->|Hne].
  - rewrite (Ht t) by set_solver. rewrite (Allow_now ip now rl k) by done.
    specialize (IH (rl_set ip (mkBucket (f64_of_int (Z.max 0 (k - 1))) now) rl) (Z.max 0 (k - 1)) Hl ltac:(cbn; lia) Hb).
    destruct (allow_run reqs _) as [rl2 oks]. cbn [zip zip_with]. rewrite filter_cons. cbn [fst].
    rewrite decide_True by done. cbn [fmap list_fmap snd length].
    rewrite IH; [|unfold bucket_of, rl_set; cbn; by rewrite lookup_insert_eq|set_solver].
    destruct (Z.ltb_spec 0 k).
    + replace (Z.to_nat k) with (S (Z.to_nat (Z.max 0 (k - 1)))) by lia. done.
    + replace (Z.to_nat (Z.max 0 (k - 1))) with O by lia. replace (Z.to_nat k) with O by lia.
      rewrite !Nat.min_0_r, !Nat.sub_0_r. done.
  - pose proof (Allow_other ip ip' t rl ltac:(congruence)) as Ho.
    destruct (Allow ip' t rl) as [rl1 ok]. destruct Ho as (Hs & Hr & Hbu).
    specialize (IH rl1 k). unfold limited, bucket_of in *. rewrite Hs, Hr, Hbu in IH.
    specialize (IH Hl Hk Hb Hd ltac:(set_solver)).
    destruct (allow_run reqs rl1) as [rl2 oks]. cbn [zip zip_with]. rewrite filter_cons. cbn [fst].
    by rewrite decide_False.
Qed.

(** ** Properties *)

(** C38. The burst: when an address is new to the limiter, of all its requests at one
    instant exactly the first [burst] are allowed, however many other addresses send
    requests in between and whenever those are dated; bursts to 4096. *)
Theorem RateLimiter_burst ip now reqs rl : limited rl -> 0 <= rl_burst rl <= max_burst ->
  rl_state rl !! ip = None -> (forall t, (ip, t) ∈ reqs -> t = now) ->
  let '(_, oks) := allow_run reqs rl in
  let n := length (filter (fun p : string * Time => p.1 = ip) reqs) in
  answers ip reqs oks = replicate (n `min` Z.to_nat (rl_burst rl)) true ++ replicate (n - Z.to_nat (rl_burst rl)) false.
Proof.
  intros Hl Hb Hn Ht. apply (allow_run_burst ip now); try done; try lia. unfold bucket_of. by rewrite Hn.
Qed.
Definition demo_reqs : list (string * Time) := [("a", 5); ("b", 4); ("a", 5); ("a", 5)].
Definition demo_limiter : RateLimiter := NewRateLimiter (S754_finite false 1 3) 2.
Lemma RateLimiter_burst_witness : answers "a" demo_reqs (snd (allow_run demo_reqs demo_limiter)) = [true; true; false].
Proof.
  assert (forall t, ("a", t) ∈ demo_reqs -> t = 5) as Ht.
  { intros t. unfold demo_reqs. rewrite !elem_of_cons, elem_of_nil. naive_solver. }
  pose proof (RateLimiter_burst "a" 5 demo_reqs demo_limiter
    ltac:(by repeat eexists) ltac:(cbn; unfold max_burst; lia) eq_refl Ht) as Hrun.
  destruct (allow_run demo_reqs demo_limiter) as [rl oks]. exact Hrun.
Defined.
