(* ===== verification/Config.v ===== *)
(** * Configuration and start-up settings

    [config.go], and what [main] of [cmd/nelldb-server/main.go] makes of the flags and
    the configuration file before it starts the server.  Reading the file, expanding
    the environment and parsing YAML happen outside; a load gives the parsed
    configuration, says the file does not exist, or fails otherwise. *)
From S2P Require Import Prelude BigEndian Crypto GoTime.
Local Open Scope Z_scope.

Record Config := mkConfig {
  Server_Port : Z; Server_DataDir : string; Server_MaxSkewMS : Z; Server_TLSCert : string; Server_TLSKey : string;
  Web_Enabled : bool;
  Auth_JWKSURL : string; Auth_JWKSRefreshIntervalSeconds : Z; Auth_Secret : string;
  Sync_MaxBatchSize : Z; Sync_StalenessEvictionDays : Z;
  Discovery_Enabled : bool;
  Compaction_IntervalMinutes : Z; Compaction_TombstoneTTLHours : Z;
  Storage_FlushIntervalMs : Z; Storage_CompressionLevel : string;
  Config_Peers : list string;
  Vector_EnableHNSW : bool; Vector_PCADimensions : Z; Vector_TrainingSampleSize : Z;
  Vector_RetrainingInsertThreshold : Z; Vector_PQSubspaces : Z; Vector_PQCentroids : Z
}.
(** [var cfg Config]: what a YAML document leaves unset. *)
Definition zeroConfig : Config := mkConfig 0 "" 0 "" "" false "" 0 "" 0 0 false 0 0 0 "" [] false 0 0 0 0 0.
Definition DefaultConfig : Config :=
  mkConfig 9342 "." 500 "" "" false "" 0 "" 1000 14 false 60 168 0 "" [] true 128 5000 50000 16 256.

(** [LoadConfig], given what reading the file, [os.ExpandEnv] and [yaml.Unmarshal] do:
    the document is decoded over the zero configuration. *)
Inductive load_err := NotExist | LoadFailed.
Definition LoadConfig (ReadFile : string -> res load_err string) (ExpandEnv : string -> string)
    (Unmarshal : string -> Config -> option Config) (path : string) : res load_err Config :=
  raw ← ReadFile path;
  let expanded := ExpandEnv raw in
  match Unmarshal expanded zeroConfig with
  | None => Err LoadFailed
  | Some cfg => Ok cfg
  end.

Record Flags := mkFlags {
  fl_config : string; fl_addr : string; fl_nodeID : string; fl_data : string; fl_inMemory : bool;
  fl_peers : string; fl_discovery : bool; fl_authSecret : string; fl_tlsCert : string; fl_tlsKey : string
}.
Definition defaultFlags : Flags := mkFlags "nell.yaml" "" "" "" false "" false "" "" "".

Definition defaultNodeID (host : string) : string := if bool_decide (host = "") then "nell-server" else host.

Inductive EncoderLevel := SpeedDefaultUnset | SpeedFastest | SpeedDefault | SpeedBetterCompression | SpeedBestCompression.
(** [strings.ToLower]; no character outside ASCII has its lower case in the words below. *)
Definition lower_char (c : Ascii.ascii) : Ascii.ascii :=
  if (65 <=? of_byte c) && (of_byte c <=? 90) then to_byte (of_byte c + 32) else c.
Definition ToLower (s : string) : string := bytes_str (lower_char <$> str_bytes s).
Definition compressionLevel (s : string) : EncoderLevel * bool :=
  let s := ToLower s in
  if bool_decide (s = "fastest") then (SpeedFastest, true)
  else if bool_decide (s = "default") then (SpeedDefault, true)
  else if bool_decide (s = "better") then (SpeedBetterCompression, true)
  else if bool_decide (s = "best") then (SpeedBestCompression, true)
  else (SpeedDefaultUnset, false).

(** [strings.Split(s, ",")] *)
Fixpoint split_comma (b : bytes) (cur : bytes) : list string :=
  match b with
  | [] => [bytes_str cur]
  | c :: b => if of_byte c =? 44 then bytes_str cur :: split_comma b [] else split_comma b (cur ++ [c])
  end.

(** What the server runs with. *)
Record Settings := mkSettings {
  set_addr : string; set_nodeID : string;
  (** the data file and its [Options]; none for the in-memory store *)
  set_log : option (string * Duration * EncoderLevel);
  (** the period and tombstone age of the compaction loop *)
  set_compaction : option (Duration * Duration);
  set_authSecret : bytes; set_peers : list string; set_discovery : bool; set_web : bool;
  (** certificate and key, when the server speaks TLS *)
  set_tls : option (string * string)
}.
Inductive exit_err := Exit1.
(** [main] up to serving: exits when the file is there but does not load; making the
    compaction loop's ticker panics when its period is not positive. *)
Definition main_settings (host : string) (loaded : res load_err Config) (f : Flags) : res exit_err Settings :=
  cfg ← (if bool_decide (fl_config f = "") then Ok DefaultConfig else
         match loaded with
         | Ok cfg => Ok cfg
         | Err NotExist => Ok DefaultConfig
         | Err LoadFailed => Err Exit1
         | Panic => Panic
         end);
  let addr := if bool_decide (fl_addr f = "") then bytes_str (to_byte 58 :: format_int (Server_Port cfg)) else fl_addr f in
  let nodeID := if bool_decide (fl_nodeID f = "") then defaultNodeID host else fl_nodeID f in
  let dataPath := if bool_decide (fl_data f = "") then Server_DataDir cfg +:+ "/nell.db" else fl_data f in
  let log :=
    if fl_inMemory f then None else
    let '(lvl, ok) := compressionLevel (Storage_CompressionLevel cfg) in
    Some (dataPath, wrap_s 64 (Storage_FlushIntervalMs cfg * Millisecond), if ok : bool then lvl else SpeedDefaultUnset) in
  let interval := wrap_s 64 (Compaction_IntervalMinutes cfg * Minute) in
  let ttl := wrap_s 64 (Compaction_TombstoneTTLHours cfg * Hour) in
  compaction ← (if fl_inMemory f then Ok None else if interval <=? 0 then Panic else Ok (Some (interval, ttl)));
  let secret := if bool_decide (fl_authSecret f = "") then [] else str_bytes (fl_authSecret f) in
  let peers := (if bool_decide (fl_peers f = "") then [] else split_comma (str_bytes (fl_peers f)) []) ++ Config_Peers cfg in
  let '(cert, key) :=
    if bool_decide (fl_tlsCert f = "") && bool_decide (fl_tlsKey f = "") then (Server_TLSCert cfg, Server_TLSKey cfg)
    else (fl_tlsCert f, fl_tlsKey f) in
  let tls := if bool_decide (cert = "") || bool_decide (key = "") then None else Some (cert, key) in
  Ok (mkSettings addr nodeID log compaction secret peers (fl_discovery f || Discovery_Enabled cfg) (Web_Enabled cfg) tls).

(** ** Properties *)

(** Start-up from a configuration file: the file replaces the defaults as a whole.
    The server exits when the file does not parse; with a data file it panics exactly
    when the file's compaction period is not positive, so when the file leaves it out;
    otherwise it starts, without the secret the file may hold: the only secret is the
    flag's. *)
Theorem main_settings_spec host loaded f cfg : fl_config f <> "" ->
  (loaded = Ok cfg ->
   (main_settings host loaded f = Panic <->
      fl_inMemory f = false /\ wrap_s 64 (Compaction_IntervalMinutes cfg * Minute) <= 0) /\
   (forall s, main_settings host loaded f = Ok s ->
      set_authSecret s = str_bytes (fl_authSecret f) /\
      set_peers s = (if bool_decide (fl_peers f = "") then [] else split_comma (str_bytes (fl_peers f)) []) ++ Config_Peers cfg) /\
   (forall e, main_settings host loaded f <> Err e)) /\
  (loaded = Err LoadFailed -> main_settings host loaded f = Err Exit1) /\
  (loaded = Err NotExist -> exists s, main_settings host loaded f = Ok s).
Proof.
  intros Hf. split_and!; intros Hl; unfold main_settings.
  - rewrite (bool_decide_false (fl_config f = "")), Hl, bind_ok by done.
    set (interval := wrap_s 64 (Compaction_IntervalMinutes cfg * Minute)).
    assert (str_bytes (fl_authSecret f) = if bool_decide (fl_authSecret f = "") then [] else str_bytes (fl_authSecret f)) as Hs.
    { case_bool_decide as He; [by rewrite He|done]. }
    destruct (fl_inMemory f), (Z.leb_spec interval 0); cbn [mbind res_bind];
      (split_and!; [split; [|intros [??]]|intros s Hst|intros e]; try (done || lia));
      repeat case_match; simplify_eq; cbn [set_authSecret set_peers]; (done || by rewrite <-Hs).
  - by rewrite (bool_decide_false (fl_config f = "")), Hl.
  - rewrite (bool_decide_false (fl_config f = "")), Hl by done. cbn [mbind res_bind].
    change (wrap_s 64 (Compaction_IntervalMinutes DefaultConfig * Minute) <=? 0) with false.
    destruct (fl_inMemory f); cbn [mbind res_bind]; repeat case_match; eexists; reflexivity.
Qed.
(** A file that sets a port and a secret, and nothing else. *)
Definition demo_config : Config :=
  mkConfig 9342 "" 0 "" "" false "" 0 "s3cret" 0 0 false 0 0 0 "" [] false 0 0 0 0 0.
Lemma main_settings_spec_witness :
  main_settings "h" (Ok demo_config) defaultFlags = Panic /\
  exists s, main_settings "h" (Err NotExist) defaultFlags = Ok s.
Proof.
  pose proof (fun l => main_settings_spec "h" l defaultFlags demo_config ltac:(discriminate)) as Hm.
  split.
  - apply (proj1 (Hm (Ok demo_config)) eq_refl). split; [reflexivity|]. vm_compute. discriminate.
  - apply (proj2 (Hm (Err NotExist))). reflexivity.
Defined.
