(* ===== verification/JsString.v ===== *)
(** * JavaScript strings and IndexedDB key order

    A Go string handed to JavaScript becomes a string of UTF-16 code units, and IndexedDB
    orders string keys by their code units.  The conversion of valid UTF-8, its inverse,
    the key order, and the key range the browser store lists a collection with. *)
From S2P Require Import Prelude BigEndian GoSort Json.
Local Open Scope Z_scope.

(** A code point of the supplementary planes takes two units. *)
Definition surrogates (cp : Z) : list Z := [55296 + (cp - 65536) / 1024; 56320 + (cp - 65536) mod 1024].
Fixpoint utf16 (b : bytes) : list Z :=
  match b with
  | [] => []
  | c :: b =>
      let v := of_byte c in
      if v <? 128 then v :: utf16 b else
      match b with
      | [] => []
      | c1 :: b =>
          let v1 := of_byte c1 - 128 in
          if v <? 224 then ((v - 192) * 64 + v1) :: utf16 b else
          match b with
          | [] => []
          | c2 :: b =>
              let v2 := of_byte c2 - 128 in
              if v <? 240 then ((v - 224) * 4096 + v1 * 64 + v2) :: utf16 b else
              match b with
              | [] => []
              | c3 :: b => surrogates ((v - 240) * 262144 + v1 * 4096 + v2 * 64 + (of_byte c3 - 128)) ++ utf16 b
              end
          end
      end
  end.
Definition js_string (s : string) : list Z := utf16 (str_bytes s).

(** Back: a unit below the surrogates, or a pair. *)
Fixpoint utf8 (u : list Z) : bytes :=
  match u with
  | [] => []
  | x :: u =>
      if x <? 128 then to_byte x :: utf8 u
      else if x <? 2048 then to_byte (192 + x / 64) :: to_byte (128 + x mod 64) :: utf8 u
      else if (55296 <=? x) && (x <? 56320) then
        match u with
        | [] => []
        | y :: u =>
            let cp := 65536 + (x - 55296) * 1024 + (y - 56320) in
            to_byte (240 + cp / 262144) :: to_byte (128 + cp / 4096 mod 64) :: to_byte (128 + cp / 64 mod 64)
              :: to_byte (128 + cp mod 64) :: utf8 u
        end
      else to_byte (224 + x / 4096) :: to_byte (128 + x / 64 mod 64) :: to_byte (128 + x mod 64) :: utf8 u
  end.

(** Code units compare one by one, a prefix first. *)
Fixpoint units_leb (a b : list Z) : bool :=
  match a, b with
  | [], _ => true
  | _ :: _, [] => false
  | x :: a, y :: b => (x <? y) || ((x =? y) && units_leb a b)
  end.
Definition key_leb (a b : string) : bool := units_leb (js_string a) (js_string b).
(** [IDBKeyRange.bound(collection+":", collection+":\uffff")] *)
Definition ffff : string := bytes_str [to_byte 239; to_byte 191; to_byte 191].
Definition in_bound (lo hi key : string) : bool := key_leb lo key && key_leb key hi.

(** ** The conversion loses nothing on valid UTF-8 *)

Lemma cont_byte_range lo hi c : cont_byte lo hi c = true -> lo <= of_byte c <= hi.
Proof. unfold cont_byte. lia. Qed.

(** What a valid text begins with, and the units it gives. *)
Lemma valid_utf8_cases b :
  valid_utf8 b = true -> b = [] \/
  exists head tail u, b = head ++ tail /\ valid_utf8 tail = true /\ (length tail < length b)%nat /\
    (forall more, utf16 (head ++ more) = u ++ utf16 more) /\ (forall more, utf8 (u ++ more) = head ++ utf8 more) /\
    (forall more, valid_utf8 (head ++ more) = valid_utf8 more).
Proof.
  destruct b as [|c b]; [by left|]. intros Hv. right. cbn [valid_utf8] in Hv. pose proof (of_byte_range c) as Hc.
  destruct (Z.ltb_spec (of_byte c) 128) as [H1|H1].
  { exists [c], b, [of_byte c]. split_and!; [done|done|cbn; lia| | |].
    - intros more. cbn [app utf16]. by rewrite (proj2 (Z.ltb_lt _ _) H1).
    - intros more. cbn [app utf8]. by rewrite (proj2 (Z.ltb_lt _ _) H1), to_of_byte.
    - intros more. cbn [app valid_utf8]. by rewrite (proj2 (Z.ltb_lt _ _) H1).
  }
  destruct b as [|c1 b]; [done|]. destruct ((194 <=? of_byte c) && (of_byte c <=? 223)) eqn:H2.
  { apply andb_true_iff in Hv as [Hc1 Hv]. pose proof (cont_byte_range _ _ _ Hc1) as R1. apply andb_true_iff in H2 as [? ?].
    exists [c; c1], b, [(of_byte c - 192) * 64 + (of_byte c1 - 128)]. split_and!; [done|done|cbn; lia| | |].
    - intros more. cbn [app utf16]. rewrite (proj2 (Z.ltb_ge _ _)) by lia. by rewrite (proj2 (Z.ltb_lt _ 224)) by lia.
    - intros more. cbn [app utf8]. rewrite (proj2 (Z.ltb_ge _ 128)), (proj2 (Z.ltb_lt _ 2048)) by lia.
      do 2 f_equal; [|f_equal]; apply to_byte_eq; Z.div_mod_to_equations; lia.
    - intros more. cbn [app valid_utf8]. rewrite (proj2 (Z.ltb_ge _ 128)) by lia.
      rewrite (proj2 (Z.leb_le 194 _)), (proj2 (Z.leb_le _ 223)) by lia. cbn [andb]. by rewrite Hc1.
  }
  destruct b as [|c2 b]; [done|]. destruct ((224 <=? of_byte c) && (of_byte c <=? 239)) eqn:H3.
  { apply andb_true_iff in Hv as [Hv Hv']. apply andb_true_iff in Hv as [Hc1 Hc2]. apply andb_true_iff in H3 as [? ?].
    pose proof (cont_byte_range _ _ _ Hc1) as R1. pose proof (cont_byte_range _ _ _ Hc2) as R2.
    set (x := (of_byte c - 224) * 4096 + (of_byte c1 - 128) * 64 + (of_byte c2 - 128)).
    assert (2048 <= x < 65536 /\ ~ (55296 <= x < 56320)) as Hx
      by (unfold x; destruct (Z.eqb_spec (of_byte c) 224), (Z.eqb_spec (of_byte c) 237); lia).
    assert (128 <= of_byte c1 <= 191) as R1' by (destruct (Z.eqb_spec (of_byte c) 224), (Z.eqb_spec (of_byte c) 237); lia).
    exists [c; c1; c2], b, [x]. split_and!; [done|done|cbn; lia| | |].
    - intros more. cbn [app utf16]. rewrite (proj2 (Z.ltb_ge _ _)), (proj2 (Z.ltb_ge _ 224)) by lia.
      by rewrite (proj2 (Z.ltb_lt _ 240)) by lia.
    - intros more. cbn [app utf8]. rewrite (proj2 (Z.ltb_ge _ 128)), (proj2 (Z.ltb_ge _ 2048)) by lia.
      replace ((55296 <=? x) && (x <? 56320)) with false by lia.
      assert (to_byte (224 + x / 4096) = c) as -> by (apply to_byte_eq; unfold x in *; clear R1 Hx; Z.div_mod_to_equations; lia).
      assert (to_byte (128 + x / 64 mod 64) = c1) as -> by (apply to_byte_eq; unfold x in *; clear R1 Hx; Z.div_mod_to_equations; lia).
      assert (to_byte (128 + x mod 64) = c2) as -> by (apply to_byte_eq; unfold x in *; clear R1 Hx; Z.div_mod_to_equations; lia).
      done.
    - intros more. cbn [app valid_utf8]. rewrite (proj2 (Z.ltb_ge _ 128)), H2 by lia.
      rewrite (proj2 (Z.leb_le 224 _)), (proj2 (Z.leb_le _ 239)) by lia. cbn [andb]. by rewrite Hc1, Hc2.
  }
  destruct b as [|c3 b]; [done|]. rewrite !andb_true_iff in Hv. destruct Hv as (((((H4 & H5) & Hc1) & Hc2) & Hc3) & Hv).
  pose proof (cont_byte_range _ _ _ Hc1) as R1. pose proof (cont_byte_range _ _ _ Hc2) as R2. pose proof (cont_byte_range _ _ _ Hc3) as R3.
  set (cp := (of_byte c - 240) * 262144 + (of_byte c1 - 128) * 4096 + (of_byte c2 - 128) * 64 + (of_byte c3 - 128)).
  assert (65536 <= cp < 1114112) as Hcp
    by (unfold cp; destruct (Z.eqb_spec (of_byte c) 240), (Z.eqb_spec (of_byte c) 244); lia).
  assert (128 <= of_byte c1 <= 191) as R1' by (destruct (Z.eqb_spec (of_byte c) 240), (Z.eqb_spec (of_byte c) 244); lia).
  exists [c; c1; c2; c3], b, (surrogates cp). split_and!; [done|done|cbn; lia| | |].
  - intros more. cbn [app utf16]. rewrite (proj2 (Z.ltb_ge _ _)), (proj2 (Z.ltb_ge _ 224)), (proj2 (Z.ltb_ge _ 240)) by lia. done.
  - intros more. unfold surrogates. set (x := 55296 + (cp - 65536) / 1024). set (y := 56320 + (cp - 65536) mod 1024).
    assert (55296 <= x < 56320) as Hx by (unfold x; Z.div_mod_to_equations; lia).
    cbn [app utf8]. rewrite (proj2 (Z.ltb_ge _ 128)), (proj2 (Z.ltb_ge _ 2048)) by lia.
    replace ((55296 <=? x) && (x <? 56320)) with true by lia.
    replace (65536 + (x - 55296) * 1024 + (y - 56320)) with cp by (unfold x, y; Z.div_mod_to_equations; lia).
    assert (to_byte (240 + cp / 262144) = c) as -> by (apply to_byte_eq; unfold cp in *; clear R1 Hcp Hx; Z.div_mod_to_equations; lia).
    assert (to_byte (128 + cp / 4096 mod 64) = c1) as -> by (apply to_byte_eq; unfold cp in *; clear R1 Hcp Hx; Z.div_mod_to_equations; lia).
    assert (to_byte (128 + cp / 64 mod 64) = c2) as -> by (apply to_byte_eq; unfold cp in *; clear R1 Hcp Hx; Z.div_mod_to_equations; lia).
    assert (to_byte (128 + cp mod 64) = c3) as -> by (apply to_byte_eq; unfold cp in *; clear R1 Hcp Hx; Z.div_mod_to_equations; lia).
    done.
  - intros more. cbn [app valid_utf8]. rewrite (proj2 (Z.ltb_ge _ 128)), H2, H3, H4, H5 by lia.
    by rewrite Hc1, Hc2, Hc3.
Qed.
Lemma utf8_utf16_app b more : valid_utf8 b = true -> utf16 (b ++ more) = utf16 b ++ utf16 more.
Proof.
  induction b as [b IH] using (induction_ltof1 _ (@length _)); unfold ltof in IH. intros Hv.
  destruct (valid_utf8_cases b Hv) as [->|(head & tail & u & -> & Ht & Hl & Hu & _)]; [done|].
  by rewrite <-app_assoc, !Hu, IH, app_assoc.
Qed.
Lemma utf8_of_app b more : valid_utf8 b = true -> utf8 (utf16 b ++ more) = b ++ utf8 more.
Proof.
  induction b as [b IH] using (induction_ltof1 _ (@length _)); unfold ltof in IH. intros Hv.
  destruct (valid_utf8_cases b Hv) as [->|(head & tail & u & -> & Ht & Hl & Hu & Hb & _)]; [done|].
  by rewrite Hu, <-app_assoc, Hb, IH, app_assoc.
Qed.
Lemma utf8_utf16 b : valid_utf8 b = true -> utf8 (utf16 b) = b.
Proof. intros Hv. pose proof (utf8_of_app b [] Hv) as He. by rewrite !app_nil_r in He. Qed.
Lemma valid_utf8_app a b : valid_utf8 a = true -> valid_utf8 (a ++ b) = valid_utf8 b.
Proof.
  induction a as [a IH] using (induction_ltof1 _ (@length _)); unfold ltof in IH. intros Hv.
  destruct (valid_utf8_cases a Hv) as [->|(head & tail & u & -> & Ht & Hl & _ & _ & Hm)]; [done|].
  by rewrite <-app_assoc, Hm, IH.
Qed.
Lemma utf16_inj a b : valid_utf8 a = true -> valid_utf8 b = true -> utf16 a = utf16 b -> a = b.
Proof. intros Ha Hb He. by rewrite <-(utf8_utf16 a Ha), He, utf8_utf16. Qed.

(** ** Key ranges *)

Lemma units_leb_refl a : units_leb a a = true.
Proof. induction a as [|x a IH]; cbn; [done|]. by rewrite Z.eqb_refl, Z.ltb_irrefl, IH. Qed.
#[export] Instance units_LessOrder {A} (f : A -> list Z) : LessOrder (fun a b => negb (units_leb (f b) (f a))).
Proof.
  assert (forall a b, units_leb a b = true \/ units_leb b a = true) as Htot.
  { induction a as [|x a IH]; intros [|y b]; cbn; auto.
    destruct (Z.ltb_spec x y), (Z.eqb_spec x y), (Z.ltb_spec y x), (Z.eqb_spec y x); cbn; auto; lia. }
  assert (forall a b c, units_leb a b = true -> units_leb b c = true -> units_leb a c = true) as Htr.
  { induction a as [|x a IH]; intros [|y b] [|z c]; cbn; auto; try done.
    destruct (Z.ltb_spec x y), (Z.eqb_spec x y), (Z.ltb_spec y z), (Z.eqb_spec y z), (Z.ltb_spec x z), (Z.eqb_spec x z);
      cbn; auto; try lia; try done. apply IH. }
  split; unfold not_less.
  - intros a b. rewrite !negb_false_iff. destruct (Htot (f a) (f b)); auto.
  - intros a b c. rewrite !negb_false_iff. apply Htr.
Qed.
Lemma units_between a u v : units_leb a u = true -> units_leb u (a ++ v) = true -> exists w, u = a ++ w /\ units_leb w v = true.
Proof.
  revert u. induction a as [|x a IH]; intros u; [intros _ Hv; by exists u|].
  destruct u as [|y u]; cbn [app units_leb]; [done|].
  destruct (Z.ltb_spec x y), (Z.eqb_spec x y), (Z.ltb_spec y x), (Z.eqb_spec y x); cbn; try lia; try done.
  intros Ha Hu. destruct (IH u Ha Hu) as (w & -> & Hw). exists w. by subst.
Qed.
Lemma units_leb_app a v w : units_leb (a ++ v) (a ++ w) = units_leb v w.
Proof. induction a as [|x a IH]; cbn; [done|]. by rewrite Z.eqb_refl, Z.ltb_irrefl, IH. Qed.

Lemma json_string_app a b : json_string a = true -> json_string (a +:+ b) = json_string b.
Proof. unfold json_string. rewrite str_bytes_app. apply valid_utf8_app. Qed.
Lemma js_string_app a b : json_string a = true -> js_string (a +:+ b) = js_string a ++ js_string b.
Proof. unfold json_string, js_string. rewrite str_bytes_app. apply utf8_utf16_app. Qed.

(** The ids below the upper bound of the range. *)
Definition id_listable (i : string) : bool := units_leb (js_string i) [65535].
(** The range of a prefix: the keys that continue it with a listable rest. *)
Lemma in_bound_prefix p k :
  json_string p = true -> json_string k = true ->
  in_bound p (p +:+ ffff) k = true <-> exists i, k = p +:+ i /\ id_listable i = true.
Proof.
  intros Hp Hk. unfold in_bound, key_leb, id_listable.
  rewrite js_string_app by done. change (js_string ffff) with [65535]. split.
  - intros [Hl Hu]%andb_true_iff. destruct (units_between _ _ _ Hl Hu) as (w & Hw & Hlw).
    assert (str_bytes k = str_bytes p ++ utf8 w) as He.
    { rewrite <-(utf8_utf16 (str_bytes k)) by done. fold (js_string k). rewrite Hw. by apply utf8_of_app. }
    exists (bytes_str (utf8 w)).
    assert (k = p +:+ bytes_str (utf8 w)) as ->.
    { apply str_bytes_inj. by rewrite str_bytes_app, He, str_bytes_str. }
    split; [done|]. rewrite js_string_app in Hw by done. by apply app_inv_head in Hw as ->.
  - intros (i & -> & Hi). rewrite js_string_app by done. rewrite units_leb_app, Hi, andb_true_r.
    rewrite <-(app_nil_r (js_string p)) at 1. by rewrite units_leb_app.
Qed.
