(* ===== verification/Uuid.v ===== *)
(** * Node ids of the browser (uuid_wasm.go)

    [GenerateUUIDv4] from the random bytes the browser gave, with its slices and their
    bounds, and the text it makes. *)
From S2P Require Import Prelude BigEndian Json.

Inductive uuid_err := ErrNoCrypto.

(** [hex.EncodeToString] *)
Definition hex_digit (x : Z) : Ascii.ascii := to_byte (if (x <? 10)%Z then 48 + x else 87 + x).
Definition hex_EncodeToString (b : bytes) : string :=
  bytes_str (concat (map (fun c => [hex_digit (of_byte c / 16); hex_digit (of_byte c mod 16)]) b)).
(** [b[i]], [s[lo:hi]] *)
Definition byte_at {E} (i : Z) (b : bytes) : res E Ascii.ascii :=
  match b !! Z.to_nat i with Some c => Ok c | None => Panic end.
Definition substr {E} (lo hi : Z) (s : string) : res E string :=
  b ← slice lo hi (str_bytes s); Ok (bytes_str b).
(** [random]: what [crypto.getRandomValues] put in the buffer; [None] when the runtime has
    no crypto. *)
Definition GenerateUUIDv4 (random : option bytes) : res uuid_err string :=
  match random with
  | None => Err ErrNoCrypto
  | Some buf =>
      b6 ← byte_at 6 buf;
      buf ← set_index 6 (to_byte (Z.lor (Z.land (of_byte b6) 15) 64)) buf;
      b8 ← byte_at 8 buf;
      buf ← set_index 8 (to_byte (Z.lor (Z.land (of_byte b8) 63) 128)) buf;
      let hexStr := hex_EncodeToString buf in
      p1 ← substr 0 8 hexStr; p2 ← substr 8 12 hexStr; p3 ← substr 12 16 hexStr;
      p4 ← substr 16 20 hexStr; p5 ← substr 20 32 hexStr;
      Ok (p1 +:+ "-" +:+ p2 +:+ "-" +:+ p3 +:+ "-" +:+ p4 +:+ "-" +:+ p5)
  end.

(** ** The text *)

Definition uuid_char (c : Ascii.ascii) : Prop :=
  (48 <= of_byte c <= 57 \/ 97 <= of_byte c <= 102 \/ of_byte c = 45)%Z.
Lemma hex_digit_byte x : (0 <= x < 16)%Z -> of_byte (hex_digit x) = (if x <? 10 then 48 + x else 87 + x)%Z.
Proof. intros Hx. unfold hex_digit. rewrite of_to_byte. apply Z.mod_small. destruct (Z.ltb_spec x 10); lia. Qed.
Lemma hex_digit_char x : (0 <= x < 16)%Z -> uuid_char (hex_digit x).
Proof. intros Hx. unfold uuid_char. rewrite hex_digit_byte by done. destruct (Z.ltb_spec x 10); lia. Qed.
Lemma hex_digit_inj x y : (0 <= x < 16)%Z -> (0 <= y < 16)%Z -> hex_digit x = hex_digit y -> x = y.
Proof.
  intros Hx Hy He. apply (f_equal of_byte) in He. rewrite !hex_digit_byte in He by done.
  destruct (Z.ltb_spec x 10), (Z.ltb_spec y 10); lia.
Qed.
Lemma ascii_utf8 b : Forall (fun c => of_byte c < 128)%Z b -> valid_utf8 b = true.
Proof. induction 1 as [|c b Hc Hb IH]; [done|]. cbn [valid_utf8]. by rewrite (proj2 (Z.ltb_lt _ _) Hc). Qed.

(** The bytes of the id of a buffer: two digits per byte, dashes after 4, 6, 8 and 10. *)
Definition hex2 (v : Z) : bytes := [hex_digit (v / 16); hex_digit (v mod 16)].
Definition uuid_bits (buf : list Z) : list Z :=
  <[8%nat := Z.lor (Z.land (nth 8 buf 0%Z) 63) 128]> (<[6%nat := Z.lor (Z.land (nth 6 buf 0%Z) 15) 64]> buf)%Z.
Definition dash : Ascii.ascii := Ascii.ascii_of_N 45.
Definition uuid_text (v : list Z) : bytes :=
  let h := concat (map hex2 v) in
  take 8 h ++ [dash] ++ take 4 (drop 8 h) ++ [dash] ++ take 4 (drop 12 h) ++ [dash] ++ take 4 (drop 16 h) ++ [dash] ++ take 12 (drop 20 h).
Lemma low_bits x : (0 <= x < 256)%Z -> (Z.lor (Z.land x 15) 64 = 64 + x mod 16)%Z /\ (Z.lor (Z.land x 63) 128 = 128 + x mod 64)%Z.
Proof.
  intros Hx. assert (forallb (fun n => let x := Z.of_nat n in
    (Z.lor (Z.land x 15) 64 =? 64 + x mod 16)%Z && (Z.lor (Z.land x 63) 128 =? 128 + x mod 64)%Z) (seq 0 256) = true) as Hall
    by (vm_compute; reflexivity).
  rewrite forallb_forall in Hall. specialize (Hall (Z.to_nat x) ltac:(apply in_seq; lia)).
  rewrite Z2Nat.id in Hall by lia. cbn zeta in Hall. lia.
Qed.
Lemma byte_at_ok {E} i (b : bytes) c : b !! Z.to_nat i = Some c -> byte_at (E := E) i b = Ok c.
Proof. unfold byte_at. by intros ->. Qed.
Lemma substr_ok {E} lo hi (b : bytes) : (0 <= lo <= hi)%Z -> (hi <= len b)%Z ->
  substr (E := E) lo hi (bytes_str b) = Ok (bytes_str (take (Z.to_nat (hi - lo)) (drop (Z.to_nat lo) b))).
Proof. intros. unfold substr. rewrite str_bytes_str, slice_ok by lia. done. Qed.
Lemma map_of_byte_insert n x (b : bytes) : (0 <= x < 256)%Z -> map of_byte (<[n := to_byte x]> b) = <[n := x]> (map of_byte b).
Proof.
  intros Hx. change (map of_byte) with (fmap (M := list) of_byte). rewrite list_fmap_insert. f_equal. rewrite of_to_byte. by apply Z.mod_small.
Qed.
Lemma hex_text (b : bytes) : hex_EncodeToString b = bytes_str (concat (map hex2 (map of_byte b))).
Proof. unfold hex_EncodeToString. by rewrite map_map. Qed.
Lemma length_hex (v : list Z) : length (concat (map hex2 v)) = (2 * length v)%nat.
Proof. induction v as [|x v IH]; cbn; [done|]. rewrite IH. lia. Qed.
Lemma bytes_str_app a b : bytes_str (a ++ b) = bytes_str a +:+ bytes_str b.
Proof. apply str_bytes_inj. by rewrite str_bytes_app, !str_bytes_str. Qed.

Lemma GenerateUUIDv4_text buf : length buf = 16%nat ->
  GenerateUUIDv4 (Some buf) = Ok (bytes_str (uuid_text (uuid_bits (map of_byte buf)))).
Proof.
  intros Hb. unfold GenerateUUIDv4.
  destruct (lookup_lt_is_Some_2 buf 6) as [b6 H6]; [lia|]. destruct (lookup_lt_is_Some_2 buf 8) as [b8 H8]; [lia|].
  rewrite (byte_at_ok 6 buf b6), bind_ok by done. rewrite set_index_ok, bind_ok by (unfold len; lia).
  set (c6 := Z.lor (Z.land (of_byte b6) 15) 64). change (Z.to_nat 6) with 6%nat.
  rewrite (byte_at_ok 8 _ b8), bind_ok by (change (Z.to_nat 8) with 8%nat; by rewrite list_lookup_insert_ne).
  set (c8 := Z.lor (Z.land (of_byte b8) 63) 128).
  rewrite set_index_ok, bind_ok by (unfold len; rewrite length_insert; lia). change (Z.to_nat 8) with 8%nat.
  destruct (low_bits (of_byte b6)) as [E6 _]; [apply of_byte_range|]. destruct (low_bits (of_byte b8)) as [_ E8]; [apply of_byte_range|].
  assert (0 <= c6 < 256 /\ 0 <= c8 < 256)%Z as [R6 R8] by (unfold c6, c8; rewrite E6, E8; Z.div_mod_to_equations; lia).
  rewrite hex_text, !map_of_byte_insert by done.
  assert (uuid_bits (map of_byte buf) = <[8%nat := c8]> (<[6%nat := c6]> (map of_byte buf))) as ->.
  { unfold uuid_bits, c6, c8. f_equal; [|f_equal]; [|]; do 3 f_equal.
    - rewrite (nth_lookup_Some _ _ _ (of_byte b8)); [done|]. change (map of_byte) with (fmap (M := list) of_byte). by rewrite list_lookup_fmap, H8.
    - rewrite (nth_lookup_Some _ _ _ (of_byte b6)); [done|]. change (map of_byte) with (fmap (M := list) of_byte). by rewrite list_lookup_fmap, H6. }
  set (v := <[8%nat := c8]> (<[6%nat := c6]> (map of_byte buf))).
  assert (len (concat (map hex2 v)) = 32)%Z as Hlen by (unfold len, v; rewrite length_hex, !length_insert, length_map; lia).
  rewrite !substr_ok by lia. rewrite !bind_ok. f_equal. unfold uuid_text. rewrite !bytes_str_app. done.
Qed.
Lemma hex2_inj x y : (0 <= x < 256)%Z -> (0 <= y < 256)%Z -> hex2 x = hex2 y -> x = y.
Proof.
  intros Hx Hy [= H1 H2]. apply hex_digit_inj in H1; [|Z.div_mod_to_equations; lia..].
  apply hex_digit_inj in H2; [|Z.div_mod_to_equations; lia..]. Z.div_mod_to_equations; lia.
Qed.
Lemma hex_inj (v v' : list Z) : Forall (fun x => 0 <= x < 256)%Z v -> Forall (fun x => 0 <= x < 256)%Z v' ->
  concat (map hex2 v) = concat (map hex2 v') -> v = v'.
Proof.
  intros Hv. revert v'. induction Hv as [|x v Hx Hv IH]; intros v' Hv' He; destruct Hv' as [|y v' Hy Hv']; [done|done|done|].
  cbn [map concat] in He. change (hex2 x ++ concat (map hex2 v)) with (hex2 x ++ (concat (map hex2 v))) in He.
  assert (hex2 x = hex2 y /\ concat (map hex2 v) = concat (map hex2 v')) as [H1 H2] by (by apply app_inj_1 in He).
  f_equal; [by apply hex2_inj|by apply IH].
Qed.
(** The digits, back from the text. *)
Definition text_hex (t : bytes) : bytes :=
  take 8 t ++ take 4 (drop 9 t) ++ take 4 (drop 14 t) ++ take 4 (drop 19 t) ++ take 12 (drop 24 t).
Lemma text_hex_text (v : list Z) : length v = 16%nat -> text_hex (uuid_text v) = concat (map hex2 v).
Proof. intros Hv. do 16 (destruct v as [|? v]; [done|]). by destruct v. Qed.
Lemma uuid_bits_range buf : length buf = 16%nat -> length (uuid_bits (map of_byte buf)) = 16%nat /\
  Forall (fun x => 0 <= x < 256)%Z (uuid_bits (map of_byte buf)) /\
  (exists x, uuid_bits (map of_byte buf) !! 6%nat = Some (64 + x mod 16)%Z) /\ exists x, uuid_bits (map of_byte buf) !! 8%nat = Some (128 + x mod 64)%Z.
Proof.
  intros Hb. assert (forall i, (0 <= nth i (map of_byte buf) 0 < 256)%Z) as Hn.
  { intros i. change 0%Z with (of_byte Ascii.zero). rewrite map_nth. apply of_byte_range. }
  destruct (low_bits _ (Hn 6%nat)) as [E6 _]. destruct (low_bits _ (Hn 8%nat)) as [_ E8]. unfold uuid_bits. rewrite E6, E8.
  split_and!.
  - by rewrite !length_insert, length_map.
  - apply Forall_insert; [apply Forall_insert|]; [|Z.div_mod_to_equations; lia..].
    apply Forall_forall. intros x Hx. apply list_elem_of_In, in_map_iff in Hx as (c & <- & _). apply of_byte_range.
  - eexists. rewrite list_lookup_insert_ne, list_lookup_insert_eq by (rewrite ?length_map; lia). done.
  - eexists. rewrite list_lookup_insert_eq by (rewrite ?length_insert, ?length_map; lia). done.
Qed.

Lemma uuid_json s buf : length buf = 16%nat -> GenerateUUIDv4 (Some buf) = Ok s -> json_string s = true /\ s <> "".
Proof.
  intros Hb. rewrite GenerateUUIDv4_text by done. intros [= <-].
  destruct (uuid_bits_range buf Hb) as (Hl & Hr & _). set (v := uuid_bits (map of_byte buf)) in *.
  unfold json_string. rewrite str_bytes_str. split.
  - apply ascii_utf8. assert (Forall (fun c => of_byte c < 128)%Z (concat (map hex2 v))) as Hhex.
    { clear -Hr. induction Hr as [|x v Hx Hr IH]; [constructor|]. cbn [map concat hex2].
      assert (forall d, (0 <= d < 16)%Z -> (of_byte (hex_digit d) < 128)%Z) as Hd
        by (intros d Hd; rewrite hex_digit_byte by done; destruct (Z.ltb_spec d 10); lia).
      repeat constructor; [..|done]; apply Hd; Z.div_mod_to_equations; lia. }
    unfold uuid_text. repeat apply Forall_app_2; try (apply Forall_singleton; vm_compute; reflexivity); auto using Forall_take, Forall_drop.
  - intros He. apply (f_equal (fun s => length (str_bytes s))) in He. rewrite str_bytes_str in He.
    unfold uuid_text in He. rewrite length_app, length_take, length_hex, Hl in He. done.
Qed.
Lemma GenerateUUIDv4_no_panic random : (forall buf, random = Some buf -> length buf = 16%nat) ->
  match GenerateUUIDv4 random with Ok s => json_string s = true /\ s <> "" | Err e => e = ErrNoCrypto | Panic => False end.
Proof.
  intros Hr. destruct random as [buf|]; [|done]. specialize (Hr buf eq_refl).
  rewrite GenerateUUIDv4_text by done. by eapply uuid_json; [|apply GenerateUUIDv4_text].
Qed.

(** ** Properties *)

(** [GenerateUUIDv4] makes a version 4, variant 1 UUID of any 16 random bytes: 36
    characters of lower-case hexadecimal and dashes, the version digit 4 and the variant
    digit 8 to b in their places; and the id determines the bytes but for the six bits
    the format fixes, so distinct random bits give distinct ids. *)
Theorem GenerateUUIDv4_spec buf :
  length buf = 16%nat ->
  exists s, GenerateUUIDv4 (Some buf) = Ok s /\ length (str_bytes s) = 36%nat /\ Forall uuid_char (str_bytes s) /\
    of_byte <$> str_bytes s !! 14%nat = Some 52%Z /\
    (exists c, str_bytes s !! 19%nat = Some c /\ of_byte c ∈ [56; 57; 97; 98])%Z /\
    forall buf', length buf' = 16%nat -> GenerateUUIDv4 (Some buf') = Ok s ->
      uuid_bits (map of_byte buf') = uuid_bits (map of_byte buf).
Proof.
  intros Hb. eexists. split; [by apply GenerateUUIDv4_text|]. rewrite !str_bytes_str.
  destruct (uuid_bits_range buf Hb) as (Hl & Hr & (x6 & H6) & (x8 & H8)). set (v := uuid_bits (map of_byte buf)) in *.
  assert (Forall uuid_char (concat (map hex2 v))) as Hhex.
  { clear -Hr. induction Hr as [|x v Hx Hr IH]; [constructor|]. cbn [map concat hex2].
    constructor; [|constructor; [|done]]; apply hex_digit_char; Z.div_mod_to_equations; lia. }
  split_and!.
  - unfold uuid_text. repeat rewrite length_app. repeat rewrite length_take. repeat rewrite length_drop. rewrite length_hex, Hl. done.
  - unfold uuid_text. repeat apply Forall_app_2; try (apply Forall_singleton; right; right; done);
      auto using Forall_take, Forall_drop.
  - clear Hr Hhex H8. do 16 (destruct v as [|? v]; [done|]). destruct v; [|done]. cbn in H6. injection H6 as ->.
    change (of_byte <$> Some (hex_digit ((64 + x6 mod 16) / 16)) = Some 52%Z).
    replace ((64 + x6 mod 16) / 16)%Z with 4%Z by (Z.div_mod_to_equations; lia). done.
  - clear Hr Hhex H6. do 16 (destruct v as [|? v]; [done|]). destruct v; [|done]. cbn in H8. injection H8 as ->.
    exists (hex_digit ((128 + x8 mod 64) / 16)). split; [done|].
    assert (8 <= (128 + x8 mod 64) / 16 < 12)%Z as Hd by (Z.div_mod_to_equations; lia).
    set (d := ((128 + x8 mod 64) / 16)%Z) in *. clearbody d.
    assert (d = 8 \/ d = 9 \/ d = 10 \/ d = 11)%Z as [->|[->|[->| ->]]] by lia; apply (bool_decide_unpack _); vm_compute; exact I.
  - intros buf' Hb'. rewrite GenerateUUIDv4_text by done. intros [= He]. apply (f_equal str_bytes) in He.
    rewrite !str_bytes_str in He. apply (f_equal text_hex) in He.
    destruct (uuid_bits_range buf' Hb') as (Hl' & Hr' & _). rewrite !text_hex_text in He by done. by apply hex_inj.
Qed.
Definition zero_buf : bytes := replicate 16 Ascii.zero.
Lemma GenerateUUIDv4_spec_witness :
  exists s, GenerateUUIDv4 (Some zero_buf) = Ok s /\ length (str_bytes s) = 36%nat.
Proof.
  destruct (GenerateUUIDv4_spec zero_buf) as (s & Hs & Hl & _); [reflexivity|]. exists s. split; [exact Hs|exact Hl].
Defined.
Example zero_uuid : GenerateUUIDv4 (Some zero_buf) = Ok "00000000-0000-4000-8000-000000000000".
Proof. vm_compute. reflexivity. Qed.
