(* ===== verification/Discovery.v ===== *)
(** * Peer discovery (server/discovery.go)

    [MDNSDiscoverer]: what it advertises, which of the machine's addresses, the URL it
    makes of an answer, and the goroutine that hands the URLs to the mesh.  The mDNS
    package is not modelled: making its server succeeds or fails with a text, and browsing
    delivers entries.  [net.IP] is its bytes, with [To4], [IsLoopback] and [String]. *)
From S2P Require Import Prelude BigEndian Crypto GoTime Hlc Record KnowledgeVector Conflict GoSort MemStore StoreApi Server Mesh Uuid.
Local Open Scope Z_scope.

(** ** Addresses (net) *)

Abbreviation IP := bytes.
Definition ip_byte (i : nat) (ip : IP) : Z := of_byte (nth i ip Ascii.zero).
Definition To4 (ip : IP) : option IP :=
  if len ip =? 4 then Some ip
  else if (len ip =? 16) && forallb (fun c => of_byte c =? 0) (take 10 ip) && (ip_byte 10 ip =? 255) && (ip_byte 11 ip =? 255)
  then Some (drop 12 ip) else None.
Definition IsLoopback4 (ip4 : IP) : bool := ip_byte 0 ip4 =? 127.
(** One 16-bit group in lower-case hexadecimal, without leading zeros. *)
Definition hex_group (v : Z) : bytes :=
  hex_digit <$> (if v <? 16 then [v] else if v <? 256 then [v / 16; v mod 16]
    else if v <? 4096 then [v / 256; (v / 16) mod 16; v mod 16] else [v / 4096; (v / 256) mod 16; (v / 16) mod 16; v mod 16]).
Definition groups (ip : IP) : list Z := (fun i => ip_byte (2 * i) ip * 256 + ip_byte (2 * i + 1) ip) <$> seq 0 8.
Fixpoint zero_prefix (gs : list Z) : nat := match gs with g :: gs => if g =? 0 then S (zero_prefix gs) else 0%nat | [] => 0%nat end.
(** The first longest run of two zero groups or more. *)
Definition zero_run (gs : list Z) : option (nat * nat) :=
  foldl (fun best i =>
    let l := zero_prefix (drop i gs) in
    if (2 <=? l)%nat && (match best with Some (s, e) => e - s | None => 0 end <? l)%nat then Some (i, i + l)%nat else best) None (seq 0 8).
Definition join_groups (gs : list Z) : bytes :=
  match gs with [] => [] | g :: gs => hex_group g ++ concat ((fun g => to_byte 58 :: hex_group g) <$> gs) end.
(** [ip.String()]: dotted decimal, or RFC 5952. *)
Definition IP_String (ip : IP) : string :=
  match To4 ip with
  | Some ip4 =>
      bytes_str (format_int (ip_byte 0 ip4) ++ to_byte 46 :: format_int (ip_byte 1 ip4) ++ to_byte 46 ::
        format_int (ip_byte 2 ip4) ++ to_byte 46 :: format_int (ip_byte 3 ip4))
  | None =>
      if len ip =? 0 then "<nil>"
      else if len ip =? 16 then
        match zero_run (groups ip) with
        | Some (s, e) => bytes_str (join_groups (take s (groups ip)) ++ to_byte 58 :: to_byte 58 :: join_groups (drop e (groups ip)))
        | None => bytes_str (join_groups (groups ip))
        end
      else "?" +:+ hex_EncodeToString ip
  end.

(** ** The machine's addresses *)

Definition FlagUp : Z := 1.
Definition FlagMulticast : Z := 16.
Inductive net_addr := IPNet (ip : IP) | OtherAddr.
(** An interface's flags and the addresses it lists; [None] is an error. *)
Record interface := mkInterface { if_flags : Z; if_addrs : option (list net_addr) }.
Definition addr_ip4 (a : net_addr) : option IP :=
  match a with
  | IPNet ip => ip4 ← To4 ip; if IsLoopback4 ip4 then None else Some ip4
  | OtherAddr => None
  end.
Definition iface_ips (i : interface) : list IP :=
  if (Z.land (if_flags i) FlagUp =? 0) || (Z.land (if_flags i) FlagMulticast =? 0) then []
  else match if_addrs i with Some addrs => omap addr_ip4 addrs | None => [] end.
Definition localIPs (Interfaces : option (list interface)) : list IP :=
  match Interfaces with None => [] | Some ifaces => concat (iface_ips <$> ifaces) end.

(** ** Errors *)

(** [strings.Contains] *)
Fixpoint is_prefix (p b : bytes) : bool :=
  match p, b with
  | [], _ => true
  | x :: p, y :: b => bool_decide (x = y) && is_prefix p b
  | _, _ => false
  end.
Fixpoint contains (b sub : bytes) : bool :=
  is_prefix sub b || match b with [] => false | _ :: b => contains b sub end.
Definition isMulticastErr (err : option string) : bool :=
  match err with
  | None => false
  | Some msg => existsb (fun sub => contains (str_bytes msg) (str_bytes sub))
      ["no such device"; "cannot assign"; "network is unreachable"; "no route to host"]
  end.

(** ** The discoverer *)

Record MDNSConfig := mkMDNSConfig { md_Enabled : bool; md_ServiceName : string; md_Port : Z; md_NodeID : string }.
(** The advertisement, [mdns.MDNSService]. *)
Record service := mkService {
  sv_Instance : string; sv_Service : string; sv_Domain : string; sv_HostName : string; sv_Port : Z; sv_IPs : list IP; sv_TXT : list string
}.
Inductive server_state := NoServer | Advertising (sv : service) | ShutDown.
(** [md_stopped]: [stopCh] is closed.  [md_browsing]: the goroutine [browse] runs. *)
Record MDNSDiscoverer := mkMDNS { md_cfg : MDNSConfig; md_server : server_state; md_stopped : bool; md_browsing : bool }.
Definition NewMDNSDiscoverer (cfg : MDNSConfig) : MDNSDiscoverer :=
  mkMDNS (if bool_decide (md_ServiceName cfg = "") then mkMDNSConfig (md_Enabled cfg) "_nell-core._tcp" (md_Port cfg) (md_NodeID cfg) else cfg)
    NoServer false false.
Definition advertisement (host : string) (ifaces : option (list interface)) (cfg : MDNSConfig) : service :=
  mkService (md_NodeID cfg) (md_ServiceName cfg) "local" host (md_Port cfg) (localIPs ifaces)
    ["node_id=" +:+ md_NodeID cfg; "port=" +:+ bytes_str (format_int (md_Port cfg)); "version=1"].
(** [Start]: [err] is what [mdns.NewServer] answers.  The result is the error's text. *)
Definition MDNS_Start (host : string) (ifaces : option (list interface)) (err : option string) (d : MDNSDiscoverer) : MDNSDiscoverer * option string :=
  if negb (md_Enabled (md_cfg d)) then (d, None) else
  match err with
  | Some msg =>
      if isMulticastErr err then
        (mkMDNS (mkMDNSConfig false (md_ServiceName (md_cfg d)) (md_Port (md_cfg d)) (md_NodeID (md_cfg d))) (md_server d) (md_stopped d) (md_browsing d), None)
      else (d, Some ("mDNS advertise: " +:+ msg))
  | None => (mkMDNS (md_cfg d) (Advertising (advertisement host ifaces (md_cfg d))) (md_stopped d) (negb (md_stopped d)), None)
  end.
(** [Stop]: the browsing goroutine ends once [stopCh] is closed and its query is back. *)
Definition MDNS_Stop (d : MDNSDiscoverer) : MDNSDiscoverer :=
  if md_stopped d then d
  else mkMDNS (md_cfg d) (match md_server d with NoServer => NoServer | _ => ShutDown end) true false.

(** ** Browsing *)

Record ServiceEntry := mkEntry { se_Host : string; se_AddrV4 : option IP; se_Addr : option IP; se_Port : Z }.
Definition peerURLFromEntry (entry : ServiceEntry) : string :=
  if se_Port entry =? 0 then "" else
  let addr := match se_AddrV4 entry, se_Addr entry with
              | Some ip, _ => IP_String ip
              | None, Some ip => IP_String ip
              | None, None => se_Host entry
              end in
  if bool_decide (addr = "") then "" else "http://" +:+ addr +:+ ":" +:+ bytes_str (format_int (se_Port entry)).
(** The consumer, with [MeshManager.AddPeer] at the times the entries come. *)
Definition browse (entries : list (Z * ServiceEntry)) (pm : MeshManager) : MeshManager :=
  foldl (fun pm '(now, entry) => let url := peerURLFromEntry entry in
    if bool_decide (url = "") then pm else AddPeer now url pm) pm entries.

(** ** Properties *)

Lemma localIPs_elem ifaces ip : ip ∈ localIPs (Some ifaces) <->
  exists i a addrs, i ∈ ifaces /\ Z.land (if_flags i) FlagUp <> 0 /\ Z.land (if_flags i) FlagMulticast <> 0 /\
    if_addrs i = Some addrs /\ IPNet a ∈ addrs /\ To4 a = Some ip /\ IsLoopback4 ip = false.
Proof.
  unfold localIPs. rewrite list_elem_of_In, in_concat. setoid_rewrite <-list_elem_of_In. setoid_rewrite list_elem_of_fmap. split.
  - intros (l & (i & -> & Hi) & Hip). unfold iface_ips in Hip. destruct (_ || _) eqn:Hf; [by apply elem_of_nil in Hip|].
    apply orb_false_iff in Hf as [Hu%Z.eqb_neq Hm%Z.eqb_neq]. destruct (if_addrs i) as [addrs|] eqn:Ha; [|by apply elem_of_nil in Hip].
    apply list_elem_of_omap in Hip as ([a|] & Hin & Hx); [|done]. cbn in Hx. destruct (To4 a) as [ip4|] eqn:H4; [|done]. cbn in Hx.
    destruct (IsLoopback4 ip4) eqn:Hl; [done|]. injection Hx as ->. by exists i, a, addrs.
  - intros (i & a & addrs & Hi & Hu & Hm & Ha & Hin & H4 & Hl). exists (iface_ips i). split; [by exists i|]. unfold iface_ips.
    rewrite (proj2 (Z.eqb_neq _ _) Hu), (proj2 (Z.eqb_neq _ _) Hm), Ha. apply list_elem_of_omap. exists (IPNet a). split; [done|].
    cbn. rewrite H4. cbn. by rewrite Hl.
Qed.
Lemma To4_length a ip : To4 a = Some ip -> length ip = 4%nat.
Proof.
  unfold To4. destruct (Z.eqb_spec (len a) 4) as [Hl|]; [intros [= <-]; unfold len in Hl; lia|].
  destruct (Z.eqb_spec (len a) 16) as [Hl|]; cbn [andb]; [|done]. destruct (_ && _); [|done]. intros [= <-]. rewrite length_drop.
  unfold len in Hl. lia.
Qed.

(** What is advertised is what can be reached: a discoverer that is enabled and gets
    its server advertises this node's id, port and exactly the IPv4 addresses of the
    interfaces that are up and take multicast, none of them a loopback one, under the
    default service when none was given, and browses; a machine without multicast turns
    discovery off and starts all the same, any other failure is reported, a disabled one
    does nothing; stopping shuts the server down, once, however often it is called. *)
Theorem MDNS_lifecycle cfg host ifaces err :
  let d0 := NewMDNSDiscoverer cfg in
  let '(d, e) := MDNS_Start host (Some ifaces) err d0 in
  md_ServiceName (md_cfg d0) <> "" /\
  (md_Enabled cfg = false -> d = d0 /\ e = None) /\
  (md_Enabled cfg = true ->
    match err with
    | None => e = None /\ md_browsing d = true /\ exists sv, md_server d = Advertising sv /\
        sv_Instance sv = md_NodeID cfg /\ sv_Port sv = md_Port cfg /\ sv_Service sv = md_ServiceName (md_cfg d0) /\
        (forall ip, ip ∈ sv_IPs sv -> length ip = 4%nat /\ IsLoopback4 ip = false) /\
        (forall ip, ip ∈ sv_IPs sv <-> exists i a addrs, i ∈ ifaces /\ Z.land (if_flags i) FlagUp <> 0 /\ Z.land (if_flags i) FlagMulticast <> 0 /\
          if_addrs i = Some addrs /\ IPNet a ∈ addrs /\ To4 a = Some ip /\ IsLoopback4 ip = false)
    | Some msg => md_server d = NoServer /\ md_browsing d = false /\
        if isMulticastErr err then e = None /\ md_Enabled (md_cfg d) = false else e = Some ("mDNS advertise: " +:+ msg)
    end) /\
  md_server (MDNS_Stop d) = (if md_Enabled cfg then match err with None => ShutDown | _ => NoServer end else NoServer) /\
  md_browsing (MDNS_Stop d) = false /\ MDNS_Stop (MDNS_Stop d) = MDNS_Stop d.
Proof.
  unfold MDNS_Start. assert (md_Enabled (md_cfg (NewMDNSDiscoverer cfg)) = md_Enabled cfg) as He by (unfold NewMDNSDiscoverer; by case_bool_decide).
  assert (md_ServiceName (md_cfg (NewMDNSDiscoverer cfg)) <> "") as Hs by (unfold NewMDNSDiscoverer; case_bool_decide; done).
  assert (md_NodeID (md_cfg (NewMDNSDiscoverer cfg)) = md_NodeID cfg /\ md_Port (md_cfg (NewMDNSDiscoverer cfg)) = md_Port cfg) as [Hn Hp]
    by (unfold NewMDNSDiscoverer; by case_bool_decide).
  rewrite He. destruct (md_Enabled cfg) eqn:Hen; cbn [negb]; [|by split_and!].
  destruct err as [msg|].
  - destruct (isMulticastErr (Some msg)) eqn:Hm; split_and!; try done; intros _; by split_and!.
  - split_and!; try done. intros _. split_and!; [done..|]. eexists. split; [reflexivity|].
    cbn [sv_Instance sv_Port sv_Service sv_IPs advertisement]. split_and!; [done..| |intros ip; apply localIPs_elem].
    intros ip (i & a & addrs & _ & _ & _ & _ & _ & H4 & Hl)%localIPs_elem. split; [by eapply To4_length|done].
Qed.

(** Browsing grows the mesh and disturbs nothing: after any answers, the peers are
    those there were, each as it was, and those of the answers that have a port and an
    address, fresh and active under their URL; an answer whose URL is known already
    changes nothing. *)
Theorem browse_tracks_peers entries pm url :
  pm_peers (browse entries pm) !! url =
    match pm_peers pm !! url with
    | Some p => Some p
    | None =>
        if bool_decide (url = "") then None else
        (fun e => newTrackedPeer (fst e) url) <$> head (filter (fun e => peerURLFromEntry (snd e) = url) entries)
    end.
Proof.
  revert pm. induction entries as [|[now e] entries IH]; intros pm; cbn [browse foldl].
  - cbn. by destruct (pm_peers pm !! url), (bool_decide (url = "")).
  - change (foldl _ ?x entries) with (browse entries x). rewrite IH. clear IH. cbn zeta.
    case_bool_decide as Hu; rewrite filter_cons; cbn [snd].
    + destruct (pm_peers pm !! url); [done|]. case_bool_decide; [done|]. by rewrite decide_False by congruence.
    + unfold AddPeer. destruct (decide (peerURLFromEntry e = url)) as [<-|Hne].
      * destruct (pm_peers pm !! peerURLFromEntry e) as [p|] eqn:Hp; cbn [pm_peers pm_set_peers]; [by rewrite Hp|].
        rewrite lookup_insert_eq. by rewrite bool_decide_false.
      * destruct (pm_peers pm !! peerURLFromEntry e) as [p|] eqn:Hp; cbn [pm_peers pm_set_peers]; [done|].
        by rewrite lookup_insert_ne.
Qed.

Definition fe80 : IP := to_byte <$> [254; 128; 0; 0; 0; 0; 0; 0; 0; 0; 0; 0; 0; 0; 0; 1].
(** An IPv6 address goes into the URL without brackets, where the port cannot be told
    from it: the peer is tracked and never reached. *)
Theorem peerURL_ipv6 : peerURLFromEntry (mkEntry "h.local." None (Some fe80) 9342) = "http://fe80::1:9342".
Proof. vm_compute. reflexivity. Qed.
Example peerURL_v4 : peerURLFromEntry (mkEntry "some-host.local" (Some (to_byte <$> [0; 0; 0; 0; 0; 0; 0; 0; 0; 0; 255; 255; 192; 168; 1; 10])) None 8080)
  = "http://192.168.1.10:8080".
Proof. vm_compute. reflexivity. Qed.
Example peerURL_host : peerURLFromEntry (mkEntry "my-host.local" None None 9090) = "http://my-host.local:9090".
Proof. vm_compute. reflexivity. Qed.
Example multicast_err : isMulticastErr (Some "listen udp4 224.0.0.251:5353: setsockopt: no such device") = true /\ isMulticastErr (Some "denied") = false.
Proof. vm_compute. split; reflexivity. Qed.
