(* ===== verification/WebUi.v ===== *)
(** * The web pages and TLS (server/webui.go, server/tls.go)

    The handler that serves the embedded pages, and the loading of a certificate.  The
    embedded files are a map, [None] for one that is not there; the files' text, the file
    system and [crypto/tls] are outside.  A request is its clean path. *)
From S2P Require Import Prelude.
Local Open Scope Z_scope.

(** What a page handler answers. *)
Inductive page := Page (contentType : string) (content : bytes) | PageRedirect (location : string) | PageNotFound.

(** [strings.TrimPrefix(path, prefix)] *)
Definition TrimPrefix (prefix path : string) : string :=
  if String.prefix prefix path then String.substring (String.length prefix) (String.length path - String.length prefix) path
  else path.

(** [ReadFile] with its error dropped: the bytes, none when there is no file. *)
Definition ReadFile (fs : string -> option bytes) (name : string) : option bytes := fs name.

(** [WebUIHandler]: the exact pattern ["/index.html"], and everything else. *)
Definition WebUIHandler (fs : string -> option bytes) (path : string) : page :=
  if bool_decide (path = "/index.html") then Page "text/html" (default [] (ReadFile fs "webui/index.html"))
  else if bool_decide (path = "/") || bool_decide (path = "") then PageRedirect "/ui/index.html"
  else
    let '(content, contentType) :=
      if bool_decide (path = "/nell.wasm") then (ReadFile fs "webui/dist/nell.wasm", "application/wasm")
      else if bool_decide (path = "/nell.js") then (ReadFile fs "webui/dist/nell.js", "application/javascript")
      else if bool_decide (path = "/wasm_exec.js") then (ReadFile fs "webui/dist/wasm_exec.js", "application/javascript")
      else (None, "") in
    match content with
    | Some content => Page contentType content
    | None => PageNotFound
    end.

(** ** LoadTLSConfig *)
Inductive tls_err := ReadCert (file : string) | ReadKey (file : string) | LoadKeyPair.
Definition VersionTLS13 : Z := 772.
Record tlsConfig (C : Type) := mkTlsConfig { tls_Certificates : list C; tls_MinVersion : Z }.
Arguments mkTlsConfig {C} _ _.
Definition LoadTLSConfig {C} (fs : string -> option bytes) (X509KeyPair : bytes -> bytes -> option C)
    (certFile keyFile : string) : res tls_err (tlsConfig C) :=
  match fs certFile with
  | None => Err (ReadCert certFile)
  | Some certPEM =>
      match fs keyFile with
      | None => Err (ReadKey keyFile)
      | Some keyPEM =>
          match X509KeyPair certPEM keyPEM with
          | None => Err LoadKeyPair
          | Some cert => Ok (mkTlsConfig [cert] VersionTLS13)
          end
      end
  end.
