(* ===== verification/Main.v ===== *)
(** * The server program (cmd/nelldb-server/main.go)

    What [main] makes of the parts: the store behind the [Store] interface, the handler it
    serves (what comes of the requests is in file Serve), start-up, and the shutdown a signal begins.  [main_settings] (file Config) says
    what it starts with.  Serving, signals and the file system are outside; the log file is
    its bytes. *)
From S2P Require Import Prelude BigEndian Float Hlc Record KnowledgeVector Conflict GoSort MemStore LogFrame LogStore LogReplay LogDurability StoreApi Server GoTime Crypto Strconv Mesh Pages Convergence Auth Metrics Config WebUi Discovery.
Local Open Scope Z_scope.

(** ** [var s nell.Store] *)
Inductive any_store := MemS (s : MemoryStore) | LogS (s : LogStore).

Section any_store.
Context `{Zstd}.
Definition as_mem {A} (p : MemoryStore * A) : any_store * A := (MemS (fst p), snd p).
Definition as_log {A} (p : LogStore * A) : any_store * A := (LogS (fst p), snd p).
Definition with_store {A} (s : any_store) (f : forall St, StoreOps St -> St -> A) : A :=
  match s with MemS s => f _ mem_StoreOps s | LogS s => f _ log_StoreOps s end.

#[export] Instance any_StoreOps : StoreOps any_store := {|
  st_records s := with_store s (fun _ _ => st_records);
  st_Put r s := match s with MemS s => as_mem (st_Put r s) | LogS s => as_log (st_Put r s) end;
  st_Get c i s := with_store s (fun _ _ => st_Get c i);
  st_Delete now c i s := match s with MemS s => as_mem (st_Delete now c i s) | LogS s => as_log (st_Delete now c i s) end;
  st_List c s := with_store s (fun _ _ => st_List c);
  st_ListAll c s := with_store s (fun _ _ => st_ListAll c);
  st_GetChangesSince h s := match s with MemS s => as_mem (st_GetChangesSince h s) | LogS s => as_log (st_GetChangesSince h s) end;
  st_Query c s := with_store s (fun _ _ => st_Query c);
  st_SearchSimilar n c q l s := with_store s (fun _ _ => st_SearchSimilar n c q l);
  st_KnowledgeVector s := with_store s (fun _ _ => st_KnowledgeVector);
  st_NodeID s := with_store s (fun _ _ => st_NodeID);
  st_Close s := match s with MemS s => as_mem (st_Close s) | LogS s => as_log (st_Close s) end
|}.

#[export] Instance any_StoreLaws : StoreLaws any_store.
Proof.
  refine {|
    st_inv s := match s with MemS s => st_inv (S := MemoryStore) s | LogS s => st_inv (S := LogStore) s end;
    st_put_ok r s := match s with MemS s => st_put_ok (S := MemoryStore) r s | LogS s => st_put_ok (S := LogStore) r s end |}.
  - intros [s|s]; [apply (st_keyed (S := MemoryStore))|apply (st_keyed (S := LogStore))].
  - intros [s|s]; [apply (st_colls (S := MemoryStore))|apply (st_colls (S := LogStore))].
  - intros [s|s]; [apply (st_kv_covers (S := MemoryStore))|apply (st_kv_covers (S := LogStore))].
  - intros [s|s] r I Hr; [destruct (st_put_law (S := MemoryStore) s r I Hr) as (s' & acc & w & He & ? & ? & ?)
      |destruct (st_put_law (S := LogStore) s r I Hr) as (s' & acc & w & He & ? & ? & ?)];
      cbn [st_Put any_StoreOps]; rewrite He; by eexists _, acc, w.
  - intros c i [s|s]; [apply (st_get_law (S := MemoryStore))|apply (st_get_law (S := LogStore))].
  - intros h [s|s] I; [pose proof (st_changes_law (S := MemoryStore) h s I) as Hc|pose proof (st_changes_law (S := LogStore) h s I) as Hc];
      cbn [st_GetChangesSince any_StoreOps]; unfold as_mem, as_log; cbn [fst snd]; exact Hc.
  - intros c [s|s]; [apply (st_listall_law (S := MemoryStore))|apply (st_listall_law (S := LogStore))].
  - intros c [s|s]; [apply (st_list_law (S := MemoryStore))|apply (st_list_law (S := LogStore))].
Defined.
End any_store.

(** ** The handler it serves *)

(** What a request comes to: the sync API's handler, or a page. *)
Inductive main_dispatch := Sync (d : dispatch) | Ui (p : page).
Definition main_handler {St} (web : bool) (fs : string -> option bytes) (s : Server St) (now : Time) (r : Request) : main_dispatch :=
  let h := Sync (Handler s now r) in
  if negb web then h else
  let path := rq_path r in
  if String.prefix "/sync/" path then h
  else if bool_decide (path = "/sync") then Sync (Redirected "/sync/")
  else if bool_decide (path = "/health") || bool_decide (path = "/ready") then h
  else if String.prefix "/ui/" path then Ui (WebUIHandler fs (TrimPrefix "/ui" path))
  else if bool_decide (path = "/ui") then Ui (PageRedirect "/ui/")
  else if bool_decide (path = "/") then Ui (PageRedirect "/ui/")
  else h.

(** ** Start-up *)

(** [fmt.Sscanf(addr, ":%d", &port)] on what follows the colon: an optional sign and the
    digits there are; without any, or out of range, [port] stays. *)
Definition scan_int (b : bytes) : option Z :=
  match b with
  | c :: b' => if (of_byte c =? 45) || (of_byte c =? 43) then ParseInt (c :: digit_run b') else ParseInt (digit_run b)
  | [] => None
  end.
(** [cfg.Server.Port] once the flags are merged: the port the discoverer advertises. *)
Definition main_port (f : Flags) (cfg : Config) : Z :=
  match str_bytes (fl_addr f) with
  | c :: b => if of_byte c =? 58 then default (Server_Port cfg) (scan_int b) else Server_Port cfg
  | [] => Server_Port cfg
  end.

(** The running parts. *)
Record App := mkApp {
  app_server : Server any_store;
  app_mesh : MeshManager;
  app_discoverer : MDNSDiscoverer;
  (** the compaction loop's period and tombstone age, while it runs *)
  app_compaction : option (Duration * Duration)
}.
Definition app_store (a : App) : any_store := srv_store (app_server a).
Definition app_set_server (s : Server any_store) (a : App) : App := mkApp s (app_mesh a) (app_discoverer a) (app_compaction a).

Section main.
Context `{Zstd}.

(** What the machine gives: processors, the clock, the host's name and interfaces, what
    making the metrics and the mDNS server comes to. *)
Record machine := mkMachine {
  mc_numCPU : nat; mc_now : Z; mc_host : string; mc_ifaces : option (list interface);
  mc_metrics : bool; mc_mdns : option string
}.
(** [logstore.OpenLogWithOptions], or the store in memory. *)
Definition open_store (m : machine) (st : Settings) (data : bytes) (out : res exit_err any_store) : Prop :=
  match set_log st with
  | None => out = Ok (MemS (NewMemoryStore (mc_now m) (set_nodeID st)))
  | Some (_, flushInterval, _) =>
      exists r, OpenLogWithOptions (mc_numCPU m) (mc_now m) (set_nodeID st) flushInterval data r /\
        out = match r with Ok s => Ok (LogS s) | Err _ => Err Exit1 | Panic => Panic end
  end.
Definition main_server (st : Settings) (s : any_store) : Server any_store :=
  let srv := Server_New s (set_nodeID st) (Some (st_KnowledgeVector s)) in
  if 0 <? len (set_authSecret st) then SetAuthSecret (set_authSecret st) srv else srv.
(** From the store on.  [port] is [main_port]. *)
Definition main_assemble (m : machine) (st : Settings) (port : Z) (s : any_store) : res exit_err App :=
  let srv := main_server st s in
  if negb (mc_metrics m) then Err Exit1 else
  let pm := Start (NewMeshManager (mc_now m) (set_peers st) (30 * Second)) in
  let d := NewMDNSDiscoverer (mkMDNSConfig (set_discovery st) "" port (set_nodeID st)) in
  let '(d, err) := MDNS_Start (mc_host m) (mc_ifaces m) (mc_mdns m) d in
  match err with
  | Some _ => Err Exit1
  | None => Ok (mkApp srv pm d (set_compaction st))
  end.
Definition main_start (m : machine) (st : Settings) (port : Z) (data : bytes) (out : res exit_err App) : Prop :=
  exists r, open_store m st data r /\ out = (s ← r; main_assemble m st port s).

(** ** Shutdown *)

(** The deferred [Close] comes second and finds the file closed.  [http.Server.Shutdown]
    waits for the requests in flight, so they come before; the ten seconds it waits at most
    are not modelled. *)
Definition main_shutdown (a : App) : App * bool :=
  let d := MDNS_Stop (app_discoverer a) in
  let pm := Stop (app_mesh a) in
  let '(s, ok) := st_Close (app_store a) in
  (mkApp (srv_set_store s (app_server a)) pm d None, ok).

(** ** What happens while it serves *)
Inductive app_event :=
| EvPush (changes : list NellRecord)
| EvBinPush (changes : list NellRecord) (tail : bytes)
| EvWebSocket (changes : list NellRecord)
| EvIngest (missing : list NellRecord)
| EvPull (since : HLC) (col : string)
| EvFlush
| EvCompact (now threshold : Z) (o1 o2 o3 : list (string * NellRecord)).
Definition app_step (e : app_event) (s : Server any_store) : Server any_store :=
  match e with
  | EvPush changes => fst (fst (handlePush MethodPost (Ok changes) s))
  | EvBinPush changes tail => fst (fst (handleBinPush MethodPost (concat (map bin_record changes) ++ tail) s))
  | EvWebSocket changes => fst (ws_message changes s)
  | EvIngest missing => fst (ingest_page missing s)
  | EvPull since col => fst (handlePull MethodPost (Ok since) col s)
  | EvFlush => match srv_store s with LogS l => srv_set_store (LogS (LogStore_flushTick l)) s | _ => s end
  | EvCompact now th o1 o2 o3 =>
      match srv_store s with LogS l => srv_set_store (LogS (fst (LogStore_Compact now th o1 o2 o3 l))) s | _ => s end
  end.
(** The records an event brings, and when it is one the laws of the stores speak of. *)
Definition ev_records (e : app_event) : list NellRecord :=
  match e with EvPush rs | EvBinPush rs _ | EvWebSocket rs | EvIngest rs => rs | _ => [] end.
Definition ev_ok (e : app_event) (s : Server any_store) : Prop :=
  puts_ok (ev_records e) (srv_store s) /\
  match e with
  | EvBinPush rs tail => Forall record_ok rs /\ Forall (fun r => in_u 32 (len (layout r))) rs /\ len tail < 4
  | EvCompact now th o1 o2 o3 =>
      match srv_store s with LogS l => log_op_ok (LCompact now th o1 o2 o3) l | _ => True end
  | _ => True
  end.
Fixpoint app_run (es : list app_event) (s : Server any_store) : Server any_store :=
  match es with [] => s | e :: es => app_run es (app_step e s) end.
Fixpoint run_ok (es : list app_event) (s : Server any_store) : Prop :=
  match es with [] => True | e :: es => ev_ok e s /\ run_ok es (app_step e s) end.
End main.

(** ** Lemmas *)

(** What the path patterns of the two muxes have to do with each other. *)
Lemma Handler_dispatch_path {St} (s : Server St) now r h b : Handler s now r = Dispatched h b ->
  rq_path r = "/health" \/ rq_path r = "/ready" \/ String.prefix "/sync/" (rq_path r) = true.
Proof. unfold Handler. repeat case_match; repeat case_bool_decide; try done; auto. Qed.
Lemma main_handler_dispatch {St} web fs (s : Server St) now r h b :
  main_handler web fs s now r = Sync (Dispatched h b) <-> Handler s now r = Dispatched h b.
Proof.
  unfold main_handler. cbn zeta. destruct web; cbn [negb]; [|split; [by intros [= ->]|by intros ->]]. split.
  - repeat case_match; intros [=]; done.
  - intros Hd. destruct (Handler_dispatch_path _ _ _ _ _ Hd) as [Hp|[Hp|Hp]]; rewrite ?Hp, ?Hd; try done; by rewrite Hp, Hd.
Qed.

(** A port given by [-addr] is the port advertised. *)
Lemma main_port_addr f cfg p : 0 <= p < 2 ^ 63 -> fl_addr f = bytes_str (to_byte 58 :: format_int p) -> main_port f cfg = p.
Proof.
  intros Hp Ha. unfold main_port. rewrite Ha, str_bytes_str. cbn iota. rewrite of_to_byte.
  change (58 mod 256 =? 58) with true. cbn iota. pose proof (ParseInt_format p ltac:(unfold in_s; lia)) as Hpi.
  unfold format_int in *. rewrite (proj2 (Z.ltb_ge p 0)) in * by lia.
  destruct (format_nat_spec 20 p []) as (ds & He & Hps & d & ds' & -> & Hd); [|lia|].
  { split; [lia|]. apply Z.lt_le_trans with (2 ^ 63); [lia|]. by vm_compute. }
  rewrite app_nil_r in He. rewrite He in *. unfold scan_int.
  assert (of_byte (digit_char d) = 48 + d) as Ho by (rewrite of_digit by done; lia).
  replace ((of_byte (digit_char d) =? 45) || (of_byte (digit_char d) =? 43)) with false by lia.
  by rewrite (digit_run_all _ (parse_digits_all _ _ _ Hps)), Hpi.
Qed.

Section runs.
Context `{ZstdLaws}.

(** A file that holds a log of these records. *)
Definition log_file (rs : list NellRecord) (data : bytes) : Prop :=
  data = frames_bytes rs /\ Forall loggable rs /\ log_chain rs.
Lemma log_file_empty : log_file [] [].
Proof. split_and!; [done|by constructor|apply log_chain_nil]. Qed.
Lemma log_file_opens numCPU now node fi rs data : (0 < numCPU)%nat -> log_file rs data ->
  (exists out, OpenLogWithOptions numCPU now node fi data out) /\
  forall out, OpenLogWithOptions numCPU now node fi data out ->
    exists s, out = Ok s /\ ls_records s = merge ∅ rs /\ log_inv s rs /\ ls_file s = mkFile data false.
Proof.
  intros Hn (-> & Hl & Hc).
  destruct (open_cut numCPU now node fi rs (length (frames_bytes rs)) Hn Hl Hc) as (k & _ & Hall & Hex & Hfull).
  rewrite firstn_all in *. rewrite Hfull, firstn_all in Hall by done. split; [done|].
  intros out Ho. destruct (Hall out Ho) as (s & -> & Hr & Hi & Hf & Hw). exists s. split_and!; try done.
  constructor; unfold ls_io_ok, ls_stream; rewrite ?Hw, ?Hf, ?Hr; try done.
  - split_and!; [done|done|apply Nat.le_0_l].
  - unfold stream. cbn. by rewrite app_nil_r.
Qed.
Lemma log_close s rs : log_inv s rs ->
  let '(s', e) := LogStore_Close s in
  e = Ok tt /\ f_closed (ls_file s') = true /\ log_file rs (f_data (ls_file s')) /\ ls_records s' = ls_records s.
Proof.
  intros I. unfold LogStore_Close. destruct (Writer_Flush _ _) as [[w f] e] eqn:Hfl.
  apply Writer_Flush_ok in Hfl as (-> & (Hc & _) & _ & Hd); [|apply I]. rewrite Hc.
  split_and!; [done|done| |done]. cbn. split_and!; [|apply I..]. rewrite Hd. apply (li_stream _ _ I).
Qed.

(** Every event keeps the store's invariant, and is a merge of what it brings, but for the
    tombstones a compaction drops. *)
Definition is_compact (e : app_event) : bool := match e with EvCompact _ _ _ _ _ => true | _ => false end.
Definition is_log (s : any_store) : bool := match s with LogS _ => true | _ => false end.
Lemma put_all_is_log rs s : is_log (put_all rs s) = is_log s.
Proof.
  revert s. induction rs as [|r rs IH]; intros s; [done|]. unfold put_all in *. cbn [foldl]. rewrite IH. by destruct s.
Qed.
Lemma app_step_law e (s : Server any_store) : st_inv (srv_store s) -> ev_ok e s ->
  st_inv (srv_store (app_step e s)) /\ is_log (srv_store (app_step e s)) = is_log (srv_store s) /\
  (is_compact e = false -> st_records (srv_store (app_step e s)) = merge (st_records (srv_store s)) (normalize <$> ev_records e)).
Proof.
  intros I [Hp He]. destruct e as [rs|rs tail|rs|rs|since col| |now th o1 o2 o3];
    cbn [app_step is_compact ev_records fmap list_fmap merge foldl] in *.
  - unfold handlePush. cbn [bool_decide negb]. rewrite bool_decide_true by done. cbn [negb].
    rewrite push_loop_law by done. cbn [fst srv_store srv_set_store saw srv_set_kv].
    destruct (put_all_law rs _ I Hp) as [? ?]. by rewrite put_all_is_log.
  - destruct He as (Hok & Hlen & Htail). unfold handleBinPush. rewrite bool_decide_true by done. cbn [negb].
    rewrite binpush_loop_law; [|done..|].
    + cbn [fst srv_store srv_set_store saw srv_set_kv]. destruct (put_all_law rs _ I Hp) as [? ?]. by rewrite put_all_is_log.
    + rewrite length_app. pose proof (bin_stream_length rs). lia.
  - unfold ws_message. rewrite ws_loop_law by done. cbn [fst srv_store srv_set_store saw srv_set_kv].
    destruct (put_all_law rs _ I Hp) as [? ?]. by rewrite put_all_is_log.
  - rewrite ingest_page_law by done. cbn [fst srv_store srv_set_store saw srv_set_kv].
    destruct (put_all_law rs _ I Hp) as [? ?]. by rewrite put_all_is_log.
  - unfold handlePull. rewrite bool_decide_true by done. cbn [negb].
    destruct (st_changes_law since _ I) as (I' & Hr & _).
    assert (is_log (fst (st_GetChangesSince since (srv_store s))) = is_log (srv_store s)) as Hl by by destruct (srv_store s).
    destruct (st_GetChangesSince since (srv_store s)) as [st out]. done.
  - destruct (srv_store s) as [m|l] eqn:Hst; [by rewrite Hst|]. destruct I as [rs I].
    split_and!; [exists rs; by apply flushTick_log_inv|done|intros _].
    cbn. unfold LogStore_flushTick. by destruct (Writer_Flush _ _) as [[w f] e].
  - destruct (srv_store s) as [m|l] eqn:Hst; [by rewrite Hst|]. destruct I as [rs I].
    pose proof (log_step_inv (LCompact now th o1 o2 o3) l rs I He) as I'. split_and!; [by eexists|done|done].
Qed.
Lemma app_run_law es : forall s : Server any_store, st_inv (srv_store s) -> run_ok es s ->
  st_inv (srv_store (app_run es s)) /\ is_log (srv_store (app_run es s)) = is_log (srv_store s) /\
  (Forall (fun e => is_compact e = false) es ->
   st_records (srv_store (app_run es s)) = merge (st_records (srv_store s)) (normalize <$> concat (map ev_records es))).
Proof.
  induction es as [|e es IH]; intros s I; [done|]. intros [He Hes]. cbn [app_run].
  destruct (app_step_law e s I He) as (I1 & L1 & R1). destruct (IH _ I1 Hes) as (I2 & L2 & R2).
  split_and!; [done|congruence|]. intros Hc. inversion_clear Hc as [|?? Hce Hces]. rewrite R2, R1 by done.
  cbn [map concat]. by rewrite fmap_app, merge_app.
Qed.
(** Starting on a file with a log, and what can be in the way. *)
Definition starts (m : machine) (st : Settings) (port : Z) : Prop :=
  (0 < mc_numCPU m)%nat /\ mc_metrics m = true /\
  snd (MDNS_Start (mc_host m) (mc_ifaces m) (mc_mdns m) (NewMDNSDiscoverer (mkMDNSConfig (set_discovery st) "" port (set_nodeID st)))) = None.
Lemma main_start_law m st port rs data path fi lvl : starts m st port -> set_log st = Some (path, fi, lvl) -> log_file rs data ->
  (exists out, main_start m st port data out) /\
  forall out, main_start m st port data out -> exists a l, out = Ok a /\ app_store a = LogS l /\ log_inv l rs /\
    ls_records l = merge ∅ rs /\ srv_kv (app_server a) = ls_kv l ∪ ∅.
Proof.
  intros (Hn & Hm & Hd) Hl Hf. unfold main_start, open_store. rewrite Hl.
  destruct (log_file_opens (mc_numCPU m) (mc_now m) (set_nodeID st) fi rs data Hn Hf) as [[o Ho] Hall]. split.
  - eexists _, _. split; [by eexists|done].
  - intros out (r & (o' & Ho' & ->) & ->). destruct (Hall o' Ho') as (l & -> & Hr & I & _).
    cbn [mbind res_bind]. unfold main_assemble. rewrite Hm. cbn [negb].
    destruct (MDNS_Start _ _ _ _) as [d err]. cbn [snd] in Hd. subst err.
    eexists _, l. split; [done|]. unfold app_store, main_server. cbn [app_server]. by case_match.
Qed.
End runs.

(** ** Properties *)

(** C11. A graceful restart keeps everything: when the server, started on the log an earlier
    run left, which is whole, has served any pushes, binary pushes, WebSocket messages, reconciled pages,
    pulls, flushes and compactions in any order and is told to stop, the shutdown stops
    its loops and closes the file without an error; starting again on that file succeeds,
    whatever the machine and the schedule of the replay, with exactly the records the
    first run had, and with a knowledge vector that covers them.  Unless a compaction
    dropped tombstones, every record any of the events brought is there, or one that
    beats it. *)
Theorem main_restart `{ZstdLaws} m st port m' st' port' path fi lvl path' fi' lvl' rs d a es :
  starts m st port -> starts m' st' port' -> set_log st = Some (path, fi, lvl) -> set_log st' = Some (path', fi', lvl') ->
  log_file rs d -> main_start m st port d (Ok a) -> run_ok es (app_server a) ->
  let a1 := app_set_server (app_run es (app_server a)) a in
  let '(a2, ok) := main_shutdown a1 in
  ok = true /\ md_stopped (app_discoverer a2) = true /\ pm_stopped (app_mesh a2) = true /\ app_compaction a2 = None /\
  exists l2, app_store a2 = LogS l2 /\ f_closed (ls_file l2) = true /\
  let d2 := f_data (ls_file l2) in
  (exists rs2, log_file rs2 d2) /\ (exists out, main_start m' st' port' d2 out) /\
  forall out, main_start m' st' port' d2 out -> exists a3, out = Ok a3 /\
    st_records (app_store a3) = st_records (app_store a1) /\
    map_Forall (fun _ r => kv_covers (srv_kv (app_server a3)) (UpdatedBy r) (Clock r)) (st_records (app_store a3)) /\
    (Forall (fun e => is_compact e = false) es -> forall r, r ∈ concat (map ev_records es) ->
       exists r', st_records (app_store a3) !! rkey (normalize r) = Some r' /\ ~ beats (normalize r) r').
Proof.
  intros Hs Hs' Hl Hl' Hf Hst Hok. destruct (main_start_law m st port rs d path fi lvl Hs Hl Hf) as [_ Hall].
  destruct (Hall _ Hst) as (a' & l & [= <-] & Ha & I & _). unfold app_store in Ha.
  assert (st_inv (srv_store (app_server a))) as Ia by (rewrite Ha; by exists rs).
  destruct (app_run_law es _ Ia Hok) as (I1 & L1 & R1). cbn zeta. unfold main_shutdown, app_store. cbn [app_server app_set_server].
  rewrite Ha in L1. destruct (srv_store (app_run es (app_server a))) as [|l1] eqn:Hl1; [done|].
  destruct I1 as [rs1 I1]. pose proof (log_close l1 rs1 I1) as Hc. cbn [st_Close any_StoreOps log_StoreOps].
  destruct (LogStore_Close l1) as [l2 e]. destruct Hc as (-> & Hcl & Hf2 & Hr2). unfold as_log. cbn [fst snd].
  split; [done|]. split; [cbn; unfold MDNS_Stop; by case_match|]. split; [done|]. split; [done|].
  exists l2. split; [done|]. split; [done|].
  destruct (main_start_law m' st' port' rs1 _ path' fi' lvl' Hs' Hl' Hf2) as [Hex Hall']. split_and!; [by exists rs1|done|].
  intros out Ho. destruct (Hall' out Ho) as (a3 & l3 & -> & Ha3 & I3 & Hr3 & Hkv). exists a3. unfold app_store in Ha3.
  assert (st_records (LogS l3) = st_records (LogS l1)) as Hrec by (cbn; by rewrite Hr3, (li_records _ _ I1)).
  pose proof (st_kv_covers (LogS l3) (ex_intro _ rs1 I3)) as Hcov. rewrite Ha3, Hkv, map_union_empty.
  split; [done|]. split; [done|]. split; [exact Hcov|].
  - intros Hnc r Hr. rewrite Hrec, R1 by done.
    pose proof (merge_spec (normalize <$> concat (map ev_records es)) (st_records (srv_store (app_server a))) (rkey (normalize r))) as Hm.
    assert (normalize r ∈ normalize <$> concat (map ev_records es)) as Hin by (apply list_elem_of_fmap; eauto).
    destruct (merge _ _ !! _) as [w|].
    + exists w. split; [done|]. apply Hm. by right.
    + exfalso. apply (Hm (normalize r)). by right.
Qed.
(** The conditions of a run, evaluated. *)
Definition put_okb (r : NellRecord) (s : any_store) : bool :=
  match s with
  | MemS _ => bool_decide (tick_safe (Clock r)) && bool_decide (colon_free (Collection r))
  | LogS l => bool_decide (tick_safe (Clock r)) && bool_decide (loggable (snd (snd (MemoryStore_Put r (ls_mem l)))))
  end.
Fixpoint puts_okb (rs : list NellRecord) (s : any_store) : bool :=
  match rs with [] => true | r :: rs => put_okb r s && puts_okb rs (fst (st_Put r s)) end.
Fixpoint run_okb (es : list app_event) (s : Server any_store) : bool :=
  match es with
  | [] => true
  | e :: es =>
      puts_okb (ev_records e) (srv_store s) && match e with EvBinPush _ _ | EvCompact _ _ _ _ _ => false | _ => true end &&
      run_okb es (app_step e s)
  end.
Lemma puts_okb_ok rs : forall s, puts_okb rs s = true -> puts_ok rs s.
Proof.
  induction rs as [|r rs IH]; intros s; [done|]. cbn [puts_okb puts_ok]. rewrite andb_true_iff. intros [Hr Hrs].
  split; [|by apply IH]. destruct s; cbn [put_okb] in Hr; rewrite andb_true_iff, !bool_decide_eq_true in Hr; exact Hr.
Qed.
Lemma run_okb_ok es : forall s, run_okb es s = true -> run_ok es s.
Proof.
  induction es as [|e es IH]; intros s; [done|]. cbn [run_okb run_ok]. rewrite !andb_true_iff. intros [[Hp He] Hes].
  split; [|by apply IH]. split; [by apply puts_okb_ok|by destruct e].
Qed.
Definition demo_machine : machine := mkMachine 4 7 "host" None true None.
Definition demo_settings : Settings :=
  match main_settings "host" (Err NotExist) defaultFlags with
  | Ok s => s
  | _ => mkSettings "" "" None None [] [] false false None
  end.
Definition demo_log : LogStore := new_log 7 (set_nodeID demo_settings) 0 [].
Definition demo_app : App :=
  mkApp (main_server demo_settings (LogS demo_log)) (Start (NewMeshManager 7 [] (30 * Second)))
    (NewMDNSDiscoverer (mkMDNSConfig false "" 9342 "host")) (set_compaction demo_settings).
Definition demo_events : list app_event := [EvPush [demo_rec "1" 1; demo_rec "2" 2]; EvFlush; EvWebSocket [demo_rec "1" 5]].
Lemma demo_started : main_start demo_machine demo_settings 9342 [] (Ok demo_app).
Proof.
  exists (Ok (LogS demo_log)). split; [|reflexivity]. exists (Ok demo_log). split; [|reflexivity].
  exists None, demo_log. split; [|reflexivity]. reflexivity.
Qed.
Lemma main_restart_witness :
  let a1 := app_set_server (app_run demo_events (app_server demo_app)) demo_app in
  snd (main_shutdown a1) = true /\
  exists d2, (exists out, main_start demo_machine demo_settings 9342 d2 out) /\
  forall out, main_start demo_machine demo_settings 9342 d2 out ->
    exists a3, out = Ok a3 /\ st_records (app_store a3) = st_records (app_store a1).
Proof.
  assert (starts demo_machine demo_settings 9342) as Hs by (split_and!; [cbn; lia|done|done]).
  assert (run_ok demo_events (app_server demo_app)) as Hok.
  { apply run_okb_ok. vm_compute. reflexivity. }
  pose proof (main_restart demo_machine demo_settings 9342 demo_machine demo_settings 9342 _ _ _ _ _ _ [] []
    demo_app demo_events Hs Hs eq_refl eq_refl log_file_empty demo_started Hok) as H.
  cbn zeta in *. destruct (main_shutdown _) as [a2 ok]. destruct H as (Hk & _ & _ & _ & l2 & _ & _ & _ & Hex & Hall).
  split; [exact Hk|]. exists (f_data (ls_file l2)). split; [exact Hex|].
  intros out Ho. destruct (Hall out Ho) as (a3 & He & Hr & _). exists a3. split; [exact He|exact Hr].
Defined.

(** C35. The pages open no way around the signature: with or without them, the handler
    [main] serves hands a request to a sync handler exactly when the server's own
    [Handler] does, with the same body; without them it is that handler.  With them the
    redirects from [/] lead to the page, and whatever content is served is one of the four
    embedded files. *)
Theorem main_handler_serves {St} web fs (s : Server St) now r :
  (forall h b, main_handler web fs s now r = Sync (Dispatched h b) <-> Handler s now r = Dispatched h b) /\
  (web = false -> main_handler web fs s now r = Sync (Handler s now r)) /\
  (web = true ->
   (rq_path r = "/" -> main_handler web fs s now r = Ui (PageRedirect "/ui/")) /\
   (rq_path r = "/ui/" -> main_handler web fs s now r = Ui (PageRedirect "/ui/index.html")) /\
   (rq_path r = "/ui/index.html" ->
      main_handler web fs s now r = Ui (Page "text/html" (default [] (fs "webui/index.html"))))) /\
  (forall ct content, main_handler web fs s now r = Ui (Page ct content) -> content <> [] ->
     exists name, name ∈ ["webui/index.html"; "webui/dist/nell.wasm"; "webui/dist/nell.js"; "webui/dist/wasm_exec.js"] /\
       fs name = Some content).
Proof.
  split_and!.
  - intros h b. apply main_handler_dispatch.
  - intros ->. done.
  - intros ->. unfold main_handler. split_and!; intros ->; reflexivity.
  - intros ct content. unfold main_handler. destruct web; cbn [negb]; [|done].
    repeat case_match; try done. intros [= Hp] Hne. revert Hp. unfold WebUIHandler, ReadFile.
    repeat case_bool_decide; try done;
      (destruct (fs _) as [c|] eqn:Hf; cbn [default orb]; intros Hp; simplify_eq); try done;
      eexists; (split; [|exact Hf]); set_solver.
Qed.
