(* ===== verification/Serve.v ===== *)
(** * The program serving requests (cmd/nelldb-server/main.go, server/main.go, server/metrics.go)

    A request from the listener to what it leaves: the metrics middleware, the muxes and the
    signature check of [main_handler], and the handler of the route, which reads the body it is
    handed on and answers on the writer it is given.  The upgrader of the WebSocket library is a
    function of the writer's method set. *)
From S2P Require Import Prelude BigEndian Hlc Record KnowledgeVector GoSort MemStore StoreApi Server GoTime Json JsonText JsonCodec Wire Auth Metrics WebUi Main.
Local Open Scope Z_scope.

(** ** A request and what comes of it *)

(** What the request, the connection and the runtime bring: the query's parameters, how the listing
    is sorted, the bytes a read of the body gives before it fails. *)
Record incoming := mkIncoming {
  in_req : Request; in_now : Time; in_start : Time; in_stop : Time;
  in_remoteAddr : string; in_col : string; in_node_id : string;
  in_sort : list NellRecord -> list NellRecord; in_read : bytes
}.
(** The frames [broadcast] sends, to whom. *)
Abbreviation frames := (list (string * list NellRecord)).

Section serve.
Context {St : Type} `{StoreOps St}.
(** [upgrader.Upgrade] on a writer with these methods: a connection, or it answers the client itself. *)
Variable Upgrade : list string -> bool * list rw_call.
(** The text of a response, and of the muxes' and the signature check's own. *)
Variables (text : response -> bytes) (status_text : Z -> bytes).

Definition serve_answer (r : response) : served :=
  mkServed (match r with RespBytes _ => response_calls text r | _ => [WriteHeader (fst (respond r)); Write (text r)] end) false.
Definition serve_status (status : Z) : served := mkServed [WriteHeader status; Write (status_text status)] false.

(** What reading the body of [HMACAuth]'s request, or an untouched one, gives. *)
Definition body_read (b : req_body) : res unit bytes :=
  match b with Unread b => b | Reader r => Ok (drop (Z.to_nat (br_pos r)) (br_data r)) end.
Definition read_value {A} (decode : jtree -> option A) (b : req_body) : res body_err A :=
  match body_read b with Ok body => read_body decode body | _ => Err BodyBad end.

(** [handleWebSocket], up to the goroutine that reads the connection. *)
Definition handleWebSocket (remoteAddr nodeID : string) (s : Server St) : handler (Server St * frames) :=
  fun writer =>
    let '(ok, calls) := Upgrade writer in
    (if ok then ws_connect remoteAddr nodeID s else s, [], mkServed calls false).

(** The handler of a route. *)
Definition serve_route (h : Route) (b : req_body) (i : incoming) (s : Server St) : handler (Server St * frames) :=
  let method := rq_method (in_req i) in
  let listing := in_sort i (st_ListAll (or_default (in_col i)) (srv_store s)) in
  match h with
  | RHealth => fun _ => (s, [], serve_answer (handleHealth s))
  | RReady => fun _ => (s, [], serve_answer (handleReady s))
  | RPull => fun _ => let '(s, r) := handlePull method (read_value decode_pull b) (in_col i) s in (s, [], serve_answer r)
  | RPush => fun _ => let '(s, r, sent) := handlePush method (read_value decode_changes b) s in (s, sent, serve_answer r)
  | RCheck => fun _ =>
      match handleCheck method (read_value decode_check b) listing s with
      | Ok r => (s, [], serve_answer r)
      | _ => (s, [], mkServed [] true)
      end
  | RBinCheck => fun _ =>
      (s, [], serve_answer (match body_read b with
                      | Ok body => handleBinCheck method body listing s
                      | _ => RespError (if bool_decide (method = MethodPost) then 400 else 405)
                      end))
  | RBinPush => fun _ =>
      let '(s, r, sent) := handleBinPush method (match body_read b with Ok body => body | _ => in_read i end) s in (s, sent, serve_answer r)
  | RWebSocket => handleWebSocket (in_remoteAddr i) (in_node_id i) s
  end.
(** The handler [main] assembles. *)
Definition main_answer (web : bool) (fs : string -> option bytes) (i : incoming) (s : Server St) : handler (Server St * frames) :=
  match main_handler web fs s (in_now i) (in_req i) with
  | Sync (Dispatched h b) => serve_route h b i s
  | Sync (Answered status) => fun _ => (s, [], serve_status status)
  | Sync (Redirected _) | Ui (PageRedirect _) => fun _ => (s, [], serve_status 301)
  | Ui PageNotFound => fun _ => (s, [], serve_status 404)
  | Ui (Page _ content) => fun _ => (s, [], mkServed [Write content] false)
  end.
(** [h = m.Wrap(h)], and what [http.Server] serves. *)
Definition main_serve (web : bool) (fs : string -> option bytes) (i : incoming) (s : Server St) : Server St * frames * served * list measurement :=
  Wrap (rq_method (in_req i)) (rq_path (in_req i)) (in_start i) (in_stop i) (main_answer web fs i s).
(** Requests one after the other, and the frames sent meanwhile. *)
Fixpoint main_serves (web : bool) (fs : string -> option bytes) (is_ : list incoming) (s : Server St) : Server St * frames :=
  match is_ with
  | [] => (s, [])
  | i :: is_ =>
      let '(s, sent, _, _) := main_serve web fs i s in
      let '(s, sent') := main_serves web fs is_ s in (s, sent ++ sent')
  end.

(** ** Only an upgrade connects a peer *)

Lemma push_loop_peers rs : forall n (s : Server St), srv_peers (fst (push_loop rs n s)) = srv_peers s.
Proof.
  induction rs as [|r rs IH]; intros n s; cbn [push_loop]; [done|]. destruct (st_Put r (srv_store s)) as [st [[ok w]|]]; [by rewrite IH|done].
Qed.
Lemma binpush_loop_peers fuel : forall body a t recs (s : Server St), srv_peers (fst (fst (fst (binpush_loop fuel body a t recs s)))) = srv_peers s.
Proof.
  induction fuel as [|fuel IH]; intros body a t recs s; cbn [binpush_loop]; [done|]. case_match; [done|]. case_match; [done|].
  destruct (Record_UnmarshalBinary _) as [r|e|]; [|apply IH..]. destruct (st_Put r (srv_store s)) as [st [[[] w]|]]; by rewrite IH.
Qed.
Lemma broadcast_alone rs (s : Server St) : srv_peers s = ∅ -> broadcast rs s = [].
Proof. unfold broadcast. intros ->. by rewrite map_to_list_empty. Qed.
(** A handler on a writer the upgrader refuses leaves an empty table of peers empty and sends nothing. *)
Lemma serve_route_alone h b i (s : Server St) writer : srv_peers s = ∅ -> fst (Upgrade writer) = false ->
  let '(s', sent, _) := serve_route h b i s writer in srv_peers s' = ∅ /\ sent = [].
Proof.
  intros Hs Hu. destruct h; cbn [serve_route]; try done.
  - unfold handlePull. destruct (negb _); [done|]. destruct (read_value _ b) as [since|e|]; [|done..]. by destruct (st_GetChangesSince _ _).
  - unfold handlePush. destruct (negb _); [done|]. destruct (read_value _ b) as [rs|e|]; [|done..]. pose proof (push_loop_peers rs 0 s) as Hp.
    destruct (push_loop rs 0 s) as [s' [a|]]; cbn [fst] in Hp; rewrite Hs in Hp; [|done]. split; [done|by apply broadcast_alone].
  - by destruct (handleCheck _ _ _ _).
  - unfold handleBinPush. destruct (negb _); [done|]. set (body := match body_read b with Ok body => body | _ => _ end).
    pose proof (binpush_loop_peers (1 + length body) body 0 0 [] s) as Hp.
    destruct (binpush_loop _ body 0 0 [] s) as [[[s' a] t] recs]; cbn [fst] in Hp; rewrite Hs in Hp. split; [done|]. case_match; [by apply broadcast_alone|done].
  - unfold handleWebSocket. destruct (Upgrade writer) as [ok calls]. cbn [fst] in Hu. by rewrite Hu.
Qed.
Lemma main_serve_alone web fs i (s : Server St) : srv_peers s = ∅ -> fst (Upgrade metricsWriter_methods) = false ->
  let '(s', sent, _, _) := main_serve web fs i s in srv_peers s' = ∅ /\ sent = [].
Proof.
  intros Hs Hu. unfold main_serve, Wrap.
  assert (let '(s', sent, _) := main_answer web fs i s metricsWriter_methods in srv_peers s' = ∅ /\ sent = []) as Ha.
  { unfold main_answer. destruct (main_handler web fs s (in_now i) (in_req i)) as [[st|loc|h b]|[ct c|loc|]]; try done. by apply serve_route_alone. }
  by destruct (main_answer web fs i s metricsWriter_methods) as [[s' sent] r].
Qed.
End serve.

(** ** Properties *)

(** C36. The WebSocket endpoint of the program never connects anyone.  [main] serves every request through
    the metrics middleware, whose writer has the methods of [http.ResponseWriter] only; given that an
    upgrade fails on a writer that has neither [Hijack] nor [Unwrap], after any requests, of any
    routes, signed or not, with the pages or without, the server's table of peers is as empty as when it
    was made and no record pushed was ever broadcast; a request for the endpoint that passes the signature check
    is answered by the upgrader and changes nothing.  The same request handled on a writer the upgrader accepts
    joins the peers. *)
Theorem main_websocket_refused {St} `{StoreOps St} (Upgrade : list string -> bool * list rw_call) text status_text web fs (s : Server St) :
  (forall methods, "Hijack" ∉ methods -> "Unwrap" ∉ methods -> fst (Upgrade methods) = false) -> srv_peers s = ∅ ->
  (forall is_, let '(s', sent) := main_serves Upgrade text status_text web fs is_ s in srv_peers s' = ∅ /\ sent = []) /\
  forall i b, Handler s (in_now i) (in_req i) = Dispatched RWebSocket b ->
    fst (main_serve Upgrade text status_text web fs i s) = (s, [], mkServed (snd (Upgrade metricsWriter_methods)) false) /\
    forall writer, fst (Upgrade writer) = true ->
      fst (fst (main_answer Upgrade text status_text web fs i s writer)) = ws_connect (in_remoteAddr i) (in_node_id i) s.
Proof.
  intros Hu Hs. assert (fst (Upgrade metricsWriter_methods) = false) as Hm by (apply Hu; apply (bool_decide_unpack _); vm_compute; exact I). split.
  - intros is_. revert s Hs. induction is_ as [|i is_ IH]; intros s Hs; cbn [main_serves]; [done|].
    pose proof (main_serve_alone Upgrade text status_text web fs i s Hs Hm) as H1. destruct (main_serve _ _ _ _ _ _ _) as [[[s' sent] r] ms].
    destruct H1 as [Hs' ->]. specialize (IH s' Hs'). by destruct (main_serves _ _ _ _ _ _ _).
  - intros i b Hd. apply (main_handler_dispatch web fs) in Hd.
    unfold main_serve, Wrap, main_answer. rewrite Hd. cbn [serve_route]. unfold handleWebSocket. split.
    + destruct (Upgrade metricsWriter_methods) as [ok calls]. cbn [fst snd] in *. by rewrite Hm.
    + intros writer Hw. destruct (Upgrade writer) as [ok calls]. cbn [fst] in *. by rewrite Hw.
Qed.
(** An upgrader that takes over the connection, or answers 500, as [gorilla/websocket] does. *)
Definition demo_Upgrade (methods : list string) : bool * list rw_call :=
  if bool_decide ("Hijack" ∈ methods) || bool_decide ("Unwrap" ∈ methods) then (true, [Hijack]) else (false, [WriteHeader 500; Write []]).
Definition demo_ws : incoming :=
  mkIncoming (mkRequest "/sync/ws" "GET" "" "" "" (Ok [])) 0 0 1 "1.2.3.4:5" "" "n" (fun l => l) [].
Lemma main_websocket_refused_witness :
  (let '(s', sent) := main_serves demo_Upgrade (fun _ => []) (fun _ => []) true (fun _ => None) [demo_ws; demo_ws] demo_server in srv_peers s' = ∅ /\ sent = []) /\
  fst (fst (main_answer demo_Upgrade (fun _ => []) (fun _ => []) true (fun _ => None) demo_ws demo_server ["Header"; "Write"; "WriteHeader"; "Hijack"; "Flush"])) =
    ws_connect "1.2.3.4:5" "n" demo_server.
Proof.
  destruct (main_websocket_refused demo_Upgrade (fun _ => []) (fun _ => []) true (fun _ => None) demo_server) as [Hall Hone].
  - intros methods Hh Hw. unfold demo_Upgrade. by rewrite !bool_decide_false.
  - reflexivity.
  - split; [exact (Hall [demo_ws; demo_ws])|]. apply (Hone demo_ws (Unread (Ok []))); [vm_compute; reflexivity|vm_compute; reflexivity].
Defined.
