(* ===== verification/IndexedDb.v ===== *)
(** * The browser's store (indexeddb_wasm.go)

    [IndexedDBStore] over the browser's database, which is not this program's code: class
    [IndexedDB] has the requests the store makes, [IndexedDBLaws] what their
    specification says of a request that succeeds, and any request may fail.  A method
    waits for its requests on a channel, which lets other goroutines run, so [Put] is a
    read followed by a write, two steps that others may come between. *)
From S2P Require Import Prelude BigEndian Float Hlc Record Conflict GoSort Search MemStore Json JsString Uuid.

(** What the store asks of the browser: [D] the connection with the databases behind it,
    [J] a JavaScript value of the "records" object store, [M] one of "meta". *)
Class IndexedDB (D J M : Type) := {
  (** the object stores, and the contents of the two this program makes; not requests *)
  idb_stores : D -> gset string;
  idb_records : D -> gmap string J;
  idb_meta : D -> gmap string M;
  (** schema changes, inside an upgrade *)
  idb_createStore : string -> D -> D;
  idb_deleteStore : string -> D -> D;
  (** requests; [None] and [false] are the error event *)
  idb_get : string -> D -> option (option J);
  idb_put : string -> J -> D -> D * bool;
  idb_getAll : string -> string -> D -> option (list J);
  (** the values a cursor over index "clock" visits from a lower bound on *)
  idb_cursor : Z -> D -> option (list J);
  idb_meta_get : string -> D -> option (option M);
  idb_meta_put : string -> M -> D -> D * bool;
  idb_close : D -> D;
  (** [JSON.parse(json.Marshal(rec))], [json.Unmarshal(JSON.stringify(v))] *)
  js_of_record : NellRecord -> option J;
  record_of_js : J -> option NellRecord;
  (** the key path "clock.wall_time" of a value *)
  js_wall_time : J -> Z;
  js_of_value : string -> M;
  value_of_js : M -> option string
}.

(** What survives JSON and JavaScript's numbers: valid UTF-8, finite vector entries,
    clocks a double holds exactly, 32-bit counters. *)
Definition js_safe_int (x : Z) : Prop := (- 2 ^ 53 <= x <= 2 ^ 53)%Z.
(** [JSON.stringify] drops the sign of a negative zero. *)
Definition js_f32 (x : Z) : bool := match f32_of_bits x with S754_infinity _ | S754_nan | S754_zero true => false | _ => true end.
Definition js_record (r : NellRecord) : Prop :=
  (json_string (Collection r) = true /\ json_string (ID r) = true /\ json_string (Type_ r) = true /\ json_string (UpdatedBy r) = true) /\
  Forall (fun x => in_u 32 x /\ js_f32 x = true) (Vector r) /\ js_safe_int (WallTime (Clock r)) /\ in_s 32 (Counter (Clock r)).
#[export] Instance js_record_dec r : Decision (js_record r).
Proof. unfold js_record, js_safe_int, in_u, in_s. apply _. Defined.

(** The keys a request answers for, in the order of a strict order on them. *)
Definition entries_of {J} (m : gmap string J) (P : string -> J -> bool) (kvs : list (string * J)) : Prop :=
  kvs ≡ₚ filter (fun kv => P kv.1 kv.2 = true) (map_to_list m).
Definition cursor_order {J} (wall : J -> Z) (a b : string * J) : Prop :=
  (wall a.2 < wall b.2 \/ (wall a.2 = wall b.2 /\ key_leb a.1 b.1 = true))%Z.

Class IndexedDBLaws (D J M : Type) `{IndexedDB D J M} : Prop := {
  get_law k d x : json_string k = true -> idb_get k d = Some x -> x = idb_records d !! k;
  put_law k v d d' ok : json_string k = true -> idb_put k v d = (d', ok) ->
    idb_records d' = (if ok then <[k := v]> (idb_records d) else idb_records d) /\ idb_meta d' = idb_meta d /\ idb_stores d' = idb_stores d;
  getAll_law lo hi d vs : json_string lo = true -> json_string hi = true -> idb_getAll lo hi d = Some vs ->
    exists kvs, vs = snd <$> kvs /\ entries_of (idb_records d) (fun k _ => in_bound lo hi k) kvs /\
      StronglySorted (fun a b => key_leb a.1 b.1 = true) kvs;
  cursor_law from d vs : js_safe_int from -> idb_cursor from d = Some vs ->
    exists kvs, vs = snd <$> kvs /\ entries_of (idb_records d) (fun _ v => from <=? js_wall_time v)%Z kvs /\
      StronglySorted (cursor_order js_wall_time) kvs;
  meta_get_law k d x : idb_meta_get k d = Some x -> x = idb_meta d !! k;
  meta_put_law k v d d' ok : idb_meta_put k v d = (d', ok) ->
    idb_meta d' = (if ok then <[k := v]> (idb_meta d) else idb_meta d) /\ idb_records d' = idb_records d /\ idb_stores d' = idb_stores d;
  create_law n d : idb_stores (idb_createStore n d) = {[n]} ∪ idb_stores d /\
    idb_records (idb_createStore n d) = idb_records d /\ idb_meta (idb_createStore n d) = idb_meta d;
  delete_law n d : idb_stores (idb_deleteStore n d) = idb_stores d ∖ {[n]} /\
    idb_records (idb_deleteStore n d) = (if decide (n = "records") then ∅ else idb_records d) /\
    idb_meta (idb_deleteStore n d) = (if decide (n = "meta") then ∅ else idb_meta d);
  record_roundtrip r : js_record r -> exists v, js_of_record r = Some v /\ record_of_js v = Some r /\ js_wall_time v = WallTime (Clock r);
  value_roundtrip s : json_string s = true -> value_of_js (js_of_value s) = Some s
}.

Inductive idb_err := ErrNotFound | ErrGet | ErrDecode | ErrUnmarshal (i : nat) | ErrMarshal | ErrPutRequest | ErrGetAll | ErrCursor
  | ErrNoIndexedDB | ErrOpen | ErrOpenTimeout | ErrReadNodeID | ErrNodeID | ErrEmptyNodeID | ErrUUID | ErrWriteNodeID.

(** ** Opening *)

Section store.
Context {D J M : Type} `{IndexedDB D J M}.

Record IndexedDBStore := mkIDB { is_nodeID : string; is_db : D; is_clock : HLC }.
Definition is_set_db (d : D) (s : IndexedDBStore) : IndexedDBStore := mkIDB (is_nodeID s) d (is_clock s).
Definition is_set_clock (c : HLC) (s : IndexedDBStore) : IndexedDBStore := mkIDB (is_nodeID s) (is_db s) c.

(** The [onupgradeneeded] handler. *)
Definition upgradeHandler (oldVersion : Z) (d : D) : D :=
  let d :=
    if (oldVersion <? 3)%Z then
      let d := if bool_decide ("records" ∈ idb_stores d) then idb_deleteStore "records" d else d in
      idb_createStore "records" d
    else d in
  if (oldVersion <? 2)%Z then
    if bool_decide ("meta" ∈ idb_stores d) then d else idb_createStore "meta" d
  else d.

Definition resolveOrCreateNodeID (random : option bytes) (d : D) : D * res idb_err string :=
  match idb_meta_get "node_id" d with
  | None => (d, Err ErrReadNodeID)
  | Some (Some result) =>
      match value_of_js result with
      | None => (d, Err ErrNodeID)
      | Some value => if bool_decide (value = "") then (d, Err ErrEmptyNodeID) else (d, Ok value)
      end
  | Some None =>
      match GenerateUUIDv4 random with
      | Ok newID =>
          let '(d, ok) := idb_meta_put "node_id" (js_of_value newID) d in
          (d, if ok then Ok newID else Err ErrWriteNodeID)
      | Err _ => (d, Err ErrUUID)
      | Panic => (d, Panic)
      end
  end.

(** What becomes of the request to open the database: the upgrade runs first when the
    stored version is lower than 3. *)
Inductive open_outcome := OpenTimeout | OpenError | OpenSuccess (oldVersion : Z) (d : D).
Definition NewIndexedDBStore (available : bool) (request : open_outcome) (random : option bytes) (now : Z)
    : res idb_err IndexedDBStore :=
  if negb available then Err ErrNoIndexedDB else
  match request with
  | OpenTimeout => Err ErrOpenTimeout
  | OpenError => Err ErrOpen
  | OpenSuccess oldVersion d =>
      let d := if (oldVersion <? 3)%Z then upgradeHandler oldVersion d else d in
      let '(d, r) := resolveOrCreateNodeID random d in
      nodeID ← r;
      Ok (mkIDB nodeID d (NewHLC now))
  end.
Definition IDB_Close (s : IndexedDBStore) : IndexedDBStore := is_set_db (idb_close (is_db s)) s.
Definition IDB_NodeID (s : IndexedDBStore) : string := is_nodeID s.

(** ** The methods *)

Definition IDB_Get (collection id : string) (s : IndexedDBStore) : res idb_err NellRecord :=
  let collection := or_default collection in
  match idb_get (record_key collection id) (is_db s) with
  | None => Err ErrGet
  | Some None => Err ErrNotFound
  | Some (Some result) => match record_of_js result with None => Err ErrDecode | Some rec => Ok rec end
  end.

(** [Put] up to its first wait: the incoming record and the local one it read. *)
Definition IDB_Put_read (incoming : NellRecord) (s : IndexedDBStore) : res idb_err (NellRecord * option NellRecord) :=
  let incoming := normalize incoming in
  match IDB_Get (Collection incoming) (ID incoming) s with
  | Ok local => Ok (incoming, Some local)
  | Err ErrNotFound => Ok (incoming, None)
  | Err e => Err e
  | Panic => Panic
  end.
(** The rest of it, when the database may have changed meanwhile. *)
Definition IDB_Put_write (read : NellRecord * option NellRecord) (s : IndexedDBStore)
    : IndexedDBStore * res idb_err (bool * NellRecord) :=
  let '(incoming, local) := read in
  let w := match local with Some local => ResolveConflict local incoming | None => WIncoming end in
  let winner := match local with Some local => deref w local incoming | None => incoming end in
  let s := is_set_clock (HLC_Update (is_clock s) (Clock incoming)) s in
  match js_of_record winner with
  | None => (s, Err ErrMarshal)
  | Some jsObj =>
      let '(d, ok) := idb_put (record_key (Collection winner) (ID winner)) jsObj (is_db s) in
      (is_set_db d s, if ok then Ok (bool_decide (w = WIncoming), winner) else Err ErrPutRequest)
  end.
Definition IDB_Put (incoming : NellRecord) (s : IndexedDBStore) : IndexedDBStore * res idb_err (bool * NellRecord) :=
  match IDB_Put_read incoming s with
  | Ok read => IDB_Put_write read s
  | Err e => (s, Err e)
  | Panic => (s, Panic)
  end.

Definition IDB_Delete (now : Z) (collection id : string) (s : IndexedDBStore) : IndexedDBStore * res idb_err NellRecord :=
  let collection := or_default collection in
  let del rec :=
    let s := is_set_clock (HLC_Tick now (is_clock s)) s in
    let rec := restamp (is_clock s) (is_nodeID s) (mark_deleted rec) in
    let '(s, r) := IDB_Put rec s in
    (s, '(_, winner) ← r; Ok winner) in
  match IDB_Get collection id s with
  | Ok rec => del rec
  | Err ErrNotFound => del (new_record collection id)
  | Err e => (s, Err e)
  | Panic => (s, Panic)
  end.

(** The loop over the results of a request: [List] skips tombstones. *)
Fixpoint unmarshal_all (skip : NellRecord -> bool) (i : nat) (results : list J) (records : list NellRecord)
    : res idb_err (list NellRecord) :=
  match results with
  | [] => Ok records
  | item :: results =>
      match record_of_js item with
      | None => Err (ErrUnmarshal i)
      | Some rec => unmarshal_all skip (S i) results (if skip rec then records else records ++ [rec])
      end
  end.
Definition collection_range (collection : string) : string * string := (collection +:+ ":", (collection +:+ ":") +:+ ffff).
Definition IDB_List (collection : string) (s : IndexedDBStore) : res idb_err (list NellRecord) :=
  let '(lo, hi) := collection_range (or_default collection) in
  match idb_getAll lo hi (is_db s) with
  | None => Err ErrGetAll
  | Some results => unmarshal_all Deleted 0 results []
  end.
Definition IDB_ListAll (collection : string) (s : IndexedDBStore) : res idb_err (list NellRecord) :=
  let '(lo, hi) := collection_range (or_default collection) in
  match idb_getAll lo hi (is_db s) with
  | None => Err ErrGetAll
  | Some results => unmarshal_all (fun _ => false) 0 results []
  end.
Definition IDB_Query (collection : string) (s : IndexedDBStore) : res idb_err (list NellRecord) := IDB_List collection s.

Fixpoint cursor_loop (since : HLC) (results : list J) (records : list NellRecord) : res idb_err (list NellRecord) :=
  match results with
  | [] => Ok records
  | value :: results =>
      match record_of_js value with
      | None => Err ErrDecode
      | Some rec => cursor_loop since results (if HLC_GreaterThan (Clock rec) since then records ++ [rec] else records)
      end
  end.
Definition IDB_GetChangesSince (since : HLC) (s : IndexedDBStore) : res idb_err (list NellRecord) :=
  match idb_cursor (WallTime since) (is_db s) with
  | None => Err ErrCursor
  | Some results => cursor_loop since results []
  end.

(** The results a search may return: the sort is unstable. *)
Definition idb_candidate (r : NellRecord) : bool :=
  negb (Deleted r) && bool_decide (Type_ r = TypeVector) && bool_decide (0 < len (Vector r))%Z.
Inductive IDB_SearchSimilar (collection : string) (query : list Z) (limit : Z) (s : IndexedDBStore)
    : res idb_err (list NellRecord) -> Prop :=
  | idb_search_err e : IDB_List collection s = Err e -> IDB_SearchSimilar collection query limit s (Err e)
  | idb_search_ok all allScored :
      IDB_List (or_default collection) s = Ok all ->
      sorts scored_less (score query <$> filter (fun r => idb_candidate r = true) all) allScored ->
      IDB_SearchSimilar collection query limit s (Ok (map sr_rec (cut limit allScored))).
End store.
Arguments IndexedDBStore D : clear implicits.
Arguments open_outcome D : clear implicits.

(** ** The store as a record map *)

Lemma json_record_key c i : json_string c = true -> json_string i = true -> json_string (record_key c i) = true.
Proof. intros Hc Hi. unfold record_key. by rewrite json_string_app, json_string_app. Qed.
Lemma js_record_key r : js_record r -> json_string (rkey r) = true.
Proof. intros ((? & ? & _) & _). by apply json_record_key. Qed.
Lemma js_record_normalize r : js_record r -> js_record (normalize r).
Proof.
  intros ((Hc & Hr) & Hv). split; [split|]; [|done..]. unfold normalize, or_default. cbn. by case_bool_decide.
Qed.
#[export] Hint Resolve json_record_key js_record_key js_record_normalize : nell.

Section laws.
Context {D J M : Type} `{IndexedDBLaws D J M}.

(** The records behind the stored values. *)
Definition idb_view (s : IndexedDBStore D) : gmap string NellRecord := omap record_of_js (idb_records (is_db s)).
(** Every stored value is a record under its own key. *)
Definition stored_value (k : string) (v : J) : Prop :=
  exists r, record_of_js v = Some r /\ js_wall_time v = WallTime (Clock r) /\ js_record r /\ coll_ok (Collection r) /\ rkey r = k.
Definition idb_inv (s : IndexedDBStore D) : Prop := map_Forall stored_value (idb_records (is_db s)).

Lemma view_some s k r : idb_inv s -> idb_view s !! k = Some r ->
  exists v, idb_records (is_db s) !! k = Some v /\ record_of_js v = Some r /\ js_wall_time v = WallTime (Clock r) /\
    js_record r /\ coll_ok (Collection r) /\ rkey r = k.
Proof.
  intros I. unfold idb_view. rewrite lookup_omap. destruct (idb_records (is_db s) !! k) as [v|] eqn:Hv; cbn; [|done].
  intros Hr. destruct (I _ _ Hv) as (r' & Hr' & ?). exists v. rewrite Hr in Hr'. injection Hr' as <-. done.
Qed.
Lemma view_none s k : idb_inv s -> idb_view s !! k = None <-> idb_records (is_db s) !! k = None.
Proof.
  intros I. unfold idb_view. rewrite lookup_omap. destruct (idb_records (is_db s) !! k) as [v|] eqn:Hv; cbn; [|done].
  destruct (I _ _ Hv) as (r & -> & _). done.
Qed.
Lemma view_keyed s : idb_inv s -> keyed (idb_view s).
Proof. intros I k r Hr. by destruct (view_some s k r I Hr) as (v & _ & _ & _ & _ & _ & ?). Qed.

(** [Get] reads the view, or its request failed. *)
Lemma IDB_Get_law c i s : idb_inv s -> json_string (record_key (or_default c) i) = true ->
  match IDB_Get c i s with
  | Ok r => idb_view s !! record_key (or_default c) i = Some r
  | Err ErrNotFound => idb_view s !! record_key (or_default c) i = None
  | Err e => e = ErrGet /\ idb_get (record_key (or_default c) i) (is_db s) = None
  | Panic => False
  end.
Proof.
  intros I Hk. unfold IDB_Get. destruct (idb_get _ _) as [x|] eqn:Hx; [|done].
  apply get_law in Hx as ->; [|done]. destruct (idb_records (is_db s) !! _) as [v|] eqn:Hv.
  - destruct (I _ _ Hv) as (r & Hr & _). rewrite Hr. unfold idb_view. by rewrite lookup_omap, Hv.
  - by apply view_none.
Qed.

(** Storing a record. *)
Lemma view_insert s d r v :
  idb_inv s -> js_record r -> coll_ok (Collection r) -> record_of_js v = Some r -> js_wall_time v = WallTime (Clock r) ->
  idb_records d = <[rkey r := v]> (idb_records (is_db s)) -> forall c,
  idb_inv (mkIDB (is_nodeID s) d c) /\ idb_view (mkIDB (is_nodeID s) d c) = <[rkey r := r]> (idb_view s).
Proof.
  intros I Hr Hc Hv Hw Hd c. unfold idb_inv, idb_view. cbn [is_db]. rewrite Hd. split.
  - apply map_Forall_insert_2; [|done]. by exists r.
  - apply map_eq. intros k. rewrite lookup_omap, !lookup_insert. case_decide; [done|by rewrite lookup_omap].
Qed.
Lemma view_same s d c : idb_inv s -> idb_records d = idb_records (is_db s) ->
  idb_inv (mkIDB (is_nodeID s) d c) /\ idb_view (mkIDB (is_nodeID s) d c) = idb_view s.
Proof. intros I Hd. unfold idb_inv, idb_view. cbn [is_db]. by rewrite Hd. Qed.

(** The write of a [Put], for whatever local record was read. *)
Lemma Put_write_law r local s :
  idb_inv s -> js_record r -> coll_ok (Collection r) ->
  (forall l, local = Some l -> js_record l /\ coll_ok (Collection l) /\ rkey l = rkey r) ->
  let w := match local with Some l => lww l r | None => r end in
  match IDB_Put_write (r, local) s with
  | (s', Ok (acc, w')) => w' = w /\ acc = match local with Some l => bool_decide (beats r l) | None => true end /\
      idb_inv s' /\ idb_view s' = <[rkey r := w]> (idb_view s)
  | (s', Err e) => e = ErrPutRequest /\ (exists v, snd (idb_put (rkey r) v (is_db s)) = false) /\ idb_inv s' /\ idb_view s' = idb_view s
  | (_, Panic) => False
  end /\ is_clock (fst (IDB_Put_write (r, local) s)) = HLC_Update (is_clock s) (Clock r) /\
  is_nodeID (fst (IDB_Put_write (r, local) s)) = is_nodeID s.
Proof.
  intros I Hr Hc Hl. unfold IDB_Put_write. cbv beta iota zeta.
  set (w := match local with Some l => lww l r | None => r end).
  assert (match local with Some l => deref (match local with Some l => ResolveConflict l r | None => WIncoming end) l r
    | None => r end = w) as -> by (by destruct local).
  assert (js_record w /\ coll_ok (Collection w) /\ rkey w = rkey r) as (Hw & Hcw & Hkw).
  { unfold w. destruct local as [l|]; [|done]. destruct (Hl l eq_refl) as (? & ? & ?).
    by destruct (lww_cases l r) as [[-> _]|[-> _]]. }
  destruct (record_roundtrip w Hw) as (v & Hjs & Hv & Hwt). rewrite Hjs. fold (rkey w). rewrite Hkw.
  destruct (idb_put (rkey r) v _) as [d ok] eqn:Hp. cbn [fst is_set_db is_set_clock is_clock is_nodeID is_db] in *.
  pose proof Hp as Hsnd. apply put_law in Hp as (Hd & _); [|by apply js_record_key]. split; [|done].
  set (c := HLC_Update (is_clock s) (Clock r)). destruct ok.
  - rewrite <-Hkw in Hd. destruct (view_insert s d w v I Hw Hcw Hv Hwt Hd c) as [I' Hview].
    split_and!; [done| |exact I'|by rewrite <-Hkw]. destruct local as [l|]; [|done]. apply bool_decide_ext. by rewrite ResolveConflict_spec.
  - split; [done|]. split; [exists v; by rewrite Hsnd|]. by apply (view_same s d c).
Qed.

Lemma Put_read_law r s : idb_inv s -> js_record r ->
  match IDB_Put_read r s with
  | Ok (r', local) => r' = normalize r /\ local = idb_view s !! rkey (normalize r) /\
      forall l, local = Some l -> js_record l /\ coll_ok (Collection l) /\ rkey l = rkey (normalize r)
  | Err e => e = ErrGet /\ idb_get (rkey (normalize r)) (is_db s) = None
  | Panic => False
  end.
Proof.
  intros I Hr. unfold IDB_Put_read. pose proof (js_record_key _ (js_record_normalize r Hr)) as Hk.
  pose proof (IDB_Get_law (Collection (normalize r)) (ID r) s I) as Hg.
  assert (record_key (or_default (Collection (normalize r))) (ID r) = rkey (normalize r)) as Hkey
    by (unfold normalize; cbn; by rewrite or_default_idemp).
  rewrite Hkey in Hg. specialize (Hg Hk). change (ID (normalize r)) with (ID r).
  destruct (IDB_Get _ _ s) as [l|[]|]; try (destruct Hg; done); (split; [done|]); rewrite Hg; (split; [done|]); [|done].
  intros l' [= <-]. by destruct (view_some s _ l I Hg) as (v & _ & _ & _ & ? & ? & ?).
Qed.
Lemma insert_lww m r : <[rkey r := match m !! rkey r with Some l => lww l r | None => r end]> m = put_record m r.
Proof. unfold put_record. by destruct (m !! rkey r). Qed.

(** A record no stored one withstands is what a [Put] of it leaves. *)
Lemma Put_newer t s :
  idb_inv s -> js_record t -> coll_ok (Collection t) ->
  (forall l, idb_view s !! rkey t = Some l -> beats t l) ->
  match IDB_Put t s with
  | (s', Ok (_, w)) => w = t /\ idb_inv s' /\ idb_view s' = <[rkey t := t]> (idb_view s)
  | (s', Err _) => idb_view s' = idb_view s
  | (_, Panic) => False
  end.
Proof.
  intros I Ht Hct Hnew. assert (normalize t = t) as Hnt by apply normalize_id, Hct.
  unfold IDB_Put. pose proof (Put_read_law t s I Ht) as Hrl.
  destruct (IDB_Put_read t s) as [[t' local]|e|]; [|done|done]. rewrite Hnt in Hrl. destruct Hrl as (-> & Hlocal & Hl).
  destruct (Put_write_law t local s I Ht Hct Hl) as (Hw & _).
  destruct (IDB_Put_write (t, local) s) as [s' [[acc w]|e|]]; [| |done].
  - destruct Hw as (-> & _ & I' & Hview).
    assert (match local with Some l => lww l t | None => t end = t) as Ht'.
    { destruct local as [l|]; [|done]. apply lww_beats, Hnew. by rewrite <-Hlocal. }
    by rewrite Ht' in *.
  - by destruct Hw as (_ & _ & _ & ?).
Qed.
(** The tombstone [Delete] puts. *)
Lemma Delete_put now c i rec s :
  idb_inv s -> json_string (or_default c) = true -> json_string i = true -> json_string (is_nodeID s) = true -> colon_free c ->
  let clock := HLC_Tick now (is_clock s) in
  js_safe_int (WallTime clock) -> in_s 32 (Counter clock) ->
  (forall l, idb_view s !! record_key (or_default c) i = Some l -> hlc_gt clock (Clock l)) ->
  js_record rec -> Collection rec = or_default c -> ID rec = i ->
  match (let s := is_set_clock clock s in let t := restamp (is_clock s) (is_nodeID s) (mark_deleted rec) in
    let '(s', r) := IDB_Put t s in (s', '(_, winner) ← r; Ok winner)) with
  | (s', Ok w) => idb_inv s' /\ idb_view s' = <[record_key (or_default c) i := w]> (idb_view s) /\
      Deleted w = true /\ Clock w = clock /\ UpdatedBy w = is_nodeID s /\ IDB_Get c i s' <> Err ErrNotFound
  | (s', Err _) => idb_view s' = idb_view s
  | (_, Panic) => False
  end.
Proof.
  intros I Hjd Hji Hjn Hc clock Hwall Hcnt Hnew ((Hr1 & Hr2 & Hr3 & _) & Hv & _) Hcol Hid. cbv zeta.
  cbn [is_set_clock is_clock is_nodeID]. set (t := restamp clock (is_nodeID s) (mark_deleted rec)).
  assert (js_record t) as Ht by (split; [by split_and!|by split_and!]).
  assert (rkey t = record_key (or_default c) i) as Hkt by (unfold rkey; cbn; by rewrite Hcol, Hid).
  assert (coll_ok (Collection t)) as Hct by (change (coll_ok (Collection rec)); rewrite Hcol; by apply or_default_ok).
  pose proof (Put_newer t (is_set_clock clock s) I Ht Hct) as Hput. rewrite Hkt in Hput.
  change (idb_view (is_set_clock clock s)) with (idb_view s) in Hput.
  change (mkIDB (is_nodeID s) (is_db s) clock) with (is_set_clock clock s).
  specialize (Hput (fun l Hl => or_introl (Hnew l Hl))).
  destruct (IDB_Put t _) as [s' [[acc w]|e|]]; cbn; [|done|done].
  destruct Hput as (-> & I' & Hview). split_and!; try done.
  pose proof (IDB_Get_law c i s' I' (json_record_key _ _ Hjd Hji)) as Hg'. intros He. rewrite He in Hg'.
  by rewrite Hview, lookup_insert_eq in Hg'.
Qed.

(** ** Listings *)

Lemma hlc_gt_wall a b : hlc_gt a b -> (WallTime b <= WallTime a)%Z.
Proof. unfold hlc_gt, HLC_GreaterThan. destruct (Z.eqb_spec (WallTime a) (WallTime b)); cbn; lia. Qed.

Definition entry_of (kv : string * J) (r : NellRecord) : Prop :=
  record_of_js kv.2 = Some r /\ rkey r = kv.1 /\ js_wall_time kv.2 = WallTime (Clock r).
Lemma entries_values s (P : string -> J -> bool) kvs :
  idb_inv s -> entries_of (idb_records (is_db s)) P kvs -> exists rs, length rs = length kvs /\
    Forall2 entry_of kvs rs /\ NoDup rs /\
    forall r, r ∈ rs <-> idb_view s !! rkey r = Some r /\ exists v, idb_records (is_db s) !! rkey r = Some v /\ P (rkey r) v = true.
Proof.
  intros I Hp. unfold entries_of in Hp.
  assert (forall k v, (k, v) ∈ kvs -> idb_records (is_db s) !! k = Some v /\ P k v = true) as Hin.
  { intros k v Hkv. rewrite Hp, list_elem_of_filter in Hkv. destruct Hkv as [? Hkv]. by apply elem_of_map_to_list in Hkv. }
  assert (exists rs, Forall2 entry_of kvs rs) as [rs Hrs].
  { clear Hp. induction kvs as [|[k v] kvs IH]; [by exists []|].
    destruct IH as [rs Hrs]; [intros k' v' ?; apply Hin; by right|].
    destruct (Hin k v ltac:(left)) as [Hv _]. destruct (I _ _ Hv) as (r & Hr & Hw & _ & _ & Hk).
    exists (r :: rs). constructor; [|done]. done. }
  assert (rkey <$> rs = fst <$> kvs) as Hkeys.
  { clear Hin Hp. induction Hrs as [|kv r kvs rs (_ & Hk & _) _ IH]; [done|]. cbn. by rewrite Hk, IH. }
  exists rs. split_and!; [by apply Forall2_length in Hrs|done| |].
  - apply (NoDup_fmap_1 rkey). rewrite Hkeys, Hp. apply (NoDup_fmap_fst).
    + intros k x y. rewrite !list_elem_of_filter, !elem_of_map_to_list. naive_solver.
    + apply NoDup_filter, NoDup_map_to_list.
  - intros r. split.
    + intros Hr. apply list_elem_of_lookup in Hr as [i Hi]. destruct (Forall2_lookup_r _ _ _ _ _ Hrs Hi) as ([k v] & Hkv & Hv & Hk & _).
      cbn in *. destruct (Hin k v) as [Hl HP]; [by eapply list_elem_of_lookup_2|]. subst k.
      split; [|by exists v]. unfold idb_view. by rewrite lookup_omap, Hl.
    + intros (Hr & v & Hv & HP). assert ((rkey r, v) ∈ kvs) as Hkv.
      { rewrite Hp, list_elem_of_filter, elem_of_map_to_list. done. }
      apply list_elem_of_lookup in Hkv as [i Hi]. destruct (Forall2_lookup_l _ _ _ _ _ Hrs Hi) as (r' & Hr' & Hv' & _).
      cbn in Hv'. unfold idb_view in Hr. rewrite lookup_omap, Hv in Hr. cbn in Hr. rewrite Hv' in Hr. injection Hr as ->.
      by eapply list_elem_of_lookup_2.
Qed.
Lemma unmarshal_all_ok skip (kvs : list (string * J)) rs : forall i acc,
  Forall2 entry_of kvs rs ->
  unmarshal_all skip i (snd <$> kvs) acc = Ok (acc ++ filter (fun r => skip r = false) rs).
Proof.
  intros i acc Hf. revert i acc. induction Hf as [|[k v] r kvs rs (Hr & _) _ IH]; intros i acc; cbn [fmap list_fmap unmarshal_all].
  - by rewrite filter_nil, app_nil_r.
  - cbn [snd] in *. rewrite Hr, IH, filter_cons. destruct (skip r); [by rewrite decide_False by done|].
    rewrite decide_True by done. by rewrite <-app_assoc.
Qed.
Lemma cursor_loop_ok since (kvs : list (string * J)) rs : forall acc,
  Forall2 entry_of kvs rs ->
  cursor_loop since (snd <$> kvs) acc = Ok (acc ++ filter (fun r => hlc_gt (Clock r) since) rs).
Proof.
  intros acc Hf. revert acc. induction Hf as [|[k v] r kvs rs (Hr & _) _ IH]; intros acc; cbn [fmap list_fmap cursor_loop].
  - by rewrite filter_nil, app_nil_r.
  - cbn [snd] in *. rewrite Hr, IH, filter_cons.
    destruct (HLC_GreaterThan (Clock r) since) eqn:Hg.
    + rewrite decide_True by done. by rewrite <-app_assoc.
    + rewrite decide_False; [done|]. unfold hlc_gt. by rewrite Hg.
Qed.
(** A key in the range of a collection is the key of one of its records. *)
Lemma collection_range_spec c r :
  json_string c = true -> colon_free c -> js_record r -> coll_ok (Collection r) ->
  in_bound (c +:+ ":") ((c +:+ ":") +:+ ffff) (rkey r) = true <-> Collection r = c /\ id_listable (ID r) = true.
Proof.
  intros Hj Hc Hr [Hcr _]. rewrite in_bound_prefix; [|by rewrite json_string_app|by apply js_record_key]. split.
  - intros (i & He & Hi). assert (rkey r = record_key c i) as Hk.
    { rewrite He. unfold record_key. apply str_bytes_inj. rewrite !str_bytes_app. by rewrite <-app_assoc. }
    apply record_key_inj in Hk as [-> ->]; done.
  - intros [<- Hi]. exists (ID r). split; [|done]. unfold rkey, record_key.
    apply str_bytes_inj. rewrite !str_bytes_app. by rewrite <-app_assoc.
Qed.

Lemma sorted_filter {A} (R : A -> A -> Prop) (P : A -> Prop) `{forall x, Decision (P x)} l :
  StronglySorted R l -> StronglySorted R (filter P l).
Proof.
  induction 1 as [|x l Hs IH Hx]; [by rewrite filter_nil; constructor|]. rewrite filter_cons. case_decide; [|done].
  constructor; [done|]. apply Forall_forall. intros y Hy. apply list_elem_of_filter in Hy as [_ Hy].
  rewrite Forall_forall in Hx. auto.
Qed.
Lemma sorted_records (R : string * J -> string * J -> Prop) (T : NellRecord -> NellRecord -> Prop) kvs rs :
  Forall2 entry_of kvs rs ->
  (forall a b ra rb, entry_of a ra -> entry_of b rb -> R a b -> T ra rb) ->
  StronglySorted R kvs -> StronglySorted T rs.
Proof.
  intros Hf HT. induction Hf as [|kv r kvs rs Hr Hf IH]; intros Hs; [constructor|].
  inversion_clear Hs as [|?? Hs' Hx]. constructor; [by apply IH|].
  apply Forall_forall. intros y Hy. apply list_elem_of_lookup in Hy as [j Hj].
  destruct (Forall2_lookup_r _ _ _ _ _ Hf Hj) as (kv' & Hkv' & Hy).
  rewrite Forall_forall in Hx. eapply HT; [done..|]. apply Hx. by eapply list_elem_of_lookup_2.
Qed.
End laws.
