(* ===== verification/IndexedDbLaws.v ===== *)
(** * What the browser's store guarantees (indexeddb_wasm.go)

    The properties of [IndexedDBStore] over any browser that keeps [IndexedDBLaws], and a
    concrete one, [browser], for the examples. *)
From S2P Require Import Prelude BigEndian Hlc Record Conflict GoSort MemStore Json JsString Uuid IndexedDb.

(** ** A browser *)

(** A database in memory whose requests succeed as long as [bd_up] says. *)
Record Browser := mkBrowser { bd_stores : gset string; bd_records : gmap string NellRecord; bd_meta : gmap string string; bd_up : bool }.
Definition browser_entries (P : string -> NellRecord -> bool) (less : string * NellRecord -> string * NellRecord -> bool) (d : Browser)
    : list NellRecord :=
  snd <$> sort_Slice less (filter (fun kv => P kv.1 kv.2 = true) (map_to_list (bd_records d))).
Definition browser_key_less (a b : string * NellRecord) : bool := negb (key_leb b.1 a.1).
Definition browser_cursor_less (a b : string * NellRecord) : bool :=
  negb (units_leb ((WallTime (Clock b.2)) :: js_string b.1) ((WallTime (Clock a.2)) :: js_string a.1)).
#[export] Instance browser : IndexedDB Browser NellRecord string := {|
  idb_stores := bd_stores; idb_records := bd_records; idb_meta := bd_meta;
  idb_createStore n d := mkBrowser ({[n]} ∪ bd_stores d) (bd_records d) (bd_meta d) (bd_up d);
  idb_deleteStore n d := mkBrowser (bd_stores d ∖ {[n]}) (if decide (n = "records") then ∅ else bd_records d)
    (if decide (n = "meta") then ∅ else bd_meta d) (bd_up d);
  idb_get k d := if bd_up d then Some (bd_records d !! k) else None;
  idb_put k v d := if bd_up d then (mkBrowser (bd_stores d) (<[k:=v]> (bd_records d)) (bd_meta d) true, true) else (d, false);
  idb_getAll lo hi d := if bd_up d then Some (browser_entries (fun k _ => in_bound lo hi k) browser_key_less d) else None;
  idb_cursor from d := if bd_up d then Some (browser_entries (fun _ v => from <=? WallTime (Clock v))%Z browser_cursor_less d) else None;
  idb_meta_get k d := if bd_up d then Some (bd_meta d !! k) else None;
  idb_meta_put k v d := if bd_up d then (mkBrowser (bd_stores d) (bd_records d) (<[k:=v]> (bd_meta d)) true, true) else (d, false);
  idb_close d := mkBrowser (bd_stores d) (bd_records d) (bd_meta d) false;
  js_of_record r := Some r; record_of_js r := Some r; js_wall_time r := WallTime (Clock r);
  js_of_value s := s; value_of_js s := Some s
|}.
Lemma sorted_impl {A} (R T : A -> A -> Prop) l : (forall x y, R x y -> T x y) -> StronglySorted R l -> StronglySorted T l.
Proof. intros HT. induction 1 as [|x l Hs IH Hx]; constructor; [done|]. eapply Forall_impl; [exact Hx|]. auto. Qed.
Lemma browser_entries_spec P less d (R : string * NellRecord -> string * NellRecord -> Prop) :
  LessOrder less -> (forall a b, not_less less a b -> R a b) ->
  exists kvs, browser_entries P less d = snd <$> kvs /\ entries_of (bd_records d) P kvs /\ StronglySorted R kvs.
Proof.
  intros HL HR. eexists. split; [reflexivity|].
  destruct (sort_Slice_sorts less (filter (fun kv => P kv.1 kv.2 = true) (map_to_list (bd_records d)))) as [Hp Hs].
  split; [exact Hp|]. eapply sorted_impl; [|exact Hs]. exact HR.
Qed.
#[export] Instance browser_laws : IndexedDBLaws Browser NellRecord string.
Proof.
  split; cbn [browser idb_stores idb_records idb_meta idb_createStore idb_deleteStore idb_get idb_put idb_getAll idb_cursor
    idb_meta_get idb_meta_put js_of_record record_of_js js_wall_time js_of_value value_of_js].
  - intros k d x _. destruct (bd_up d); [by intros [= <-]|done].
  - intros k v d d' ok _. by destruct (bd_up d); intros [= <- <-].
  - intros lo hi d vs _ _. destruct (bd_up d); [intros [= <-]|done]. apply browser_entries_spec; [apply _|].
    intros a b. unfold not_less, browser_key_less. by rewrite negb_false_iff.
  - intros from d vs _. destruct (bd_up d); [intros [= <-]|done]. apply browser_entries_spec.
    + apply (units_LessOrder (fun kv : string * NellRecord => WallTime (Clock kv.2) :: js_string kv.1)).
    + intros a b. unfold not_less, browser_cursor_less, cursor_order, key_leb. rewrite negb_false_iff. cbn [units_leb].
      destruct (Z.ltb_spec (WallTime (Clock a.2)) (WallTime (Clock b.2))), (Z.eqb_spec (WallTime (Clock a.2)) (WallTime (Clock b.2))); cbn; auto; done.
  - intros k d x. destruct (bd_up d); [by intros [= <-]|done].
  - intros k v d d' ok. by destruct (bd_up d); intros [= <- <-].
  - done.
  - done.
  - intros r _. by exists r.
  - done.
Qed.
Definition new_browser : Browser := mkBrowser {["records"; "meta"]} ∅ ∅ true.
Definition idb_new : NellRecord := mkRecord "c" "1" "text" [] [] (mkHLC 5 0) "q" false.
Definition idb_old : NellRecord := mkRecord "c" "1" "text" [] [] (mkHLC 3 0) "p" false.
Definition demo_idb (rs : list NellRecord) : IndexedDBStore Browser :=
  foldl (fun s r => fst (IDB_Put r s)) (mkIDB "b" new_browser (mkHLC 1 0)) rs.

(** ** Properties *)

(** C9. [IndexedDBStore.Put] implements the last-write-wins map: it stores the winner of the
    record it found and the incoming one, with the collection filled in, returns that
    winner and whether it is the incoming record, and takes the incoming clock in; when a
    request fails it returns the error and the stored records are what they were; the clock in
    memory may have taken the incoming one in. *)
Theorem IndexedDBStore_Put_refines {D J M} `{IndexedDBLaws D J M} (s : IndexedDBStore D) r :
  idb_inv s -> js_record r -> colon_free (Collection r) ->
  let key := rkey (normalize r) in
  match IDB_Put r s with
  | (s', Ok (acc, w)) =>
      idb_inv s' /\ idb_view s' = put_record (idb_view s) (normalize r) /\ idb_view s' !! key = Some w /\
      acc = match idb_view s !! key with Some l => bool_decide (beats (normalize r) l) | None => true end /\
      is_clock s' = HLC_Update (is_clock s) (Clock r)
  | (s', Err e) =>
      idb_inv s' /\ idb_view s' = idb_view s /\
      ((e = ErrGet /\ idb_get key (is_db s) = None) \/ (e = ErrPutRequest /\ exists v, snd (idb_put key v (is_db s)) = false))
  | (_, Panic) => False
  end.
Proof.
  intros I Hr Hc. cbn zeta. unfold IDB_Put. pose proof (Put_read_law r s I Hr) as Hread.
  destruct (IDB_Put_read r s) as [[r' local]|e|]; [|by destruct Hread as [-> ?]; auto|done].
  destruct Hread as (-> & Hlocal & Hl).
  destruct (Put_write_law (normalize r) local s I (js_record_normalize r Hr) (or_default_ok _ Hc) Hl) as (Hw & Hclock & _).
  destruct (IDB_Put_write (normalize r, local) s) as [s' [[acc w]|e|]]; cbn [fst] in Hclock; [| |done].
  - destruct Hw as (-> & -> & I' & Hv). subst local. rewrite insert_lww in Hv. split_and!; try done.
    rewrite Hv, put_record_lookup, decide_True by done. done.
  - destruct Hw as (-> & Hput & I' & Hv). auto.
Qed.
Lemma demo_idb_inv : idb_inv (demo_idb []).
Proof. intros k v Hv. cbn in Hv. by rewrite lookup_empty in Hv. Qed.
Lemma demo_idb_new_inv : idb_inv (demo_idb [idb_new]).
Proof.
  assert (idb_records (is_db (demo_idb [idb_new])) = {["c:1" := idb_new]}) as He by (vm_compute; reflexivity).
  unfold idb_inv. rewrite He. apply map_Forall_singleton. exists idb_new. split_and!; [reflexivity|reflexivity|..].
  - apply (bool_decide_unpack _). vm_compute. exact I.
  - split; [apply (bool_decide_unpack _); vm_compute; exact I|done].
  - vm_compute. reflexivity.
Qed.
Lemma IndexedDBStore_Put_refines_witness :
  idb_view (fst (IDB_Put idb_new (demo_idb []))) = {[ rkey idb_new := idb_new ]}.
Proof.
  pose proof (IndexedDBStore_Put_refines (demo_idb []) idb_new demo_idb_inv) as Hp.
  destruct (IDB_Put idb_new (demo_idb [])) as [s' o] eqn:He.
  assert (o = Ok (true, idb_new)) as ->.
  { replace o with (snd (IDB_Put idb_new (demo_idb []))) by by rewrite He. vm_compute. reflexivity. }
  destruct Hp as (_ & Hv & _).
  - apply (bool_decide_unpack _). vm_compute. exact I.
  - apply (bool_decide_unpack _). vm_compute. exact I.
  - cbn [fst]. rewrite Hv. reflexivity.
Defined.

(** [List] and [ListAll] of a collection return its records and only those, each once
    and in the order of their ids' code units, [List] without the tombstones: the key
    range picks out the collection, except for ids that go on after a leading U+FFFF. *)
Theorem IndexedDBStore_List_exact {D J M} `{IndexedDBLaws D J M} (s : IndexedDBStore D) c :
  idb_inv s -> json_string c = true -> colon_free c ->
  let listed (keep : NellRecord -> Prop) (l : list NellRecord) := NoDup l /\
    StronglySorted (fun a b => key_leb (rkey a) (rkey b) = true) l /\
    forall r, r ∈ l <-> idb_view s !! rkey r = Some r /\ Collection r = or_default c /\ id_listable (ID r) = true /\ keep r in
  match IDB_ListAll c s with
  | Ok l => listed (fun _ => True) l | Err e => e = ErrGetAll | Panic => False
  end /\
  match IDB_List c s with
  | Ok l => listed (fun r => Deleted r = false) l | Err e => e = ErrGetAll | Panic => False
  end.
Proof.
  intros I Hj Hc listed. unfold IDB_ListAll, IDB_List, collection_range.
  assert (json_string (or_default c) = true) as Hjc by (unfold or_default; by case_bool_decide).
  destruct (or_default_ok c Hc) as [Hcc _]. set (lo := or_default c +:+ ":"). set (hi := lo +:+ ffff).
  assert (json_string lo = true) as Hlo by (unfold lo; by rewrite json_string_app).
  assert (json_string hi = true) as Hhi by (unfold hi; by rewrite json_string_app).
  destruct (idb_getAll lo hi (is_db s)) as [vs|] eqn:Hall; [|done].
  apply getAll_law in Hall as (kvs & -> & He & Hs); [|done..].
  destruct (entries_values s _ kvs I He) as (rs & _ & Hf & Hnd & Hrs).
  assert (StronglySorted (fun a b => key_leb (rkey a) (rkey b) = true) rs) as Hsort.
  { eapply (sorted_records _ _ kvs rs Hf); [|exact Hs]. intros a b ra rb (_ & Ha & _) (_ & Hb & _) Hle. by rewrite Ha, Hb. }
  assert (forall r, r ∈ rs <-> idb_view s !! rkey r = Some r /\ Collection r = or_default c /\ id_listable (ID r) = true) as Hin.
  { intros r. rewrite Hrs. split.
    - intros (Hr & v & Hv & Hb). destruct (view_some s _ r I Hr) as (v' & _ & _ & _ & Hjr & Hcr & _).
      split; [done|]. by apply (collection_range_spec (or_default c) r).
    - intros (Hr & Hcr & Hid). destruct (view_some s _ r I Hr) as (v & Hv & _ & _ & Hjr & Hok & _).
      split; [done|]. exists v. split; [done|]. by apply (collection_range_spec (or_default c) r). }
  rewrite !(unmarshal_all_ok _ kvs rs) by done. cbn [app]. split; unfold listed.
  - split_and!; [by apply NoDup_filter|by apply sorted_filter|]. intros r. rewrite list_elem_of_filter, Hin. naive_solver.
  - split_and!; [by apply NoDup_filter|by apply sorted_filter|]. intros r. rewrite list_elem_of_filter, Hin. naive_solver.
Qed.
Lemma IndexedDBStore_List_exact_witness :
  exists l, IDB_List "c" (demo_idb []) = Ok l /\ NoDup l.
Proof.
  destruct (IndexedDBStore_List_exact (demo_idb []) "c" demo_idb_inv) as [_ Hl].
  - vm_compute. reflexivity.
  - apply (bool_decide_unpack _). vm_compute. exact I.
  - destruct (IDB_List "c" (demo_idb [])) as [l|e|] eqn:He; [|vm_compute in He; discriminate He|vm_compute in He; discriminate He].
    exists l. split; [reflexivity|apply Hl].
Defined.

(** [GetChangesSince] returns exactly the records later than the given clock, each once,
    by wall time: the index is read from the clock's wall time on and the records of that
    millisecond are told apart by the counter. *)
Theorem IndexedDBStore_GetChangesSince_exact {D J M} `{IndexedDBLaws D J M} (s : IndexedDBStore D) since :
  idb_inv s -> js_safe_int (WallTime since) ->
  match IDB_GetChangesSince since s with
  | Ok l => NoDup l /\ StronglySorted (fun a b => WallTime (Clock a) <= WallTime (Clock b))%Z l /\
      forall r, r ∈ l <-> idb_view s !! rkey r = Some r /\ hlc_gt (Clock r) since
  | Err e => e = ErrCursor | Panic => False
  end.
Proof.
  intros I Hsafe. unfold IDB_GetChangesSince. destruct (idb_cursor _ _) as [vs|] eqn:Hcur; [|done].
  apply cursor_law in Hcur as (kvs & -> & He & Hs); [|done].
  destruct (entries_values s _ kvs I He) as (rs & _ & Hf & Hnd & Hrs).
  rewrite (cursor_loop_ok since kvs rs) by done. cbn [app]. split_and!; [by apply NoDup_filter| |].
  - apply sorted_filter. eapply (sorted_records _ _ kvs rs Hf); [|exact Hs].
    intros a b ra rb (_ & _ & Ha) (_ & _ & Hb) [Hlt|[Heq _]]; lia.
  - intros r. rewrite list_elem_of_filter, Hrs. split; [naive_solver|]. intros [Hr Hg]. split; [done|]. split; [done|].
    destruct (view_some s _ r I Hr) as (v & Hv & _ & Hw & _). exists v. split; [done|].
    apply Z.leb_le. rewrite Hw. by apply hlc_gt_wall.
Qed.
Lemma IndexedDBStore_GetChangesSince_exact_witness : exists l, IDB_GetChangesSince (mkHLC 0 0) (demo_idb []) = Ok l /\ NoDup l.
Proof.
  pose proof (IndexedDBStore_GetChangesSince_exact (demo_idb []) (mkHLC 0 0) demo_idb_inv) as Hl.
  destruct (IDB_GetChangesSince (mkHLC 0 0) (demo_idb [])) as [l|e|] eqn:He; [|vm_compute in He; discriminate He..].
  exists l. split; [reflexivity|]. apply Hl. split; vm_compute; discriminate.
Defined.

(** A [Put] may let other puts in while it waits for its read.  Those of other keys do
    no harm: the write that follows stores the winner against the record it read, and the
    other records stand. *)
Theorem IndexedDB_put_interleaves {D J M} `{IndexedDBLaws D J M} (s s1 : IndexedDBStore D) r q :
  idb_inv s -> js_record r -> colon_free (Collection r) -> js_record q -> colon_free (Collection q) ->
  rkey (normalize q) <> rkey (normalize r) ->
  forall read o, IDB_Put_read r s = Ok read -> IDB_Put q s = (s1, Ok o) ->
  match IDB_Put_write read s1 with
  | (s2, Ok (acc, w)) => idb_inv s2 /\ idb_view s2 = put_record (put_record (idb_view s) (normalize q)) (normalize r)
  | (s2, Err e) => e = ErrPutRequest /\ idb_view s2 = put_record (idb_view s) (normalize q)
  | (_, Panic) => False
  end.
Proof.
  intros I Hr Hc Hq Hcq Hne read o Hread Hput.
  pose proof (Put_read_law r s I Hr) as Hrl. rewrite Hread in Hrl. destruct read as [r' local]. destruct Hrl as (-> & Hlocal & Hl).
  assert (idb_inv s1 /\ idb_view s1 = put_record (idb_view s) (normalize q)) as [I1 Hv1].
  { unfold IDB_Put in Hput. pose proof (Put_read_law q s I Hq) as Hqr.
    destruct (IDB_Put_read q s) as [[q' lq]|e|]; [|done|done]. destruct Hqr as (-> & Hlq & Hlq').
    destruct (Put_write_law (normalize q) lq s I (js_record_normalize q Hq) (or_default_ok _ Hcq) Hlq') as (Hw & _).
    rewrite Hput in Hw. destruct o as [acc w]. destruct Hw as (_ & _ & I1 & Hv). split; [done|].
    rewrite Hv, Hlq. apply insert_lww. }
  destruct (Put_write_law (normalize r) local s1 I1 (js_record_normalize r Hr) (or_default_ok _ Hc) Hl) as (Hw & _).
  destruct (IDB_Put_write (normalize r, local) s1) as [s2 [[acc w]|e|]]; [| |done].
  - destruct Hw as (_ & _ & I2 & Hv). split; [done|]. rewrite Hv, Hv1, Hlocal.
    rewrite <-insert_lww with (r := normalize r). by rewrite put_record_lookup, decide_False.
  - destruct Hw as (-> & _ & _ & Hv). by rewrite Hv, Hv1.
Qed.
Definition idb_other : NellRecord := mkRecord "c" "2" "text" [] [] (mkHLC 4 0) "p" false.
Lemma IndexedDB_put_interleaves_witness :
  rkey (normalize idb_other) <> rkey (normalize idb_new) /\
  match IDB_Put_write (idb_new, None) (fst (IDB_Put idb_other (demo_idb []))) with
  | (s2, Ok _) => idb_view s2 = put_record (put_record ∅ idb_other) idb_new
  | _ => True
  end.
Proof.
  split; [by vm_compute|].
  pose proof (IndexedDB_put_interleaves (demo_idb []) (fst (IDB_Put idb_other (demo_idb []))) idb_new idb_other demo_idb_inv) as Hp.
  assert (IDB_Put idb_other (demo_idb []) = (fst (IDB_Put idb_other (demo_idb [])), Ok (true, idb_other))) as Hq by (vm_compute; reflexivity).
  specialize (Hp ltac:(apply (bool_decide_unpack _); vm_compute; exact I) ltac:(apply (bool_decide_unpack _); vm_compute; exact I)
    ltac:(apply (bool_decide_unpack _); vm_compute; exact I) ltac:(apply (bool_decide_unpack _); vm_compute; exact I)
    ltac:(by vm_compute) (idb_new, None) (true, idb_other) ltac:(vm_compute; reflexivity) Hq).
  destruct (IDB_Put_write (idb_new, None) (fst (IDB_Put idb_other (demo_idb [])))) as [s2 [[acc w]|e|]]; [|exact Logic.I..].
  destruct Hp as [_ Hv]. exact Hv.
Defined.

(** Two puts of one key do: nothing keeps a second [Put] out between the read and the
    write of the first, and whichever writes last stays.  Here the newer record is
    stored, both calls report that theirs was accepted, and the older one replaces it. *)
Theorem IndexedDB_put_race :
  beats idb_new idb_old /\
  exists s2 s3 read_old read_new, IDB_Put_read idb_old (demo_idb []) = Ok read_old /\ IDB_Put_read idb_new (demo_idb []) = Ok read_new /\
    IDB_Put_write read_new (demo_idb []) = (s2, Ok (true, idb_new)) /\ IDB_Put_write read_old s2 = (s3, Ok (true, idb_old)) /\
    idb_view s2 !! "c:1" = Some idb_new /\ idb_view s3 !! "c:1" = Some idb_old.
Proof.
  split; [vm_compute; by left|].
  eexists (fst (IDB_Put_write (idb_new, None) (demo_idb []))), _, (idb_old, None), (idb_new, None).
  split_and!; [vm_compute; reflexivity..].
Qed.

(** [Delete] leaves a tombstone of the local node that reads as deleted to every later
    [Get], as long as the store's clock is not behind the record: the tombstone is stamped
    from that clock and has to win a [Put] against what is stored. *)
Theorem IndexedDBStore_Delete_tombstone {D J M} `{IndexedDBLaws D J M} (s : IndexedDBStore D) now c i :
  idb_inv s -> json_string c = true -> json_string i = true -> json_string (is_nodeID s) = true -> colon_free c ->
  let clock := HLC_Tick now (is_clock s) in
  js_safe_int (WallTime clock) -> in_s 32 (Counter clock) ->
  (forall l, idb_view s !! record_key (or_default c) i = Some l -> hlc_gt clock (Clock l)) ->
  match IDB_Delete now c i s with
  | (s', Ok w) => idb_inv s' /\ idb_view s' = <[record_key (or_default c) i := w]> (idb_view s) /\
      Deleted w = true /\ Clock w = clock /\ UpdatedBy w = is_nodeID s /\ IDB_Get c i s' <> Err ErrNotFound
  | (s', Err _) => idb_view s' = idb_view s
  | (_, Panic) => False
  end.
Proof.
  intros I Hjc Hji Hjn Hc clock Hwall Hcnt Hnew.
  assert (json_string (or_default c) = true) as Hjd by (unfold or_default; by case_bool_decide).
  pose proof (IDB_Get_law (or_default c) i s I) as Hg. rewrite or_default_idemp in Hg.
  specialize (Hg (json_record_key _ _ Hjd Hji)).
  unfold IDB_Delete. destruct (IDB_Get (or_default c) i s) as [rec|e|]; [| |done].
  - destruct (view_some s _ rec I Hg) as (v & _ & _ & _ & Hjr & [Hcr _] & Hk).
    apply record_key_inj in Hk as [? ?]; [|done|by apply or_default_ok]. by apply Delete_put.
  - destruct e; try (destruct Hg; done). apply Delete_put; try done.
Qed.
Lemma IndexedDBStore_Delete_tombstone_witness :
  match IDB_Delete 9 "c" "1" (demo_idb [idb_new]) with
  | (s', Ok w) => idb_view s' !! "c:1" = Some w /\ Deleted w = true
  | _ => False
  end.
Proof.
  pose proof (IndexedDBStore_Delete_tombstone (demo_idb [idb_new]) 9 "c" "1") as Hd.
  specialize (Hd ltac:(exact demo_idb_new_inv) eq_refl eq_refl eq_refl ltac:(apply (bool_decide_unpack _); vm_compute; exact I)
    ltac:(split; vm_compute; discriminate) ltac:(split; vm_compute; done) ltac:(intros l Hl; vm_compute in Hl; injection Hl as <-; vm_compute; reflexivity)).
  destruct (IDB_Delete 9 "c" "1" (demo_idb [idb_new])) as [s' [w|e|]] eqn:He; [|vm_compute in He; discriminate He..].
  destruct Hd as (_ & Hv & Hdel & _). split; [rewrite Hv; apply lookup_insert_eq|exact Hdel].
Defined.

(** The store's clock starts at the time the page was opened, not above the records kept
    from before: deleting a record stamped by a peer whose clock ran ahead loses to it,
    and returns the live record as if all were well. *)
Theorem IDB_Delete_keeps_newer :
  let s := mkIDB "b" (is_db (demo_idb [mkRecord "c" "1" "text" [] [] (mkHLC 5000 0) "q" false])) (NewHLC 100) in
  exists s' w, IDB_Delete 200 "c" "1" s = (s', Ok w) /\ Deleted w = false /\ idb_view s' = idb_view s.
Proof. eexists _, _. split_and!; [vm_compute; reflexivity..]. Qed.

(** ** Opening again *)

Section nodeid.
Context {D J M : Type} `{IndexedDBLaws D J M}.

Lemma resolve_law random d d' o : (forall buf, random = Some buf -> length buf = 16%nat) ->
  resolveOrCreateNodeID random d = (d', o) ->
  idb_records d' = idb_records d /\ o <> Panic /\
  forall id, o = Ok id -> id <> "" /\ exists v, idb_meta d' !! "node_id" = Some v /\ value_of_js v = Some id.
Proof.
  intros Hr. unfold resolveOrCreateNodeID. destruct (idb_meta_get "node_id" d) as [x|] eqn:Hx; [|by intros [= <- <-]].
  apply meta_get_law in Hx. destruct x as [v|].
  - destruct (value_of_js v) as [value|] eqn:Hv; [|by intros [= <- <-]].
    case_bool_decide; intros [= <- <-]; [done|]. split_and!; [done..|]. intros id [= <-]. split; [done|]. by exists v.
  - pose proof (GenerateUUIDv4_no_panic random Hr) as Hu. destruct (GenerateUUIDv4 random) as [newID|e|]; [|by intros [= <- <-]|done].
    destruct (idb_meta_put _ _ d) as [d1 ok] eqn:Hp. apply meta_put_law in Hp as (Hm & Hrec & _).
    intros [= <- <-]. split; [done|]. destruct ok; [|done]. split; [done|]. intros id [= <-]. split; [apply Hu|].
    exists (js_of_value newID). rewrite Hm, lookup_insert_eq. split; [done|]. apply value_roundtrip, Hu.
Qed.
Lemma resolve_again random d id v : idb_meta d !! "node_id" = Some v -> value_of_js v = Some id -> id <> "" ->
  resolveOrCreateNodeID random d = (d, Ok id) \/ resolveOrCreateNodeID random d = (d, Err ErrReadNodeID).
Proof.
  intros Hv Hid Hne. unfold resolveOrCreateNodeID. destruct (idb_meta_get "node_id" d) as [x|] eqn:Hx; [|by right].
  apply meta_get_law in Hx as ->. rewrite Hv, Hid. rewrite bool_decide_false by done. by left.
Qed.
End nodeid.

(** C24. A browser keeps its node id and its records from one session to the next: a store
    that opened at all, whatever version the database had, opens again on the database it
    left with the same id and the same records, unless the request for the id fails; and
    neither opening panics, whatever the 16 random bytes are. *)
Theorem NewIndexedDBStore_reopen {D J M} `{IndexedDBLaws D J M} request random random' now now' (s : IndexedDBStore D) :
  (forall buf, random = Some buf \/ random' = Some buf -> length buf = 16%nat) ->
  NewIndexedDBStore true request random now = Ok s ->
  match NewIndexedDBStore true (OpenSuccess 3 (is_db s)) random' now' with
  | Ok s' => IDB_NodeID s' = IDB_NodeID s /\ idb_view s' = idb_view s /\ (idb_inv s -> idb_inv s') /\ is_clock s' = NewHLC now'
  | Err e => e = ErrReadNodeID
  | Panic => False
  end.
Proof.
  intros Hr. unfold NewIndexedDBStore. cbn [negb]. destruct request as [| |v d]; [done..|].
  set (d0 := if (v <? 3)%Z then upgradeHandler v d else d).
  destruct (resolveOrCreateNodeID random d0) as [d1 o] eqn:He.
  destruct (resolve_law random d0 d1 o (fun buf Hb => Hr buf (or_introl Hb)) He) as (_ & Hpan & Hid).
  destruct o as [id|e|]; cbn; [|done|done]. intros [= <-]. destruct (Hid id eq_refl) as (Hne & x & Hx & Hxid). cbn [is_db].
  destruct (resolve_again random' d1 id x Hx Hxid Hne) as [-> | ->]; cbn; [|done].
  split_and!; [done|done|by intros I|done].
Qed.
Lemma NewIndexedDBStore_reopen_witness :
  exists s, NewIndexedDBStore true (OpenSuccess 0 (mkBrowser ∅ ∅ ∅ true)) (Some zero_buf) 1 = Ok s /\
  match NewIndexedDBStore true (OpenSuccess 3 (is_db s)) None 2 with
  | Ok s' => IDB_NodeID s' = IDB_NodeID s | Err e => e = ErrReadNodeID | Panic => False
  end.
Proof.
  destruct (NewIndexedDBStore true (OpenSuccess 0 (mkBrowser ∅ ∅ ∅ true)) (Some zero_buf) 1) as [s|e|] eqn:He;
    [|exfalso; vm_compute in He; discriminate He..].
  exists s. split; [reflexivity|].
  pose proof (NewIndexedDBStore_reopen (OpenSuccess 0 (mkBrowser ∅ ∅ ∅ true)) (Some zero_buf) None 1 2 s) as Hr.
  specialize (Hr ltac:(intros buf [Hb|Hb]; [injection Hb as <-; reflexivity|discriminate Hb]) He).
  destruct (NewIndexedDBStore true (OpenSuccess 3 (is_db s)) None 2) as [s'|e|]; [apply Hr|exact Hr|exact Hr].
Defined.

(** Opening a database of an earlier version empties it: the upgrade drops the "records"
    store and makes a new one, and nothing copies the records over. *)
Theorem upgrade_drops_records {D J M} `{IndexedDBLaws D J M} v (d : D) :
  (v < 3)%Z -> "records" ∈ idb_stores d ->
  idb_records (upgradeHandler v d) = ∅ /\ "records" ∈ idb_stores (upgradeHandler v d) /\
  ("meta" ∈ idb_stores d \/ v < 2 -> "meta" ∈ idb_stores (upgradeHandler v d))%Z /\ idb_meta (upgradeHandler v d) = idb_meta d.
Proof.
  intros Hv Hin. unfold upgradeHandler. rewrite (proj2 (Z.ltb_lt _ _) Hv), (bool_decide_true ("records" ∈ idb_stores d)) by done.
  destruct (delete_law "records" d) as (Hs1 & Hr1 & Hm1). set (d1 := idb_deleteStore "records" d) in *.
  destruct (create_law "records" d1) as (Hs2 & Hr2 & Hm2). set (d2 := idb_createStore "records" d1) in *.
  destruct (create_law "meta" d2) as (Hs3 & Hr3 & Hm3). rewrite decide_True in Hr1 by done. rewrite decide_False in Hm1 by done.
  rewrite Hs1 in Hs2. rewrite Hs2 in Hs3.
  destruct (Z.ltb_spec v 2); [case_bool_decide as Hmeta|].
  - split_and!; [by rewrite Hr2|rewrite Hs2; set_solver|by intros _|by rewrite Hm2].
  - split_and!; [by rewrite Hr3, Hr2|rewrite Hs3; set_solver|rewrite Hs3; set_solver|by rewrite Hm3, Hm2].
  - split_and!; [by rewrite Hr2|rewrite Hs2; set_solver|intros [?|?]; [rewrite Hs2; set_solver|lia]|by rewrite Hm2].
Qed.
