(* ===== verification/DocDb.v ===== *)
(** * The document database (sdk/)

    [DocDB] over any store: documents with revision tokens, the revision cache, the
    replication clock and knowledge vector with their persisted copies, and the
    changes feed.  An operation reads the wall clock several times; [now] gives the
    readings in order.  [context.Context] is whether it is done when first looked at. *)
From S2P Require Import Prelude BigEndian Crypto Float Hlc Record KnowledgeVector Conflict GoSort Search MemStore StoreApi Json.
Local Open Scope Z_scope.

(** ** Documents *)
Definition FieldID : string := "_id".
Definition FieldRev : string := "_rev".
Definition FieldDeleted : string := "_deleted".
Definition FieldType : string := "_type".
Definition FieldVector : string := "_vector".
Abbreviation Doc := object.

Record Change := mkChange { ch_ID : string; ch_Rev : string; ch_Deleted : bool; ch_Doc : Doc }.
Inductive doc_err := ErrNotFound | ErrConflict | ErrMissingID | ErrContext | ErrMarshal | ErrStore | ErrArgument.
#[export] Instance doc_err_eq_dec : EqDecision doc_err.
Proof. solve_decision. Defined.

(** [s, _ := doc[k].(string)] *)
Definition string_field (k : string) (doc : Doc) : string :=
  match doc !! k with Some (VStr s) => s | _ => "" end.
Definition splitDoc (doc : Doc) : object :=
  delete FieldVector (delete FieldType (delete FieldDeleted (delete FieldID doc))).
Definition isDeleted (doc : Doc) : bool :=
  match doc !! FieldDeleted with Some (VBool b) => b | _ => false end.
Definition cloneDoc (doc : Doc) : Doc := doc.
(** The bit pattern of a float32. *)
Definition f32_to_bits (x : float) : Z :=
  match x with
  | S754_zero s => if s then 2 ^ 31 else 0
  | S754_infinity s => (if s then 2 ^ 31 else 0) + 255 * 2 ^ 23
  | S754_nan => 2143289344
  | S754_finite s m e =>
      (if s then 2 ^ 31 else 0) + (if Zpos m <? 2 ^ 23 then Zpos m else (e + 150) * 2 ^ 23 + (Zpos m - 2 ^ 23))
  end.
(** The vector [Put] takes from the document. *)
Definition doc_vector (doc : Doc) : list Z :=
  match doc !! FieldVector with
  | Some (VF32s l) => l
  | Some (VArr l) => map (fun v => match v with VNum f => f32_to_bits (to_f32 f) | _ => 0 end) l
  | _ => []
  end.
Definition doc_type (doc : Doc) : string :=
  match doc !! FieldType with Some (VStr s) => s | _ => TypeText end.

(** ** Revision tokens (rev.go) *)

(** [strings.SplitN(s, "-", 2)[0]] *)
Fixpoint before_dash (b : bytes) : bytes :=
  match b with [] => [] | c :: b => if of_byte c =? 45 then [] else c :: before_dash b end.
Definition genRev (prev : string) (body : bytes) : string :=
  let gen :=
    if bool_decide (prev = "") then 1 else
    let '(g, ok) := Atoi (before_dash (str_bytes prev)) in
    if ok && (0 <? g) then wrap_s 64 (g + 1) else 1 in
  bytes_str (format_int gen ++ to_byte 45 :: hex_encode (sha1 body)).
Definition parseGen (rev : string) : Z :=
  if bool_decide (rev = "") then 0 else fst (Atoi (before_dash (str_bytes rev))).

(** ** The changes feed (changes.go) *)

(** The subscribers' channels, each with what it buffers, oldest first. *)
Record changesHub := mkHub { hub_subs : gmap N (list Change); hub_nextID : N }.
Definition newChangesHub : changesHub := mkHub ∅ 0.
Definition hub_capacity : nat := 16.
Definition subscribe (h : changesHub) : changesHub * N :=
  (mkHub (<[hub_nextID h := []]> (hub_subs h)) (hub_nextID h + 1)%N, hub_nextID h).
(** The cancel function; a reader that cancels no longer reads the channel. *)
Definition unsubscribe (id : N) (h : changesHub) : changesHub := mkHub (delete id (hub_subs h)) (hub_nextID h).
Definition hub_broadcast (c : Change) (h : changesHub) : changesHub :=
  mkHub ((fun q => if (length q <? hub_capacity)%nat then q ++ [c] else q) <$> hub_subs h) (hub_nextID h).
(** A receive from a subscriber's channel. *)
Definition hub_recv (id : N) (h : changesHub) : changesHub * option Change :=
  match hub_subs h !! id with
  | Some (c :: q) => (mkHub (<[id := q]> (hub_subs h)) (hub_nextID h), Some c)
  | _ => (h, None)
  end.

Definition metaClockID : string := "meta:clock".
Definition metaVectorID : string := "meta:vector".
(** [len(id) >= 5 && id[:5] == "meta:"] *)
Definition isInternalID (id : string) : bool := String.prefix "meta:" id.

Definition keyInRange (key start end_ : string) (inclusiveEnd : bool) : bool :=
  if negb (bool_decide (start = "")) && str_ltb key start then false
  else if bool_decide (end_ = "") then true
  else if inclusiveEnd then negb (str_ltb end_ key) else str_ltb key end_.

(** ** Payloads *)
Section payload.
Context `{Json}.

Definition readRev (rec : NellRecord) : option string :=
  if len (Payload rec) =? 0 then None else
  match UnmarshalObj (Payload rec) with
  | None => None
  | Some body => match body !! FieldRev with Some (VStr v) => Some v | _ => None end
  end.
Definition joinDoc (id : string) (rec : NellRecord) : Doc :=
  let out := {[FieldID := VStr id]} in
  let out := if negb (bool_decide (Type_ rec = "")) && negb (bool_decide (Type_ rec = TypeText))
             then <[FieldType := VStr (Type_ rec)]> out else out in
  let out := if 0 <? len (Vector rec) then <[FieldVector := VF32s (Vector rec)]> out else out in
  if len (Payload rec) =? 0 then out else
  match UnmarshalObj (Payload rec) with
  | None => <["_payload_b64" := VBytes (Payload rec)]> out
  | Some body =>
      let out := body ∪ out in
      match out !! FieldRev with
      | Some (VStr _) => out
      | _ => <[FieldRev := VStr "1-imported"]> out
      end
  end.
End payload.

Section docdb.
Context {St : Type} `{StoreOps St} `{Json}.

Record DocDB := mkDocDB {
  db_store : St;
  db_nodeID : string;
  db_collection : string;
  db_revs : gmap string string;
  db_vector : gmap string HLC;
  db_lastSeenClock : HLC;
  db_subs : changesHub
}.
Definition db_set_store (st : St) (d : DocDB) : DocDB :=
  mkDocDB st (db_nodeID d) (db_collection d) (db_revs d) (db_vector d) (db_lastSeenClock d) (db_subs d).
Definition db_set_revs (revs : gmap string string) (d : DocDB) : DocDB :=
  mkDocDB (db_store d) (db_nodeID d) (db_collection d) revs (db_vector d) (db_lastSeenClock d) (db_subs d).
Definition db_set_vector (kv : gmap string HLC) (d : DocDB) : DocDB :=
  mkDocDB (db_store d) (db_nodeID d) (db_collection d) (db_revs d) kv (db_lastSeenClock d) (db_subs d).
Definition db_set_clock (c : HLC) (d : DocDB) : DocDB :=
  mkDocDB (db_store d) (db_nodeID d) (db_collection d) (db_revs d) (db_vector d) c (db_subs d).
Definition db_broadcast (c : Change) (d : DocDB) : DocDB :=
  mkDocDB (db_store d) (db_nodeID d) (db_collection d) (db_revs d) (db_vector d) (db_lastSeenClock d)
    (hub_broadcast c (db_subs d)).

(** [store.Put], and whether it returned no error. *)
Definition db_put (rec : NellRecord) (d : DocDB) : DocDB * bool :=
  let '(st, r) := st_Put rec (db_store d) in
  (db_set_store st d, match r with Some _ => true | None => false end).

(** *** meta.go and vector.go *)
Definition readMetaClock (d : DocDB) : option HLC :=
  match st_Get (db_collection d) metaClockID (db_store d) with
  | Ok rec => UnmarshalHLC (Payload rec)
  | _ => None
  end.
Definition meta_record (d : DocDB) (id : string) (payload : bytes) (clock : HLC) : NellRecord :=
  mkRecord (db_collection d) id TypeText payload [] clock (db_nodeID d) false.
Definition writeMetaClock (now : nat -> Z) (c : HLC) (d : DocDB) : DocDB * bool :=
  let clk := HLC_Update (NewHLC (now 0%nat)) c in
  db_put (meta_record d metaClockID (MarshalHLC c) (HLC_Tick (now 1%nat) clk)) d.
Definition advanceClock (now : nat -> Z) (c : HLC) (d : DocDB) : DocDB * bool :=
  if negb (HLC_GreaterThan c (db_lastSeenClock d)) then (d, true)
  else writeMetaClock now c (db_set_clock c d).

Definition readMetaVector (d : DocDB) : option (gmap string HLC) :=
  match st_Get (db_collection d) metaVectorID (db_store d) with
  | Ok rec => UnmarshalKV (Payload rec)
  | _ => None
  end.
(** The record [writeMetaVector] stores. *)
Definition meta_vector_record (now : nat -> Z) (kv : gmap string HLC) (d : DocDB) : NellRecord :=
  let clk := foldl (fun clk (p : string * HLC) => HLC_Update clk p.2) (NewHLC (now 0%nat)) (map_to_list kv) in
  meta_record d metaVectorID (MarshalKV kv) (HLC_Tick (now 1%nat) clk).
Definition writeMetaVector (now : nat -> Z) (kv : gmap string HLC) (d : DocDB) : DocDB * bool :=
  db_put (meta_vector_record now kv d) d.
(** Whether [observeVector] has news. *)
Definition observes (nodeID : string) (clock : HLC) (d : DocDB) : bool :=
  negb (bool_decide (nodeID = "")) && HLC_GreaterThan clock (default HLC_zero (db_vector d !! nodeID)).
Definition observeVector (now : nat -> Z) (nodeID : string) (clock : HLC) (d : DocDB) : DocDB :=
  if observes nodeID clock d then
    let d := db_set_vector (<[nodeID := clock]> (db_vector d)) d in
    fst (writeMetaVector now (db_vector d) d)
  else d.

(** *** Opening *)
Definition reindex_revs (all : list NellRecord) : gmap string string :=
  foldl (fun revs rec => <[ID rec := default "1-imported" (readRev rec)]> revs) ∅ all.
Definition reindex (d : DocDB) : DocDB :=
  let all := st_List (db_collection d) (db_store d) in
  let maxClock := foldl (fun m rec => if HLC_GreaterThan (Clock rec) m then Clock rec else m) HLC_zero all in
  let maxClock :=
    match readMetaClock d with
    | Some mc => if HLC_GreaterThan mc maxClock then mc else maxClock
    | None => maxClock
    end in
  db_set_clock maxClock (db_set_revs (reindex_revs all) d).
Definition New (store : St) (nodeID collection : string) : DocDB :=
  let d := mkDocDB store nodeID (or_default collection) ∅ ∅ HLC_zero newChangesHub in
  reindex (match readMetaVector d with Some kv => db_set_vector kv d | None => d end).
Definition LastSeenClock (d : DocDB) : HLC := db_lastSeenClock d.

(** *** Put: the revision check, and the write, between which the lock is free *)
Definition put_check (doc : Doc) (d : DocDB) : res doc_err (string * string) :=
  let id := string_field FieldID doc in
  if bool_decide (id = "") then Err ErrMissingID else
  let curRev := default "" (db_revs d !! id) in
  let exists_ := bool_decide (is_Some (db_revs d !! id)) in
  let incomingRev := string_field FieldRev doc in
  if negb (bool_decide (incomingRev = "")) && negb (bool_decide (curRev = "")) && negb (bool_decide (incomingRev = curRev))
  then Err ErrConflict else
  if negb (bool_decide (incomingRev = "")) && negb exists_ then Err ErrConflict else
  Ok (id, if bool_decide (incomingRev = "") && exists_ then curRev else incomingRev).
(** The new revision and the payload. *)
Definition put_payload (doc : Doc) (baseRev : string) : option (string * bytes) :=
  let body := splitDoc doc in
  raw ← MarshalObj body;
  let newRev := genRev baseRev raw in
  final ← MarshalObj (<[FieldRev := VStr newRev]> body);
  Some (newRev, final).
Definition put_clock (now : nat -> Z) (id : string) (d : DocDB) : HLC :=
  let clk := NewHLC (now 0%nat) in
  let clk := match st_Get (db_collection d) id (db_store d) with
             | Ok existing => HLC_Update clk (Clock existing)
             | _ => clk
             end in
  HLC_Tick (now 1%nat) clk.
Definition put_record_of (now : nat -> Z) (doc : Doc) (id : string) (final : bytes) (d : DocDB) : NellRecord :=
  mkRecord (db_collection d) id (doc_type doc) final (doc_vector doc) (put_clock now id d) (db_nodeID d) (isDeleted doc).
Definition put_commit (now : nat -> Z) (doc : Doc) (id baseRev : string) (d : DocDB) : DocDB * Doc * res doc_err string :=
  match put_payload doc baseRev with
  | None => (d, doc, Err ErrMarshal)
  | Some (newRev, final) =>
      let rec := put_record_of now doc id final d in
      match db_put rec d with
      | (d, false) => (d, doc, Err ErrStore)
      | (d, true) =>
          let d := db_set_revs (<[id := newRev]> (db_revs d)) d in
          let doc' := <[FieldRev := VStr newRev]> doc in
          let d := observeVector (fun n => now (2 + n)%nat) (db_nodeID d) (Clock rec) d in
          (db_broadcast (mkChange id newRev (isDeleted doc) (cloneDoc doc')) d, doc', Ok newRev)
      end
  end.
(** The document is the caller's map: [Put] stamps the revision into it. *)
Definition DocDB_Put (now : nat -> Z) (ctxDone : bool) (doc : Doc) (d : DocDB) : DocDB * Doc * res doc_err string :=
  if ctxDone then (d, doc, Err ErrContext) else
  match put_check doc d with
  | Ok (id, baseRev) => put_commit now doc id baseRev d
  | Err e => (d, doc, Err e)
  | Panic => (d, doc, Panic)
  end.

Definition DocDB_Get (ctxDone : bool) (id : string) (d : DocDB) : res doc_err Doc :=
  if ctxDone then Err ErrContext else
  match st_Get (db_collection d) id (db_store d) with
  | Ok rec => if Deleted rec then Err ErrNotFound else Ok (joinDoc id rec)
  | Err ErrRecordNotFound => Err ErrNotFound
  | Panic => Panic
  end.

(** *** Remove *)
Inductive remove_arg := ById (id : string) | ByDoc (doc : Doc) | ByOther.
Definition remove_record (now : nat -> Z) (id : string) (d : DocDB) : NellRecord :=
  let rec := match st_Get (db_collection d) id (db_store d) with
             | Ok rec => rec
             | _ => mkRecord (db_collection d) id TypeText [] [] (NewHLC (now 0%nat)) (db_nodeID d) false
             end in
  let clk := HLC_Update (NewHLC (now 1%nat)) (Clock rec) in
  mkRecord (Collection rec) (ID rec) (Type_ rec) (Payload rec) (Vector rec) (HLC_Tick (now 2%nat) clk) (db_nodeID d) true.
(** The write, once the revision is checked. *)
Definition remove_commit (now : nat -> Z) (id baseRev : string) (d : DocDB) : DocDB * res doc_err string :=
  let rec := remove_record now id d in
  match db_put rec d with
  | (d, false) => (d, Err ErrStore)
  | (d, true) =>
      let newRev := genRev baseRev [] in
      let d := db_set_revs (<[id := newRev]> (db_revs d)) d in
      let d := observeVector (fun n => now (3 + n)%nat) (db_nodeID d) (Clock rec) d in
      (db_broadcast (mkChange id newRev true
         (<[FieldID := VStr id]> (<[FieldRev := VStr newRev]> {[FieldDeleted := VBool true]}))) d, Ok newRev)
  end.
(** The id an argument names, and the revision it wants. *)
Definition remove_target (arg : remove_arg) : option (string * string) :=
  match arg with
  | ById id => Some (id, "")
  | ByDoc doc => Some (string_field FieldID doc, string_field FieldRev doc)
  | ByOther => None
  end.
Definition Remove (now : nat -> Z) (ctxDone : bool) (arg : remove_arg) (d : DocDB) : DocDB * res doc_err string :=
  if ctxDone then (d, Err ErrContext) else
  match remove_target arg with
  | None => (d, Err ErrArgument)
  | Some (id, wantRev) =>
      if bool_decide (id = "") then (d, Err ErrMissingID) else
      let curRev := default "" (db_revs d !! id) in
      let exists_ := bool_decide (is_Some (db_revs d !! id)) in
      if negb (bool_decide (wantRev = "")) && negb (bool_decide (curRev = "")) && negb (bool_decide (wantRev = curRev))
      then (d, Err ErrConflict) else
      remove_commit now id (if bool_decide (wantRev = "") && exists_ then curRev else wantRev) d
  end.

(** *** Batches.  The documents are maps the caller holds: [heap] has them, [docs] refers
    to them. *)
Abbreviation heap := (gmap nat Doc).
Definition rollback (prev : list (string * option string)) (d : DocDB) : DocDB :=
  db_set_revs (foldl (fun revs (s : string * option string) =>
    match s.2 with Some rev => <[s.1 := rev]> revs | None => delete s.1 revs end) (db_revs d) prev) d.
Fixpoint putmany_loop (now : nat -> nat -> Z) (ctxDone : nat -> bool) (i : nat) (docs : list nat) (results : list string)
    (hp : heap) (d : DocDB) : DocDB * heap * res doc_err (list string) :=
  match docs with
  | [] => (d, hp, Ok results)
  | l :: docs =>
      match DocDB_Put (now i) (ctxDone (S i)) (default ∅ (hp !! l)) d with
      | (d, doc, Ok rev) => putmany_loop now ctxDone (S i) docs (results ++ [rev]) (<[l := doc]> hp) d
      | (d, _, Err e) => (d, hp, Err e)
      | (d, _, Panic) => (d, hp, Panic)
      end
  end.
Definition PutMany (now : nat -> nat -> Z) (ctxDone : nat -> bool) (docs : list nat) (hp : heap) (d : DocDB)
    : DocDB * heap * res doc_err (list string) :=
  if ctxDone 0%nat then (d, hp, Err ErrContext) else
  let prev := (fun l => let id := string_field FieldID (default ∅ (hp !! l)) in (id, db_revs d !! id)) <$> docs in
  match putmany_loop now ctxDone 0 docs [] hp d with
  | (d, hp, Err e) => (rollback prev d, hp, Err e)
  | out => out
  end.

Fixpoint getmany_loop (ctxDone : nat -> bool) (i : nat) (ids : list string) (out : gmap string Doc) (d : DocDB)
    : res doc_err (gmap string Doc) :=
  match ids with
  | [] => Ok out
  | id :: ids =>
      match DocDB_Get (ctxDone (S i)) id d with
      | Ok doc => getmany_loop ctxDone (S i) ids (<[id := doc]> out) d
      | Err ErrNotFound => getmany_loop ctxDone (S i) ids out d
      | Err e => Err e
      | Panic => Panic
      end
  end.
Definition GetMany (ctxDone : nat -> bool) (ids : list string) (d : DocDB) : res doc_err (gmap string Doc) :=
  if ctxDone 0%nat then Err ErrContext else getmany_loop ctxDone 0 ids ∅ d.

(** *** Queries *)
Record DocRange := mkRange {
  StartKey : string; EndKey : string; InclusiveEnd : bool; Limit : Z; Skip : Z; Keys : list string; IncludeDocs : bool
}.
Record DocRow := mkRow { row_ID : string; row_Key : string; row_Rev : string; row_Doc : option Doc }.
Record AllDocsResult := mkResult { TotalRows : Z; Offset : Z; Rows : list DocRow }.
Definition makeRow (id : string) (rec : NellRecord) (includeDoc : bool) (d : DocDB) : DocRow :=
  let rev := match db_revs d !! id with Some rev => rev | None => default "" (readRev rec) end in
  let rev := if bool_decide (rev = "") then "1-imported" else rev in
  mkRow id id rev (if includeDoc then Some (joinDoc id rec) else None).
Definition range_row (rng : DocRange) (d : DocDB) (rec : NellRecord) : option DocRow :=
  if Deleted rec then None
  else if negb (keyInRange (ID rec) (StartKey rng) (EndKey rng) (InclusiveEnd rng)) then None
  else Some (makeRow (ID rec) rec (IncludeDocs rng) d).
Definition key_row (rng : DocRange) (d : DocDB) (id : string) : option DocRow :=
  if negb (keyInRange id (StartKey rng) (EndKey rng) (InclusiveEnd rng)) then None else
  match st_Get (db_collection d) id (db_store d) with
  | Ok rec => if Deleted rec then None else Some (makeRow id rec (IncludeDocs rng) d)
  | _ => None
  end.
Definition page (skip limit : Z) (rows : list DocRow) : list DocRow :=
  let rows := if 0 <? skip then (if len rows <=? skip then [] else drop (Z.to_nat skip) rows) else rows in
  if (0 <? limit) && (limit <? len rows) then take (Z.to_nat limit) rows else rows.
Definition scan_workers (numCPU : nat) (all : list NellRecord) : nat :=
  if len all <? 10000 then 1%nat else Nat.min numCPU 12.
(** [AllDocs], with any order of the map and of the workers' results. *)
Inductive AllDocs (numCPU : nat) (rng : DocRange) (d : DocDB) : res doc_err AllDocsResult -> Prop :=
| AllDocs_keys : Keys rng <> [] ->
    let rows := omap (key_row rng d) (Keys rng) in
    AllDocs numCPU rng d (Ok (mkResult (len rows) 0 rows))
| AllDocs_scan all arrived : Keys rng = [] ->
    all ≡ₚ st_List (db_collection d) (db_store d) ->
    arrived ≡ₚ map (omap (range_row rng d)) (chunks (scan_workers numCPU all) all) ->
    let rows := concat arrived in
    AllDocs numCPU rng d (Ok (mkResult (len rows) 0 (page (Skip rng) (Limit rng) rows))).

(** [SearchSimilar], for each result of the store's search. *)
Inductive DocDB_SearchSimilar (numCPU : nat) (vector : list Z) (limit : Z) (d : DocDB) : list Doc -> Prop :=
| DocDB_search records :
    st_SearchSimilar numCPU (db_collection d) vector (if limit <=? 0 then 10 else limit) (db_store d) records ->
    DocDB_SearchSimilar numCPU vector limit d
      (map (fun rec => match db_revs d !! ID rec with
                       | Some rev => <[FieldRev := VStr rev]> (joinDoc (ID rec) rec)
                       | None => joinDoc (ID rec) rec
                       end) records).

Record InfoResult := mkInfo { info_NodeID : string; DocCount : Z; TombstoneCount : Z; info_LastSeenClock : HLC; Built : Z }.
Definition Info (now : Z) (d : DocDB) : InfoResult :=
  let live := filter (fun r => isInternalID (ID r) = false) (st_List (db_collection d) (db_store d)) in
  mkInfo (db_nodeID d) (len live) 0 (LastSeenClock d) now.

Fixpoint destroy_loop (now : nat -> nat -> Z) (ctxDone : nat -> bool) (all : list NellRecord) (i : nat) (d : DocDB) : DocDB * option doc_err :=
  match all with
  | [] => (d, None)
  | rec :: all =>
      if isInternalID (ID rec) then destroy_loop now ctxDone all (S i) d else
      match st_Get (db_collection d) (ID rec) (db_store d) with
      | Ok _ =>
          match Remove (now i) (ctxDone i) (ById (ID rec)) d with
          | (d, Ok _) => destroy_loop now ctxDone all (S i) d
          | (d, Err e) => (d, Some e)
          | (d, Panic) => (d, Some ErrStore)
          end
      | _ => destroy_loop now ctxDone all (S i) d
      end
  end.
(** [Destroy], the store's records in the map order [all]; [ctxDone i] is whether the
    context is done when the i-th of them is removed. *)
Definition Destroy (now : nat -> nat -> Z) (ctxDone : nat -> bool) (all : list NellRecord) (d : DocDB) : DocDB * option doc_err :=
  match destroy_loop now ctxDone all 0 d with
  | (d, None) => (db_set_vector ∅ (db_set_clock HLC_zero (db_set_revs ∅ d)), None)
  | out => out
  end.

(** *** Records from a peer (replicate.go) *)
Definition ingestRemote (now : nat -> Z) (rec : NellRecord) (d : DocDB) : DocDB * bool :=
  if isInternalID (ID rec) then (d, true) else
  match db_put rec d with
  | (d, false) => (d, false)
  | (d, true) =>
      let rev := default "1-remote" (readRev rec) in
      let d := db_set_revs (<[ID rec := rev]> (db_revs d)) d in
      let d := observeVector now (UpdatedBy rec) (Clock rec) d in
      let doc := joinDoc (ID rec) rec in
      let doc := if Deleted rec then <[FieldDeleted := VBool true]> doc else doc in
      (db_broadcast (mkChange (ID rec) rev (Deleted rec) doc) d, true)
  end.
End docdb.
Arguments DocDB St : clear implicits.
