(* ===== verification/DocDbLaws.v ===== *)
(** * What the document database promises

    Theorems about [DocDB] over any store that keeps [StoreLaws] and any codec that
    keeps [JsonLaws]. *)
From S2P Require Import Prelude BigEndian Crypto Float Hlc Record KnowledgeVector Conflict GoSort Search MemStore StoreApi Json JsonText JsonCodec DocDb.
Local Open Scope Z_scope.

(** ** Revision tokens *)
Lemma before_dash_format g rest : 0 <= g -> before_dash (format_int g ++ to_byte 45 :: rest) = format_int g.
Proof.
  intros Hg. pose proof (format_int_no_minus g Hg) as Hn. induction (format_int g) as [|c b IH]; cbn [app before_dash].
  - rewrite of_to_byte. done.
  - apply not_elem_of_cons in Hn as [Hc Hn]. destruct (Z.eqb_spec (of_byte c) 45) as [He|_].
    + by rewrite <-He, to_of_byte in Hc.
    + by rewrite IH.
Qed.
Lemma parseGen_token g rest : 0 <= g < 2 ^ 63 ->
  parseGen (bytes_str (format_int g ++ to_byte 45 :: rest)) = g.
Proof.
  intros Hg. unfold parseGen. rewrite bool_decide_false.
  - rewrite str_bytes_str, before_dash_format by lia.
    rewrite (Atoi_ParseInt _ g); [done|]. apply ParseInt_format. unfold in_s. lia.
  - intros He. apply (f_equal str_bytes) in He. rewrite str_bytes_str in He. by destruct (format_int g).
Qed.
Lemma genRev_nonempty prev body : genRev prev body <> "".
Proof.
  unfold genRev. intros He. apply (f_equal str_bytes) in He. rewrite str_bytes_str in He.
  by destruct (format_int _).
Qed.
Lemma Atoi_range b v : Atoi b = (v, true) -> - 2 ^ 63 <= v < 2 ^ 63.
Proof.
  unfold Atoi. destruct (match b with [] => _ | _ => _ end) as [neg [|c digits]]; [done|].
  destruct (parse_digits _ _) as [w|]; [|done]. set (x := if neg then - w else w).
  destruct (Z.ltb_spec x (- 2 ^ 63)); [done|]. destruct (Z.leb_spec (2 ^ 63) x); [done|]. intros [= <-]. lia.
Qed.
Lemma Atoi_error b v : Atoi b = (v, false) -> v = 0 \/ v = - 2 ^ 63 \/ v = 2 ^ 63 - 1.
Proof.
  unfold Atoi. destruct (match b with [] => _ | _ => _ end) as [neg [|c digits]]; [intros [= <-]; auto|].
  destruct (parse_digits _ _) as [w|]; [|intros [= <-]; auto]. set (x := if neg then - w else w).
  destruct (x <? _); [intros [= <-]; auto|]. destruct (_ <=? x); [intros [= <-]; auto|done].
Qed.

(** Tokens are ASCII, so JSON carries them. *)
Definition ascii_byte (c : Ascii.ascii) : Prop := of_byte c < 128.
Lemma ascii_valid b : Forall ascii_byte b -> valid_utf8 b = true.
Proof.
  induction 1 as [|c b Hc Hb IH]; [done|]. cbn [valid_utf8]. unfold ascii_byte in Hc.
  by replace (of_byte c <? 128) with true by lia.
Qed.
Lemma to_byte_ascii v : 0 <= v < 128 -> ascii_byte (to_byte v).
Proof. intros. unfold ascii_byte. rewrite of_to_byte, Z.mod_small; lia. Qed.
Lemma hex_ascii b : Forall ascii_byte (hex_encode b).
Proof.
  induction b as [|c b IH]; [done|]. unfold hex_encode in *. cbn [flat_map app]. pose proof (of_byte_range c).
  assert (forall n, 0 <= n < 16 -> ascii_byte (hex_digit n)) as Hd.
  { intros n Hn. unfold hex_digit. apply to_byte_ascii. destruct (n <? 10); lia. }
  repeat constructor; [apply Hd..|done]; [split; [apply Z.div_pos|apply Z.div_lt_upper_bound]; lia|apply Z.mod_pos_bound; lia].
Qed.
Lemma format_nat_ascii fuel : forall n acc, Forall ascii_byte acc -> Forall ascii_byte (format_nat fuel n acc).
Proof.
  induction fuel as [|fuel IH]; intros n acc Ha; cbn [format_nat]; [done|].
  assert (Forall ascii_byte (digit_char (n mod 10) :: acc)).
  { constructor; [|done]. pose proof (Z.mod_pos_bound n 10 ltac:(lia)). apply to_byte_ascii. lia. }
  destruct (n <? 10); auto.
Qed.
Lemma format_int_ascii n : Forall ascii_byte (format_int n).
Proof.
  unfold format_int. destruct (n <? 0); [constructor; [by apply to_byte_ascii|]|]; by apply format_nat_ascii.
Qed.
Lemma genRev_json prev body : json_string (genRev prev body) = true.
Proof.
  unfold json_string, genRev. rewrite str_bytes_str. apply ascii_valid, Forall_app. split; [apply format_int_ascii|].
  constructor; [by apply to_byte_ascii|apply hex_ascii].
Qed.

(** ** The store underneath *)
Section laws.
Context {St : Type} `{StoreLaws St} `{JsonLaws}.
Implicit Types d : DocDB St.

Definition db_records d : gmap string NellRecord := st_records (db_store d).
Definition db_key d (id : string) : string := record_key (or_default (db_collection d)) id.
Definition db_inv d : Prop := st_inv (db_store d).

Lemma db_key_inj d id1 id2 : db_key d id1 = db_key d id2 -> id1 = id2.
Proof. unfold db_key, record_key. intros He. by apply (inj (String.app _)), (inj (String.app _)) in He. Qed.

Lemma db_put_law r d : db_inv d -> st_put_ok r (db_store d) ->
  exists st, db_put r d = (db_set_store st d, true) /\ st_inv st /\
    st_records st = put_record (db_records d) (normalize r).
Proof.
  intros I Hr. destruct (st_put_law _ r I Hr) as (st & acc & w & He & I' & Hm & _).
  exists st. unfold db_put. by rewrite He.
Qed.
Lemma put_record_ne m r k : rkey r <> k -> put_record m r !! k = m !! k.
Proof. intros Hk. rewrite put_record_lookup. by rewrite decide_False. Qed.
Lemma put_record_wins m r : match m !! rkey r with Some l => beats r l | None => True end -> put_record m r !! rkey r = Some r.
Proof.
  intros Hb. rewrite put_record_lookup, decide_True by done. destruct (m !! rkey r); [|done]. by rewrite lww_beats.
Qed.

Lemma DocDB_Get_law id d : DocDB_Get false id d =
  match db_records d !! db_key d id with
  | Some r => if Deleted r then Err ErrNotFound else Ok (joinDoc id r)
  | None => Err ErrNotFound
  end.
Proof. unfold DocDB_Get. rewrite st_get_law. unfold db_records, db_key. by destruct (_ !! _). Qed.

(** *** Persisting the vector leaves the documents alone *)
Definition observe_ok (now : nat -> Z) (nodeID : string) (clock : HLC) d : Prop :=
  observes nodeID clock d = true ->
  st_put_ok (meta_vector_record now (<[nodeID := clock]> (db_vector d)) d) (db_store d).
Lemma observeVector_law now n c d : db_inv d -> observe_ok now n c d ->
  let d' := observeVector now n c d in
  db_inv d' /\ (forall k, k <> db_key d metaVectorID -> db_records d' !! k = db_records d !! k) /\
  db_revs d' = db_revs d /\ db_collection d' = db_collection d /\ db_nodeID d' = db_nodeID d /\
  db_subs d' = db_subs d /\ db_lastSeenClock d' = db_lastSeenClock d /\
  db_vector d' = if observes n c d then <[n := c]> (db_vector d) else db_vector d.
Proof.
  intros I Ho. unfold observeVector. unfold observe_ok in Ho. destruct (observes n c d); [|done].
  specialize (Ho eq_refl). unfold writeMetaVector. cbn [db_vector db_set_vector].
  set (d1 := db_set_vector (<[n:=c]> (db_vector d)) d).
  change (meta_vector_record now (<[n:=c]> (db_vector d)) d) with (meta_vector_record now (<[n:=c]> (db_vector d)) d1) in Ho.
  destruct (db_put_law _ d1 I Ho) as (st & -> & I' & Hm). cbn [fst]. split_and!; try done.
  intros k Hk. unfold db_records at 1. cbn [db_store db_set_store]. rewrite Hm. apply put_record_ne.
  rewrite rkey_normalize. intros He. by apply Hk.
Qed.

(** *** Put *)
Lemma put_payload_ok doc base : json_object (splitDoc doc) -> exists raw final,
  MarshalObj (splitDoc doc) = Some raw /\ put_payload doc base = Some (genRev base raw, final) /\ final <> [] /\
  UnmarshalObj final = Some (<[FieldRev := VStr (genRev base raw)]> (splitDoc doc)).
Proof.
  intros Hj. unfold put_payload. destruct (Obj_roundtrip _ Hj) as (raw & -> & _ & _). cbn [mbind option_bind].
  assert (json_object (<[FieldRev:=VStr (genRev base raw)]> (splitDoc doc))) as Hj2.
  { apply map_Forall_insert_2; [|done]. split_and!; [done|apply genRev_json|cbn; lia]. }
  destruct (Obj_roundtrip _ Hj2) as (final & -> & Hne & Hu). by exists raw, final.
Qed.

(** The clock [Put] and [Remove] make is above the one it replaces. *)
Definition clock_room (c : HLC) : Prop := - 2 ^ 31 <= Counter c + 1 /\ Counter c + 2 < 2 ^ 31.
Lemma local_clock_gt now0 now1 c : clock_room c ->
  hlc_gt (HLC_Tick now1 (HLC_Update (NewHLC now0) c)) c.
Proof.
  intros Hc. assert (tick_safe c) as Hs by (unfold tick_safe, clock_room in *; lia).
  pose proof (HLC_Update_gt (NewHLC now0) c Hs) as Hu. rewrite HLC_Update_max in * by done.
  eapply hlc_gt_trans; [|exact Hu]. apply HLC_Tick_gt.
  unfold hlc_max. destruct (HLC_GreaterThan _ _); unfold tick_safe, clock_room, hlc_succ, NewHLC in *; cbn [Counter]; [|lia].
  rewrite wrap_s32_id by lia. lia.
Qed.
Lemma beats_clock a b : hlc_gt (Clock a) (Clock b) -> beats a b.
Proof. intros Hg. by left. Qed.

(** The conditions under which [Put]'s two writes do not fail. *)
Definition docput_ok (now : nat -> Z) (doc : Doc) (id newRev : string) (final : bytes) d : Prop :=
  let rec := put_record_of now doc id final d in
  st_put_ok rec (db_store d) /\
  (forall existing, db_records d !! db_key d id = Some existing -> clock_room (Clock existing)) /\
  observe_ok (fun n => now (2 + n)%nat) (db_nodeID d) (Clock rec)
    (db_set_revs (<[id := newRev]> (db_revs d)) (db_set_store (fst (st_Put rec (db_store d))) d)).

Lemma put_commit_law now doc id base newRev final d : db_inv d -> db_collection d <> "" -> isInternalID id = false ->
  put_payload doc base = Some (newRev, final) -> docput_ok now doc id newRev final d ->
  exists d', put_commit now doc id base d = (d', <[FieldRev := VStr newRev]> doc, Ok newRev) /\ db_inv d' /\
    db_records d' !! db_key d id = Some (put_record_of now doc id final d) /\
    (forall k, k <> db_key d id -> k <> db_key d metaVectorID -> db_records d' !! k = db_records d !! k) /\
    db_revs d' = <[id := newRev]> (db_revs d) /\ db_collection d' = db_collection d /\ db_nodeID d' = db_nodeID d /\
    db_subs d' = hub_broadcast (mkChange id newRev (isDeleted doc) (<[FieldRev := VStr newRev]> doc)) (db_subs d).
Proof.
  intros I Hc Hi Hp (Hr & Hroom & Ho). unfold put_commit. rewrite Hp.
  set (rec := put_record_of now doc id final d) in *. destruct (db_put_law rec d I Hr) as (st & He & I' & Hm).
  rewrite He. unfold db_put in He.
  destruct (st_Put rec (db_store d)) as [st' r'] eqn:Hst. injection He as He _. cbn [fst] in Ho.
  subst st'.
  set (d1 := db_set_revs (<[id:=newRev]> (db_revs d)) (db_set_store st d)) in *. cbn [db_revs db_set_store] in *.
  change (db_set_revs (<[id:=newRev]> (db_revs d)) (db_set_store st d)) with d1. cbn [db_nodeID d1 db_set_revs db_set_store].
  destruct (observeVector_law (fun n => now (2 + n)%nat) (db_nodeID d) (Clock rec) d1 I' Ho)
    as (I2 & Hk & Hrv & Hco & Hno & Hsu & _ & _).
  change (db_key d1) with (db_key d) in Hk. change (db_nodeID d1) with (db_nodeID d).
  set (d2 := observeVector _ _ _ d1) in *. eexists. split; [reflexivity|].
  assert (rkey (normalize rec) = db_key d id) as Hkey by (rewrite rkey_normalize; done).
  split_and!; cbn [db_broadcast db_revs db_collection db_nodeID db_subs]; try done.
  - change (db_records d2 !! db_key d id = Some rec). rewrite Hk.
    + unfold db_records at 1. cbn [d1 db_store db_set_revs db_set_store]. rewrite Hm.
      assert (normalize rec = rec) as Hnorm by by apply normalize_id. rewrite Hnorm in *. rewrite <-Hkey. apply put_record_wins.
      rewrite Hkey. destruct (db_records d !! db_key d id) as [ex|] eqn:Hex; [|done].
      apply beats_clock. unfold rec, put_record_of, put_clock. cbn [Clock]. rewrite st_get_law. fold (db_key d id).
      change (st_records (db_store d)) with (db_records d). rewrite Hex. apply local_clock_gt. by apply Hroom.
    + intros Heq%db_key_inj. by subst id.
  - intros k Hk1 Hk2. change (db_records d2 !! k = db_records d !! k). rewrite Hk by done.
    unfold db_records at 1. cbn [d1 db_store db_set_revs db_set_store]. rewrite Hm. apply put_record_ne. by rewrite Hkey.
  - by rewrite Hsu.
Qed.

(** The record of the vector after an observation: the old one, or the new vector's. *)
Lemma observeVector_meta now n c d x : db_inv d -> observe_ok now n c d ->
  db_records (observeVector now n c d) !! db_key d metaVectorID = Some x ->
  db_records d !! db_key d metaVectorID = Some x \/ x = normalize (meta_vector_record now (<[n := c]> (db_vector d)) d).
Proof.
  intros I Ho. unfold observeVector. unfold observe_ok in Ho. destruct (observes n c d); [|by left].
  specialize (Ho eq_refl). unfold writeMetaVector. cbn [db_vector db_set_vector].
  set (d1 := db_set_vector (<[n:=c]> (db_vector d)) d).
  change (meta_vector_record now (<[n:=c]> (db_vector d)) d) with (meta_vector_record now (<[n:=c]> (db_vector d)) d1) in *.
  destruct (db_put_law _ d1 I Ho) as (st & -> & _ & Hm). cbn [fst]. unfold db_records at 1. cbn [db_store db_set_store]. rewrite Hm, put_record_lookup.
  case_decide as Hk; [|by left]. intros [= <-]. destruct (db_records d1 !! _) as [l|] eqn:Hl; [|by right].
  unfold lww. destruct (ResolveConflict l _); [by left|by right].
Qed.
Lemma put_commit_meta now doc id base newRev final d : db_inv d -> db_collection d <> "" -> isInternalID id = false ->
  put_payload doc base = Some (newRev, final) -> docput_ok now doc id newRev final d ->
  let d' := fst (fst (put_commit now doc id base d)) in
  (forall n, n <> db_nodeID d -> db_vector d' !! n = db_vector d !! n) /\
  forall x, db_records d' !! db_key d metaVectorID = Some x -> db_records d !! db_key d metaVectorID = Some x \/
    x = meta_vector_record (fun n => now (2 + n)%nat) (<[db_nodeID d := put_clock now id d]> (db_vector d)) d.
Proof.
  intros I Hc Hi Hp (Hr & _ & Ho). unfold put_commit. rewrite Hp. set (rec := put_record_of now doc id final d) in *.
  destruct (db_put_law rec d I Hr) as (st & He & I' & Hm). rewrite He. unfold db_put in He.
  destruct (st_Put rec (db_store d)) as [st' r'] eqn:Hst. injection He as He _. cbn [fst] in Ho. subst st'. cbn [fst].
  change (db_revs (db_set_store st d)) with (db_revs d). set (d1 := db_set_revs _ _) in *. change (db_nodeID d1) with (db_nodeID d). split.
  - intros n Hn. cbn [db_vector db_broadcast]. destruct (observeVector_law _ _ _ d1 I' Ho) as (_ & _ & _ & _ & _ & _ & _ & ->).
    destruct (observes _ _ d1); [by rewrite lookup_insert_ne|done].
  - intros x Hx. apply (observeVector_meta _ _ _ d1 x I' Ho) in Hx as [Hx| ->].
    + left. unfold db_records in Hx at 1. cbn [d1 db_store db_set_revs db_set_store] in Hx. rewrite Hm, put_record_ne in Hx; [done|].
      rewrite rkey_normalize. intros Heq%(db_key_inj d id metaVectorID). by subst id.
    + right. by apply normalize_id.
Qed.

(** A document as it comes back from the store. *)
Lemma joinDoc_stored now doc id newRev final d :
  UnmarshalObj final = Some (<[FieldRev := VStr newRev]> (splitDoc doc)) -> final <> [] ->
  let got := joinDoc id (put_record_of now doc id final d) in
  got !! FieldID = Some (VStr id) /\ got !! FieldRev = Some (VStr newRev) /\
  (forall k, k ∉ [FieldID; FieldRev; FieldDeleted; FieldType; FieldVector] -> got !! k = doc !! k) /\
  got !! FieldType = (if bool_decide (doc_type doc = "") || bool_decide (doc_type doc = TypeText)
                      then None else Some (VStr (doc_type doc))) /\
  got !! FieldVector = (if 0 <? len (doc_vector doc) then Some (VF32s (doc_vector doc)) else None).
Proof.
  intros Hu Hne. unfold joinDoc. cbn [put_record_of Type_ Vector Payload].
  replace (len final =? 0) with false by (destruct final; [done|by cbn]). rewrite Hu.
  set (out := if 0 <? len (doc_vector doc) then _ else _).
  assert (out !! FieldID = Some (VStr id) /\ (forall k, k ∉ [FieldID; FieldType; FieldVector] -> out !! k = None) /\
    out !! FieldType = (if bool_decide (doc_type doc = "") || bool_decide (doc_type doc = TypeText)
                        then None else Some (VStr (doc_type doc))) /\
    out !! FieldVector = (if 0 <? len (doc_vector doc) then Some (VF32s (doc_vector doc)) else None)) as (Ho1 & Ho2 & Ho3 & Ho4).
  { unfold out. destruct (0 <? _), (bool_decide (doc_type doc = "")), (bool_decide (doc_type doc = TypeText)); cbn [negb andb orb];
      (split_and!; [reflexivity| |reflexivity..]); intros k Hk; rewrite !not_elem_of_cons in Hk;
      destruct Hk as (? & ? & ? & _); by rewrite ?lookup_insert_ne, ?lookup_singleton_ne by congruence. }
  clearbody out.
  set (body := <[FieldRev:=VStr newRev]> (splitDoc doc)). set (m := body ∪ out).
  assert (m !! FieldRev = Some (VStr newRev)) as Hrev.
  { apply lookup_union_Some_l. apply lookup_insert_eq. }
  rewrite Hrev. split_and!; [|done|..].
  - unfold m. rewrite lookup_union_r; [done|]. by unfold body, splitDoc; simplify_map_eq.
  - intros k Hk. rewrite !not_elem_of_cons in Hk. destruct Hk as (? & ? & ? & ? & ? & _).
    unfold m. rewrite lookup_union, Ho2 by set_solver. trans (body !! k); [by destruct (body !! k)|]. unfold body, splitDoc.
    by rewrite lookup_insert_ne, !lookup_delete_ne by congruence.
  - unfold m. rewrite lookup_union_r; [done|]. by unfold body, splitDoc; simplify_map_eq.
  - unfold m. rewrite lookup_union_r; [done|]. by unfold body, splitDoc; simplify_map_eq.
Qed.

(** *** Remove *)
Definition remove_ok (now : nat -> Z) (id newRev : string) d : Prop :=
  let rec := remove_record now id d in
  st_put_ok rec (db_store d) /\
  (forall existing, db_records d !! db_key d id = Some existing -> clock_room (Clock existing)) /\
  observe_ok (fun n => now (3 + n)%nat) (db_nodeID d) (Clock rec)
    (db_set_revs (<[id := newRev]> (db_revs d)) (db_set_store (fst (st_Put rec (db_store d))) d)).

Lemma remove_record_key now id d : db_inv d -> db_collection d <> "" ->
  rkey (remove_record now id d) = db_key d id /\ normalize (remove_record now id d) = remove_record now id d.
Proof.
  intros I Hc. unfold remove_record. rewrite st_get_law. fold (db_key d id).
  destruct (st_records (db_store d) !! db_key d id) as [ex|] eqn:Hex.
  - pose proof (st_keyed _ I _ _ Hex) as Hk. pose proof (st_colls _ I _ _ Hex) as [_ Hne]. split; [done|].
    by apply normalize_id.
  - split; [|by apply normalize_id]. unfold rkey, db_key. cbn [Collection ID]. by rewrite or_default_id.
Qed.

Lemma remove_commit_law now id base d : db_inv d -> db_collection d <> "" -> isInternalID id = false ->
  let newRev := genRev base [] in
  remove_ok now id newRev d ->
  exists d', remove_commit now id base d = (d', Ok newRev) /\ db_inv d' /\
    db_records d' !! db_key d id = Some (remove_record now id d) /\
    (forall k, k <> db_key d id -> k <> db_key d metaVectorID -> db_records d' !! k = db_records d !! k) /\
    db_revs d' = <[id := newRev]> (db_revs d) /\ db_collection d' = db_collection d /\ db_nodeID d' = db_nodeID d.
Proof.
  intros I Hc Hi newRev (Hr & Hroom & Ho). unfold remove_commit.
  set (rec := remove_record now id d) in *. destruct (db_put_law rec d I Hr) as (st & He & I' & Hm).
  rewrite He. unfold db_put in He.
  destruct (st_Put rec (db_store d)) as [st' r'] eqn:Hst. injection He as He _. cbn [fst] in Ho.
  subst st'.
  set (d1 := db_set_revs (<[id:=newRev]> (db_revs d)) (db_set_store st d)) in *. cbn [db_revs db_set_store] in *.
  change (db_set_revs (<[id:=newRev]> (db_revs d)) (db_set_store st d)) with d1. cbn [db_nodeID d1 db_set_revs db_set_store].
  destruct (observeVector_law (fun n => now (3 + n)%nat) (db_nodeID d) (Clock rec) d1 I' Ho)
    as (I2 & Hk & Hrv & Hco & Hno & _).
  change (db_key d1) with (db_key d) in Hk. change (db_nodeID d1) with (db_nodeID d).
  set (d2 := observeVector _ _ _ d1) in *. eexists. split; [reflexivity|].
  destruct (remove_record_key now id d I Hc) as [Hkey Hnorm]. fold rec in Hkey, Hnorm. rewrite Hnorm in Hm.
  split_and!; cbn [db_broadcast db_revs db_collection db_nodeID]; try done.
  - change (db_records d2 !! db_key d id = Some rec). rewrite Hk.
    + unfold db_records at 1. cbn [d1 db_store db_set_revs db_set_store]. rewrite Hm, <-Hkey. apply put_record_wins.
      rewrite Hkey. destruct (db_records d !! db_key d id) as [ex|] eqn:Hex; [|done].
      apply beats_clock. unfold rec, remove_record. cbn [Clock]. rewrite st_get_law. fold (db_key d id).
      change (st_records (db_store d)) with (db_records d). rewrite Hex. apply local_clock_gt. by apply Hroom.
    + intros Heq%db_key_inj. by subst id.
  - intros k Hk1 Hk2. change (db_records d2 !! k = db_records d !! k). rewrite Hk by done.
    unfold db_records at 1. cbn [d1 db_store db_set_revs db_set_store]. rewrite Hm. apply put_record_ne. by rewrite Hkey.
Qed.
(** By its id a document is removed whatever its revision. *)
Lemma Remove_ById now id d : id <> "" -> Remove now false (ById id) d = remove_commit now id (default "" (db_revs d !! id)) d.
Proof.
  intros Hid. unfold Remove. cbn [remove_target]. rewrite bool_decide_false by done. change (bool_decide ("" = "")) with true. cbn [negb andb].
  by destruct (db_revs d !! id).
Qed.
Lemma Remove_law now id d : db_inv d -> db_collection d <> "" -> isInternalID id = false -> id <> "" ->
  let newRev := genRev (default "" (db_revs d !! id)) [] in
  remove_ok now id newRev d ->
  exists d', Remove now false (ById id) d = (d', Ok newRev) /\ db_inv d' /\
    db_records d' !! db_key d id = Some (remove_record now id d) /\
    (forall k, k <> db_key d id -> k <> db_key d metaVectorID -> db_records d' !! k = db_records d !! k) /\
    db_revs d' = <[id := newRev]> (db_revs d) /\ db_collection d' = db_collection d /\ db_nodeID d' = db_nodeID d.
Proof. intros I Hc Hi Hid newRev Hok. rewrite Remove_ById by done. by apply remove_commit_law. Qed.
End laws.

(** A batch, by an invariant of its documents' puts. *)
Section batch.
Context {St : Type} `{StoreOps St, Json}.
Variables (now : nat -> nat -> Z) (hp0 : gmap nat Doc) (docs : list nat) (P : nat -> DocDB St -> Prop).
Hypotheses (Hnd : NoDup docs)
  (Hput : forall j l d, docs !! j = Some l -> P j d ->
    exists d' doc' rev, DocDB_Put (now j) false (default ∅ (hp0 !! l)) d = (d', doc', Ok rev) /\ P (S j) d').
Lemma putmany_loop_rule docs1 docs2 : docs = docs1 ++ docs2 -> forall results hp d,
  (forall l, l ∈ docs2 -> hp !! l = hp0 !! l) -> P (length docs1) d ->
  exists d' hp' revs, putmany_loop now (fun _ => false) (length docs1) docs2 results hp d = (d', hp', Ok (results ++ revs)) /\
    P (length docs) d' /\ length revs = length docs2.
Proof.
  revert docs1. induction docs2 as [|l docs2 IH]; intros docs1 He results hp d Hhp HP; cbn [putmany_loop].
  - exists d, hp, []. rewrite app_nil_r. split_and!; [done| |done]. by rewrite He, app_nil_r.
  - rewrite Hhp by left. destruct (Hput (length docs1) l d) as (d1 & doc' & rev & -> & HP1); [|done|].
    { rewrite He, lookup_app_r, Nat.sub_diag; done. }
    replace (S (length docs1)) with (length (docs1 ++ [l])) in * by (rewrite length_app; cbn; lia).
    destruct (IH (docs1 ++ [l]) ltac:(by rewrite <-app_assoc) (results ++ [rev]) (<[l := doc']> hp) d1) as (d' & hp' & revs & -> & HP' & Hl).
    + intros l' Hl'. rewrite lookup_insert_ne; [apply Hhp; by right|]. intros ->. rewrite He in Hnd.
      apply NoDup_app in Hnd as (_ & _ & Hnd2). by inversion_clear Hnd2.
    + done.
    + exists d', hp', (rev :: revs). rewrite <-app_assoc. cbn [app length]. by rewrite Hl.
Qed.
Lemma PutMany_rule d : P 0 d -> exists d' hp' revs,
  PutMany now (fun _ => false) docs hp0 d = (d', hp', Ok revs) /\ P (length docs) d' /\ length revs = length docs.
Proof.
  intros HP. unfold PutMany. destruct (putmany_loop_rule [] docs eq_refl [] hp0 d ltac:(done) HP) as (d' & hp' & revs & He & ? & ?).
  exists d', hp', revs. cbn [length] in He. by rewrite He.
Qed.
End batch.

(** ** Properties *)

(** The conditions under which [Put] of a checked document does not fail in the store. *)
Definition write_ok {St} `{StoreLaws St} `{Json} (now : nat -> Z) (doc : Doc) (d : DocDB St) : Prop :=
  forall id base newRev final, put_check doc d = Ok (id, base) -> put_payload doc base = Some (newRev, final) ->
    docput_ok now doc id newRev final d.

(** C17. What is put is what is got: a document whose body JSON can carry, put with the
    current revision or none, is stored under a new revision of its body, which is
    returned and stamped into the caller's map; reading the id then gives every field
    the application set, the id and the new revision, with the type and the vector where
    they are not the defaults; a document put with [_deleted] reads as not found; every
    other document reads as before. *)
Theorem DocDB_Put_Get {St} `{StoreLaws St} `{JsonLaws} now doc (d : DocDB St) id base :
  db_inv d -> db_collection d <> "" -> json_object (splitDoc doc) -> isInternalID id = false ->
  put_check doc d = Ok (id, base) -> write_ok now doc d ->
  let '(d', doc', r) := DocDB_Put now false doc d in
  exists raw, MarshalObj (splitDoc doc) = Some raw /\ let newRev := genRev base raw in
  r = Ok newRev /\ doc' = <[FieldRev := VStr newRev]> doc /\ db_revs d' !! id = Some newRev /\
  (if isDeleted doc then DocDB_Get false id d' = Err ErrNotFound else
   exists got, DocDB_Get false id d' = Ok got /\
     got !! FieldID = Some (VStr id) /\ got !! FieldRev = Some (VStr newRev) /\
     (forall k, k ∉ [FieldID; FieldRev; FieldDeleted; FieldType; FieldVector] -> got !! k = doc !! k) /\
     got !! FieldType = (if bool_decide (doc_type doc = "") || bool_decide (doc_type doc = TypeText)
                         then None else Some (VStr (doc_type doc))) /\
     got !! FieldVector = (if 0 <? len (doc_vector doc) then Some (VF32s (doc_vector doc)) else None)) /\
  (forall id', id' <> id -> id' <> metaVectorID -> DocDB_Get false id' d' = DocDB_Get false id' d).
Proof.
  intros I Hc Hj Hi Hchk Hok. unfold DocDB_Put. rewrite Hchk.
  destruct (put_payload_ok doc base Hj) as (raw & final & Hm & Hp & Hne & Hu).
  destruct (put_commit_law now doc id base _ final d I Hc Hi Hp (Hok _ _ _ _ Hchk Hp))
    as (d' & -> & I' & Hrec & Hoth & Hrevs & Hcol & _).
  exists raw. split; [done|]. cbv zeta. assert (forall i, db_key d' i = db_key d i) as Hkey by (intros; unfold db_key; by rewrite Hcol).
  split_and!; [done|done|by rewrite Hrevs, lookup_insert_eq| |].
  - rewrite !DocDB_Get_law, !Hkey, Hrec. cbn [put_record_of Deleted]. destruct (isDeleted doc); [done|].
    eexists. split; [reflexivity|]. by apply joinDoc_stored.
  - intros id' Hne1 Hne2. rewrite !DocDB_Get_law, !Hkey, Hoth; [done|intros ?%db_key_inj; congruence..].
Qed.
Definition demo_db : DocDB MemoryStore := New (NewMemoryStore 0 "n") "n" "".
Definition demo_doc : Doc := list_to_map [(FieldID, VStr "a"); ("title", VStr "x")].
Definition demo_times : nat -> Z := fun n => 100 + Z.of_nat n.
Lemma demo_write_ok : write_ok demo_times demo_doc demo_db.
Proof.
  intros id base newRev final Hc Hp. vm_compute in Hc. injection Hc as <- <-. split_and!.
  - split; [|apply (bool_decide_unpack (colon_free _)); by vm_compute].
    change (tick_safe (put_clock demo_times "a" demo_db)). vm_compute. split; [discriminate|done].
  - intros existing He. by vm_compute in He.
  - intros _. split; [|apply (bool_decide_unpack (colon_free _)); by vm_compute].
    cbn [put_record_of Clock meta_vector_record meta_record]. vm_compute. split; [discriminate|done].
Qed.
Lemma DocDB_Put_Get_witness :
  exists d' doc' rev got, DocDB_Put demo_times false demo_doc demo_db = (d', doc', Ok rev) /\
    DocDB_Get false "a" d' = Ok got /\ got !! "title" = Some (VStr "x") /\ got !! FieldRev = Some (VStr rev).
Proof.
  assert (db_inv demo_db) as I by apply NewMemoryStore_inv.
  assert (json_object (splitDoc demo_doc)) as Hj.
  { apply (bool_decide_unpack (json_object _)). by vm_compute. }
  pose proof (DocDB_Put_Get demo_times demo_doc demo_db "a" "" I ltac:(discriminate) Hj eq_refl ltac:(by vm_compute) demo_write_ok) as Hput.
  destruct (DocDB_Put demo_times false demo_doc demo_db) as [[d' doc'] r].
  destruct Hput as (raw & _ & -> & _ & _ & (got & Hg & _ & Hr & Hk & _) & _).
  exists d', doc', (genRev "" raw), got. split_and!; [done|done| |done].
  change (isDeleted demo_doc) with false in *. rewrite Hk; [by vm_compute|].
  apply (bool_decide_unpack (_ ∉ _)). by vm_compute.
Defined.

Lemma put_commit_err {St} `{StoreOps St} `{Json} now doc id base (d : DocDB St) d' doc' e :
  put_commit now doc id base d = (d', doc', Err e) -> (e = ErrMarshal \/ e = ErrStore) /\ doc' = doc.
Proof.
  unfold put_commit. destruct (put_payload doc base) as [[newRev final]|]; [|intros [= _ <- <-]; auto].
  destruct (db_put _ d) as [d1 []]; [done|intros [= _ <- <-]; auto].
Qed.

(** C27. Optimistic concurrency: [Put] refuses a document exactly when it has no id, or
    carries a revision where the database has none or another for that id (an empty
    cached revision matches any); then it changes nothing, neither the database nor the
    caller's map.  Otherwise it continues from the current revision. *)
Theorem DocDB_Put_conflict {St} `{StoreOps St} `{Json} now doc (d : DocDB St) :
  let id := string_field FieldID doc in
  let rev := string_field FieldRev doc in
  let stale := rev <> "" /\ match db_revs d !! id with None => True | Some cur => cur <> "" /\ cur <> rev end in
  (id = "" -> DocDB_Put now false doc d = (d, doc, Err ErrMissingID)) /\
  (id <> "" -> stale -> DocDB_Put now false doc d = (d, doc, Err ErrConflict)) /\
  (id <> "" -> ~ stale ->
    put_check doc d = Ok (id, if bool_decide (rev = "") then default "" (db_revs d !! id) else rev) /\
    forall d' doc' e, DocDB_Put now false doc d = (d', doc', Err e) -> (e = ErrMarshal \/ e = ErrStore) /\ doc' = doc).
Proof.
  intros id rev stale. assert (put_check doc d =
    if bool_decide (id = "") then Err ErrMissingID else
    if bool_decide (rev = "") then Ok (id, default "" (db_revs d !! id)) else
    match db_revs d !! id with
    | None => Err ErrConflict
    | Some cur => if bool_decide (cur = "") || bool_decide (cur = rev) then Ok (id, rev) else Err ErrConflict
    end) as Hchk.
  { unfold put_check. fold id rev. destruct (bool_decide (id = "")) eqn:Hid; [done|].
    destruct (bool_decide_reflect (rev = "")) as [Hr|Hr]; destruct (db_revs d !! id) as [cur|] eqn:Hcur; cbn [default from_option negb andb].
    - by rewrite (bool_decide_true (is_Some _)) by done.
    - rewrite (bool_decide_false (is_Some _)) by (by intros [? [=]]). cbn. by rewrite ?Hr.
    - rewrite (bool_decide_true (is_Some _)) by done.
      replace (bool_decide (rev = cur)) with (bool_decide (cur = rev)) by (apply bool_decide_ext; split; congruence). unfold Datatypes.id.
      by destruct (bool_decide (cur = "")), (bool_decide (cur = rev)).
    - rewrite (bool_decide_false (is_Some _)) by by intros [? [=]]. done. }
  unfold DocDB_Put. rewrite Hchk. subst stale. split_and!.
  - intros He. by rewrite bool_decide_true.
  - intros Hne [Hr Hm]. rewrite !bool_decide_false by done. destruct (db_revs d !! id) as [cur|]; [|done].
    destruct Hm. by rewrite !bool_decide_false.
  - intros Hne Hm. rewrite (bool_decide_false (id = "")) by done.
    destruct (bool_decide_reflect (rev = "")) as [Hr|Hr].
    + split; [done|]. apply put_commit_err.
    + destruct (db_revs d !! id) as [cur|]; [|by destruct Hm].
      destruct (bool_decide_reflect (cur = "")) as [|Hc1]; [|destruct (bool_decide_reflect (cur = rev)) as [|Hc2]; [|by destruct Hm]];
        cbn [orb]; (split; [done|apply put_commit_err]).
Qed.

(** Generations count up: a revision made from one whose generation is a positive int
    below the largest has the next generation, one made from nothing or from a token
    without a positive generation has generation 1; a token is never empty. *)
Theorem genRev_generation prev body :
  genRev prev body <> "" /\
  (0 < parseGen prev < 2 ^ 63 - 1 -> parseGen (genRev prev body) = parseGen prev + 1) /\
  (parseGen prev <= 0 -> parseGen (genRev prev body) = 1).
Proof.
  split; [apply genRev_nonempty|]. unfold genRev, parseGen at 1 2 4 5.
  destruct (bool_decide_reflect (prev = "")) as [Hp|Hp].
  - split; [lia|]. intros _. by apply (parseGen_token 1).
  - destruct (Atoi _) as [g ok] eqn:Ha. cbn [fst]. split; intros Hg.
    + destruct ok.
      * cbn [andb]. replace (0 <? g) with true by lia. rewrite wrap_s_id by (unfold in_s; lia). by apply parseGen_token; lia.
      * apply Atoi_error in Ha. lia.
    + replace (ok && (0 <? g)) with false by (destruct ok; cbn; lia). by apply (parseGen_token 1).
Qed.

(** ** The revision cache, as opening a store makes it *)
Section opening.
Context {St : Type} `{StoreLaws St} `{JsonLaws}.
Implicit Types d : DocDB St.

(** The revision a stored record carries. *)
Definition rev_of (r : NellRecord) : string := default "1-imported" (readRev r).
Lemma put_check_id doc d id base : put_check doc d = Ok (id, base) -> id = string_field FieldID doc /\ id <> "".
Proof. unfold put_check. destruct (bool_decide_reflect (string_field FieldID doc = "")); [done|]. repeat case_match; by intros [= <- _]. Qed.

Lemma reindex_revs_elem all r : (forall x y, x ∈ all -> y ∈ all -> ID x = ID y -> x = y) -> r ∈ all ->
  reindex_revs all !! ID r = Some (rev_of r).
Proof.
  unfold reindex_revs. induction all as [|x all IH] using rev_ind; intros Hu; [by intros ?%not_elem_of_nil|].
  rewrite elem_of_app, list_elem_of_singleton, foldl_app. cbn [foldl].
  destruct (decide (ID x = ID r)) as [He|Hne].
  - intros Hr. assert (x = r) as -> by (apply Hu; set_solver). apply lookup_insert_eq.
  - intros [Hr|<-]; [|done]. rewrite lookup_insert_ne by done. apply IH; [|done].
    intros a b Ha Hb. apply Hu; set_solver.
Qed.
Lemma New_fields store node coll :
  let d := New store node coll in
  db_store d = store /\ db_collection d = or_default coll /\ db_revs d = reindex_revs (st_List (or_default coll) store).
Proof. unfold New, reindex. by destruct (readMetaVector _). Qed.

End opening.

(** Removing a document: it reads as not found afterwards, whatever was there before;
    its record stays in the store as a tombstone with the content it had and a stamp
    that beats it, so that peers learn of the deletion; every other document reads as
    before; a revision that is not the current one is refused with nothing changed. *)
Theorem DocDB_Remove_Get {St} `{StoreLaws St} `{JsonLaws} now id (d : DocDB St) :
  db_inv d -> db_collection d <> "" -> isInternalID id = false -> id <> "" ->
  remove_ok now id (genRev (default "" (db_revs d !! id)) []) d ->
  let '(d', r) := Remove now false (ById id) d in
  r = Ok (genRev (default "" (db_revs d !! id)) []) /\ DocDB_Get false id d' = Err ErrNotFound /\
  (exists t, db_records d' !! db_key d id = Some t /\ Deleted t = true /\ UpdatedBy t = db_nodeID d /\
    forall r, db_records d !! db_key d id = Some r ->
      beats t r /\ Payload t = Payload r /\ Vector t = Vector r /\ Type_ t = Type_ r) /\
  (forall id', id' <> id -> id' <> metaVectorID -> DocDB_Get false id' d' = DocDB_Get false id' d) /\
  (forall doc cur, string_field FieldID doc = id -> db_revs d !! id = Some cur -> cur <> "" ->
    string_field FieldRev doc <> "" -> string_field FieldRev doc <> cur ->
    Remove now false (ByDoc doc) d = (d, Err ErrConflict)).
Proof.
  intros I Hc Hi Hne Hok. destruct (Remove_law now id d I Hc Hi Hne Hok) as (d' & -> & I' & Hrec & Hoth & _ & Hcol & _).
  assert (forall i, db_key d' i = db_key d i) as Hkey by (intros; unfold db_key; by rewrite Hcol).
  split_and!; [done|by rewrite DocDB_Get_law, Hkey, Hrec| | |].
  - exists (remove_record now id d). split_and!; [done..|]. intros r Hr. unfold remove_record.
    rewrite st_get_law. fold (db_key d id). unfold db_records in Hr. rewrite Hr. split_and!; [|done..].
    apply beats_clock. cbn [Clock]. apply local_clock_gt. destruct Hok as (_ & Hroom & _). by apply Hroom.
  - intros id' H1' H2'. rewrite !DocDB_Get_law, !Hkey, Hoth; [done|intros ?%db_key_inj; congruence..].
  - intros doc cur Hid Hcur Hcn Hrn Hrc. unfold Remove. cbn [remove_target]. rewrite Hid, Hcur, bool_decide_false by done.
    change (default "" (Some cur)) with cur. by rewrite !bool_decide_false by done.
Qed.
Lemma demo_remove_ok : remove_ok demo_times "a" (genRev (default "" (db_revs demo_db !! "a")) []) demo_db.
Proof.
  split_and!.
  - split; [|apply (bool_decide_unpack (colon_free _)); by vm_compute]. vm_compute. split; [discriminate|done].
  - intros existing He. by vm_compute in He.
  - intros _. split; [|apply (bool_decide_unpack (colon_free _)); by vm_compute].
    vm_compute. split; [discriminate|done].
Qed.
Lemma DocDB_Remove_Get_witness :
  exists d' rev, Remove demo_times false (ById "a") demo_db = (d', Ok rev) /\ DocDB_Get false "a" d' = Err ErrNotFound.
Proof.
  pose proof (DocDB_Remove_Get demo_times "a" demo_db (NewMemoryStore_inv _ _) ltac:(discriminate) eq_refl
    ltac:(discriminate) demo_remove_ok) as Hr.
  destruct (Remove demo_times false (ById "a") demo_db) as [d' r]. destruct Hr as (-> & Hg & _).
  exists d'. eexists. split; [reflexivity|exact Hg].
Defined.

(** ** Where the code does not keep what it means to *)

(** A failed batch leaves the cache behind the store: [PutMany] writes ["a"] and then
    fails on a document without an id; the revision cache is rolled back, the store is
    not, and afterwards the document that [Get] returns cannot be put back: its
    revision, the stored one, is refused as a conflict. *)
Theorem PutMany_rollback_conflict :
  let d0 := fst (fst (DocDB_Put demo_times false demo_doc demo_db)) in
  let docs : gmap nat Doc := list_to_map [(0%nat, list_to_map [(FieldID, VStr "a"); ("title", VStr "y")]); (1%nat, ∅)] in
  let '(d, _, r) := PutMany (fun i n => 200 + 10 * Z.of_nat i + Z.of_nat n) (fun _ => false) [0%nat; 1%nat] docs d0 in
  r = Err ErrMissingID /\
  exists doc, DocDB_Get false "a" d = Ok doc /\ doc !! "title" = Some (VStr "y") /\
    DocDB_Put demo_times false doc d = (d, doc, Err ErrConflict).
Proof.
  set (d0 := fst (fst (DocDB_Put demo_times false demo_doc demo_db))).
  cbv zeta. set (docs := (list_to_map _ : gmap nat Doc)).
  destruct (PutMany _ _ _ docs d0) as [[d hp] r] eqn:Hp.
  assert (match PutMany (fun i n => 200 + 10 * Z.of_nat i + Z.of_nat n) (fun _ => false) [0%nat; 1%nat] docs d0 with
    | (d, _, Err ErrMissingID) =>
        match DocDB_Get false "a" d with
        | Ok doc => bool_decide (doc !! "title" = Some (VStr "y")) &&
            match put_check doc d with Err ErrConflict => true | _ => false end
        | _ => false end
    | _ => false end = true) as Hc by (vm_compute; reflexivity).
  rewrite Hp in Hc. destruct r as [|[]|]; try discriminate Hc. split; [done|].
  destruct (DocDB_Get false "a" d) as [doc| |]; try discriminate Hc.
  apply andb_true_iff in Hc as [Ht Hc]. apply bool_decide_eq_true in Ht. exists doc. split_and!; [done..|].
  unfold DocDB_Put. destruct (put_check doc d) as [|[]|]; by try discriminate Hc.
Qed.

Definition race_db : DocDB MemoryStore := fst (fst (DocDB_Put demo_times false demo_doc demo_db)).
Definition race_rev : string := default "" (db_revs race_db !! "a").
Definition race_doc (n : string) : Doc := list_to_map [(FieldID, VStr "a"); (FieldRev, VStr race_rev); ("n", VStr n)].
Definition race : res doc_err (string * string) * res doc_err (string * string) * res doc_err string * res doc_err string * res doc_err Doc :=
  let c1 := put_check (race_doc "1") race_db in
  let c2 := put_check (race_doc "2") race_db in
  let '(d1, _, r1) := put_commit (fun n => 200 + Z.of_nat n) (race_doc "1") "a" race_rev race_db in
  let '(d2, _, r2) := put_commit (fun n => 300 + Z.of_nat n) (race_doc "2") "a" race_rev d1 in
  (c1, c2, r1, r2, DocDB_Get false "a" d2).
(** The revision check and the write are separate: two writers that read the same
    document and put it back with the same revision are both accepted when both checks
    run before either write, and the first one's change is lost. *)
Theorem Put_lost_update : exists rev1 rev2 doc,
  race = (Ok ("a", race_rev), Ok ("a", race_rev), Ok rev1, Ok rev2, Ok doc) /\ doc !! "n" = Some (VStr "2").
Proof.
  assert (match race with
    | (Ok p1, Ok p2, Ok _, Ok _, Ok doc) => bool_decide (p1 = ("a", race_rev) /\ p2 = ("a", race_rev) /\ doc !! "n" = Some (VStr "2"))
    | _ => false end = true) as Hc by (vm_compute; reflexivity).
  destruct race as [[[[[p1| |] [p2| |]] [r1| |]] [r2| |]] [doc| |]]; try discriminate Hc.
  apply bool_decide_eq_true in Hc as (-> & -> & Hn). by exists r1, r2, doc.
Qed.

(** ** AllDocs *)

Lemma omap_concat {X Y} (f : X -> option Y) (ls : list (list X)) : concat (map (omap f) ls) = omap f (concat ls).
Proof. induction ls as [|l ls IH]; [done|]. cbn [map concat]. by rewrite omap_app, IH. Qed.
Lemma AllDocs_rows {St} `{StoreOps St} `{Json} numCPU rng (d : DocDB St) result :
  (0 < numCPU)%nat -> Keys rng = [] -> AllDocs numCPU rng d result ->
  exists rows, rows ≡ₚ omap (range_row rng d) (st_List (db_collection d) (db_store d)) /\
    result = Ok (mkResult (len rows) 0 (page (Skip rng) (Limit rng) rows)).
Proof.
  intros Hn Hk [Hk'|all arrived _ Hall Harr rows]; [done|]. exists rows. split; [|done].
  unfold rows. rewrite Harr, omap_concat, chunks_concat_aux; [by rewrite Hall|].
  unfold scan_workers. destruct (_ <? _); lia.
Qed.
Lemma page_length skip limit (rows : list DocRow) :
  len (page skip limit rows) =
    let n := Z.max 0 (len rows - Z.max 0 skip) in if 0 <? limit then Z.min limit n else n.
Proof.
  unfold page. set (rows1 := if 0 <? skip then _ else _).
  assert (len rows1 = Z.max 0 (len rows - Z.max 0 skip)) as Hl.
  { unfold rows1. destruct (Z.ltb_spec 0 skip); [|unfold len; lia]. destruct (Z.leb_spec (len rows) skip); unfold len in *; [cbn; lia|].
    rewrite length_drop. lia. }
  cbn zeta. rewrite <-Hl. destruct (Z.ltb_spec 0 limit); cbn [andb]; [|done].
  destruct (Z.ltb_spec limit (len rows1)); unfold len in *; [rewrite length_take|]; lia.
Qed.
Lemma page_sub skip limit (rows : list DocRow) row : row ∈ page skip limit rows -> row ∈ rows.
Proof.
  unfold page. intros Hr. assert (row ∈ (if 0 <? skip then if len rows <=? skip then [] else drop (Z.to_nat skip) rows else rows)) as Hr'.
  { destruct ((0 <? limit) && _); [|done]. by apply elem_of_take in Hr as (i & Hi & _); eapply list_elem_of_lookup_2. }
  destruct (0 <? skip); [|done]. destruct (len rows <=? skip); [by apply not_elem_of_nil in Hr'|].
  apply list_elem_of_lookup in Hr' as [i Hi]. rewrite lookup_drop in Hi. by eapply list_elem_of_lookup_2.
Qed.

(** What the scan goes through, and the rows it makes. *)
Lemma stored_in {St} `{StoreLaws St} (d : DocDB St) : db_inv d -> coll_ok (db_collection d) ->
  NoDup (ID <$> st_List (db_collection d) (db_store d)) /\
  forall rec, rec ∈ st_List (db_collection d) (db_store d) <-> Deleted rec = false /\ db_records d !! db_key d (ID rec) = Some rec.
Proof.
  intros I [Hcf Hne]. destruct (st_listall_law (db_collection d) _ I) as [Hnd Hl].
  assert (forall rec, rec ∈ st_List (db_collection d) (db_store d) <-> Deleted rec = false /\ db_records d !! db_key d (ID rec) = Some rec) as Hin.
  { intros rec. rewrite st_list_law, list_elem_of_filter, Hl. unfold db_records, db_key, rkey. rewrite or_default_id by done.
    split; [by intros (? & ? & Hc); rewrite Hc in *|]. intros [Hd Hr]. split; [done|].
    pose proof (st_keyed _ I _ _ Hr) as Hkr. pose proof (st_colls _ I _ _ Hr) as [Hc _]. cbn in Hkr, Hc.
    apply record_key_inj in Hkr as [Hcr _]; [|done..]. by rewrite Hcr. }
  split; [|done]. apply NoDup_fmap_2_strong; [|rewrite st_list_law; by apply NoDup_filter].
  intros x y [_ Hx]%Hin [_ Hy]%Hin He. rewrite He in Hx. congruence.
Qed.
Lemma rows_nodup {St} `{StoreOps St} `{Json} rng (d : DocDB St) l : NoDup (ID <$> l) -> NoDup (row_ID <$> omap (range_row rng d) l).
Proof.
  assert (forall rec row, range_row rng d rec = Some row -> row_ID row = ID rec) as Hid.
  { intros rec row. unfold range_row. destruct (Deleted rec); [done|]. destruct (negb _); [done|]. by intros [= <-]. }
  induction l as [|rec l IH]; [done|]. cbn [fmap list_fmap omap list_omap]. rewrite NoDup_cons. intros [Hni Hnd].
  destruct (range_row rng d rec) as [row|] eqn:Hr; [|by apply IH]. cbn [fmap list_fmap]. apply NoDup_cons. split; [|by apply IH].
  rewrite (Hid _ _ Hr). intros (row' & He & (rec' & Hin & Hr')%list_elem_of_omap)%list_elem_of_fmap.
  apply Hni, list_elem_of_fmap. exists rec'. split; [|done]. by rewrite He, (Hid _ _ Hr').
Qed.

(** C33. A listing is exact: whatever order the map and the parallel scan give, [AllDocs] without
    keys finds one row for each live record of the collection in the range and no other,
    counts them all in [TotalRows], and returns as many as [Skip] and [Limit] leave; a row's
    document, when asked for, is what [Get] answers. *)
Theorem AllDocs_exact {St} `{StoreLaws St} `{Json} numCPU rng (d : DocDB St) :
  db_inv d -> coll_ok (db_collection d) -> (0 < numCPU)%nat -> Keys rng = [] ->
  (exists result, AllDocs numCPU rng d result) /\
  forall result, AllDocs numCPU rng d result -> exists res rows, result = Ok res /\
    NoDup (row_ID <$> rows) /\
    (forall id, id ∈ row_ID <$> rows <->
       keyInRange id (StartKey rng) (EndKey rng) (InclusiveEnd rng) = true /\ DocDB_Get false id d <> Err ErrNotFound) /\
    TotalRows res = len rows /\ Rows res = page (Skip rng) (Limit rng) rows /\
    len (Rows res) = (let n := Z.max 0 (len rows - Z.max 0 (Skip rng)) in if 0 <? Limit rng then Z.min (Limit rng) n else n) /\
    (IncludeDocs rng = true -> forall row, row ∈ Rows res -> exists doc, row_Doc row = Some doc /\ DocDB_Get false (row_ID row) d = Ok doc).
Proof.
  intros I Hc Hn Hk. split; [eexists; by eapply AllDocs_scan|]. intros result Ha.
  destruct (AllDocs_rows numCPU rng d result Hn Hk Ha) as (rows & Hp & ->). exists (mkResult (len rows) 0 (page (Skip rng) (Limit rng) rows)), rows.
  destruct (stored_in d I Hc) as [Hnd Hin].
  assert (forall id rec, db_records d !! db_key d id = Some rec -> ID rec = id) as Hst.
  { intros id rec Hr. pose proof (st_keyed _ I _ _ Hr) as Hkr. pose proof (st_colls _ I _ _ Hr) as [Hcr _]. cbn in Hkr, Hcr.
    destruct Hc as [Hcf Hne]. unfold db_key in Hkr. rewrite or_default_id in Hkr by done. by apply record_key_inj in Hkr as [? ?]. }
  assert (forall row, row ∈ rows <-> exists rec, db_records d !! db_key d (row_ID row) = Some rec /\ Deleted rec = false /\
    keyInRange (row_ID row) (StartKey rng) (EndKey rng) (InclusiveEnd rng) = true /\ row = makeRow (row_ID row) rec (IncludeDocs rng) d) as Hrow.
  { intros row. rewrite Hp, list_elem_of_omap. split.
    - intros (rec & [Hd Hr]%Hin & Hf). unfold range_row in Hf. rewrite Hd in Hf.
      destruct (keyInRange _ _ _ _) eqn:Hkr; [|done]. injection Hf as <-. exists rec. by cbn [makeRow row_ID].
    - intros (rec & Hr & Hd & Hkr & He). pose proof (Hst _ _ Hr) as Hid. exists rec. split; [apply Hin; by rewrite Hid|].
      unfold range_row. rewrite Hd, Hid, Hkr. cbn [negb]. by rewrite He at 2. }
  split_and!; try done.
  - rewrite Hp. by apply rows_nodup.
  - intros id. rewrite list_elem_of_fmap, DocDB_Get_law. split.
    + intros (row & -> & (rec & -> & -> & Hkr & _)%Hrow). done.
    + intros [Hkr Hg]. destruct (db_records d !! db_key d id) as [rec|] eqn:Hr; [|done]. destruct (Deleted rec) eqn:Hd; [done|].
      exists (makeRow id rec (IncludeDocs rng) d). split; [done|]. apply Hrow. exists rec. by cbn [makeRow row_ID].
  - apply page_length.
  - intros Hi row Hr%page_sub%Hrow. destruct Hr as (rec & Hr & Hd & _ & ->). cbn [makeRow row_ID row_Doc]. rewrite Hi.
    eexists. split; [reflexivity|]. rewrite DocDB_Get_law, Hr. by rewrite Hd.
Qed.
Definition demo_put : DocDB MemoryStore := fst (fst (DocDB_Put demo_times false demo_doc demo_db)).
Lemma demo_put_inv : db_inv demo_put.
Proof.
  unfold demo_put, DocDB_Put. destruct (put_check demo_doc demo_db) as [[id base]|e|] eqn:Hchk; [|vm_compute in Hchk; discriminate Hchk..].
  destruct (put_payload_ok demo_doc base) as (raw & final & _ & Hp & _); [apply (bool_decide_unpack (json_object _)); by vm_compute|].
  destruct (put_check_id _ _ _ _ Hchk) as [-> _].
  destruct (put_commit_law demo_times demo_doc (string_field FieldID demo_doc) base (genRev base raw) final demo_db) as (d' & -> & I & _); [apply NewMemoryStore_inv|done|done|exact Hp| |exact I].
  exact (demo_write_ok _ _ _ _ Hchk Hp).
Qed.
Lemma AllDocs_exact_witness :
  exists res rows, AllDocs 4 (mkRange "" "" false 0 1 [] true) demo_put (Ok res) /\ Rows res = page 1 0 rows /\ "a" ∈ row_ID <$> rows.
Proof.
  destruct (AllDocs_exact 4 (mkRange "" "" false 0 1 [] true) demo_put demo_put_inv) as [[result Ha] Hall].
  - split; apply (bool_decide_unpack _); vm_compute; exact I.
  - lia.
  - reflexivity.
  - destruct (Hall result Ha) as (res & rows & -> & _ & Hin & _ & Hr & _). exists res, rows. split; [exact Ha|]. split; [exact Hr|].
    apply Hin. split; [reflexivity|]. vm_compute. discriminate.
Defined.
