(* ===== verification/Changes.v ===== *)
(** * The changes feed (sdk/db_changes.go over sdk/changes.go)

    [DocDB.Changes] subscribes to the hub and starts a goroutine that forwards what the
    hub's channel holds to the channel it returned, and drains it when its context is
    done.  The feed is a state machine whose steps are the goroutine's channel operations,
    the writer's broadcasts, the consumer's receives and the cancellation, in any order. *)
From S2P Require Import Prelude Json JsonText JsonCodec DocDb.

(** What happened to the changes, for the statements: broadcast, received, dropped, and put
    into the hub's channel too late for the goroutine to take them out. *)
Record Trace := mkTrace { tr_published : list Change; tr_received : list Change; tr_dropped : list Change; tr_late : list Change }.

(** Where the goroutine is: in the outer select, in the drain loop, in [forward]'s first
    select or blocked in its second one, coming from either; then, once the drain has found
    the hub's channel empty, before its deferred [close(out)], before its deferred [unsub()],
    and behind both.  Until the last it is subscribed. *)
Inductive Loop := InSelect | InDrain.
Inductive Phase := At (l : Loop) | Forward (c : Change) (l : Loop) | Blocked (c : Change) (l : Loop) | Stopping | Unsubscribing | Returned.
Record Feed := mkFeed {
  (** the hub's channel, of 16, and the one returned, of 64; oldest first *)
  fd_src : list Change;
  fd_out : list Change;
  fd_phase : Phase;
  fd_done : bool;
  fd_trace : Trace
}.
Definition out_capacity : nat := 64.
Definition Changes : Feed := mkFeed [] [] (At InSelect) false (mkTrace [] [] [] []).

Definition fd_set_phase (p : Phase) (f : Feed) : Feed := mkFeed (fd_src f) (fd_out f) p (fd_done f) (fd_trace f).
Definition fd_take (src : list Change) (p : Phase) (f : Feed) : Feed := mkFeed src (fd_out f) p (fd_done f) (fd_trace f).
Definition fd_send (c : Change) (p : Phase) (f : Feed) : Feed := mkFeed (fd_src f) (fd_out f ++ [c]) p (fd_done f) (fd_trace f).
Definition fd_drop (c : Change) (p : Phase) (f : Feed) : Feed :=
  let t := fd_trace f in mkFeed (fd_src f) (fd_out f) p (fd_done f) (mkTrace (tr_published t) (tr_received t) (tr_dropped t ++ [c]) (tr_late t)).

(** The goroutine's moves. *)
Inductive goroutine : Feed -> Feed -> Prop :=
  (** a receive from the hub's channel; once the context is done either case may be taken *)
  | go_recv f c src : fd_phase f = At InSelect -> fd_src f = c :: src -> goroutine f (fd_take src (Forward c InSelect) f)
  | go_done f : fd_phase f = At InSelect -> fd_done f = true -> goroutine f (fd_set_phase (At InDrain) f)
  | go_drain f c src : fd_phase f = At InDrain -> fd_src f = c :: src -> goroutine f (fd_take src (Forward c InDrain) f)
  | go_empty f : fd_phase f = At InDrain -> fd_src f = [] -> goroutine f (fd_set_phase Stopping f)
  (** the deferred calls *)
  | go_close f : fd_phase f = Stopping -> goroutine f (fd_set_phase Unsubscribing f)
  | go_unsub f : fd_phase f = Unsubscribing -> goroutine f (fd_set_phase Returned f)
  (** [forward]: the first select does not wait *)
  | go_try f c l : fd_phase f = Forward c l -> (length (fd_out f) < out_capacity)%nat -> goroutine f (fd_send c (At l) f)
  | go_full f c l : fd_phase f = Forward c l -> (out_capacity <= length (fd_out f))%nat -> goroutine f (fd_set_phase (Blocked c l) f)
  | go_send f c l : fd_phase f = Blocked c l -> (length (fd_out f) < out_capacity)%nat -> goroutine f (fd_send c (At l) f)
  | go_give_up f c l : fd_phase f = Blocked c l -> fd_done f = true -> goroutine f (fd_drop c (At l) f).

(** A broadcast to this subscriber: a full channel drops the change; after [unsub] it is no
    longer subscribed; between the drain's last look and [unsub] the channel takes what
    nobody will read. *)
Definition is_returned (p : Phase) : bool := match p with Returned => true | _ => false end.
Definition is_stopped (p : Phase) : bool := match p with Stopping | Unsubscribing | Returned => true | _ => false end.
Definition publish (c : Change) (f : Feed) : Feed :=
  if is_returned (fd_phase f) then f else
  let t := fd_trace f in let published := tr_published t ++ [c] in
  if (length (fd_src f) <? hub_capacity)%nat
  then mkFeed (fd_src f ++ [c]) (fd_out f) (fd_phase f) (fd_done f)
    (mkTrace published (tr_received t) (tr_dropped t) (if is_stopped (fd_phase f) then tr_late t ++ [c] else tr_late t))
  else mkFeed (fd_src f) (fd_out f) (fd_phase f) (fd_done f) (mkTrace published (tr_received t) (tr_dropped t ++ [c]) (tr_late t)).
Definition cancel (f : Feed) : Feed := mkFeed (fd_src f) (fd_out f) (fd_phase f) true (fd_trace f).
(** A receive by the consumer: the change, or that the channel is closed and empty. *)
Inductive recv_result := Got (c : Change) | Closed | Waits.
Definition consume (f : Feed) : Feed * recv_result :=
  match fd_out f with
  | c :: out =>
      let t := fd_trace f in
      (mkFeed (fd_src f) out (fd_phase f) (fd_done f) (mkTrace (tr_published t) (tr_received t ++ [c]) (tr_dropped t) (tr_late t)), Got c)
  | [] => (f, match fd_phase f with Unsubscribing | Returned => Closed | _ => Waits end)
  end.

Inductive feed_step : Feed -> Feed -> Prop :=
  | step_go f f' : goroutine f f' -> feed_step f f'
  | step_publish f c : feed_step f (publish c f)
  | step_cancel f : feed_step f (cancel f)
  | step_consume f : feed_step f (fst (consume f)).
Definition feed_reachable (f : Feed) : Prop := rtc feed_step Changes f.

(** ** Nothing is reordered *)

Definition held (p : Phase) : list Change := match p with Forward c _ | Blocked c _ => [c] | _ => [] end.
(** What the consumer will get, in order, if nothing more is dropped. *)
Definition on_the_way (f : Feed) : list Change := fd_out f ++ held (fd_phase f) ++ (if is_stopped (fd_phase f) then [] else fd_src f).
(** What the consumer has, will get, and what lies in the hub's channel. *)
Definition pipeline (f : Feed) : list Change := tr_received (fd_trace f) ++ fd_out f ++ held (fd_phase f) ++ fd_src f.

Record feed_inv (f : Feed) : Prop := {
  fi_order : sublist (pipeline f) (tr_published (fd_trace f));
  fi_all : tr_published (fd_trace f) ≡ₚ pipeline f ++ tr_dropped (fd_trace f);
  fi_out : (length (fd_out f) <= out_capacity)%nat;
  fi_src : (length (fd_src f) <= hub_capacity)%nat;
  fi_drain : match fd_phase f with At InDrain | Forward _ InDrain | Blocked _ InDrain | Stopping | Unsubscribing | Returned => fd_done f = true | _ => True end;
  fi_late : tr_late (fd_trace f) = if is_stopped (fd_phase f) then fd_src f else []
}.
Lemma pipeline_split f : feed_inv f -> pipeline f = tr_received (fd_trace f) ++ on_the_way f ++ tr_late (fd_trace f).
Proof.
  intros I. unfold pipeline, on_the_way. rewrite (fi_late _ I), <-!app_assoc. do 3 f_equal.
  destruct (is_stopped (fd_phase f)); [done|]. by rewrite app_nil_r.
Qed.
Lemma sublist_full {A} (l k : list A) : sublist l k -> k ≡ₚ l -> l = k.
Proof.
  intros Hs Hp. apply Permutation_length in Hp. induction Hs as [|x l k Hs IH|x l k Hs IH]; [done|..]; cbn in Hp.
  - f_equal. apply IH. lia.
  - apply sublist_length in Hs. lia.
Qed.
Lemma pipeline_move r o h s (x : Change) : r ++ (o ++ [x]) ++ h ++ s = r ++ o ++ (x :: h) ++ s.
Proof. by rewrite <-!app_assoc. Qed.
Lemma Changes_inv : feed_inv Changes.
Proof. split; cbn; [constructor|done|lia|lia|done|done]. Qed.
Lemma goroutine_inv f f' : feed_inv f -> goroutine f f' -> feed_inv f'.
Proof.
  intros [Ho Ha Hout Hsrc Hd Hl] Hg.
  destruct Hg as [f c src Hp Hs|f Hp Hdone|f c src Hp Hs|f Hp Hs|f Hp|f Hp|f c l Hp Hlt|f c l Hp Hlt|f c l Hp Hlt|f c l Hp Hdone];
    unfold pipeline in *; rewrite Hp in *; try rewrite Hs in *; cbn [held app is_stopped] in *;
    (split; unfold pipeline; cbn [fd_take fd_set_phase fd_send fd_drop fd_src fd_out fd_phase fd_done fd_trace held is_stopped
      tr_published tr_received tr_dropped tr_late] in *; try rewrite Hs; try done).
  all: try (cbn in Hsrc; lia).
  all: try (rewrite pipeline_move; done).
  all: try (rewrite length_app; cbn; lia).
  all: try (destruct l; done).
  - etrans; [|exact Ho]. apply sublist_app; [done|]. apply sublist_app; [done|]. by apply sublist_cons.
  - rewrite Ha. solve_Permutation.
Qed.
Lemma feed_step_inv f f' : feed_inv f -> feed_step f f' -> feed_inv f'.
Proof.
  intros I Hs. destruct Hs as [f f' Hg|f c|f|f]; [by eapply goroutine_inv| | |]; destruct I as [Ho Ha Hout Hsrc Hd Hl]; unfold pipeline in *.
  - unfold publish. destruct (is_returned (fd_phase f)) eqn:Hret; [by split|].
    destruct (Nat.ltb_spec (length (fd_src f)) hub_capacity); split; unfold pipeline;
      cbn [fd_src fd_out fd_phase fd_done fd_trace tr_published tr_received tr_dropped tr_late]; try done.
    + rewrite !app_assoc. apply sublist_app; [by rewrite <-!app_assoc|done].
    + rewrite Ha. solve_Permutation.
    + rewrite length_app. cbn. lia.
    + rewrite Hl. by destruct (is_stopped (fd_phase f)).
    + by apply sublist_inserts_r.
    + rewrite Ha. solve_Permutation.
  - split; unfold pipeline; cbn; try done. by destruct (fd_phase f) as [[]|? []|? []| | |].
  - unfold consume. destruct (fd_out f) as [|c out] eqn:Heo; [split; unfold pipeline; cbn [fst]; rewrite ?Heo; done|].
    split; unfold pipeline; cbn [fst fd_src fd_out fd_phase fd_done fd_trace tr_published tr_received tr_dropped tr_late]; try done.
    + by rewrite <-app_assoc.
    + rewrite Ha. solve_Permutation.
    + cbn in Hout. lia.
Qed.
Lemma feed_reachable_inv f : feed_reachable f -> feed_inv f.
Proof.
  unfold feed_reachable. intros Hf. pose proof Changes_inv as I. revert I.
  induction Hf as [f|f f1 f2 Hs _ IH]; [done|]. intros I. apply IH. by eapply feed_step_inv.
Qed.

(** ** The goroutine stops *)

Definition loop_work (l : Loop) : nat := match l with InSelect => 4 | InDrain => 3 end.
Definition phase_work (p : Phase) : nat :=
  match p with At l => loop_work l | Forward _ l => loop_work l + 2 | Blocked _ l => loop_work l + 1 | Stopping => 2 | Unsubscribing => 1 | Returned => 0 end.
Definition work (f : Feed) : nat := 3 * length (fd_src f) + phase_work (fd_phase f).
Lemma goroutine_work f f' : goroutine f f' -> (work f' < work f)%nat.
Proof.
  unfold work. destruct 1 as [f c src Hp Hs|f Hp Hdone|f c src Hp Hs|f Hp Hs|f Hp|f Hp|f c l Hp Hl|f c l Hp Hl|f c l Hp Hl|f c l Hp Hdone];
    cbn [fd_take fd_set_phase fd_send fd_drop fd_src fd_phase]; rewrite Hp, ?Hs; cbn; lia.
Qed.
Lemma goroutine_moves f : fd_done f = true -> fd_phase f <> Returned -> exists f', goroutine f f'.
Proof.
  intros Hd Hp. destruct (fd_phase f) as [[|]|c l|c l| | |] eqn:He; [|destruct (fd_src f) eqn:Hs|destruct (decide (length (fd_out f) < out_capacity)%nat)| | | |done].
  - eexists. by apply go_done.
  - eexists. by apply go_empty.
  - eexists. by eapply go_drain.
  - eexists. by eapply go_try.
  - eexists. eapply go_full; [done|lia].
  - eexists. by eapply go_give_up.
  - eexists. by apply go_close.
  - eexists. by apply go_unsub.
Qed.
(** Moves of the goroutine, counted, with receives by the consumer between them. *)
Inductive runs : nat -> Feed -> Feed -> Prop :=
  | runs_here f : runs 0 f f
  | runs_go n f f1 f2 : goroutine f f1 -> runs n f1 f2 -> runs (S n) f f2
  | runs_recv n f f2 : runs n (fst (consume f)) f2 -> runs n f f2.
Lemma consume_same f : fd_src (fst (consume f)) = fd_src f /\ fd_phase (fst (consume f)) = fd_phase f /\ fd_done (fst (consume f)) = fd_done f.
Proof. unfold consume. by destruct (fd_out f). Qed.
Lemma goroutine_done f f' : goroutine f f' -> fd_done f' = fd_done f.
Proof. by destruct 1. Qed.
Lemma runs_work n f f' : runs n f f' -> (n + work f' <= work f)%nat /\ fd_done f' = fd_done f.
Proof.
  induction 1 as [f|n f f1 f2 Hg _ [IH Hd]|n f f2 _ [IH Hd]]; [split; [lia|done]|..].
  - pose proof (goroutine_work _ _ Hg). rewrite Hd, (goroutine_done _ _ Hg). split; [lia|done].
  - destruct (consume_same f) as (Hs & Hp & Hdn). unfold work in *. rewrite Hs, Hp in IH. rewrite Hd, Hdn. done.
Qed.

(** ** Properties *)

(** C21. The changes feed keeps the order and makes nothing up: whatever the interleaving of
    broadcasts, receives, cancellation, the goroutine's own moves and its deferred calls, what the
    consumer received is, in order and each once, among what was broadcast.  What is missing is still on
    its way, or was dropped by a full channel or a cancelled wait, or came late: was broadcast,
    after a cancellation, once the drain had found nothing more and before [unsub] had run.  A
    feed that dropped nothing has received, or will, a first part of what was broadcast, and what is
    late is all the rest; so when its channel is closed and empty its consumer has received
    all that was broadcast but the late ones. *)
Theorem Changes_in_order f :
  feed_reachable f ->
  sublist (tr_received (fd_trace f)) (tr_published (fd_trace f)) /\
  tr_published (fd_trace f) ≡ₚ tr_received (fd_trace f) ++ on_the_way f ++ tr_late (fd_trace f) ++ tr_dropped (fd_trace f) /\
  (tr_late (fd_trace f) <> [] -> fd_done f = true /\ is_stopped (fd_phase f) = true) /\
  (tr_dropped (fd_trace f) = [] -> tr_published (fd_trace f) = tr_received (fd_trace f) ++ on_the_way f ++ tr_late (fd_trace f)) /\
  (snd (consume f) = Closed -> tr_dropped (fd_trace f) = [] -> tr_published (fd_trace f) = tr_received (fd_trace f) ++ tr_late (fd_trace f)).
Proof.
  intros I%feed_reachable_inv. pose proof (pipeline_split f I) as Hsplit. pose proof (fi_all _ I) as Hall. rewrite Hsplit in Hall.
  assert (tr_dropped (fd_trace f) = [] -> tr_published (fd_trace f) = tr_received (fd_trace f) ++ on_the_way f ++ tr_late (fd_trace f)) as Hno.
  { intros Hd. rewrite <-Hsplit. symmetry. apply sublist_full; [apply I|]. by rewrite (fi_all _ I), Hd, app_nil_r. }
  split_and!; [| | |done|].
  - etrans; [|apply I]. unfold pipeline. by apply sublist_inserts_r.
  - by rewrite Hall, <-!app_assoc.
  - pose proof (fi_late _ I) as Hl. pose proof (fi_drain _ I) as Hd. by destruct (fd_phase f) as [[]|? []|? []| | |]; rewrite Hl.
  - intros Hc Hd. rewrite (Hno Hd). f_equal. unfold consume in Hc. unfold on_the_way.
    destruct (fd_out f) as [|c out]; [|done]. cbn in Hc. by destruct (fd_phase f).
Qed.
Lemma Changes_in_order_witness : tr_published (fd_trace (publish (mkChange "a" "1-x" false ∅) Changes)) =
  [] ++ on_the_way (publish (mkChange "a" "1-x" false ∅) Changes) ++ [].
Proof.
  destruct (Changes_in_order (publish (mkChange "a" "1-x" false ∅) Changes)) as (_ & _ & _ & H & _).
  - apply rtc_once, step_publish.
  - exact (H eq_refl).
Defined.

(** C22. Cancelling a feed closes it: once the context is done and nothing more is broadcast,
    the goroutine has always a move to make until it returns, whether the consumer reads
    or not, and returns, its channel closed and its subscription gone, after at most 54 of
    them. *)
Theorem Changes_closes f n f' :
  feed_reachable f -> fd_done f = true -> runs n f f' ->
  (n <= 54)%nat /\ (fd_phase f' = Returned \/ exists f'', goroutine f' f'').
Proof.
  intros I%feed_reachable_inv Hd Hr. apply runs_work in Hr as [Hw Hd']. split.
  - pose proof (fi_src _ I) as Hs. unfold hub_capacity, work in *.
    assert (phase_work (fd_phase f) <= 6)%nat by (destruct (fd_phase f) as [[]|? []|? []| | |]; cbn; lia). lia.
  - destruct (is_returned (fd_phase f')) eqn:Hp; [left; by destruct (fd_phase f')|right].
    apply goroutine_moves; [congruence|]. intros He. by rewrite He in Hp.
Qed.
Lemma Changes_closes_witness : (1 <= 54)%nat /\
  (fd_phase (fd_set_phase (At InDrain) (cancel Changes)) = Returned \/ exists f'', goroutine (fd_set_phase (At InDrain) (cancel Changes)) f'').
Proof.
  apply (Changes_closes (cancel Changes) 1).
  - apply rtc_once, step_cancel.
  - reflexivity.
  - eapply runs_go; [apply go_done; reflexivity|apply runs_here].
Defined.

(** Sixteen broadcasts are never too many: a feed drops nothing before its channel has
    overflowed, cancelled or not. *)
Lemma short_feed_inv f : feed_reachable f -> (length (tr_published (fd_trace f)) <= hub_capacity)%nat ->
  tr_dropped (fd_trace f) = [] /\ match fd_phase f with Blocked _ _ => False | _ => True end.
Proof.
  unfold feed_reachable. intros Hf.
  assert (feed_inv Changes /\ tr_dropped (fd_trace Changes) = [] /\ match fd_phase Changes with Blocked _ _ => False | _ => True end) as Hstart
    by (split; [apply Changes_inv|done]).
  revert Hstart. induction Hf as [f|f f1 f2 Hs Hf IH]; [by intros (_ & ? & ?)|]. intros (I & Hd & Hb) Hlen.
  apply IH; [|done]. split; [by eapply feed_step_inv|].
  assert (length (tr_published (fd_trace f)) <= length (tr_published (fd_trace f1)))%nat as Hgrow1.
  { destruct Hs as [f f' Hg|f c|f|f]; [by destruct Hg|unfold publish; repeat case_match; cbn; rewrite ?length_app; lia|done|].
    unfold consume. by destruct (fd_out f). }
  assert (forall a b, rtc feed_step a b -> length (tr_published (fd_trace a)) <= length (tr_published (fd_trace b)))%nat as Hgrow.
  { induction 1 as [|a b c Hab _ IHc]; [done|]. etrans; [|exact IHc].
    destruct Hab as [a a' Hg|a x|a|a]; [by destruct Hg|unfold publish; repeat case_match; cbn; rewrite ?length_app; lia|done|].
    unfold consume. by destruct (fd_out a). }
  specialize (Hgrow _ _ Hf). pose proof (Permutation_length (fi_all _ I)) as Hall. unfold pipeline in Hall.
  rewrite Hd, !length_app in Hall. cbn [length] in Hall. unfold hub_capacity in *.
  destruct Hs as [f f' Hg|f c|f|f].
  - destruct Hg as [f c src Hp Hs|f Hp Hdone|f c src Hp Hs|f Hp Hs|f Hp|f Hp|f c l Hp Hl|f c l Hp Hl|f c l Hp Hl|f c l Hp Hdone]; try done;
      unfold out_capacity in *; [lia|by rewrite Hp in Hb..].
  - unfold publish in *. destruct (is_returned (fd_phase f)); [done|].
    destruct (Nat.ltb_spec (length (fd_src f)) hub_capacity) as [?|Hfull]; [done|].
    unfold hub_capacity in *. cbn in Hgrow. rewrite length_app in Hgrow. cbn in Hgrow. lia.
  - done.
  - unfold consume. by destruct (fd_out f).
Qed.

(** A short feed is complete: when at most sixteen changes were broadcast, none is
    dropped, and a consumer who reads until the channel is closed gets them all, in
    order, however the cancellation falls, but for those broadcast while the goroutine was
    returning. *)
Theorem Changes_short_complete f :
  feed_reachable f -> (length (tr_published (fd_trace f)) <= hub_capacity)%nat ->
  tr_dropped (fd_trace f) = [] /\
  (snd (consume f) = Closed -> tr_published (fd_trace f) = tr_received (fd_trace f) ++ tr_late (fd_trace f)).
Proof.
  intros Hf Hl. destruct (short_feed_inv f Hf Hl) as [Hd _]. split; [done|]. intros Hc.
  pose proof (feed_reachable_inv f Hf) as I. unfold consume in Hc. destruct (fd_out f) as [|c out] eqn:Ho; [|done].
  assert (pipeline f = tr_published (fd_trace f)) as <-.
  { apply sublist_full; [apply I|]. by rewrite (fi_all _ I), Hd, app_nil_r. }
  rewrite pipeline_split by done. f_equal. unfold on_the_way. rewrite Ho. cbn in Hc. by destruct (fd_phase f).
Qed.
Lemma Changes_short_complete_witness :
  tr_dropped (fd_trace (publish (mkChange "a" "1-x" false ∅) Changes)) = [].
Proof.
  apply (Changes_short_complete (publish (mkChange "a" "1-x" false ∅) Changes)).
  - apply rtc_once, step_publish.
  - cbn. unfold hub_capacity. lia.
Defined.

(** ** What cancelling loses *)

Definition some_change : Change := mkChange "a" "1-x" false ∅.
Definition filled (n : nat) : Feed := mkFeed [] (replicate n some_change) (At InSelect) false (mkTrace (replicate n some_change) [] [] []).
Lemma filled_reachable n : (n <= out_capacity)%nat -> feed_reachable (filled n).
Proof.
  induction n as [|n IH]; intros Hn; [apply rtc_refl|]. unfold feed_reachable. etrans; [apply IH; lia|].
  assert (forall m, replicate (S m) some_change = replicate m some_change ++ [some_change]) as Hrep
    by (intros m; by rewrite replicate_S_end).
  eapply rtc_l; [apply (step_publish _ some_change)|]. eapply rtc_l; [apply step_go; by eapply (go_recv _ some_change [])|].
  eapply rtc_l; [apply step_go; eapply (go_try _ some_change InSelect); [done|]|].
  - cbn. rewrite length_replicate. unfold out_capacity in *. lia.
  - unfold filled. rewrite (Hrep n). apply rtc_refl.
Qed.
(** The comment on [Changes] says a cancellation loses no published event.  With the
    returned channel full, it loses all those still in the hub's channel: here 64 changes
    are unread, a 65th is in [forward] and a 66th in the hub's channel when the context is
    done, and the goroutine returns with both dropped. *)
Theorem Changes_cancel_drops :
  exists f, feed_reachable f /\ fd_phase f = Returned /\
    length (tr_published (fd_trace f)) = 66%nat /\ tr_dropped (fd_trace f) = [some_change; some_change].
Proof.
  assert (forall f f', goroutine f f' -> feed_step f f') as Hgo by apply step_go.
  eexists. split.
  { unfold feed_reachable. etrans; [apply (filled_reachable out_capacity); done|].
    eapply rtc_l; [apply (step_publish _ some_change)|]. eapply rtc_l; [apply Hgo; by eapply (go_recv _ some_change [])|].
    eapply rtc_l; [apply Hgo; by eapply (go_full _ some_change InSelect)|].
    eapply rtc_l; [apply (step_publish _ some_change)|]. eapply rtc_l; [apply step_cancel|].
    eapply rtc_l; [apply Hgo; by eapply (go_give_up _ some_change InSelect)|].
    eapply rtc_l; [apply Hgo; by eapply go_done|].
    eapply rtc_l; [apply Hgo; by eapply (go_drain _ some_change [])|].
    eapply rtc_l; [apply Hgo; by eapply (go_full _ some_change InDrain)|].
    eapply rtc_l; [apply Hgo; by eapply (go_give_up _ some_change InDrain)|].
    eapply rtc_l; [apply Hgo; by eapply go_empty|].
    eapply rtc_l; [apply Hgo; by eapply go_close|]. eapply rtc_l; [apply Hgo; by eapply go_unsub|]. apply rtc_refl. }
  by split_and!.
Qed.

(** The comment says the channel is closed when the context is done and the hub's pending changes
    have been drained.  The subscription outlives the drain: a change broadcast between its last
    look and [unsub] is taken into the hub's channel and never comes out, with every channel
    all but empty. *)
Theorem Changes_late_lost :
  exists f, feed_reachable f /\ fd_phase f = Returned /\ snd (consume f) = Closed /\
    tr_published (fd_trace f) = [some_change] /\ tr_received (fd_trace f) = [] /\ tr_dropped (fd_trace f) = [].
Proof.
  eexists. split.
  { unfold feed_reachable. eapply rtc_l; [apply step_cancel|]. eapply rtc_l; [apply step_go; by apply go_done|].
    eapply rtc_l; [apply step_go; by apply go_empty|]. eapply rtc_l; [apply step_go; by apply go_close|].
    eapply rtc_l; [apply (step_publish _ some_change)|]. eapply rtc_l; [apply step_go; by apply go_unsub|]. apply rtc_refl. }
  by split_and!.
Qed.
