(* ===== verification/Replicator.v ===== *)
(** * Replication of a document database (sdk/replicate.go)

    [Pull] and [Push] over the binary protocol, the health counters, the polling loop of
    [Live] as a machine stepped by its timer, and what a WebSocket session sends and
    takes in.  A request's outcome is the response's status and body, or nothing when
    the request fails; the body ends where the connection does. *)
From S2P Require Import Prelude BigEndian Float Hlc Record KnowledgeVector Conflict GoSort Search MemStore StoreApi Server Json JsonText JsonCodec DocDb DocDbLaws GoTime.
Local Open Scope Z_scope.

Inductive sync_err :=
| SErrRequest | SErrServer (status : Z) | SErrHeader | SErrData | SErrUnmarshal (e : unmarshal_err) | SErrIngest | SErrClock.

Section replicate.
Context {St : Type} `{StoreOps St} `{Json}.
Implicit Types d : DocDB St.

(** ** Pull *)

(** The body of the request: the vector in the map's two iteration orders. *)
Definition pull_request (order1 order2 : list (string * HLC)) : res Empty_set bytes :=
  KnowledgeVector_MarshalBinary order1 order2.
(** The loop over the frames; [fuel] bounds their number. *)
Fixpoint pull_loop (fuel : nat) (now : nat -> nat -> Z) (body : bytes) (ingested : nat) (maxSeen : HLC) d
    : DocDB St * nat * HLC * option sync_err :=
  match fuel with
  | O => (d, ingested, maxSeen, None)
  | S fuel =>
      if len body =? 0 then (d, ingested, maxSeen, None)
      else if len body <? 4 then (d, ingested, maxSeen, Some SErrHeader)
      else
        let recLen := be_value (take 4 body) in
        let body := drop 4 body in
        if len body <? recLen then (d, ingested, maxSeen, Some SErrData) else
        let recBytes := take (Z.to_nat recLen) body in
        let body := drop (Z.to_nat recLen) body in
        match Record_UnmarshalBinary recBytes with
        | Ok rec =>
            match ingestRemote (now ingested) rec d with
            | (d, false) => (d, ingested, maxSeen, Some SErrIngest)
            | (d, true) =>
                pull_loop fuel now body (S ingested) (if HLC_GreaterThan (Clock rec) maxSeen then Clock rec else maxSeen) d
            end
        | Err e => (d, ingested, maxSeen, Some (SErrUnmarshal e))
        | Panic => (d, ingested, maxSeen, None)
        end
  end.
Definition pull (now : nat -> nat -> Z) (resp : option (Z * bytes)) d : DocDB St * nat * option sync_err :=
  match resp with
  | None => (d, 0%nat, Some SErrRequest)
  | Some (status, body) =>
      if negb (status =? 200) then (d, 0%nat, Some (SErrServer status)) else
      match pull_loop (S (length body)) now body 0 HLC_zero d with
      | (d, ingested, _, Some e) => (d, ingested, Some e)
      | (d, ingested, maxSeen, None) =>
          if HLC_GreaterThan maxSeen HLC_zero then
            match advanceClock (now ingested) maxSeen d with
            | (d, true) => (d, ingested, None)
            | (d, false) => (d, ingested, Some SErrClock)
            end
          else (d, ingested, None)
      end
  end.

(** ** Push *)
Definition push_records d : list NellRecord :=
  filter (fun rec => isInternalID (ID rec) = false) (st_ListAll (db_collection d) (db_store d)).
Definition push_request d : bytes := concat (map bin_record (push_records d)).
Definition push (now : nat -> Z) (resp : option (Z * bytes)) d : DocDB St * Z * option sync_err :=
  match resp with
  | None => (d, 0, Some SErrRequest)
  | Some (status, body) =>
      if negb (status =? 200) then (d, 0, Some (SErrServer status)) else
      if len body <? 4 then (d, 0, Some SErrData) else
      let accepted := be_value (take 4 body) in
      let maxSent := foldl (fun m rec => if HLC_GreaterThan (Clock rec) m then Clock rec else m) HLC_zero (push_records d) in
      (if HLC_GreaterThan maxSent HLC_zero then fst (advanceClock now maxSent d) else d, accepted, None)
  end.

(** ** The replicator and its health counters *)
Record Replicator := mkReplicator {
  rp_DB : DocDB St; rp_authSecret : bytes;
  rp_lastPushUnix : Z; rp_lastPullUnix : Z; rp_pushErrors : Z; rp_pullErrors : Z
}.
Definition NewReplicator (db : DocDB St) : Replicator := mkReplicator db [] 0 0 0 0.
Definition Replicator_SetAuthSecret (secret : bytes) (r : Replicator) : Replicator :=
  mkReplicator (rp_DB r) secret (rp_lastPushUnix r) (rp_lastPullUnix r) (rp_pushErrors r) (rp_pullErrors r).
(** [at_] is the time the request ended. *)
Definition Pull (now : nat -> nat -> Z) (at_ : Z) (resp : option (Z * bytes)) (r : Replicator) : Replicator * nat * option sync_err :=
  let '(d, n, e) := pull now resp (rp_DB r) in
  (match e with
   | Some _ => mkReplicator d (rp_authSecret r) (rp_lastPushUnix r) (rp_lastPullUnix r) (rp_pushErrors r) (rp_pullErrors r + 1)
   | None => mkReplicator d (rp_authSecret r) (rp_lastPushUnix r) at_ (rp_pushErrors r) (rp_pullErrors r)
   end, n, e).
Definition Push (now : nat -> Z) (at_ : Z) (resp : option (Z * bytes)) (r : Replicator) : Replicator * Z * option sync_err :=
  let '(d, n, e) := push now resp (rp_DB r) in
  (match e with
   | Some _ => mkReplicator d (rp_authSecret r) (rp_lastPushUnix r) (rp_lastPullUnix r) (rp_pushErrors r + 1) (rp_pullErrors r)
   | None => mkReplicator d (rp_authSecret r) at_ (rp_lastPullUnix r) (rp_pushErrors r) (rp_pullErrors r)
   end, n, e).
(** [Sync]: the pull's response is to the request made after the push. *)
Definition Sync (nowPush : nat -> Z) (nowPull : nat -> nat -> Z) (at1 at2 : Z) (pushResp pullResp : option (Z * bytes)) (r : Replicator)
    : Replicator * Z * nat * option sync_err :=
  match Push nowPush at1 pushResp r with
  | (r, _, Some e) => (r, 0, 0%nat, Some e)
  | (r, pushed, None) => let '(r, pulled, e) := Pull nowPull at2 pullResp r in (r, pushed, pulled, e)
  end.

(** ** WebSocket sessions *)
(** A message's records are taken in one by one; an error is logged and skipped. *)
Fixpoint runWS_read (now : nat -> nat -> Z) (i : nat) (changes : list NellRecord) d : DocDB St :=
  match changes with
  | [] => d
  | rec :: changes => runWS_read now (S i) changes (fst (ingestRemote (now i) rec d))
  end.
(** The record a local change is sent as, if any; [nilDoc] when the change has no document. *)
Definition runWS_write (ch : Change) (nilDoc : bool) d : option NellRecord :=
  if isInternalID (ch_ID ch) then None else
  match st_Get (db_collection d) (ch_ID ch) (db_store d) with
  | Ok rec => Some rec
  | _ =>
      if nilDoc then None
      else Some (mkRecord "" (ch_ID ch) "" (default [] (MarshalObj (ch_Doc ch))) [] HLC_zero "" (ch_Deleted ch))
  end.
End replicate.
Arguments Replicator St : clear implicits.

(** ** The polling loop *)
Definition nextBackoff (cur max : Duration) : Duration :=
  let next := wrap_s 64 (cur * 2) in if max <? next then max else next.
Record LiveConfig := mkLive { Interval : Duration; PushEvery : Z; BackoffMax : Duration }.
(** The defaults [Live] fills in. *)
Definition live_config (cfg : LiveConfig) : LiveConfig :=
  mkLive (if Interval cfg <=? 0 then 5 * Second else Interval cfg) (if PushEvery cfg <=? 0 then 1 else PushEvery cfg)
    (if BackoffMax cfg <=? 0 then Minute else BackoffMax cfg).
Record LiveState := mkLiveState { pullCount : Z; backoff : Duration }.
Definition live_start (cfg : LiveConfig) : LiveState := mkLiveState 0 (Interval cfg).
(** One firing of the timer: whether it pushes, whether it pulls, and the state after,
    whose [backoff] is the time to the next firing. *)
Definition live_tick (cfg : LiveConfig) (pushOk pullOk : bool) (s : LiveState) : bool * bool * LiveState :=
  let pushes := Z.rem (pullCount s) (PushEvery cfg) =? 0 in
  if pushes && negb pushOk then (true, false, mkLiveState (pullCount s) (nextBackoff (backoff s) (BackoffMax cfg)))
  else if negb pullOk then (pushes, true, mkLiveState (pullCount s) (nextBackoff (backoff s) (BackoffMax cfg)))
  else (pushes, true, mkLiveState (pullCount s + 1) (Interval cfg)).

(** ** Lemmas *)
(** A document, not one of the bookkeeping records. *)
Definition is_doc (r : NellRecord) : Prop := isInternalID (ID r) = false.
#[export] Instance is_doc_dec r : Decision (is_doc r) := decide (isInternalID (ID r) = false).

Section laws.
Context {St : Type} `{StoreLaws St} `{JsonLaws}.
Implicit Types d : DocDB St.

(** The conditions under which taking in records does not fail in the store. *)
Definition ingest_ok (now : nat -> Z) (r : NellRecord) d : Prop :=
  isInternalID (ID r) = false ->
  st_put_ok r (db_store d) /\
  observe_ok now (UpdatedBy r) (Clock r)
    (db_set_revs (<[ID r := default "1-remote" (readRev r)]> (db_revs d)) (db_set_store (fst (st_Put r (db_store d))) d)).
Fixpoint ingests_ok (now : nat -> nat -> Z) (i : nat) (rs : list NellRecord) d : Prop :=
  match rs with
  | [] => True
  | r :: rs => ingest_ok (now i) r d /\ ingests_ok now (S i) rs (fst (ingestRemote (now i) r d))
  end.

(** Maps that agree except at the keys of the bookkeeping records. *)
Definition docs_only (ks : list string) (m1 m2 : gmap string NellRecord) : Prop := forall k, k ∉ ks -> m1 !! k = m2 !! k.
Lemma docs_only_put ks m1 m2 r : docs_only ks m1 m2 -> docs_only ks (put_record m1 r) (put_record m2 r).
Proof. intros Hm k Hk. by rewrite !put_record_lookup, Hm. Qed.
Lemma docs_only_merge ks rs : forall m1 m2, docs_only ks m1 m2 -> docs_only ks (merge m1 rs) (merge m2 rs).
Proof. induction rs as [|r rs IH]; intros m1 m2 Hm; [done|]. rewrite !merge_cons. by apply IH, docs_only_put. Qed.

Lemma ingestRemote_law now r d : db_inv d -> ingest_ok now r d ->
  exists d', ingestRemote now r d = (d', true) /\ db_inv d' /\ db_collection d' = db_collection d /\
    docs_only [db_key d metaVectorID] (db_records d') (merge (db_records d) (normalize <$> filter is_doc [r])) /\
    (forall n c, kv_covers (db_vector d') n c -> kv_covers (db_vector d) n c \/
       (is_doc r /\ UpdatedBy r = n /\ hlc_le c (Clock r))).
Proof.
  intros I Hok. unfold ingestRemote. rewrite filter_cons. destruct (isInternalID (ID r)) eqn:Hi.
  - exists d. rewrite decide_False by (unfold is_doc; congruence). split_and!; try done. auto.
  - rewrite decide_True by done. destruct (Hok Hi) as [Hr Ho]. destruct (db_put_law r d I Hr) as (st & He & I' & Hm).
    rewrite He. unfold db_put in He. destruct (st_Put r (db_store d)) as [st' r'] eqn:Hst. injection He as He _.
    cbn [fst] in Ho. subst st'. cbn [db_revs db_set_store].
    set (d1 := db_set_revs _ (db_set_store st d)) in *.
    destruct (observeVector_law now (UpdatedBy r) (Clock r) d1 I' Ho) as (I2 & Hk & _ & Hco & _ & _ & _ & Hv).
    set (d2 := observeVector _ _ _ d1) in *. eexists. split; [reflexivity|]. split_and!; [done|done| |].
    + intros k Hk'. change (db_records d2 !! k = merge (db_records d) [normalize r] !! k).
      rewrite Hk by set_solver. unfold db_records at 1. cbn [d1 db_store db_set_revs db_set_store]. by rewrite Hm.
    + intros n c. change (kv_covers (db_vector d2) n c -> kv_covers (db_vector d) n c \/ is_doc r /\ UpdatedBy r = n /\ hlc_le c (Clock r)).
      rewrite Hv. change (db_vector d1) with (db_vector d). destruct (observes _ _ d1); [|auto].
      intros (x & Hx & Hle). rewrite lookup_insert in Hx. case_decide as Hn.
      * injection Hx as <-. right. done.
      * left. by exists x.
Qed.

(** One frame of the stream. *)
Lemma pull_loop_frame fuel now r more n maxSeen d : record_ok r -> in_u 32 (len (layout r)) ->
  pull_loop (S fuel) now (bin_record r ++ more) n maxSeen d =
  match ingestRemote (now n) r d with
  | (d, false) => (d, n, maxSeen, Some SErrIngest)
  | (d, true) => pull_loop fuel now more (S n) (if HLC_GreaterThan (Clock r) maxSeen then Clock r else maxSeen) d
  end.
Proof.
  intros Hrok Hrl. assert (bin_record r = be_bytes 4 (len (layout r)) ++ layout r) as Hb.
  { unfold bin_record. rewrite MarshalBinary_ok. by rewrite be_bytes_mod by lia. }
  rewrite Hb, <-app_assoc. set (h := be_bytes 4 (len (layout r))).
  assert (length h = 4%nat) as Hh by apply length_be_bytes.
  pose proof (len_nonneg (layout r ++ more)) as Hnn. cbn [pull_loop].
  replace (len (h ++ layout r ++ more) =? 0) with false by (rewrite len_app; unfold len in *; lia).
  replace (len (h ++ layout r ++ more) <? 4) with false by (rewrite len_app; unfold len in *; lia).
  rewrite take_app_length', drop_app_length' by done.
  assert (be_value h = len (layout r)) as -> by by apply be_value_bytes_id.
  replace (len (layout r ++ more) <? len (layout r)) with false by (rewrite len_app; pose proof (len_nonneg more); lia).
  assert (Z.to_nat (len (layout r)) = length (layout r)) as -> by (unfold len; lia).
  rewrite take_app_length, drop_app_length. rewrite <-(app_nil_r (layout r)), Unmarshal_layout by done. reflexivity.
Qed.

Lemma pull_loop_law fuel now rs : forall d n maxSeen,
  db_inv d -> ingests_ok now n rs d -> Forall record_ok rs -> Forall (fun r => in_u 32 (len (layout r))) rs ->
  (length rs < fuel)%nat ->
  exists d' m, pull_loop fuel now (concat (map bin_record rs)) n maxSeen d = (d', (n + length rs)%nat, m, None) /\
    db_inv d' /\ db_collection d' = db_collection d /\
    docs_only [db_key d metaVectorID] (db_records d') (merge (db_records d) (normalize <$> filter is_doc rs)) /\
    (forall n' c, kv_covers (db_vector d') n' c -> kv_covers (db_vector d) n' c \/
       exists r, r ∈ rs /\ is_doc r /\ UpdatedBy r = n' /\ hlc_le c (Clock r)).
Proof.
  revert fuel. induction rs as [|r rs IH]; intros fuel d n maxSeen I Hok Hrec Hlen Hf.
  - destruct fuel as [|fuel]; [cbn in Hf; lia|]. exists d, maxSeen. cbn [map concat pull_loop length].
    rewrite Nat.add_0_r. split_and!; try done. auto.
  - destruct fuel as [|fuel]; [cbn in Hf; lia|]. cbn [ingests_ok] in Hok. destruct Hok as [Hr Hrs].
    inversion_clear Hrec as [|?? Hrok Hrec']. inversion_clear Hlen as [|?? Hrl Hlen'].
    destruct (ingestRemote_law (now n) r d I Hr) as (d1 & He & I1 & Hc1 & Hm1 & Hv1). rewrite He in Hrs. cbn [fst] in Hrs.
    destruct (IH fuel d1 (S n) (if HLC_GreaterThan (Clock r) maxSeen then Clock r else maxSeen) I1 Hrs Hrec' Hlen' ltac:(cbn in Hf; lia))
      as (d' & m & Hloop & I' & Hc' & Hm' & Hv').
    exists d', m. split; [|split_and!; [done|congruence| |]].
    + cbn [map concat]. rewrite pull_loop_frame, He, Hloop by done. do 3 f_equal. cbn [length]. lia.
    + assert (db_key d1 metaVectorID = db_key d metaVectorID) as Hk by (unfold db_key; by rewrite Hc1). rewrite Hk in Hm'.
      intros k Hk'. rewrite Hm' by done. replace (r :: rs) with ([r] ++ rs) by done.
      rewrite filter_app, fmap_app, merge_app. exact (docs_only_merge _ _ _ _ Hm1 k Hk').
    + intros n' c [Hc|(x & Hx & Hd & Hu & Hle)]%Hv'.
      * apply Hv1 in Hc as [Hc|(Hd & Hu & Hle)]; [by left|]. right. exists r. set_solver.
      * right. exists x. set_solver.
Qed.

Definition advance_ok (now : nat -> Z) (c : HLC) d : Prop :=
  st_put_ok (meta_record d metaClockID (MarshalHLC c) (HLC_Tick (now 1%nat) (HLC_Update (NewHLC (now 0%nat)) c))) (db_store d).
Lemma advanceClock_law now c d : db_inv d -> advance_ok now c d ->
  exists d', advanceClock now c d = (d', true) /\ db_inv d' /\ db_collection d' = db_collection d /\
    db_vector d' = db_vector d /\ docs_only [db_key d metaClockID] (db_records d') (db_records d).
Proof.
  intros I Hok. unfold advanceClock. destruct (negb _); [by exists d|]. unfold writeMetaClock.
  change (meta_record (db_set_clock c d)) with (meta_record d).
  destruct (db_put_law _ (db_set_clock c d) I Hok) as (st & -> & I' & Hm).
  eexists. split; [reflexivity|]. split_and!; [done..|]. intros k Hk. unfold db_records at 1. cbn [db_store db_set_store].
  rewrite Hm. apply put_record_ne. rewrite rkey_normalize. intros <-. set_solver.
Qed.

Lemma filter_docs kv all : filter is_doc (all_missing kv all) = all_missing kv (filter is_doc all).
Proof. unfold all_missing. rewrite !list_filter_filter. apply list_filter_iff. intros r. tauto. Qed.

(** What a peer's stream brings: the missing documents merged into the store. *)
Lemma pull_law now stream rs d : db_inv d -> stream = concat (map bin_record rs) -> ingests_ok now 0 rs d ->
  Forall record_ok rs -> Forall (fun r => in_u 32 (len (layout r))) rs ->
  (forall d1 n m, pull_loop (S (length stream)) now stream 0 HLC_zero d = (d1, n, m, None) -> advance_ok (now n) m d1) ->
  exists d', pull now (Some (200, stream)) d = (d', length rs, None) /\ db_inv d' /\ db_collection d' = db_collection d /\
    docs_only [db_key d metaVectorID; db_key d metaClockID] (db_records d') (merge (db_records d) (normalize <$> filter is_doc rs)).
Proof.
  intros I -> Hok Hrec Hlen Hadv. assert (length rs < S (length (concat (map bin_record rs))))%nat as Hf by (pose proof (bin_stream_length rs); lia).
  destruct (pull_loop_law _ now rs d 0 HLC_zero I Hok Hrec Hlen Hf) as (d1 & m & Hl & I1 & Hc1 & Hm1 & _).
  cbn [Nat.add] in Hl. specialize (Hadv _ _ _ Hl). unfold pull. cbn [negb Z.eqb Pos.eqb]. rewrite Hl.
  assert (docs_only [db_key d metaVectorID; db_key d metaClockID] (db_records d1) (merge (db_records d) (normalize <$> filter is_doc rs))) as Hm1'.
  { intros k Hk. apply Hm1. set_solver. }
  destruct (HLC_GreaterThan m HLC_zero); [|by exists d1].
  destruct (advanceClock_law (now (length rs)) m d1 I1 Hadv) as (d' & -> & I' & Hc' & _ & Hm').
  exists d'. split_and!; [done|done|congruence|]. intros k Hk. rewrite Hm'; [by apply Hm1'|].
  unfold db_key in *. rewrite Hc1. set_solver.
Qed.
End laws.

(** ** Properties *)

(** A pull catches up: against a server of any backend, with a vector that is honest
    about the documents held, what [Pull] sends is answered with exactly the missing
    records, and taking them in ends without an error, counts them, and leaves the
    database holding, for every document of the server's collection, that version or one
    it does not beat; the vector is then honest again. *)
Theorem pull_complete {A B} `{StoreLaws A, StoreLaws B} `{JsonLaws} (a : Server A) (d : DocDB B) c all order1 order2 now :
  st_inv (srv_store a) -> db_inv d -> colon_free (db_collection d) ->
  sorts clock_less (st_ListAll c (srv_store a)) all ->
  Forall record_ok all -> Forall (fun r => in_u 32 (len (layout r))) all ->
  order1 ≡ₚ map_to_list (db_vector d) -> order2 ≡ₚ map_to_list (db_vector d) ->
  in_u 16 (Z.of_nat (size (db_vector d))) -> map_Forall (fun n c => entry_ok (n, c)) (db_vector d) ->
  honest (db_vector d) (db_records d) (filter is_doc all) ->
  ingests_ok now 0 (all_missing (db_vector d) all) d ->
  let stream := bin_stream (db_vector d) all in
  (forall d1 n m, pull_loop (S (length stream)) now stream 0 HLC_zero d = (d1, n, m, None) -> advance_ok (now n) m d1) ->
  exists body d', pull_request order1 order2 = Ok body /\ handleBinCheck MethodPost body all a = RespBytes stream /\
    pull now (Some (200, stream)) d = (d', length (all_missing (db_vector d) all), None) /\
    (forall k r, st_records (srv_store a) !! k = Some r -> Collection r = or_default c -> isInternalID (ID r) = false ->
      exists r', db_records d' !! k = Some r' /\ ~ beats r r') /\
    honest (db_vector d') (db_records d') (filter is_doc all).
Proof.
  intros Ia Id Hcf [Hsort _] Hrec Hlen Ho1 Ho2 Hsz Hent Hh Hok stream Hadv.
  destruct (kv_roundtrip_aux (E := Empty_set) (db_vector d) ∅ order1 order2 [] Ho1 Ho2 Hsz Hent) as (body & Hb & Hu).
  rewrite app_nil_r, map_union_empty in Hu. set (rs := all_missing (db_vector d) all) in *.
  assert (forall r, r ∈ rs -> r ∈ all) as Hsub by (intros r [_ ?]%list_elem_of_filter; done).
  destruct (pull_law now stream rs d Id eq_refl Hok) as (d' & Hp & I' & Hc' & Hm'); [|  |done|].
  { rewrite Forall_forall in *. auto. }
  { rewrite Forall_forall in *. auto. }
  exists body, d'. split_and!; [done| |done|..].
  { unfold handleBinCheck. rewrite bool_decide_true by done. cbn [negb]. by rewrite Hu. }
  all: destruct (st_listall_law c _ Ia) as [_ Hlist].
  all: destruct (anti_entropy_step _ _ _ Hh) as [Hall _]; rewrite <-filter_docs in Hall; fold rs in Hall.
  all: assert (normalize <$> filter is_doc rs = filter is_doc rs) as Hnorm by
    (apply (normalize_stored (srv_store a)); [done|]; intros r [_ Hr%Hsub]%list_elem_of_filter; rewrite Hsort in Hr; by apply Hlist).
  all: rewrite Hnorm in Hm'.
  all: assert (forall r, r ∈ filter is_doc all -> exists r', db_records d' !! rkey r = Some r' /\ ~ beats r r') as Hfin by
    (intros r Hr; pose proof Hr as [Hd Hin]%list_elem_of_filter; destruct (Hall r Hr) as (r' & Hr' & Hb'); exists r'; split; [|done];
     rewrite Hm'; [done|]; rewrite Hsort in Hin; apply Hlist in Hin as [Hin _];
     pose proof (st_colls _ Ia _ _ Hin) as [Hcr _]; unfold rkey, db_key;
     intros [Hk|[Hk|[]%not_elem_of_nil]%elem_of_cons]%elem_of_cons; (apply record_key_inj in Hk as [_ Hk]; [|done|by apply or_default_colon_free]);
     unfold is_doc in Hd; by rewrite Hk in Hd).
  - intros k r Hk Hcol Hd. rewrite <-(st_keyed _ Ia _ _ Hk). apply Hfin, list_elem_of_filter. split; [done|].
    rewrite Hsort. apply Hlist. split; [|done]. by rewrite (st_keyed _ Ia _ _ Hk).
  - intros r Hr _. by apply Hfin.
Qed.
#[export] Instance mem_put_ok_dec r (s : MemoryStore) : Decision (st_put_ok r s).
Proof. cbn [st_put_ok mem_StoreLaws]. apply _. Defined.
#[export] Instance observe_ok_dec now n c (d : DocDB MemoryStore) : Decision (observe_ok now n c d).
Proof. unfold observe_ok. apply _. Defined.
#[export] Instance ingest_ok_dec now r (d : DocDB MemoryStore) : Decision (ingest_ok now r d).
Proof. unfold ingest_ok. apply _. Defined.
#[export] Instance ingests_ok_dec now i rs (d : DocDB MemoryStore) : Decision (ingests_ok now i rs d).
Proof. revert i d. induction rs as [|r rs IH]; intros i d; cbn [ingests_ok]; apply _. Defined.
Definition demo_client : DocDB MemoryStore := New (NewMemoryStore 0 "B") "B" "c".
Definition demo_pull_times : nat -> nat -> Z := fun i n => 100 + 10 * Z.of_nat i + Z.of_nat n.
Lemma pull_complete_witness :
  exists d', pull demo_pull_times (Some (200, bin_stream ∅ demo_listing)) demo_client = (d', 2%nat, None) /\
    exists r', db_records d' !! "c:1" = Some r' /\ ~ beats demo_r1 r'.
Proof.
  assert (db_vector demo_client = ∅) as Hv by reflexivity.
  assert (colon_free "c") as Hcf by (apply (bool_decide_unpack (colon_free _)); vm_compute; exact I).
  destruct (pull_complete demo_remote demo_client "c" demo_listing [] [] demo_pull_times) as (body & d' & _ & _ & Hp & Hall & _).
  - apply demo_remote_inv.
  - apply NewMemoryStore_inv.
  - exact Hcf.
  - apply sort_Slice_sorts. apply _.
  - apply (bool_decide_unpack (Forall record_ok _)). vm_compute. exact I.
  - apply (bool_decide_unpack (Forall _ _)). vm_compute. exact I.
  - by rewrite Hv, map_to_list_empty.
  - by rewrite Hv, map_to_list_empty.
  - rewrite Hv. vm_compute. split; [discriminate|reflexivity].
  - rewrite Hv. apply map_Forall_empty.
  - intros r _. by rewrite Hv.
  - apply (bool_decide_unpack (ingests_ok _ _ _ _)). vm_compute. exact I.
  - intros d1 n m Hl.
    assert (match pull_loop (S (length (bin_stream (db_vector demo_client) demo_listing))) demo_pull_times
        (bin_stream (db_vector demo_client) demo_listing) 0 HLC_zero demo_client with
      | (d1, n, m, None) => bool_decide (advance_ok (demo_pull_times n) m d1)
      | _ => true end = true) as Hc by (vm_compute; reflexivity).
    rewrite Hl in Hc. by apply bool_decide_eq_true in Hc.
  - exists d'. rewrite Hv in Hp. split; [exact Hp|].
    apply (Hall "c:1" demo_r1); [vm_compute; reflexivity|reflexivity|reflexivity].
Defined.

(** The states the loop goes through. *)
Definition live_run (cfg : LiveConfig) (outcomes : list (bool * bool)) : LiveState :=
  foldl (fun s (o : bool * bool) => (live_tick cfg o.1 o.2 s).2) (live_start cfg) outcomes.
Definition live_bounds (cfg : LiveConfig) (x : Duration) : Prop :=
  Z.min (Interval cfg) (BackoffMax cfg) <= x <= Z.max (Interval cfg) (BackoffMax cfg).
Lemma nextBackoff_bounds cfg x : 0 < Interval cfg < 2 ^ 62 -> 0 < BackoffMax cfg < 2 ^ 62 ->
  live_bounds cfg x -> live_bounds cfg (nextBackoff x (BackoffMax cfg)).
Proof.
  intros Hi Hb Hx. unfold live_bounds, nextBackoff, wrap_s in *. rewrite Z.mod_small by lia.
  destruct (Z.ltb_spec (BackoffMax cfg) (x * 2 + 2 ^ (64 - 1) - 2 ^ (64 - 1))); lia.
Qed.
Lemma live_run_bounds cfg outcomes : 0 < Interval cfg < 2 ^ 62 -> 0 < BackoffMax cfg < 2 ^ 62 ->
  live_bounds cfg (backoff (live_run cfg outcomes)).
Proof.
  intros Hi Hb. unfold live_run. induction outcomes as [|[p q] os IH] using rev_ind; [unfold live_bounds; cbn; lia|].
  rewrite foldl_app. cbn [foldl fst snd]. unfold live_tick at 1.
  destruct (_ && negb p); [by apply nextBackoff_bounds|]. destruct (negb q); [by apply nextBackoff_bounds|].
  unfold live_bounds. cbn. lia.
Qed.

(** The polling loop's delays are bounded: with an interval and a cap below 2^62
    nanoseconds, whatever pushes and pulls fail, the time to the next attempt stays
    between the smaller and the larger of the two, so it is positive, and an attempt
    that succeeds brings it back to the interval; every attempt pushes or pulls, and one
    that fails does not use up its turn to push. *)
Theorem Live_backoff_bounded cfg0 outcomes pushOk pullOk :
  let cfg := live_config cfg0 in
  Interval cfg < 2 ^ 62 -> BackoffMax cfg < 2 ^ 62 ->
  let s := live_run cfg outcomes in
  0 < backoff s /\ live_bounds cfg (backoff s) /\
  let '(pushes, pulls, s') := live_tick cfg pushOk pullOk s in
  pushes || pulls = true /\
  (pulls && pullOk = true -> backoff s' = Interval cfg /\ pullCount s' = pullCount s + 1) /\
  (pulls && pullOk = false -> pullCount s' = pullCount s /\ backoff s' = nextBackoff (backoff s) (BackoffMax cfg)).
Proof.
  intros cfg Hi Hb s.
  assert (0 < Interval cfg /\ 0 < BackoffMax cfg) as [Hi0 Hb0].
  { unfold cfg, live_config, Minute, Second. cbn [Interval BackoffMax]. split; case_match; lia. }
  pose proof (live_run_bounds cfg outcomes ltac:(lia) ltac:(lia)) as Hs. fold s in Hs.
  split; [unfold live_bounds in Hs; lia|]. split; [done|]. unfold live_tick.
  set (p := _ =? 0). destruct p, pushOk, pullOk; cbn; split_and!; done.
Qed.
Lemma Live_backoff_bounded_witness : 0 < backoff (live_run (live_config (mkLive 0 0 0)) [(true, false); (false, true)]).
Proof.
  apply (Live_backoff_bounded (mkLive 0 0 0) [(true, false); (false, true)] true true); vm_compute; reflexivity.
Defined.

(** A database that took in a record from a node whose clock is ahead, then two of its own. *)
Definition ahead_record : NellRecord := mkRecord "c" "x" "text" [] [] (mkHLC 1000000 0) "X" false.
Definition put_title (t : Z) (id : string) (d : DocDB MemoryStore) : DocDB MemoryStore :=
  fst (fst (DocDB_Put (fun n => t + Z.of_nat n) false (list_to_map [(FieldID, VStr id); ("title", VStr "t")]) d)).
Definition ahead_db1 : DocDB MemoryStore :=
  put_title 200 "x" (fst (ingestRemote demo_times ahead_record (New (NewMemoryStore 0 "n") "n" "c"))).
Definition ahead_db2 : DocDB MemoryStore := put_title 300 "y" ahead_db1.
(** A peer that pulls everything in between. *)
Definition ahead_peer : DocDB MemoryStore :=
  fst (fst (pull demo_pull_times (Some (200, bin_stream ∅ (st_ListAll "c" (db_store ahead_db1)))) (New (NewMemoryStore 0 "p") "p" "c"))).
(** [Put] stamps a document with a clock made from that document's own past, not from
    the node's: after updating a document that a fast node had written, a node's next
    new document gets an older clock than the one its peers have already seen from it,
    and no check a peer makes with its vector will ever return it. *)
Theorem Put_clock_hides_document :
  (exists doc, DocDB_Get false "y" ahead_db2 = Ok doc) /\ DocDB_Get false "y" ahead_peer = Err ErrNotFound /\
  filter is_doc (all_missing (db_vector ahead_peer) (st_ListAll "c" (db_store ahead_db2))) = [].
Proof.
  assert (match DocDB_Get false "y" ahead_db2, DocDB_Get false "y" ahead_peer,
      filter is_doc (all_missing (db_vector ahead_peer) (st_ListAll "c" (db_store ahead_db2))) with
    | Ok _, Err ErrNotFound, [] => true | _, _, _ => false end = true) as Hc by (vm_compute; reflexivity).
  revert Hc. generalize (DocDB_Get false "y" ahead_db2) (DocDB_Get false "y" ahead_peer)
    (filter is_doc (all_missing (db_vector ahead_peer) (st_ListAll "c" (db_store ahead_db2)))).
  intros [doc| |] [|[]|] [|]; intros Hc; try discriminate Hc. by split; [exists doc|].
Qed.

(** A record from a peer that loses to the local one still replaces the cached
    revision: the document keeps the local content and the revision in its payload, and
    putting back what [Get] returns is refused as a conflict. *)
Theorem ingest_stale_breaks_put :
  let d := fst (ingestRemote demo_times (mkRecord "c" "y" "text" [] [] (mkHLC 1 0) "X" false) ahead_db2) in
  exists doc, DocDB_Get false "y" d = Ok doc /\ DocDB_Get false "y" ahead_db2 = Ok doc /\
    DocDB_Put demo_times false doc d = (d, doc, Err ErrConflict).
Proof.
  cbv zeta. set (d := fst _).
  assert (match DocDB_Get false "y" d, DocDB_Get false "y" ahead_db2 with
    | Ok doc, Ok doc' => bool_decide (doc = doc') && match put_check doc d with Err ErrConflict => true | _ => false end
    | _, _ => false end = true) as Hc by (vm_compute; reflexivity).
  clearbody d. revert Hc. generalize (DocDB_Get false "y" ahead_db2). intros g Hc.
  destruct (DocDB_Get false "y" d) as [doc| |]; [|discriminate Hc..]. destruct g as [doc'| |]; [|discriminate Hc..].
  apply andb_true_iff in Hc as [He Hc]. apply bool_decide_eq_true in He as <-. exists doc. split_and!; [done..|].
  unfold DocDB_Put. destruct (put_check doc d) as [|[]|]; by try discriminate Hc.
Qed.
