(* ===== verification/RevCache.v ===== *)
(** * The revision cache (sdk/docdb.go, sdk/replicate.go)

    A database caches the revision of each document beside its payload, and rebuilds the
    cache from the payloads when it is opened.  This file follows the cache through
    every operation of the database that writes: for which documents it is what the payload says. *)
From S2P Require Import Prelude BigEndian Float Hlc Record KnowledgeVector Conflict MemStore StoreApi Server Json JsonText JsonCodec DocDb DocDbLaws Replicator.
Local Open Scope Z_scope.

Abbreviation ids := (gset string).
Abbreviation heap := (gmap nat Doc).

Section reach.
Context {St : Type} `{StoreLaws St} `{JsonLaws}.
Implicit Types (d : DocDB St) (T : ids).

(** ** The conditions under which the store's writes do not fail *)

Definition put_sound (now : nat -> Z) (doc : Doc) d : Prop :=
  json_object (splitDoc doc) /\ isInternalID (string_field FieldID doc) = false /\ write_ok now doc d.
Definition remove_sound (now : nat -> Z) (arg : remove_arg) d : Prop :=
  forall id wantRev, remove_target arg = Some (id, wantRev) ->
    isInternalID id = false /\ forall base, remove_ok now id (genRev base []) d.
Fixpoint batch_sound (now : nat -> nat -> Z) (ctxDone : nat -> bool) (i : nat) (docs : list nat) (hp : heap) d : Prop :=
  match docs with
  | [] => True
  | l :: docs =>
      put_sound (now i) (default ∅ (hp !! l)) d /\
      match DocDB_Put (now i) (ctxDone (S i)) (default ∅ (hp !! l)) d with
      | (d, doc, Ok _) => batch_sound now ctxDone (S i) docs (<[l := doc]> hp) d
      | _ => True
      end
  end.
Fixpoint destroy_sound (now : nat -> nat -> Z) (ctxDone : nat -> bool) (all : list NellRecord) (i : nat) d : Prop :=
  match all with
  | [] => True
  | rec :: all =>
      if isInternalID (ID rec) then destroy_sound now ctxDone all (S i) d else
      match st_Get (db_collection d) (ID rec) (db_store d) with
      | Ok _ => remove_sound (now i) (ById (ID rec)) d /\ destroy_sound now ctxDone all (S i) (fst (Remove (now i) (ctxDone i) (ById (ID rec)) d))
      | _ => destroy_sound now ctxDone all (S i) d
      end
  end.

(** ** What is reached *)

(** The ids of a batch's documents. *)
Definition batch_ids (docs : list nat) (hp : heap) : ids := list_to_set ((fun l => string_field FieldID (default ∅ (hp !! l))) <$> docs).
(** The databases that opening a store and any of the writing operations reach, whatever they answer, with
    the ids whose cache need not be true: those of a failed batch, and those of a record taken in
    from a peer that the store did not keep, or that has no revision in it.  A later [Put] makes such an id true again,
    and so does opening the store. *)
Inductive docdb_reach : ids -> DocDB St -> Prop :=
| reach_new store node coll : st_inv store -> colon_free coll -> docdb_reach ∅ (New store node coll)
| reach_put now ctxDone doc T d d' doc' r : docdb_reach T d -> put_sound now doc d -> DocDB_Put now ctxDone doc d = (d', doc', r) ->
    docdb_reach (match r with Ok _ => T ∖ {[string_field FieldID doc]} | _ => T end) d'
| reach_remove now ctxDone arg T d d' r : docdb_reach T d -> remove_sound now arg d -> Remove now ctxDone arg d = (d', r) -> docdb_reach T d'
| reach_putmany now ctxDone docs hp T d d' hp' r : docdb_reach T d -> batch_sound now ctxDone 0 docs hp d ->
    PutMany now ctxDone docs hp d = (d', hp', r) ->
    docdb_reach (match r with Ok _ => T ∖ batch_ids docs hp | _ => T ∪ batch_ids docs hp end) d'
| reach_ingest now rec T d d' : docdb_reach T d -> ingest_ok now rec d -> ingestRemote now rec d = (d', true) ->
    docdb_reach (if decide (is_Some (readRev rec) /\ db_records d' !! db_key d (ID rec) = Some (normalize rec))
                 then T ∖ {[ID rec]} else T ∪ {[ID rec]}) d'
| reach_advance now c T d : docdb_reach T d -> advance_ok now c d -> docdb_reach T (fst (advanceClock now c d))
| reach_destroy now ctxDone all T d d' out : docdb_reach T d -> all ≡ₚ st_List (db_collection d) (db_store d) ->
    destroy_sound now ctxDone all 0 d -> Destroy now ctxDone all d = (d', out) ->
    docdb_reach (match out with None => ∅ | Some _ => T end) d'.

(** ** The invariant *)

Definition revs_match T d : Prop := forall id r, isInternalID id = false -> id ∉ T ->
  db_records d !! db_key d id = Some r -> Deleted r = false -> db_revs d !! id = Some (rev_of r).
Record cache_inv T d : Prop := { ch_inv : db_inv d; ch_coll : coll_ok (db_collection d); ch_match : revs_match T d }.

Lemma revs_match_sub T T' d : revs_match T d -> T ⊆ T' -> revs_match T' d.
Proof. intros Hm Hs id r Hi Hn. apply Hm; [done|set_solver]. Qed.
Lemma cache_inv_sub T T' d : cache_inv T d -> T ⊆ T' -> cache_inv T' d.
Proof. intros [I C M] Hs. split; [done..|by eapply revs_match_sub]. Qed.
(** An operation on one document. *)
Lemma match_step T T' id d d' : revs_match T d -> db_collection d' = db_collection d ->
  (forall id', id' <> id -> isInternalID id' = false -> db_records d' !! db_key d id' = db_records d !! db_key d id') ->
  (forall id', id' <> id -> db_revs d' !! id' = db_revs d !! id') -> (forall id', id' <> id -> id' ∉ T' -> id' ∉ T) ->
  (isInternalID id = false -> id ∉ T' -> forall r, db_records d' !! db_key d id = Some r -> Deleted r = false -> db_revs d' !! id = Some (rev_of r)) ->
  revs_match T' d'.
Proof.
  intros Hm Hc Hrec Hrev HT Hid id' r Hi Hn. unfold db_key. rewrite Hc. fold (db_key d id').
  destruct (decide (id' = id)) as [->|Hne]; [by apply Hid|]. intros Hr Hd. rewrite Hrev by done. apply Hm; [done|by apply HT| |done].
  by rewrite <-Hrec.
Qed.

Lemma New_match store node coll : st_inv store -> colon_free coll -> revs_match ∅ (New store node coll).
Proof.
  intros I Hcf id r Hid _ Hr Hd. destruct (New_fields store node coll) as (Hs & Hc & ->).
  unfold db_records, db_key in Hr. rewrite Hs, Hc in Hr. destruct (or_default_ok coll Hcf) as [Hcf' Hne].
  rewrite or_default_id in Hr by done. pose proof (st_keyed _ I _ _ Hr) as Hk. pose proof (st_colls _ I _ _ Hr) as [Hcr _].
  apply record_key_inj in Hk as [Hcol <-]; [|done..]. apply reindex_revs_elem.
  - intros x y. rewrite st_list_law, !list_elem_of_filter. destruct (st_listall_law (or_default coll) store I) as [_ Hel].
    rewrite !Hel. intros (_ & Hx & Hcx) (_ & Hy & Hcy) He. unfold rkey in *. rewrite Hcx, He, <-Hcy in Hx. congruence.
  - rewrite st_list_law, list_elem_of_filter. split; [done|]. apply (st_listall_law (or_default coll) store I).
    rewrite or_default_id by done. unfold rkey. by rewrite Hcol.
Qed.
Lemma New_cache store node coll : st_inv store -> colon_free coll -> cache_inv ∅ (New store node coll).
Proof.
  intros I Hcf. destruct (New_fields store node coll) as (Hs & Hc & _).
  split; [by unfold db_inv; rewrite Hs|rewrite Hc; by apply or_default_ok|by apply New_match].
Qed.

(** ** The operations *)

Lemma put_cache now ctxDone doc T d d' doc' r : cache_inv T d -> put_sound now doc d -> DocDB_Put now ctxDone doc d = (d', doc', r) ->
  cache_inv (match r with Ok _ => T ∖ {[string_field FieldID doc]} | _ => T end) d' /\ string_field FieldID doc' = string_field FieldID doc.
Proof.
  intros [I Hc Hm] (Hj & Hi & Hok). unfold DocDB_Put. destruct ctxDone; [by intros [= <- <- <-]|].
  destruct (put_check doc d) as [[id base]|e|] eqn:Hchk; [|by intros [= <- <- <-]..].
  destruct (put_check_id _ _ _ _ Hchk) as [-> Hne].
  destruct (put_payload_ok doc base Hj) as (raw & final & _ & Hp & Hf & Hu).
  destruct (put_commit_law now doc _ base _ final d I (proj2 Hc) Hi Hp (Hok _ _ _ _ Hchk Hp))
    as (d1 & -> & I' & Hrec & Hoth & Hrevs & Hcol & _). intros [= <- <- <-].
  split; [split; [done|by rewrite Hcol|]|unfold string_field; by rewrite lookup_insert_ne].
  apply (match_step T _ (string_field FieldID doc) d); [done|done| | |set_solver|].
  - intros id' Hx Hx'. apply Hoth; [by intros ?%db_key_inj|by intros ->%db_key_inj].
  - intros id' Hx. by rewrite Hrevs, lookup_insert_ne.
  - intros _ _ r. rewrite Hrec, Hrevs, lookup_insert_eq. intros [= <-] _. f_equal. unfold rev_of, readRev. cbn [put_record_of Payload].
    replace (len final =? 0) with false by (destruct final; [done|by cbn]). by rewrite Hu, lookup_insert_eq.
Qed.

(** A document gone, or never there. *)
Definition dead (id : string) d : Prop := forall r, db_records d !! db_key d id = Some r -> Deleted r = true.
Lemma remove_cache now ctxDone arg T d d' r : cache_inv T d -> remove_sound now arg d -> Remove now ctxDone arg d = (d', r) ->
  cache_inv T d' /\ db_collection d' = db_collection d /\ (forall id, isInternalID id = false -> dead id d -> dead id d') /\
  forall rev, r = Ok rev -> exists id wantRev, remove_target arg = Some (id, wantRev) /\ dead id d'.
Proof.
  intros [I Hc Hm] Hs. unfold Remove. destruct ctxDone; [by intros [= <- <-]|].
  destruct (remove_target arg) as [[id wantRev]|] eqn:Ha; [|by intros [= <- <-]].
  case_bool_decide as Hne; [by intros [= <- <-]|]. destruct (_ && _ && _); [by intros [= <- <-]|].
  destruct (Hs id wantRev Ha) as [Hi Hok]. set (base := if _ && _ then _ else _).
  destruct (remove_commit_law now id base d I (proj2 Hc) Hi (Hok base)) as (d1 & -> & I' & Hrec & Hoth & Hrevs & Hcol & _).
  intros [= <- <-]. assert (forall x, db_key d1 x = db_key d x) as Hk by (intros; unfold db_key; by rewrite Hcol).
  assert (dead id d1) as Hdead by (intros r; rewrite Hk, Hrec; by intros [= <-]).
  split_and!; [split; [done|by rewrite Hcol|]|done| |intros rev _; by exists id, wantRev].
  - apply (match_step T _ id d); [done|done| |intros id' Hx; by rewrite Hrevs, lookup_insert_ne|done|].
    + intros id' Hx Hx'. apply Hoth; [by intros ?%db_key_inj|by intros ->%db_key_inj].
    + intros _ _ r. rewrite Hrec. intros [= <-]. done.
  - intros x Hx Hd. destruct (decide (x = id)) as [->|Hxn]; [done|]. intros r. rewrite Hk.
    assert (db_records d1 !! db_key d x = db_records d !! db_key d x) as -> by (apply Hoth; [by intros ?%db_key_inj|by intros ->%db_key_inj]). apply Hd.
Qed.

(** A batch: up to its failure each document is put as by itself. *)
Lemma batch_ids_cons l docs hp doc' : string_field FieldID doc' = string_field FieldID (default ∅ (hp !! l)) ->
  batch_ids (l :: docs) hp = {[string_field FieldID (default ∅ (hp !! l))]} ∪ batch_ids docs (<[l := doc']> hp).
Proof.
  intros He. unfold batch_ids. cbn [fmap list_fmap list_to_set]. f_equal. f_equal. apply list_fmap_ext. intros i x _.
  destruct (decide (l = x)) as [->|Hx]; [by rewrite lookup_insert_eq|by rewrite lookup_insert_ne].
Qed.
Lemma putmany_loop_cache now ctxDone docs : forall i results hp T d d' hp' r,
  cache_inv T d -> batch_sound now ctxDone i docs hp d -> putmany_loop now ctxDone i docs results hp d = (d', hp', r) ->
  cache_inv (match r with Ok _ => T ∖ batch_ids docs hp | _ => T end) d'.
Proof.
  induction docs as [|l docs IH]; intros i results hp T d d' hp' r I; cbn [putmany_loop batch_sound].
  - intros _ [= <- _ <-]. eapply cache_inv_sub; [done|]. unfold batch_ids. cbn. set_solver.
  - intros [Hs Hb]. destruct (DocDB_Put (now i) (ctxDone (S i)) (default ∅ (hp !! l)) d) as [[d1 doc'] [rev|e|]] eqn:Hput;
      destruct (put_cache _ _ _ _ _ _ _ _ I Hs Hput) as [I1 He]; [|by intros [= <- _ <-]..].
    intros Hl. eapply IH in Hl; [|exact I1|exact Hb]. rewrite (batch_ids_cons l docs hp doc') by done.
    eapply cache_inv_sub; [exact Hl|]. destruct r; set_solver.
Qed.
Lemma rollback_revs prev d id : id ∉ prev.*1 -> db_revs (rollback prev d) !! id = db_revs d !! id.
Proof.
  unfold rollback. cbn [db_revs db_set_revs]. generalize (db_revs d). induction prev as [|[x o] prev IH]; intros revs Hn; [done|].
  cbn in Hn. apply not_elem_of_cons in Hn as [Hx Hn]. cbn [foldl]. rewrite IH by done.
  destruct o; cbn; [by rewrite lookup_insert_ne|by rewrite lookup_delete_ne].
Qed.
Lemma putmany_cache now ctxDone docs hp T d d' hp' r : cache_inv T d -> batch_sound now ctxDone 0 docs hp d ->
  PutMany now ctxDone docs hp d = (d', hp', r) -> cache_inv (match r with Ok _ => T ∖ batch_ids docs hp | _ => T ∪ batch_ids docs hp end) d'.
Proof.
  intros I Hb. unfold PutMany. destruct (ctxDone 0%nat); [intros [= <- _ <-]; eapply cache_inv_sub; [done|set_solver]|].
  destruct (putmany_loop now ctxDone 0 docs [] hp d) as [[d1 hp1] r1] eqn:Hl.
  pose proof (putmany_loop_cache _ _ _ _ _ _ _ _ _ _ _ I Hb Hl) as I1. destruct r1 as [revs|e|]; intros [= <- _ <-]; [done| |].
  - destruct I1 as [I1 C1 M1]. split; [done|done|]. intros id x Hi Hn Hx Hd. rewrite rollback_revs.
    + apply (M1 id x); [done|set_solver|done..].
    + intros Hin. apply Hn, elem_of_union. right. unfold batch_ids. rewrite elem_of_list_to_set. revert Hin.
      rewrite <-list_fmap_compose. intros (l & -> & ?)%list_elem_of_fmap. apply list_elem_of_fmap. by exists l.
  - eapply cache_inv_sub; [done|set_solver].
Qed.

(** A record from a peer. *)
Lemma ingestRemote_revs now r d : ingest_ok now r d -> db_inv d -> isInternalID (ID r) = false ->
  db_revs (fst (ingestRemote now r d)) = <[ID r := default "1-remote" (readRev r)]> (db_revs d).
Proof.
  intros Hok I Hi. unfold ingestRemote. rewrite Hi. destruct (Hok Hi) as [Hr Ho]. destruct (db_put_law r d I Hr) as (st & He & I' & _).
  rewrite He. unfold db_put in He. destruct (st_Put r (db_store d)) as [st' r'] eqn:Hst. injection He as He _. cbn [fst] in Ho. subst st'.
  set (d1 := db_set_revs _ (db_set_store st d)) in *.
  destruct (observeVector_law now (UpdatedBy r) (Clock r) d1 I' Ho) as (_ & _ & Hrv & _). cbn [fst db_broadcast db_revs]. exact Hrv.
Qed.
Lemma rev_of_normalize r : rev_of (normalize r) = rev_of r.
Proof. done. Qed.
Lemma ingest_cache now rec T d d' : cache_inv T d -> ingest_ok now rec d -> ingestRemote now rec d = (d', true) ->
  cache_inv (if decide (is_Some (readRev rec) /\ db_records d' !! db_key d (ID rec) = Some (normalize rec))
    then T ∖ {[ID rec]} else T ∪ {[ID rec]}) d'.
Proof.
  intros [I Hc Hm] Hok He. destruct (ingestRemote_law now rec d I Hok) as (d1 & He1 & I' & Hcol & Hdocs & _).
  rewrite He in He1. injection He1 as <-. split; [done|by rewrite Hcol|].
  destruct (isInternalID (ID rec)) eqn:Hi.
  { unfold ingestRemote in He. rewrite Hi in He. injection He as <-. intros id r Hid Hn. apply Hm; [done|].
    assert (id <> ID rec) by congruence. case_decide; set_solver. }
  pose proof (ingestRemote_revs now rec d Hok I Hi) as Hrevs. rewrite He in Hrevs. cbn [fst] in Hrevs.
  apply (match_step T _ (ID rec) d); [done|done| |intros id' Hx; by rewrite Hrevs, lookup_insert_ne|intros id' Hx; case_decide; set_solver|].
  - intros id' Hx Hx'. assert (db_records d' !! db_key d id' = put_record (db_records d) (normalize rec) !! db_key d id') as Hput.
    { rewrite Hdocs by (rewrite list_elem_of_singleton; by intros ->%db_key_inj). by rewrite filter_cons, filter_nil, decide_True. }
    destruct (decide (db_records d' !! db_key d id' = Some (normalize rec))) as [Hst|Hst].
    + exfalso. apply Hx. pose proof (st_keyed _ I' _ _ Hst) as Hk. pose proof (st_colls _ I' _ _ Hst) as [Hcr _]. cbn in Hk, Hcr.
      unfold db_key in Hk. rewrite or_default_id in Hk by apply Hc. apply record_key_inj in Hk as [_ Hk]; [done|done|apply Hc].
    + rewrite Hput, put_record_lookup in *. case_decide; [|done]. destruct (db_records d !! db_key d id') as [l|]; [|done].
      unfold lww in *. by destruct (ResolveConflict l _).
  - intros _ Hn r Hr Hd. case_decide as Ht; [|set_solver]. destruct Ht as [[rev Hrev] Hst]. rewrite Hst in Hr. injection Hr as <-.
    rewrite Hrevs, lookup_insert_eq, rev_of_normalize. unfold rev_of. by rewrite Hrev.
Qed.

(** The last-seen clock's record. *)
Lemma advance_cache now c T d : cache_inv T d -> advance_ok now c d -> cache_inv T (fst (advanceClock now c d)).
Proof.
  intros [I Hc Hm] Ha. assert (db_revs (fst (advanceClock now c d)) = db_revs d) as Hrevs
    by (unfold advanceClock, writeMetaClock, db_put; case_match; [done|by destruct (st_Put _ _)]).
  destruct (advanceClock_law now c d I Ha) as (d' & He & I' & Hcol & _ & Hdocs). rewrite He in *. cbn [fst] in *.
  split; [done|by rewrite Hcol|]. apply (match_step T T metaClockID d); [done|done| |by intros; rewrite Hrevs|done|done].
  intros id' Hx _. apply Hdocs. rewrite list_elem_of_singleton. by intros ?%db_key_inj.
Qed.

(** *** Destroy *)
Lemma destroy_loop_cache now ctxDone T all : forall i d d' out, cache_inv T d -> destroy_sound now ctxDone all i d ->
  destroy_loop now ctxDone all i d = (d', out) ->
  cache_inv T d' /\ db_collection d' = db_collection d /\ (forall id, isInternalID id = false -> dead id d -> dead id d') /\
  (out = None -> forall r, r ∈ all -> isInternalID (ID r) = false -> dead (ID r) d').
Proof.
  induction all as [|rec all IH]; intros i d d' out I; cbn [destroy_loop destroy_sound].
  - intros _ [= <- <-]. split_and!; [done|done|done|by intros _ r ?%not_elem_of_nil].
  - destruct (isInternalID (ID rec)) eqn:Hi.
    { intros Hs (I' & Hcol & Hk & Hd)%IH; [|done|done]. split_and!; [done..|].
      intros Ho r [->|Hr]%elem_of_cons; [congruence|by apply Hd]. }
    destruct (st_Get (db_collection d) (ID rec) (db_store d)) as [x|e|] eqn:Hg.
    + intros [Hrm Hs]. destruct (Remove (now i) (ctxDone i) (ById (ID rec)) d) as [d1 r] eqn:He. cbn [fst] in Hs.
      destruct (remove_cache _ _ _ _ _ _ _ I Hrm He) as (I1 & Hc1 & Hk1 & Hd1).
      destruct r as [rev|e|]; [|by intros [= <- <-]..]. intros (I' & Hcol & Hk & Hd)%IH; [|done|done].
      split_and!; [done|congruence|by intros; apply Hk, Hk1|].
      intros Ho r [->|Hr]%elem_of_cons Hir; [|by apply Hd]. apply Hk; [done|]. by destruct (Hd1 rev eq_refl) as (? & ? & [= <- <-] & ?).
    + intros Hs (I' & Hcol & Hk & Hd)%IH; [|done|done]. split_and!; [done..|].
      intros Ho r [->|Hr]%elem_of_cons Hir; [|by apply Hd]. apply Hk; [done|]. intros r Hr.
      rewrite st_get_law in Hg. fold (db_key d (ID rec)) in Hg. unfold db_records in Hr. by rewrite Hr in Hg.
    + rewrite st_get_law in Hg. by case_match.
Qed.
Lemma destroy_cache now ctxDone all T d d' out : cache_inv T d -> all ≡ₚ st_List (db_collection d) (db_store d) ->
  destroy_sound now ctxDone all 0 d -> Destroy now ctxDone all d = (d', out) -> cache_inv (match out with None => ∅ | Some _ => T end) d'.
Proof.
  intros I Hall Hs. unfold Destroy. destruct (destroy_loop now ctxDone all 0 d) as [d1 [e|]] eqn:Hl;
    destruct (destroy_loop_cache _ _ T _ _ _ _ _ I Hs Hl) as ([I1 C1 _] & Hcol & Hk & Hd); intros [= <- <-]; [by destruct (destroy_loop_cache _ _ T _ _ _ _ _ I Hs Hl)|].
  split; [done|done|]. intros id r Hi _ Hr Hdel. exfalso.
  assert (db_records d1 !! db_key d1 id = Some r) as Hr1 by exact Hr.
  enough (dead id d1) as Hx by (rewrite (Hx r Hr1) in Hdel; done).
  destruct (db_records d !! db_key d id) as [x|] eqn:Hx; [|apply Hk; [done|]; intros y; by rewrite Hx].
  destruct (Deleted x) eqn:Hdx; [apply Hk; [done|]; intros y; rewrite Hx; by intros [= <-]|].
  pose proof (ch_inv _ _ I) as Id. pose proof (st_keyed _ Id _ _ Hx) as Hkx. pose proof (st_colls _ Id _ _ Hx) as [Hcx _]. cbn in Hkx, Hcx.
  unfold db_key in Hkx. destruct (ch_coll _ _ I) as [Hcf Hne]. rewrite or_default_id in Hkx by done.
  apply record_key_inj in Hkx as [Hcol' <-]; [|done|done]. apply (Hd eq_refl x); [|done].
  rewrite Hall, st_list_law, list_elem_of_filter. split; [done|]. apply (st_listall_law _ _ Id). rewrite or_default_id by done.
  split; [|done]. unfold rkey. rewrite Hcol'. unfold db_records, db_key in Hx. by rewrite or_default_id in Hx.
Qed.

Lemma reach_cache T d : docdb_reach T d -> cache_inv T d.
Proof.
  induction 1 as [store node coll I Hc|now ctx doc T d d' doc' r _ I Hs He|now ctx arg T d d' r _ I Hs He|now ctx docs hp T d d' hp' r _ I Hs He
    |now rec T d d' _ I Hok He|now c T d _ I Ha|now ctx all T d d' out _ I Hall Hs He].
  - by apply New_cache.
  - by eapply put_cache.
  - by eapply remove_cache.
  - by eapply putmany_cache.
  - by eapply ingest_cache.
  - by apply advance_cache.
  - by eapply destroy_cache.
Qed.
End reach.

(** ** Properties *)

Lemma demo_reach : docdb_reach ∅ demo_put.
Proof.
  assert (docdb_reach ∅ demo_db) as Hd by (apply reach_new; [apply NewMemoryStore_inv|]; apply (bool_decide_unpack (colon_free _)); by vm_compute).
  assert (put_sound demo_times demo_doc demo_db) as Hs.
  { split; [apply (bool_decide_unpack (json_object _)); by vm_compute|]. split; [done|apply demo_write_ok]. }
  unfold demo_put. destruct (DocDB_Put demo_times false demo_doc demo_db) as [[d' doc'] r] eqn:He.
  pose proof (reach_put _ _ _ _ _ _ _ _ Hd Hs He) as Hr. cbn [fst].
  replace (match r with Ok _ => ∅ ∖ {[string_field FieldID demo_doc]} | _ => ∅ end) with (∅ : gset string) in Hr; [done|destruct r; set_solver].
Qed.
