(* ===== verification/SyncLaws.v ===== *)
(** * Two clients and a server (sdk/replicate.go with server/main.go)

    A document put at one client, pushed to a server and pulled by another client: the push,
    the handlers and the pull composed, over any three backends. *)
From S2P Require Import Prelude BigEndian Float Hlc Record KnowledgeVector Conflict GoSort Search MemStore StoreApi Server Json JsonText JsonCodec Wire DocDb DocDbLaws Replicator.
Local Open Scope Z_scope.

(** [Push] against a server: its request, the handler, the response. *)
Definition push_to {St C} `{StoreOps St, StoreOps C, Json} (now : nat -> Z) (s : Server C) (d : DocDB St)
    : Server C * (DocDB St * Z * option sync_err) :=
  let '(s, resp, _) := handleBinPush MethodPost (push_request d) s in (s, push now (Some (respond resp)) d).
(** [Pull] against a server whose listing is [all] as sorted, with the vector in map order. *)
Definition pull_from {St C} `{StoreOps St, StoreOps C, Json} (now : nat -> nat -> Z) (all : list NellRecord) (s : Server C) (d : DocDB St)
    : DocDB St * nat * option sync_err :=
  match pull_request (map_to_list (db_vector d)) (map_to_list (db_vector d)) with
  | Ok body => pull now (Some (respond (handleBinCheck MethodPost body all s))) d
  | _ => (d, 0%nat, Some SErrRequest)
  end.

(** A record that beats every other version of itself in a store. *)
Definition newest (r : NellRecord) (m : gmap string NellRecord) : Prop := forall x, m !! rkey r = Some x -> x = r \/ beats r x.
Lemma merge_newest m rs r : newest r m -> (forall x, x ∈ rs -> rkey x = rkey r -> x = r) -> r ∈ rs -> merge m rs !! rkey r = Some r.
Proof.
  intros Hm Hrs Hr. pose proof (merge_spec rs m (rkey r)) as Hs. destruct (merge m rs !! rkey r) as [w|].
  - destruct Hs as [[Hw|[Hw Hk]] Hb]; [|f_equal; by apply Hrs]. destruct (Hm w Hw) as [->|Hbw]; [done|].
    exfalso. by apply (Hb r (or_intror (conj Hr eq_refl))).
  - exfalso. by apply (Hs r), (or_intror (conj Hr eq_refl)).
Qed.
Lemma merge_newest_kept m rs r : m !! rkey r = Some r -> (forall x, x ∈ rs -> rkey x = rkey r -> x = r) -> merge m rs !! rkey r = Some r.
Proof.
  intros Hm Hrs. pose proof (merge_spec rs m (rkey r)) as Hs. destruct (merge m rs !! rkey r) as [w|].
  - destruct Hs as [[Hw|[Hw Hk]] _]; [congruence|]. f_equal. by apply Hrs.
  - exfalso. apply (Hs r). by left.
Qed.

Lemma merge_or_newest m rs r : newest r m -> (forall x, x ∈ rs -> rkey x = rkey r -> x = r) -> r ∈ rs \/ m !! rkey r = Some r ->
  merge m rs !! rkey r = Some r.
Proof. intros Hm Hrs [Hr|Hr]; [by apply merge_newest|by apply merge_newest_kept]. Qed.

Section travel.
Context {A B C : Type} `{StoreLaws A, StoreLaws B, StoreLaws C} `{JsonLaws}.

(** What a client holds under a document's key is that document. *)
Lemma stored_document (d : DocDB A) id r : db_inv d -> coll_ok (db_collection d) -> db_records d !! db_key d id = Some r ->
  rkey r = db_key d id /\ ID r = id /\ Collection r = db_collection d.
Proof.
  intros I [Hcf Hne] Hr. pose proof (st_keyed _ I _ _ Hr) as Hk. pose proof (st_colls _ I _ _ Hr) as [Hc _]. cbn in Hk, Hc.
  split; [done|]. unfold db_key in Hk. rewrite or_default_id in Hk by done. by apply record_key_inj in Hk as [? ?].
Qed.
(** A document's key is none of the bookkeeping records'. *)
Lemma document_key (d : DocDB B) (st : C) r : st_inv st -> coll_ok (db_collection d) -> st_records st !! rkey r = Some r -> is_doc r ->
  rkey r ∉ [db_key d metaVectorID; db_key d metaClockID].
Proof.
  intros Is [Hcf Hne] Hr Hd. pose proof (st_colls _ Is _ _ Hr) as [Hcr _]. unfold rkey, db_key. rewrite or_default_id by done.
  intros [Hk|[Hk|[]%not_elem_of_nil]%elem_of_cons]%elem_of_cons; apply record_key_inj in Hk as [_ Hk]; try done;
    unfold is_doc in Hd; by rewrite Hk in Hd.
Qed.
(** A push leaves the server with everything the client has, merged. *)
Lemma push_to_law now (s : Server C) (d : DocDB A) :
  st_inv (srv_store s) -> db_inv d -> puts_ok (push_records d) (srv_store s) -> Forall record_ok (push_records d) ->
  Forall (fun r => in_u 32 (len (layout r))) (push_records d) ->
  let n := wins (st_records (srv_store s)) (push_records d) in
  exists s' d', push_to now s d = (s', (d', wrap_u 32 n, None)) /\ st_inv (srv_store s') /\
    st_records (srv_store s') = merge (st_records (srv_store s)) (push_records d).
Proof.
  intros Is Id Hp Hok Hlen n. unfold push_to, handleBinPush, push_request. rewrite bool_decide_true by done. cbn [negb].
  rewrite <-(app_nil_r (concat _)). pose proof (bin_stream_length (push_records d)).
  rewrite (binpush_loop_law _ (push_records d) 0 0 [] s []) by (done || lia || (rewrite app_nil_r; lia)).
  destruct (put_all_law (push_records d) _ Is Hp) as [I' Hm]. cbn [respond].
  assert (len (be_bytes 4 (wrap_u 32 n)) = 4) as Hl by (unfold len; by rewrite length_be_bytes).
  unfold push. rewrite Z.add_0_l. fold n. cbn [negb Z.eqb Pos.eqb]. rewrite Hl. cbn [Z.ltb Z.compare Pos.compare Pos.compare_cont].
  rewrite take_ge by (rewrite length_be_bytes; lia).
  assert (in_u 32 (wrap_u 32 n)) as Hw by (unfold in_u, wrap_u; apply Z.mod_pos_bound; lia).
  rewrite be_value_bytes_id by done. eexists _, _. split; [reflexivity|]. cbn [srv_store srv_set_store saw srv_set_kv]. split; [done|].
  rewrite Hm, (normalize_stored (db_store d)); [done|done|]. intros r [_ Hr]%list_elem_of_filter.
  by apply (st_listall_law _ _ Id) in Hr as [Hr _].
Qed.
(** The server reads the vector as it was sent. *)
Lemma pull_from_answer now all (s : Server C) (b : DocDB B) :
  in_u 16 (Z.of_nat (size (db_vector b))) -> map_Forall (fun n c => entry_ok (n, c)) (db_vector b) ->
  pull_from now all s b = pull now (Some (200, bin_stream (db_vector b) all)) b.
Proof.
  intros Hsz Hent.
  destruct (kv_roundtrip_aux (E := Empty_set) (db_vector b) ∅ _ _ [] (reflexivity _) (reflexivity _) Hsz Hent) as (body & Hb & Hu).
  rewrite app_nil_r, map_union_empty in Hu. unfold pull_from, pull_request. rewrite Hb. unfold handleBinCheck.
  rewrite bool_decide_true by done. cbn [negb]. by rewrite Hu.
Qed.
(** A pull from a server leaves the client with the documents it was missing, merged. *)
Lemma pull_from_law now all (s : Server C) (b : DocDB B) :
  st_inv (srv_store s) -> db_inv b -> (forall r, r ∈ all -> st_records (srv_store s) !! rkey r = Some r) ->
  Forall record_ok all -> Forall (fun r => in_u 32 (len (layout r))) all ->
  in_u 16 (Z.of_nat (size (db_vector b))) -> map_Forall (fun n c => entry_ok (n, c)) (db_vector b) ->
  ingests_ok now 0 (all_missing (db_vector b) all) b ->
  (forall d n m, pull_loop (S (length (bin_stream (db_vector b) all))) now (bin_stream (db_vector b) all) 0 HLC_zero b = (d, n, m, None) ->
    advance_ok (now n) m d) ->
  exists b', pull_from now all s b = (b', length (all_missing (db_vector b) all), None) /\ db_inv b' /\ db_collection b' = db_collection b /\
    forall k, k ∉ [db_key b metaVectorID; db_key b metaClockID] ->
      db_records b' !! k = merge (db_records b) (filter is_doc (all_missing (db_vector b) all)) !! k.
Proof.
  intros Is Ib Hall Hok Hlen Hsz Hent Hing Hadv. set (rs := all_missing (db_vector b) all) in *.
  assert (forall r, r ∈ rs -> r ∈ all) as Hsub by (intros r [_ ?]%list_elem_of_filter; done).
  destruct (pull_law now (bin_stream (db_vector b) all) rs b Ib eq_refl Hing) as (b' & Hpull & Ib' & Hcb' & Hm'); [| |done|].
  { rewrite Forall_forall in *. auto. }
  { rewrite Forall_forall in *. auto. }
  rewrite (normalize_stored (srv_store s)) in Hm'; [|done|].
  - exists b'. split; [|done]. by rewrite pull_from_answer.
  - intros r [_ Hr%Hsub%Hall]%list_elem_of_filter. done.
Qed.
(** What a push of everything leaves of a record no version of which is newer at the server. *)
Lemma pushed_there (a : DocDB A) (m : gmap string NellRecord) id ra : db_inv a -> coll_ok (db_collection a) ->
  isInternalID id = false -> db_records a !! db_key a id = Some ra -> newest ra m -> merge m (push_records a) !! rkey ra = Some ra.
Proof.
  intros Ia Hca Hint Hra Hn. destruct (stored_document a id ra Ia Hca Hra) as (Hk & Hid & Hcol). apply merge_newest; [done| |].
  - intros x [_ [Hx _]%(st_listall_law _ _ Ia)]%list_elem_of_filter Hkx. unfold db_records in Hra. rewrite Hkx, Hk in Hx. congruence.
  - apply list_elem_of_filter. rewrite Hid. split; [done|]. apply (st_listall_law _ _ Ia). unfold db_records in Hra.
    rewrite Hk, Hcol. split; [done|]. symmetry. apply or_default_id, Hca.
Qed.
(** A document of the listing no version of which is newer at an honest client is there after
    the pull's merge. *)
Lemma pulled_there (b : DocDB B) all ra : (forall x, x ∈ all -> rkey x = rkey ra -> x = ra) -> ra ∈ all -> is_doc ra ->
  honest (db_vector b) (db_records b) (filter is_doc all) -> newest ra (db_records b) ->
  merge (db_records b) (filter is_doc (all_missing (db_vector b) all)) !! rkey ra = Some ra.
Proof.
  intros Hu Hin Hda Hh Hnb. apply merge_or_newest; [done| |].
  - intros x [_ [_ Hx]%list_elem_of_filter]%list_elem_of_filter. by apply Hu.
  - destruct (is_missing (db_vector b) ra) eqn:Hmiss.
    + left. apply list_elem_of_filter. split; [done|]. by apply list_elem_of_filter.
    + right. destruct (Hh ra) as (x & Hx & Hbx); [by apply list_elem_of_filter|done|]. destruct (Hnb x Hx) as [->|]; done.
Qed.
End travel.

(** ** Properties *)

(** C14. A document travels: what one client holds under an id, pushed to a server and pulled
    by another client of the collection, is what the other client then gets under that id,
    revision and all (or it gets nothing, when the document was removed), provided no
    version of it is newer at the server or the other client and the other client's vector
    claims nothing of the listing it lacks; neither call ends in an error, and every other
    document of the server's collection arrives too, or one it does not beat. *)
Theorem document_travels {A B C} `{StoreLaws A, StoreLaws B, StoreLaws C} `{JsonLaws}
    (a : DocDB A) (s : Server C) (b : DocDB B) id ra all nowA now :
  db_inv a -> db_inv b -> st_inv (srv_store s) -> coll_ok (db_collection a) -> db_collection b = db_collection a ->
  isInternalID id = false -> db_records a !! db_key a id = Some ra ->
  newest ra (st_records (srv_store s)) -> newest ra (db_records b) ->
  puts_ok (push_records a) (srv_store s) -> Forall record_ok (push_records a) ->
  Forall (fun r => in_u 32 (len (layout r))) (push_records a) ->
  let s' := fst (push_to nowA s a) in
  sorts clock_less (st_ListAll (db_collection a) (srv_store s')) all ->
  Forall record_ok all -> Forall (fun r => in_u 32 (len (layout r))) all ->
  in_u 16 (Z.of_nat (size (db_vector b))) -> map_Forall (fun n c => entry_ok (n, c)) (db_vector b) ->
  honest (db_vector b) (db_records b) (filter is_doc all) ->
  ingests_ok now 0 (all_missing (db_vector b) all) b ->
  (forall d n m, pull_loop (S (length (bin_stream (db_vector b) all))) now (bin_stream (db_vector b) all) 0 HLC_zero b = (d, n, m, None) ->
    advance_ok (now n) m d) ->
  (exists a' n, snd (push_to nowA s a) = (a', n, None)) /\
  exists b', pull_from now all s' b = (b', length (all_missing (db_vector b) all), None) /\
    DocDB_Get false id b' = DocDB_Get false id a /\
    forall r, r ∈ all -> is_doc r -> exists r', db_records b' !! rkey r = Some r' /\ ~ beats r r'.
Proof.
  intros Ia Ib Is Hca Hcb Hint Hra Hns Hnb Hp Hrok Hrlen.
  destruct (push_to_law nowA s a Is Ia Hp Hrok Hrlen) as (s' & a' & -> & Is' & Hs'). cbn [fst snd]. cbn zeta.
  intros [Hsort _] Hok Hlen Hsz Hent Hh Hing Hadv. split; [by eexists _, _|].
  destruct (stored_document a id ra Ia Hca Hra) as (Hk & Hid & Hcol).
  pose proof (pushed_there a _ id ra Ia Hca Hint Hra Hns) as Hras. rewrite <-Hs' in Hras.
  destruct (st_listall_law (db_collection a) _ Is') as [_ Hl].
  assert (forall r, r ∈ all -> st_records (srv_store s') !! rkey r = Some r) as Hall by (intros r Hr; rewrite Hsort in Hr; by apply Hl in Hr as [? _]).
  assert (ra ∈ all) as Hin.
  { rewrite Hsort. apply Hl. split; [done|]. rewrite Hcol. symmetry. apply or_default_id, Hca. }
  destruct (pull_from_law now all s' b Is' Ib Hall Hok Hlen Hsz Hent Hing Hadv) as (b' & Hpull & _ & Hcb' & Hm').
  assert (forall r, r ∈ all -> is_doc r -> rkey r ∉ [db_key b metaVectorID; db_key b metaClockID]) as Hdoc.
  { intros r Hr Hd. apply (document_key b (srv_store s')); [done|by rewrite Hcb|by apply Hall|done]. }
  assert (is_doc ra) as Hda by (unfold is_doc; by rewrite Hid).
  exists b'. split; [done|]. split.
  - rewrite !DocDB_Get_law, Hra. replace (db_key b' id) with (rkey ra) by (rewrite Hk; unfold db_key; by rewrite Hcb', Hcb).
    rewrite Hm' by (by apply Hdoc). rewrite (pulled_there b all ra); [done| |done..].
    intros x Hx%Hall Hkx. rewrite Hkx in Hx. congruence.
  - intros r Hr Hd. destruct (anti_entropy_step _ _ _ Hh) as [Hfin _]. rewrite <-filter_docs in Hfin.
    destruct (Hfin r) as (r' & Hr' & Hb'); [by apply list_elem_of_filter|]. exists r'. split; [|done]. by rewrite Hm' by by apply Hdoc.
Qed.
(** A client with a document, an empty server, and a new client. *)
Definition travel_pull_times (i n : nat) : Z := 200 + 10 * Z.of_nat i + Z.of_nat n.
Definition travel_b : DocDB MemoryStore := New (NewMemoryStore 0 "b") "b" "".
Definition travel_server : Server MemoryStore := Server_New (NewMemoryStore 0 "S") "S" (Some ∅).
Definition travel_s' : Server MemoryStore := fst (push_to demo_times travel_server demo_put).
Definition travel_listing : list NellRecord := sort_Slice clock_less (st_ListAll DefaultCollection (srv_store travel_s')).
Lemma travel_s'_inv : st_inv (srv_store travel_s').
Proof.
  destruct (push_to_law demo_times travel_server demo_put) as (s' & d' & Hp & I' & _).
  - apply (NewMemoryStore_inv 0 "S").
  - apply demo_put_inv.
  - apply mem_puts_ok. vm_compute. reflexivity.
  - apply (bool_decide_unpack (Forall record_ok _)). vm_compute. exact I.
  - apply (bool_decide_unpack (Forall _ _)). vm_compute. exact I.
  - unfold travel_s'. by rewrite Hp.
Qed.
Lemma document_travels_witness :
  exists b' n, pull_from travel_pull_times travel_listing travel_s' travel_b = (b', n, None) /\
    DocDB_Get false "a" b' = DocDB_Get false "a" demo_put.
Proof.
  assert (is_Some (db_records demo_put !! db_key demo_put "a")) as [ra Hra] by (apply (bool_decide_unpack _); vm_compute; exact I).
  assert (db_vector travel_b = ∅) as Hv by reflexivity.
  destruct (document_travels demo_put travel_server travel_b "a" ra travel_listing demo_times travel_pull_times)
    as (_ & b' & Hp & Hg & _).
  - apply demo_put_inv.
  - apply NewMemoryStore_inv.
  - apply (NewMemoryStore_inv 0 "S").
  - split; apply (bool_decide_unpack _); vm_compute; exact I.
  - reflexivity.
  - reflexivity.
  - exact Hra.
  - intros x Hx. vm_compute in Hx. discriminate Hx.
  - intros x Hx. vm_compute in Hx. discriminate Hx.
  - apply mem_puts_ok. vm_compute. reflexivity.
  - apply (bool_decide_unpack (Forall record_ok _)). vm_compute. exact I.
  - apply (bool_decide_unpack (Forall _ _)). vm_compute. exact I.
  - apply sort_Slice_sorts. apply _.
  - apply (bool_decide_unpack (Forall record_ok _)). vm_compute. exact I.
  - apply (bool_decide_unpack (Forall _ _)). vm_compute. exact I.
  - rewrite Hv. vm_compute. split; [discriminate|reflexivity].
  - rewrite Hv. apply map_Forall_empty.
  - intros r _. by rewrite Hv.
  - apply (bool_decide_unpack (ingests_ok _ _ _ _)). vm_compute. exact I.
  - intros d1 n m Hl.
    assert (match pull_loop (S (length (bin_stream (db_vector travel_b) travel_listing))) travel_pull_times
        (bin_stream (db_vector travel_b) travel_listing) 0 HLC_zero travel_b with
      | (d1, n, m, None) => bool_decide (advance_ok (travel_pull_times n) m d1)
      | _ => true end = true) as Hc by (vm_compute; reflexivity).
    rewrite Hl in Hc. by apply bool_decide_eq_true in Hc.
  - exists b', (length (all_missing (db_vector travel_b) travel_listing)). split; [exact Hp|exact Hg].
Defined.
