(* ===== verification/PullLoop.v ===== *)
(** * Pulling until nothing comes (examples/sync-bench/main.go over sdk/replicate.go)

    A client that pulls until a pull brings nothing: what the pulls leave in its knowledge
    vector, when the loop ends, and with which listings it never does. *)
From S2P Require Import Prelude BigEndian Float Hlc Record KnowledgeVector Conflict GoSort Search MemStore StoreApi Server Json JsonText JsonCodec Wire DocDb DocDbLaws Replicator SyncLaws.
Local Open Scope Z_scope.

(** The loop, against a server that nothing else changes: [all i] is its listing as the [i]-th
    pull sorts it, [now i] that pull's clock.  [None] when [fuel] pulls were not enough. *)
Fixpoint pull_all {St C} `{StoreOps St, StoreOps C, Json} (fuel i : nat) (now : nat -> nat -> nat -> Z) (all : nat -> list NellRecord)
    (s : Server C) (d : DocDB St) (totalIngested : Z) : option (DocDB St * res string Z) :=
  match fuel with
  | O => None
  | S fuel =>
      match pull_from (now i) (all i) s d with
      | (d, _, Some _) => Some (d, Err "Pull failed")
      | (d, ingested, None) =>
          let totalIngested := totalIngested + Z.of_nat ingested in
          if (ingested =? 0)%nat then Some (d, Ok totalIngested) else pull_all fuel (S i) now all s d totalIngested
      end
  end.

Lemma pull_all_more {St C} `{StoreOps St, StoreOps C, Json} now all (s : Server C) fuel' r : forall fuel i (d : DocDB St) total,
  (fuel <= fuel')%nat -> pull_all fuel i now all s d total = Some r -> pull_all fuel' i now all s d total = Some r.
Proof.
  induction fuel' as [|fuel' IH]; intros fuel i d total Hf; (destruct fuel as [|fuel]; [done|]); [lia|]. cbn [pull_all].
  destruct (pull_from _ _ _ _) as [[d1 n] [e|]]; [done|]. destruct (n =? 0)%nat; [done|]. apply IH. lia.
Qed.

(** ** The vector *)

(** What a document taken in does to the vector. *)
Definition kv_observe (kv : gmap string HLC) (r : NellRecord) : gmap string HLC :=
  if negb (bool_decide (UpdatedBy r = "")) && HLC_GreaterThan (Clock r) (default HLC_zero (kv !! UpdatedBy r))
  then <[UpdatedBy r := Clock r]> kv else kv.
(** A record that a vector can account for. *)
Definition stamped (r : NellRecord) : Prop := UpdatedBy r <> "" /\ HLC_GreaterThan (Clock r) HLC_zero = true.

Lemma kv_observe_mono kv r n c : kv_covers kv n c -> kv_covers (kv_observe kv r) n c.
Proof.
  intros (x & Hx & Hle). unfold kv_observe, kv_covers. destruct (negb _ && _) eqn:Ho; [|by exists x].
  destruct (decide (UpdatedBy r = n)) as [<-|Hn]; [|exists x; by rewrite lookup_insert_ne].
  exists (Clock r). rewrite lookup_insert_eq. split; [done|]. apply andb_true_iff in Ho as [_ Ho]. rewrite Hx in Ho. cbn [default] in Ho.
  apply (hlc_gt_le (Clock r) x) in Ho. by transitivity x.
Qed.
Lemma kv_observes_mono rs n c : forall kv, kv_covers kv n c -> kv_covers (foldl kv_observe kv rs) n c.
Proof. induction rs as [|r rs IH]; intros kv Hc; [done|]. by apply IH, kv_observe_mono. Qed.
Lemma kv_observe_covers kv r : stamped r -> kv_covers (kv_observe kv r) (UpdatedBy r) (Clock r).
Proof.
  intros [Hn Hc]. unfold kv_observe, kv_covers. rewrite bool_decide_false by done. cbn [negb andb].
  destruct (HLC_GreaterThan _ (default _ _)) eqn:Ho; [exists (Clock r); split; [by rewrite lookup_insert_eq|reflexivity]|].
  destruct (kv !! UpdatedBy r) as [x|] eqn:Hx; cbn [default] in Ho; [by exists x|congruence].
Qed.
Lemma kv_observes_covers rs r : r ∈ rs -> stamped r -> forall kv, kv_covers (foldl kv_observe kv rs) (UpdatedBy r) (Clock r).
Proof.
  induction rs as [|x rs IH]; [by intros ?%elem_of_nil|]. intros [->|Hr]%elem_of_cons Hs kv; cbn [foldl]; [|by apply IH].
  by apply kv_observes_mono, kv_observe_covers.
Qed.
(** The entries observing makes: of a name, and above zero. *)
Definition signed (kv : gmap string HLC) : Prop := map_Forall (fun n c => n <> "" /\ hlc_gt c HLC_zero) kv.
Lemma kv_observe_signed kv r : signed kv -> signed (kv_observe kv r).
Proof.
  intros Hk. unfold kv_observe. case_bool_decide as Hn; [done|]. cbn [negb andb]. destruct (HLC_GreaterThan _ _) eqn:Ho; [|done].
  apply map_Forall_insert_2; [|done]. split; [done|]. destruct (kv !! UpdatedBy r) as [c|] eqn:Hc; cbn [default] in Ho; [|exact Ho].
  apply (hlc_gt_trans _ c); [exact Ho|apply (Hk _ _ Hc)].
Qed.
Lemma kv_observe_source kv r n c : signed kv -> kv_covers (kv_observe kv r) n c -> kv_covers kv n c \/ (stamped r /\ UpdatedBy r = n /\ hlc_le c (Clock r)).
Proof.
  intros Hk (x & Hx & Hle). pose proof (kv_observe_signed kv r Hk) as Hk'. unfold kv_observe in *. destruct (negb _ && _) eqn:Ho; [|left; by exists x].
  apply lookup_insert_Some in Hx as [[Hn <-]|[_ Hx]]; [|left; by exists x]. right.
  destruct (Hk' (UpdatedBy r) (Clock r) (lookup_insert_eq _ _ _)) as [? ?]. done.
Qed.
Lemma kv_observes_signed rs : forall kv, signed kv -> signed (foldl kv_observe kv rs).
Proof. induction rs as [|r rs IH]; intros kv Hk; [done|]. by apply IH, kv_observe_signed. Qed.
(** [signed] of a whole stream: what is covered was, or a stamped document covers it. *)
Lemma kv_observes_source rs n c : forall kv, signed kv -> kv_covers (foldl kv_observe kv rs) n c ->
  kv_covers kv n c \/ exists x, x ∈ rs /\ stamped x /\ UpdatedBy x = n /\ hlc_le c (Clock x).
Proof.
  induction rs as [|r rs IH]; intros kv Hk; [by left|]. cbn [foldl]. intros [Hc|(x & Hx & ?)]%IH; [|right; exists x; split; [by right|done]|by apply kv_observe_signed].
  apply kv_observe_source in Hc as [?|?]; [by left|right; exists r; split; [by left|done]|done].
Qed.
(** Among some records a document that its node stamped accounts for an earlier one of the node's. *)
Definition accounted (rs : list NellRecord) (r : NellRecord) : Prop :=
  exists x, x ∈ rs /\ is_doc x /\ stamped x /\ UpdatedBy x = UpdatedBy r /\ hlc_le (Clock r) (Clock x).
Definition accounted_dec rs r : Decision (accounted rs r).
Proof.
  refine (cast_if (decide (Exists (fun x => is_doc x /\ stamped x /\ UpdatedBy x = UpdatedBy r /\ hlc_le (Clock r) (Clock x)) rs)));
    unfold accounted;
    [by apply Exists_exists|intros Ha; by apply Exists_exists in Ha].
Defined.
Lemma accounted_self rs r : r ∈ rs -> is_doc r -> stamped r -> accounted rs r.
Proof. intros ? ? ?. exists r. split_and!; [done..|reflexivity]. Qed.
(** Nothing of a listing is missing once what was missing is observed, if that accounts for it. *)
Lemma nothing_missing kv all : Forall (accounted (all_missing kv all)) (all_missing kv all) ->
  all_missing (foldl kv_observe kv (filter is_doc (all_missing kv all))) all = [].
Proof.
  rewrite Forall_forall. intros Hall. destruct (all_missing (foldl _ _ _) all) as [|r rest] eqn:He; [done|]. exfalso.
  assert (r ∈ r :: rest) as Hm by by left. rewrite <-He in Hm. apply list_elem_of_filter in Hm as [Hm Hr].
  enough (is_missing (foldl kv_observe kv (filter is_doc (all_missing kv all))) r = false) by congruence.
  apply is_missing_false. destruct (is_missing kv r) eqn:Hk; [|by apply kv_observes_mono, is_missing_false].
  destruct (Hall r) as (x & Hx & Hd & Hs & <- & Hle); [by apply list_elem_of_filter|]. eapply kv_covers_le; [|exact Hle].
  apply kv_observes_covers; [by apply list_elem_of_filter|done].
Qed.

Lemma filter_docs_id l : Forall is_doc l -> filter is_doc l = l.
Proof. induction 1 as [|r l Hr _ IH]; [done|]. by rewrite filter_cons_True, IH. Qed.
(** A vector that fits the encoding, with room for every node of a listing. *)
Definition vector_fits (listing : list NellRecord) (kv : gmap string HLC) : Prop :=
  map_Forall (fun n c => entry_ok (n, c)) kv /\
  in_u 16 (Z.of_nat (size (dom kv ∪ list_to_set (UpdatedBy <$> listing) : gset string))).
Lemma vector_fits_size listing kv : vector_fits listing kv -> in_u 16 (Z.of_nat (size kv)).
Proof.
  intros [_ [_ Hs]]. rewrite <-size_dom. split; [lia|]. eapply Z.le_lt_trans; [|exact Hs].
  apply inj_le, subseteq_size. set_solver.
Qed.
Lemma vector_fits_observe listing rs : Forall record_ok listing -> (forall r, r ∈ rs -> r ∈ listing) ->
  forall kv, vector_fits listing kv -> vector_fits listing (foldl kv_observe kv rs).
Proof.
  intros Hok. induction rs as [|r rs IH]; intros Hsub kv Hkv; [done|]. cbn [foldl]. apply IH; [intros x Hx; apply Hsub; by right|].
  unfold kv_observe. destruct (negb _ && _); [|done]. destruct Hkv as [He Hs]. split.
  - apply map_Forall_insert_2; [|done]. rewrite Forall_forall in Hok. destruct (Hok r) as (Hc & _ & _ & _ & Hu & _); [apply Hsub; by left|].
    by split.
  - rewrite dom_insert_L. replace ({[UpdatedBy r]} ∪ dom kv ∪ list_to_set (UpdatedBy <$> listing) : gset string)
      with (dom kv ∪ list_to_set (UpdatedBy <$> listing) : gset string); [done|].
    assert (UpdatedBy r ∈ UpdatedBy <$> listing) by (apply list_elem_of_fmap; exists r; split; [done|apply Hsub; by left]).
    apply set_eq. intros x. rewrite !elem_of_union, elem_of_singleton, elem_of_list_to_set.
    split; [intros [?|?]|intros [[->|?]|?]]; auto.
Qed.

Section vector.
Context {A C : Type} `{StoreOps A, StoreOps C, Json}.

Lemma db_put_vector rec (d : DocDB A) : db_vector (fst (db_put rec d)) = db_vector d.
Proof. unfold db_put. by destruct (st_Put _ _). Qed.
Lemma ingestRemote_vector now r (d d' : DocDB A) : ingestRemote now r d = (d', true) ->
  db_vector d' = foldl kv_observe (db_vector d) (filter is_doc [r]).
Proof.
  unfold ingestRemote. rewrite filter_cons, filter_nil. destruct (isInternalID (ID r)) eqn:Hi.
  - intros [= <-]. by rewrite decide_False by (unfold is_doc; congruence).
  - rewrite decide_True by done. pose proof (db_put_vector r d) as Hv. destruct (db_put r d) as [d1 [|]]; [|done]. cbn [fst] in Hv.
    intros [= <-]. cbn [foldl db_vector db_broadcast]. unfold observeVector, kv_observe, observes.
    cbn [db_vector db_set_revs]. rewrite <-Hv. destruct (negb _ && _); [|done].
    unfold writeMetaVector. by rewrite db_put_vector.
Qed.
Lemma advanceClock_vector now c (d : DocDB A) : db_vector (fst (advanceClock now c d)) = db_vector d.
Proof. unfold advanceClock. destruct (negb _); [done|]. unfold writeMetaClock. by rewrite db_put_vector. Qed.

(** A pull without an error counts every frame and observes every document. *)
Lemma pull_loop_vector now rs : forall fuel (d d' : DocDB A) n n' m m',
  Forall record_ok rs -> Forall (fun r => in_u 32 (len (layout r))) rs -> (length rs < fuel)%nat ->
  pull_loop fuel now (concat (map bin_record rs)) n m d = (d', n', m', None) ->
  n' = (n + length rs)%nat /\ db_vector d' = foldl kv_observe (db_vector d) (filter is_doc rs).
Proof.
  induction rs as [|r rs IH]; intros fuel d d' n n' m m' Hok Hlen Hf; (destruct fuel as [|fuel]; [cbn in Hf; lia|]).
  - cbn. intros [= <- <- _]. split; [lia|done].
  - inversion_clear Hok as [|?? Hr Hrs]. inversion_clear Hlen as [|?? Hl Hls]. cbn [map concat]. rewrite pull_loop_frame by done.
    destruct (ingestRemote (now n) r d) as [d1 [|]] eqn:Hi; [|done].
    intros [-> ->]%IH; [|done|done|cbn in Hf; lia]. split; [cbn [length]; lia|].
    rewrite (ingestRemote_vector _ _ _ _ Hi). replace (r :: rs) with ([r] ++ rs) by done. by rewrite filter_app, foldl_app.
Qed.
Lemma pull_vector now rs (d d' : DocDB A) n : Forall record_ok rs -> Forall (fun r => in_u 32 (len (layout r))) rs ->
  pull now (Some (200, concat (map bin_record rs))) d = (d', n, None) ->
  n = length rs /\ db_vector d' = foldl kv_observe (db_vector d) (filter is_doc rs).
Proof.
  intros Hok Hlen. unfold pull. cbn [negb Z.eqb Pos.eqb].
  destruct (pull_loop _ _ _ _ _ _) as [[[d1 n1] m] [e|]] eqn:Hl; [done|].
  apply pull_loop_vector in Hl as [-> Hv]; [|done|done|pose proof (bin_stream_length rs); lia]. cbn [Nat.add].
  destruct (HLC_GreaterThan m HLC_zero); [|by intros [= <- <-]].
  pose proof (advanceClock_vector (now (length rs)) m d1) as Ha. destruct (advanceClock _ m d1) as [d2 [|]]; [|done]. cbn [fst] in Ha.
  intros [= <- <-]. by rewrite Ha.
Qed.
End vector.

Section loop.
Context {A C : Type} `{StoreLaws A, StoreLaws C} `{JsonLaws}.

(** A pull of a listing with nothing new. *)
Lemma pull_from_nothing now all (s : Server C) (d : DocDB A) :
  in_u 16 (Z.of_nat (size (db_vector d))) -> map_Forall (fun n c => entry_ok (n, c)) (db_vector d) ->
  all_missing (db_vector d) all = [] -> pull_from now all s d = (d, 0%nat, None).
Proof. intros Hsz Hent Hm. rewrite pull_from_answer by done. unfold bin_stream. fold (all_missing (db_vector d) all). by rewrite Hm. Qed.
(** A pull without an error, of any listing. *)
Lemma pull_from_vector now listing all (s : Server C) (d d' : DocDB A) n :
  vector_fits listing (db_vector d) -> Forall record_ok listing -> Forall (fun r => in_u 32 (len (layout r))) listing -> all ≡ₚ listing ->
  pull_from now all s d = (d', n, None) ->
  n = length (all_missing (db_vector d) all) /\ db_vector d' = foldl kv_observe (db_vector d) (filter is_doc (all_missing (db_vector d) all)) /\
  vector_fits listing (db_vector d').
Proof.
  intros Hv Hok Hlen Hp. pose proof (vector_fits_size _ _ Hv) as Hsz. destruct Hv as [Hent Hu].
  assert (forall r, r ∈ all_missing (db_vector d) all -> r ∈ listing) as Hsub by (intros r [_ Hr]%list_elem_of_filter; by rewrite <-Hp).
  rewrite pull_from_answer by done. intros [-> Hv']%(pull_vector now (all_missing (db_vector d) all)); [|rewrite Forall_forall in *; auto..].
  split; [done|]. split; [done|]. rewrite Hv'. apply vector_fits_observe; [done| |by split].
  intros r [_ Hr]%list_elem_of_filter. by apply Hsub.
Qed.
(** While a record is missing that nothing missing accounts for, no pull without an error
    brings nothing. *)
Lemma pull_all_unaccounted listing now all (s : Server C) M r :
  Forall record_ok listing -> Forall (fun r => in_u 32 (len (layout r))) listing -> (forall i, all i ≡ₚ listing) ->
  r ∈ listing -> ~ accounted M r ->
  forall fuel i (d : DocDB A) total, vector_fits listing (db_vector d) -> signed (db_vector d) -> is_missing (db_vector d) r = true ->
  (forall x, x ∈ listing -> is_missing (db_vector d) x = true -> x ∈ M) ->
  forall d' n, pull_all fuel i now all s d total <> Some (d', Ok n).
Proof.
  intros Hok Hlen Hp Hr Hna. induction fuel as [|fuel IH]; intros i d total Hv Hs Hm HM d' n; [done|]. cbn [pull_all].
  destruct (pull_from (now i) (all i) s d) as [[d1 n1] [e|]] eqn:Hpull; [done|].
  destruct (pull_from_vector _ listing _ _ _ _ _ Hv Hok Hlen (Hp i) Hpull) as (-> & Hv1 & Hf).
  assert (r ∈ all_missing (db_vector d) (all i)) as Hin by (apply list_elem_of_filter; split; [done|by rewrite (Hp i)]).
  destruct (length (all_missing (db_vector d) (all i))) as [|k] eqn:Hl; [apply length_zero_iff_nil in Hl; rewrite Hl in Hin; by apply not_elem_of_nil in Hin|].
  cbn [Nat.eqb]. apply IH; [done|rewrite Hv1; by apply kv_observes_signed|..]; rewrite Hv1.
  - destruct (is_missing (foldl _ _ _) r) eqn:Hm1; [done|]. exfalso. apply is_missing_false in Hm1.
    apply kv_observes_source in Hm1 as [Hc|(x & Hx & Hst & Hu & Hle)]; [apply is_missing_false in Hc; congruence| |done].
    apply list_elem_of_filter in Hx as [Hd Hx]. apply list_elem_of_filter in Hx as [Hxm Hx]. rewrite (Hp i) in Hx.
    apply Hna. exists x. split_and!; [by apply HM|done..].
  - intros x Hx Hxm. apply HM; [done|]. destruct (is_missing (db_vector d) x) eqn:Hx0; [done|]. apply is_missing_false in Hx0.
    apply (kv_observes_mono (filter is_doc (all_missing (db_vector d) (all i)))) in Hx0. apply is_missing_false in Hx0. congruence.
Qed.
End loop.

(** ** Properties *)

(** C30. When pulling until nothing comes ends: exactly when for every record the client misses of the
    server's listing there is a document among those it misses, of the same node, not earlier, and
    stamped with a name and a clock above zero; otherwise no number of pulls is enough.  When there is,
    a client whose vector is honest is done after its first pull, and a second one, whatever the
    order of the listing then, brings nothing; the loop ends without an error, its total is
    what the client was missing, and the client then holds every document of the
    listing, or a version it does not beat. *)
Theorem pull_all_ends {A C} `{StoreLaws A, StoreLaws C} `{JsonLaws} now all (s : Server C) (d : DocDB A) :
  let listing := st_ListAll (db_collection d) (srv_store s) in
  let missing := all_missing (db_vector d) (all 0%nat) in
  st_inv (srv_store s) -> db_inv d -> coll_ok (db_collection d) ->
  (forall i, sorts clock_less listing (all i)) ->
  Forall record_ok listing -> Forall (fun r => in_u 32 (len (layout r))) listing ->
  vector_fits listing (db_vector d) -> signed (db_vector d) -> honest (db_vector d) (db_records d) (filter is_doc (all 0%nat)) ->
  ingests_ok (now 0%nat) 0 missing d ->
  (forall d1 n m, pull_loop (S (length (bin_stream (db_vector d) (all 0%nat)))) (now 0%nat) (bin_stream (db_vector d) (all 0%nat)) 0 HLC_zero d =
     (d1, n, m, None) -> advance_ok (now 0%nat n) m d1) ->
  ((exists fuel d' n, pull_all fuel 0 now all s d 0 = Some (d', Ok n)) <-> forall r, r ∈ missing -> accounted missing r) /\
  ((forall r, r ∈ missing -> accounted missing r) ->
   exists d', (forall fuel, (2 <= fuel)%nat -> pull_all fuel 0 now all s d 0 = Some (d', Ok (Z.of_nat (length missing)))) /\
    forall r, r ∈ listing -> is_doc r -> exists r', db_records d' !! rkey r = Some r' /\ ~ beats r r').
Proof.
  intros listing missing Is Id Hc Hsort Hok Hlen Hv Hsg Hh Hing Hadv.
  assert (forall i, all i ≡ₚ listing) as Hp by (intros i; apply Hsort).
  assert (forall r, r ∈ listing -> st_records (srv_store s) !! rkey r = Some r) as Hall
    by (intros r Hr; by apply (st_listall_law _ _ Is) in Hr as [Hr _]).
  assert ((forall r, r ∈ missing -> accounted missing r) -> exists d',
    (forall fuel, (2 <= fuel)%nat -> pull_all fuel 0 now all s d 0 = Some (d', Ok (Z.of_nat (length missing)))) /\
    forall r, r ∈ listing -> is_doc r -> exists r', db_records d' !! rkey r = Some r' /\ ~ beats r r') as Hends.
  { intros Hacc. pose proof (vector_fits_size _ _ Hv) as Hsz.
    destruct (pull_from_law (now 0%nat) (all 0%nat) s d Is Id) as (d' & Hpull & _ & _ & Hm); [|by rewrite (Hp 0%nat)..|done|apply Hv|done|done|].
    { intros r Hr. apply Hall. by rewrite <-(Hp 0%nat). }
    destruct (pull_from_vector _ listing _ _ _ _ _ Hv Hok Hlen (Hp 0%nat) Hpull) as (_ & Hv' & Hf').
    exists d'. split.
    - intros fuel Hf. destruct fuel as [|[|fuel]]; [lia..|]. cbn [pull_all]. rewrite Hpull. fold missing. rewrite Z.add_0_l.
      destruct (length missing =? 0)%nat eqn:Hz; [done|].
      rewrite pull_from_nothing; [by rewrite Z.add_0_r|by apply (vector_fits_size listing)|apply Hf'|].
      rewrite Hv'. pose proof (nothing_missing (db_vector d) (all 0%nat)) as Hn. fold missing in Hn. rewrite Forall_forall in Hn.
      apply Permutation_nil_r. rewrite <-(Hn Hacc). apply filter_Permutation. by rewrite !Hp.
    - intros r Hr Hd. rewrite Hm by (by apply (document_key d (srv_store s)); [..|apply Hall|]). rewrite filter_docs.
      destruct (anti_entropy_step _ _ _ Hh) as [Hfin _]. destruct (Hfin r) as (r' & Hr' & Hb); [apply list_elem_of_filter; by rewrite (Hp 0%nat)|].
      by exists r'. }
  split; [|exact Hends]. split.
  - intros (fuel & d' & n & He) r Hr. pose proof Hr as [Hrm Hrl]%list_elem_of_filter. rewrite (Hp 0%nat) in Hrl.
    destruct (accounted_dec missing r) as [?|Hna]; [done|]. exfalso.
    refine (pull_all_unaccounted listing now all s missing r Hok Hlen Hp Hrl Hna fuel 0 d 0 Hv Hsg Hrm _ d' n He).
    intros x Hx Hxm. apply list_elem_of_filter. by rewrite (Hp 0%nat).
  - intros Hacc. destruct (Hends Hacc) as (d' & Hf & _). exists 2%nat, d', (Z.of_nat (length missing)). by apply Hf.
Qed.
Definition loop_times (j i n : nat) : Z := travel_pull_times (5 * j + i) n.
Lemma pull_all_ends_witness :
  exists d', pull_all 2 0 loop_times (fun _ => travel_listing) travel_s' travel_b 0 = Some (d', Ok 1) /\
    exists r', db_records d' !! record_key DefaultCollection "a" = Some r'.
Proof.
  assert (db_vector travel_b = ∅) as Hv by reflexivity.
  assert (st_ListAll DefaultCollection (srv_store travel_s') = st_ListAll (db_collection travel_b) (srv_store travel_s')) as Hl by reflexivity.
  destruct (pull_all_ends loop_times (fun _ => travel_listing) travel_s' travel_b) as [_ Hends].
  - apply travel_s'_inv.
  - apply (NewMemoryStore_inv 0 "b").
  - split; apply (bool_decide_unpack _); vm_compute; exact I.
  - intros _. rewrite <-Hl. apply sort_Slice_sorts. apply _.
  - apply (bool_decide_unpack (Forall record_ok _)). vm_compute. exact I.
  - apply (bool_decide_unpack (Forall _ _)). vm_compute. exact I.
  - split; [rewrite Hv; apply map_Forall_empty|apply (bool_decide_unpack _); vm_compute; exact I].
  - rewrite Hv. apply map_Forall_empty.
  - intros r _. by rewrite Hv.
  - apply (bool_decide_unpack (ingests_ok _ _ _ _)). vm_compute. exact I.
  - intros d1 n m Hl1.
    assert (match pull_loop (S (length (bin_stream (db_vector travel_b) travel_listing))) (loop_times 0)
        (bin_stream (db_vector travel_b) travel_listing) 0 HLC_zero travel_b with
      | (d1, n, m, None) => bool_decide (advance_ok (loop_times 0 n) m d1)
      | _ => true end = true) as Hc by (vm_compute; reflexivity).
    rewrite Hl1 in Hc. by apply bool_decide_eq_true in Hc.
  - destruct Hends as (d' & Hp & Hr).
    { intros r Hr. assert (is_doc r /\ stamped r) as [? ?]; [|by apply accounted_self].
      revert r Hr. apply Forall_forall, (bool_decide_unpack (Forall (fun r => is_doc r /\ UpdatedBy r <> "" /\ HLC_GreaterThan (Clock r) HLC_zero = true) _)).
      vm_compute. exact I. }
    exists d'. split; [exact (Hp 2%nat (le_n 2))|].
    destruct (st_ListAll (db_collection travel_b) (srv_store travel_s')) as [|r l] eqn:He; [vm_compute in He; discriminate He|].
    destruct (Hr r) as (r' & Hr' & _); [by left|vm_compute in He; injection He as <- _; reflexivity|].
    exists r'. rewrite <-Hr'. f_equal. vm_compute in He. injection He as <- _. vm_compute. reflexivity.
Defined.

(** With one record in the listing that no node signed, as a session sends for a document it
    cannot read, the loop never ends without an error. *)
Theorem pull_all_never_ends :
  let s := Server_New (fst (MemoryStore_Put (mkRecord "" "lost" "" [] [] HLC_zero "" false) (NewMemoryStore 0 "S"))) "S" (Some ∅) in
  forall fuel now d' n, pull_all fuel 0 now (fun _ => st_ListAll DefaultCollection (srv_store s)) s travel_b 0 <> Some (d', Ok n).
Proof.
  intros s fuel now. set (r := mkRecord DefaultCollection "lost" "" [] [] HLC_zero "" false).
  apply (pull_all_unaccounted (st_ListAll DefaultCollection (srv_store s)) now _ s [r] r).
  - apply (bool_decide_unpack (Forall record_ok _)). vm_compute. exact I.
  - apply (bool_decide_unpack (Forall _ _)). vm_compute. exact I.
  - done.
  - apply (bool_decide_unpack _). vm_compute. exact I.
  - intros (x & ->%list_elem_of_singleton & _ & [Hn _] & _). by apply Hn.
  - split; [apply map_Forall_empty|apply (bool_decide_unpack _); vm_compute; exact I].
  - apply map_Forall_empty.
  - reflexivity.
  - intros x Hx _. revert x Hx. apply Forall_forall, (bool_decide_unpack (Forall (fun x => x ∈ [r]) _)). vm_compute. exact I.
Qed.
