(* ===== verification/LiveWs.v ===== *)
(** * Live synchronisation over a WebSocket (sdk/replicate.go)

    [LiveWS], the loop that reconnects, and [runWS], one session: the address and headers
    it dials with, its reading and its writing goroutine, and how it ends.  A session is a
    step relation; the socket is what each read and write returns. *)
From S2P Require Import Prelude BigEndian Hlc Record KnowledgeVector Conflict GoSort MemStore StoreApi Server Float GoTime Mesh Crypto Auth Json JsonText JsonCodec DocDb DocDbLaws Replicator SyncLaws PullLoop.
Local Open Scope Z_scope.

(** ** Dialling *)

(** [url.QueryEscape] *)
Definition query_unreserved (v : Z) : bool :=
  ((48 <=? v) && (v <=? 57)) || ((65 <=? v) && (v <=? 90)) || ((97 <=? v) && (v <=? 122)) ||
  (v =? 45) || (v =? 46) || (v =? 95) || (v =? 126).
Definition upper_hex (x : Z) : Ascii.ascii := to_byte (if x <? 10 then 48 + x else 55 + x).
Definition QueryEscape (s : string) : string :=
  bytes_str (concat (map (fun c => let v := of_byte c in
    if query_unreserved v then [c] else if v =? 32 then [to_byte 43] else [to_byte 37; upper_hex (v / 16); upper_hex (v mod 16)])
    (str_bytes s))).
Definition cut_at (n : nat) (s : string) : string * string := (bytes_str (take n (str_bytes s)), bytes_str (drop n (str_bytes s))).
Definition ws_url (baseURL nodeID : string) : string :=
  let wsURL := baseURL +:+ "/sync/ws" in
  let wsURL := if bool_decide (nodeID = "") then wsURL else wsURL +:+ "?node_id=" +:+ QueryEscape nodeID in
  if (7 <? strlen wsURL) && bool_decide (fst (cut_at 7 wsURL) = "http://") then "ws" +:+ snd (cut_at 4 wsURL)
  else if (8 <? strlen wsURL) && bool_decide (fst (cut_at 8 wsURL) = "https://") then "wss" +:+ snd (cut_at 5 wsURL)
  else wsURL.
(** The timestamp and signature of the upgrade request, which has no body. *)
Definition ws_headers (authSecret : option bytes) (ts : Z) : option (string * string) :=
  (fun secret => (bytes_str (format_int ts), SignBody secret ts [])) <$> authSecret.
(** The request as the server sees it. *)
Definition ws_request (headers : option (string * string)) : Request :=
  let '(ts, sig) := default ("", "") headers in mkRequest "/sync/ws" "GET" "" ts sig (Ok []).

(** [Replicator.Health] *)
Definition Replicator_Health {St} (now : Time) (r : Replicator St) : SyncHealth :=
  let lastPull := time_Unix (rp_lastPullUnix r) in
  let lastPush := time_Unix (rp_lastPushUnix r) in
  let lag := if 0 <? rp_lastPullUnix r then Seconds (Sub now lastPull) else f_zero in
  mkSyncHealth lastPush lastPull lag (rp_pushErrors r) (rp_pullErrors r) 0 0 true.

(** ** The reconnecting loop *)

(** How [runWS] came back: without an error, or with one, of the dial or of the context. *)
Inductive session_result := SessionEnded | SessionFailed.
Definition wsBackoff : Duration := 2 * Second.
Definition wsMaxBackoff : Duration := 60 * Second.
(** [rand.Int63n(n)]: panics unless n is positive; [draw] draws a number below n. *)
Definition Int63n (draw : Z -> Z) (n : Z) : res Empty_set Z := if n <=? 0 then Panic else Ok (draw n).
Definition draws (draw : Z -> Z) : Prop := forall n, 0 < n -> 0 <= draw n < n.
(** One turn of the loop after its session: the time to wait, and the next backoff. *)
Definition livews_turn (r : session_result) (draw : Z -> Z) (backoff : Duration) : res Empty_set (Duration * Duration) :=
  let backoff := match r with SessionEnded => wsBackoff | SessionFailed => backoff end in
  jitter ← Int63n draw (Z.quot backoff 2);
  Ok (wrap_s 64 (backoff + jitter), nextBackoff backoff wsMaxBackoff).
(** The turns until the context is done. *)
Fixpoint livews_loop (turns : list (session_result * (Z -> Z))) (backoff : Duration) : res Empty_set (list Duration) :=
  match turns with
  | [] => Ok []
  | (r, draw) :: turns =>
      '(wait, backoff) ← livews_turn r draw backoff;
      waits ← livews_loop turns backoff;
      Ok (wait :: waits)
  end.
Definition LiveWS (turns : list (session_result * (Z -> Z))) : res Empty_set (list Duration) := livews_loop turns wsBackoff.

(** ** One session *)

Section session.
Context {St : Type} `{StoreOps St} `{Json}.

(** The writing goroutine: in its select, inside [conn.WriteJSON], for which no deadline is
    set, or gone. *)
Inductive WsWriter := WIdle | WWriting (rec : NellRecord) | WStopped.
(** [runWS] itself: in its select, behind one of its cases, or returned. *)
Inductive WsMain := Selecting | AwaitWriter | AwaitReader | Ended.
Record Session := mkSession {
  ss_db : DocDB St;
  (** the subscription behind [r.DB.Changes(ctx)] *)
  ss_sub : N;
  (** the connection is open; the reading goroutine runs *)
  ss_conn : bool;
  ss_reading : bool;
  ss_writer : WsWriter;
  ss_main : WsMain;
  (** what was written to the connection *)
  ss_sent : list NellRecord
}.
Definition ss_set_db (d : DocDB St) (s : Session) : Session :=
  mkSession d (ss_sub s) (ss_conn s) (ss_reading s) (ss_writer s) (ss_main s) (ss_sent s).
Definition ss_set_reading (b : bool) (s : Session) : Session :=
  mkSession (ss_db s) (ss_sub s) (ss_conn s) b (ss_writer s) (ss_main s) (ss_sent s).
Definition ss_set_writer (w : WsWriter) (s : Session) : Session :=
  mkSession (ss_db s) (ss_sub s) (ss_conn s) (ss_reading s) w (ss_main s) (ss_sent s).
Definition ss_set_main (conn : bool) (m : WsMain) (s : Session) : Session :=
  mkSession (ss_db s) (ss_sub s) conn (ss_reading s) (ss_writer s) m (ss_sent s).
Definition ss_send (rec : NellRecord) (s : Session) : Session :=
  mkSession (ss_db s) (ss_sub s) (ss_conn s) (ss_reading s) WIdle (ss_main s) (ss_sent s ++ [rec]).

(** After a dial that succeeded: the session subscribes to the local changes. *)
Definition runWS_start (d : DocDB St) : Session :=
  let '(h, id) := subscribe (db_subs d) in
  mkSession (mkDocDB (db_store d) (db_nodeID d) (db_collection d) (db_revs d) (db_vector d) (db_lastSeenClock d) h) id
    true true WIdle Selecting [].

Inductive ws_event :=
  | WsMessage (now : nat -> nat -> Z) (changes : list NellRecord)
  | WsChange (ch : Change) (nilDoc : bool) | WsWritten
  | WsReadFails | WsWriteFails | WsWriterStops | WsSeesReader | WsSeesWriter | WsReturns.
(** [ctxDone] and [feedClosed]: the context is done, the changes channel is closed. *)
Inductive ws_step (ctxDone feedClosed : bool) : ws_event -> Session -> Session -> Prop :=
  (** the reading goroutine: a message, or an error, which a closed connection and the
      deadline give *)
  | ws_step_message now changes s : ss_reading s = true -> ss_conn s = true ->
      ws_step ctxDone feedClosed (WsMessage now changes) s (ss_set_db (runWS_read now 0 changes (ss_db s)) s)
  | ws_step_read_fails s : ss_reading s = true -> ws_step ctxDone feedClosed WsReadFails s (ss_set_reading false s)
  (** the writing goroutine: it takes a change from the feed, and is inside [WriteJSON] until
      the peer has taken the record, or the write fails *)
  | ws_step_change ch nilDoc s : ss_writer s = WIdle ->
      ws_step ctxDone feedClosed (WsChange ch nilDoc) s
        match runWS_write ch nilDoc (ss_db s) with Some rec => ss_set_writer (WWriting rec) s | None => s end
  | ws_step_written rec s : ss_writer s = WWriting rec -> ss_conn s = true -> ws_step ctxDone feedClosed WsWritten s (ss_send rec s)
  | ws_step_write_fails rec s : ss_writer s = WWriting rec -> ws_step ctxDone feedClosed WsWriteFails s (ss_set_writer WStopped s)
  | ws_step_writer_stops s : ss_writer s = WIdle -> ctxDone = true \/ ss_reading s = false \/ feedClosed = true ->
      ws_step ctxDone feedClosed WsWriterStops s (ss_set_writer WStopped s)
  (** [runWS]'s select: [readDone], behind which it waits for the writer alone; [writeDone],
      where it closes the connection and waits for the reader; or the context *)
  | ws_step_sees_reader s : ss_main s = Selecting -> ss_reading s = false ->
      ws_step ctxDone feedClosed WsSeesReader s (ss_set_main (ss_conn s) AwaitWriter s)
  | ws_step_sees_writer s : ss_main s = Selecting -> ss_writer s = WStopped ->
      ws_step ctxDone feedClosed WsSeesWriter s (ss_set_main false AwaitReader s)
  (** it returns, which closes the connection *)
  | ws_step_returns s :
      match ss_main s with
      | Selecting => ctxDone = true
      | AwaitWriter => ss_writer s = WStopped
      | AwaitReader => ss_reading s = false
      | Ended => False
      end -> ws_step ctxDone feedClosed WsReturns s (ss_set_main false Ended s).

(** The states of a session, the context and the feed being as they may at each step. *)
Definition session_reach d (s : Session) : Prop := rtc (fun x y => exists ctxDone feedClosed e, ws_step ctxDone feedClosed e x y) (runWS_start d) s.
(** The steps that do not exchange anything end the session. *)
Definition is_closing (e : ws_event) : bool := match e with WsMessage _ _ | WsChange _ _ | WsWritten => false | _ => true end.
Definition session_work (s : Session) : nat :=
  (if ss_reading s then 1 else 0) + (match ss_writer s with WStopped => 0 | _ => 1 end) +
  (match ss_main s with Selecting => 2 | Ended => 0 | _ => 1 end).
Definition ending (ctxDone : bool) (s : Session) : Prop := ctxDone = true \/ ss_reading s = false \/ ss_writer s = WStopped.
(** [runWS] waits for the writer, and that for a write to come back. *)
Definition stuck_writing (s : Session) : Prop := ss_main s = AwaitWriter /\ exists rec, ss_writer s = WWriting rec.
Record session_inv (s : Session) : Prop := {
  sn_conn : match ss_main s with Selecting | AwaitWriter => ss_conn s = true | AwaitReader | Ended => ss_conn s = false end;
  sn_await : match ss_main s with AwaitWriter => ss_reading s = false | AwaitReader => ss_writer s = WStopped | _ => True end
}.
End session.
Arguments Session St : clear implicits.

(** ** Lemmas *)

Lemma livews_turn_ok r draw backoff : wsBackoff <= backoff <= wsMaxBackoff -> draws draw ->
  exists wait backoff', livews_turn r draw backoff = Ok (wait, backoff') /\ wsBackoff <= backoff' <= wsMaxBackoff /\
    wsBackoff <= wait < 90 * Second /\ (r = SessionEnded -> wait < 3 * Second).
Proof.
  unfold wsBackoff, wsMaxBackoff, Second. intros Hb Hd. unfold livews_turn, Int63n, wsBackoff, wsMaxBackoff, Second.
  set (b := match r with SessionEnded => _ | SessionFailed => backoff end).
  assert (2 * 1000000000 <= b <= 60 * 1000000000) as Hbb by (unfold b; destruct r; lia).
  assert (r = SessionEnded -> b = 2 * 1000000000) as Hend by (unfold b; by intros ->).
  clearbody b.
  assert (1000000000 <= Z.quot b 2 <= b / 2) as Hq by (rewrite Z.quot_div_nonneg by lia; Z.div_mod_to_equations; lia).
  rewrite (proj2 (Z.leb_gt _ 0)), bind_ok by lia. pose proof (Hd (Z.quot b 2) ltac:(lia)) as Hj.
  assert (draw (Z.quot b 2) < b / 2) as Hj2 by lia. clear Hq.
  eexists _, _. split; [reflexivity|].
  unfold nextBackoff, wrap_s. rewrite !Z.mod_small by (Z.div_mod_to_equations; lia).
  split_and!; try (destruct (Z.ltb_spec (60 * 1000000000) (b * 2 + 2 ^ (64 - 1) - 2 ^ (64 - 1))); Z.div_mod_to_equations; lia).
  all: try (Z.div_mod_to_equations; lia).
  intros He%Hend. Z.div_mod_to_equations; lia.
Qed.
Lemma livews_loop_ok turns : forall backoff, wsBackoff <= backoff <= wsMaxBackoff -> Forall (fun t => draws t.2) turns ->
  exists waits, livews_loop turns backoff = Ok waits /\
    Forall2 (fun t w => wsBackoff <= w < 90 * Second /\ (t.1 = SessionEnded -> w < 3 * Second)) turns waits.
Proof.
  induction turns as [|[r draw] turns IH]; intros backoff Hb Hd; cbn [livews_loop]; [by exists []|].
  inversion_clear Hd as [|?? Hdraw Hd'].
  destruct (livews_turn_ok r draw backoff Hb Hdraw) as (wait & backoff' & -> & Hb' & Hw & He). rewrite bind_ok.
  destruct (IH backoff' Hb' Hd') as (waits & -> & Hf). rewrite bind_ok. exists (wait :: waits). split; [done|]. by constructor.
Qed.

Section laws.
Context {St : Type} `{StoreLaws St} `{JsonLaws}.
Implicit Types d : DocDB St.

(** Taking in a message merges its documents. *)
Lemma runWS_read_law now rs : forall i d, db_inv d -> ingests_ok now i rs d ->
  db_inv (runWS_read now i rs d) /\ db_collection (runWS_read now i rs d) = db_collection d /\
  docs_only [db_key d metaVectorID] (db_records (runWS_read now i rs d)) (merge (db_records d) (normalize <$> filter is_doc rs)).
Proof.
  induction rs as [|r rs IH]; intros i d I Hok; cbn [runWS_read]; [done|]. destruct Hok as [Hr Hrs].
  destruct (ingestRemote_law (now i) r d I Hr) as (d1 & He & I1 & Hc1 & Hm1 & _). rewrite He in *. cbn [fst] in *.
  destruct (IH (S i) d1 I1 Hrs) as (I' & Hc' & Hm'). split_and!; [done|congruence|].
  assert (db_key d1 metaVectorID = db_key d metaVectorID) as Hk by (unfold db_key; by rewrite Hc1). rewrite Hk in Hm'.
  intros k Hk'. rewrite Hm' by done. replace (r :: rs) with ([r] ++ rs) by done.
  rewrite filter_app, fmap_app, merge_app. exact (docs_only_merge _ _ _ _ Hm1 k Hk').
Qed.
Lemma runWS_read_subs now rs : forall i d, dom (hub_subs (db_subs (runWS_read now i rs d))) = dom (hub_subs (db_subs d)).
Proof.
  assert (forall rec n d, dom (hub_subs (db_subs (fst (ingestRemote n rec d)))) = dom (hub_subs (db_subs d))) as Hone.
  { intros rec n d. unfold ingestRemote. destruct (isInternalID _); [done|]. unfold db_put.
    destruct (st_Put rec (db_store d)) as [st [[]|]]; [|done]. cbn [fst db_subs db_broadcast hub_broadcast hub_subs].
    rewrite dom_fmap_L. unfold observeVector, writeMetaVector, db_put. repeat case_match; by simplify_eq. }
  induction rs as [|r rs IH]; intros i d; cbn [runWS_read]; [done|]. by rewrite IH, Hone.
Qed.
End laws.

Section session_laws.
Context {St : Type} `{StoreOps St, Json}.
Implicit Types s : Session St.

Lemma ws_step_work ctx fc e s s' : ws_step ctx fc e s s' ->
  (if is_closing e then (session_work s' < session_work s)%nat else session_work s' = session_work s) /\
  (ending ctx s -> ending ctx s').
Proof.
  intros Hs. destruct Hs as [now changes s Hr Hc|s Hr|ch nd s Hw|rec s Hw Hc|rec s Hw|s Hw Hx|s Hm Hr|s Hm Hw|s Hx]; cbn [is_closing].
  3: destruct (runWS_write ch nd (ss_db s)) as [rec|]; [|done].
  all: unfold session_work, ending; cbn; rewrite ?Hr, ?Hw, ?Hm; (split; [|by auto || naive_solver]); try lia.
  destruct (ss_main s), (ss_reading s), (ss_writer s); try done; lia.
Qed.
Lemma ws_step_inv ctx fc e s s' : session_inv s -> ws_step ctx fc e s s' -> session_inv s'.
Proof.
  intros [Hc Ha] Hs. destruct Hs as [now changes s Hr Hcn|s Hr|ch nd s Hw|rec s Hw Hcn|rec s Hw|s Hw Hx|s Hm Hr|s Hm Hw|s Hx].
  3: destruct (runWS_write ch nd (ss_db s)) as [rec|]; [|done].
  all: split; cbn; try done; try (rewrite Hm in Hc; done); destruct (ss_main s); try done; congruence.
Qed.
Lemma session_reach_inv d s : session_reach d s -> session_inv s.
Proof.
  unfold session_reach. assert (session_inv (runWS_start d)) as I by (unfold runWS_start; by split).
  intros Hr. revert I. induction Hr as [|x y z (ctx & fc & e & Hs) _ IH]; [done|]. intros I. apply IH. by eapply ws_step_inv.
Qed.
(** A session that is to end moves on by itself unless it waits for a write. *)
Lemma session_moves ctx fc s : session_inv s -> ending ctx s -> ss_main s <> Ended ->
  (exists e s', is_closing e = true /\ e <> WsWriteFails /\ ws_step ctx fc e s s') \/ stuck_writing s.
Proof.
  intros [_ Ha] He Hm. destruct (ss_main s) eqn:Hmain; [| | |done].
  - left. destruct He as [-> |[Hr|Hw]].
    + exists WsReturns. eexists. split_and!; [done..|]. apply ws_step_returns. by rewrite Hmain.
    + exists WsSeesReader. eexists. split_and!; [done..|]. by apply ws_step_sees_reader.
    + exists WsSeesWriter. eexists. split_and!; [done..|]. by apply ws_step_sees_writer.
  - destruct (ss_writer s) as [|rec|] eqn:Hw.
    + left. exists WsWriterStops. eexists. split_and!; [done..|]. apply ws_step_writer_stops; auto.
    + right. split; [done|by exists rec].
    + left. exists WsReturns. eexists. split_and!; [done..|]. apply ws_step_returns. by rewrite Hmain.
  - left. destruct (ss_reading s) eqn:Hr.
    + exists WsReadFails. eexists. split_and!; [done..|]. by apply ws_step_read_fails.
    + exists WsReturns. eexists. split_and!; [done..|]. apply ws_step_returns. by rewrite Hmain.
Qed.
(** One that does has no other step, and each that it has frees it. *)
Lemma stuck_steps ctx fc e s s' : session_inv s -> stuck_writing s -> ws_step ctx fc e s s' ->
  (e = WsWritten \/ e = WsWriteFails) /\ ~ stuck_writing s'.
Proof.
  intros [_ Ha] [Hm (rec & Hw)] Hs. rewrite Hm in Ha.
  destruct Hs as [now changes s Hr Hc|s Hr|ch nd s Hw'|rec' s Hw' Hc|rec' s Hw'|s Hw' Hx|s Hm' Hr|s Hm' Hw'|s Hx]; try congruence.
  - split; [by left|]. intros [_ (? & Hx)]. done.
  - split; [by right|]. intros [_ (? & Hx)]. done.
  - rewrite Hm in Hx. congruence.
Qed.
End session_laws.

(** ** Properties *)

(** C16. A record a client wrote reaches the others live: the record its session sends for a
    local change is the one in its store; the server that takes the message in then holds
    it or one it does not beat, and, when it won, sends it to every connected peer; and a
    peer of any backend that takes that message in holds it, or one it does not beat, too. *)
Theorem LiveWS_delivers {A B C} `{StoreLaws A, StoreLaws B, StoreLaws C} `{JsonLaws}
    (a : DocDB A) (s : Server B) (c : DocDB C) ch nilDoc rec now :
  db_inv a -> st_inv (srv_store s) -> db_inv c -> colon_free (db_collection a) -> colon_free (db_collection c) ->
  st_Get (db_collection a) (ch_ID ch) (db_store a) = Ok rec -> isInternalID (ch_ID ch) = false ->
  st_put_ok rec (srv_store s) -> ingests_ok now 0 [rec] c ->
  runWS_write ch nilDoc a = Some rec /\ db_records a !! db_key a (ch_ID ch) = Some rec /\
  let '(s', sent) := ws_message [rec] s in
  (exists r, st_records (srv_store s') !! rkey rec = Some r /\ ~ beats rec r) /\
  (match st_records (srv_store s) !! rkey rec with Some l => beats rec l | None => True end ->
    forall addr node, srv_peers s !! addr = Some node -> (addr, [rec]) ∈ sent) /\
  exists r, db_records (runWS_read now 0 [rec] c) !! rkey rec = Some r /\ ~ beats rec r.
Proof.
  intros Ia Is Ic Hca Hcc Hget Hint Hput Hing. split; [unfold runWS_write; by rewrite Hint, Hget|].
  rewrite st_get_law in Hget. unfold db_records, db_key. destruct (st_records (db_store a) !! _) as [x|] eqn:Hx; [|done].
  injection Hget as ->. split; [done|].
  pose proof (st_colls _ Ia _ _ Hx) as [Hcr Hne]. pose proof (st_keyed _ Ia _ _ Hx) as Hk. cbn in Hk, Hcr, Hne.
  apply record_key_inj in Hk as [_ Hid]; [|done|by apply or_default_colon_free].
  assert (normalize rec = rec) as Hn by by apply normalize_id.
  unfold ws_message. rewrite ws_loop_law by (done || by split). cbn [fst].
  assert (puts_ok [rec] (srv_store s)) as Hps by by split.
  split_and!.
  - cbn [srv_store srv_set_store saw srv_set_kv]. rewrite (proj2 (put_all_law [rec] (srv_store s) Is Hps)). cbn [fmap list_fmap].
    rewrite Hn. apply merge_has. by left.
  - intros Hwin addr node Hp. cbn [wins]. rewrite Hn.
    replace (0 <? _) with true.
    + unfold broadcast. apply list_elem_of_fmap. exists (addr, node). split; [done|]. by apply elem_of_map_to_list.
    + destruct (st_records (srv_store s) !! rkey rec) as [l|]; [by rewrite bool_decide_true|done].
  - destruct (runWS_read_law now [rec] 0 c Ic Hing) as (_ & _ & Hm). rewrite Hm.
    + rewrite filter_cons, decide_True by (unfold is_doc; by rewrite Hid). rewrite filter_nil. cbn [fmap list_fmap]. rewrite Hn.
      apply merge_has. by left.
    + rewrite list_elem_of_singleton. unfold db_key, rkey. intros Hkey.
      apply record_key_inj in Hkey as [_ Hkey]; [|done|by apply or_default_colon_free].
      rewrite <-Hid, Hkey in Hint. done.
Qed.
Definition live_reader : DocDB MemoryStore := New (NewMemoryStore 0 "C") "C" "".
Definition live_server : Server MemoryStore := ws_connect "10.0.0.3:1" "C" (Server_New (NewMemoryStore 0 "S") "S" (Some ∅)).
Definition live_change : Change := mkChange "a" "" false ∅.
Lemma LiveWS_delivers_witness :
  match st_Get (db_collection demo_put) "a" (db_store demo_put) with
  | Ok rec => runWS_write live_change false demo_put = Some rec
  | _ => False
  end.
Proof.
  destruct (st_Get (db_collection demo_put) "a" (db_store demo_put)) as [rec|e|] eqn:Hg.
  2: exfalso; vm_compute in Hg; discriminate Hg.
  2: exfalso; vm_compute in Hg; discriminate Hg.
  assert (match st_Get (db_collection demo_put) "a" (db_store demo_put) with
    | Ok rec => bool_decide (st_put_ok rec (srv_store live_server)) && bool_decide (ingests_ok (fun i n => 100 + Z.of_nat n) 0 [rec] live_reader)
    | _ => false end = true) as Hc by (vm_compute; reflexivity).
  rewrite Hg in Hc. apply andb_true_iff in Hc as [Hp%bool_decide_eq_true Hi%bool_decide_eq_true].
  destruct (LiveWS_delivers demo_put live_server live_reader live_change false rec (fun i n => 100 + Z.of_nat n)) as [Hw _].
  - exact demo_put_inv.
  - apply (NewMemoryStore_inv 0 "S").
  - apply (NewMemoryStore_inv 0 "C").
  - apply (bool_decide_unpack _). vm_compute. exact I.
  - apply (bool_decide_unpack _). vm_compute. exact I.
  - exact Hg.
  - reflexivity.
  - exact Hp.
  - exact Hi.
  - exact Hw.
Defined.

(** The reconnecting loop never spins and never stalls: whatever its sessions come to
    and whatever the jitter drawn, the program does not panic, each wait lies between two
    and ninety seconds, and after a session that ended without an error it is below three. *)
Theorem LiveWS_waits turns :
  Forall (fun t => draws t.2) turns ->
  exists waits, LiveWS turns = Ok waits /\
    Forall2 (fun t w => 2 * Second <= w < 90 * Second /\ (t.1 = SessionEnded -> w < 3 * Second)) turns waits.
Proof. intros Hd. apply livews_loop_ok; [|done]. unfold wsBackoff, wsMaxBackoff, Second. lia. Qed.
Lemma LiveWS_waits_witness : exists waits, LiveWS [(SessionFailed, fun n => n - 1); (SessionEnded, fun _ => 0)] = Ok waits.
Proof.
  destruct (LiveWS_waits [(SessionFailed, fun n => n - 1); (SessionEnded, fun _ => 0)]) as (waits & Hw & _).
  - constructor; [|constructor; [|constructor]]; intros n Hn; cbn; lia.
  - exists waits. exact Hw.
Defined.

(** C31. When a session ends: once either goroutine has stopped or the context is done,
    until [runWS] has returned, it has a step of its own that ends something, unless it
    waits for its writer while that is inside [WriteJSON]; then nothing else can happen, cancelled or not,
    before that write comes back, for which the code sets no deadline, and once it has, one
    way or the other, the session goes on by itself.  In whatever order the
    steps come at most four end something, and no other step makes more of them. *)
Theorem runWS_ends {St} `{StoreOps St} `{Json} d (s : Session St) :
  session_reach d s ->
  (session_work s <= 4)%nat /\
  forall ctxDone feedClosed,
  (ending ctxDone s -> ss_main s <> Ended -> ~ stuck_writing s ->
    exists e s', is_closing e = true /\ e <> WsWriteFails /\ ws_step ctxDone feedClosed e s s') /\
  (stuck_writing s -> (exists s', ws_step ctxDone feedClosed WsWritten s s') /\
    forall e s', ws_step ctxDone feedClosed e s s' -> (e = WsWritten \/ e = WsWriteFails) /\
      exists e' s'', is_closing e' = true /\ e' <> WsWriteFails /\ ws_step ctxDone feedClosed e' s' s'') /\
  forall e s', ws_step ctxDone feedClosed e s s' ->
    (if is_closing e then (session_work s' < session_work s)%nat else session_work s' = session_work s) /\
    (ending ctxDone s -> ending ctxDone s').
Proof.
  intros I%session_reach_inv. split; [unfold session_work; destruct (ss_reading s), (ss_writer s), (ss_main s); lia|].
  intros ctx fc. split_and!; [| |intros e s'; apply ws_step_work].
  - intros He Hm Hn. by destruct (session_moves ctx fc s I He Hm).
  - intros Hst. pose proof Hst as [Hm (rec & Hw)]. pose proof (sn_conn _ I) as Hc. pose proof (sn_await _ I) as Ha. rewrite Hm in Hc, Ha.
    split; [eexists; by eapply ws_step_written|]. intros e s' Hs. destruct (stuck_steps _ _ _ _ _ I Hst Hs) as [He Hn]. split; [done|].
    assert (ss_main s' = AwaitWriter /\ ss_reading s' = false) as [Hm' Ha'] by (by destruct He as [-> | ->]; inversion Hs; subst).
    destruct (session_moves ctx fc s') as [?|?]; [by eapply ws_step_inv|by right; left|by rewrite Hm'|done|done].
Qed.
Lemma runWS_ends_witness : exists e s', is_closing e = true /\ e <> WsWriteFails /\ ws_step true false e (runWS_start live_reader) s'.
Proof.
  destruct (runWS_ends live_reader (runWS_start live_reader)) as [_ H]; [apply rtc_refl|].
  destruct (H true false) as [H1 _]. apply H1; [by left|discriminate|]. intros [Hm _]. discriminate Hm.
Defined.

(** A session can be unable to stop: the reader has timed out, [runWS] waits for the
    writer, and the peer does not take what the writer writes.  No step of the
    session's own is left, and cancelling it, for which [LiveWS]'s stop function waits, makes none. *)
Theorem runWS_hangs {St} `{StoreOps St} `{Json} (d : DocDB St) ch nilDoc rec :
  runWS_write ch nilDoc (ss_db (runWS_start d)) = Some rec ->
  exists s, session_reach d s /\ ss_main s = AwaitWriter /\
    forall ctxDone feedClosed e s', ws_step ctxDone feedClosed e s s' -> e = WsWritten \/ e = WsWriteFails.
Proof.
  intros Hrec. set (s0 := runWS_start d) in *.
  assert (ss_writer s0 = WIdle /\ ss_reading s0 = true /\ ss_main s0 = Selecting) as (Hw & Hr & Hm) by done.
  exists (ss_set_main true AwaitWriter (ss_set_reading false (ss_set_writer (WWriting rec) s0))).
  assert (session_reach d (ss_set_main true AwaitWriter (ss_set_reading false (ss_set_writer (WWriting rec) s0)))) as Hreach.
  { unfold session_reach. fold s0. eapply rtc_l; [exists false, false, (WsChange ch nilDoc); by apply ws_step_change|]. rewrite Hrec.
    eapply rtc_l; [exists false, false, WsReadFails; by apply ws_step_read_fails|].
    eapply rtc_l; [exists false, false, WsSeesReader; by apply ws_step_sees_reader|]. apply rtc_refl. }
  split; [done|]. split; [done|]. intros ctx fc e s' Hs.
  apply (stuck_steps _ _ _ _ _ (session_reach_inv _ _ Hreach)) in Hs as [? _]; [done|]. split; [done|by exists rec].
Qed.

(** Each session subscribes to the local changes under the loop's context, not its own, so
    a session that ends for any other reason leaves its subscription behind: the hub has
    one more subscriber after each reconnection, which nobody reads. *)
Definition run_session {St} `{StoreOps St} (d : DocDB St) : DocDB St := ss_db (runWS_start d).
Theorem runWS_leaks_subscription {St} `{StoreLaws St} `{JsonLaws} (s0 s : Session St) ctxDone feedClosed d :
  s0 = runWS_start d -> (forall n, n ∈ dom (hub_subs (db_subs d)) -> (n < hub_nextID (db_subs d))%N) ->
  rtc (fun x y => exists e, ws_step ctxDone feedClosed e x y) s0 s ->
  dom (hub_subs (db_subs (ss_db s))) = {[ ss_sub s0 ]} ∪ dom (hub_subs (db_subs d)) /\ ss_sub s0 ∉ dom (hub_subs (db_subs d)).
Proof.
  intros Hs0 Hfresh Hrun. assert (dom (hub_subs (db_subs (ss_db s))) = dom (hub_subs (db_subs (ss_db s0)))) as ->.
  { clear Hs0 Hfresh. induction Hrun as [|x y z (e & Hs) _ IH]; [done|]. rewrite IH. clear IH.
    destruct Hs as [now changes s Hr Hc|s Hr|ch nd s Hw|rec s Hw Hc|rec s Hw|s Hw Hx|s Hm Hr|s Hm Hw|s Hx]; try done.
    - apply runWS_read_subs.
    - by destruct (runWS_write ch nd (ss_db s)). }
  subst s0. unfold runWS_start. cbn. split; [apply dom_insert_L|]. intros Hin. apply Hfresh in Hin. lia.
Qed.

(** The handshake of a session is authenticated: a server with the same secret, its
    clock at most 29 seconds ahead of the client's or 30 behind, dispatches the upgrade
    request [runWS] sends to the WebSocket handler. *)
Theorem runWS_handshake {St} (s : Server St) t now :
  srv_authSecret s <> [] -> time_ok t -> - (30 * Second) <= now - t <= 29 * Second ->
  exists b, Handler s now (ws_request (ws_headers (Some (srv_authSecret s)) (Unix t))) = Dispatched RWebSocket b.
Proof.
  intros Hne Hok Hskew. exists (Reader (mkBodyReader [] 0)).
  apply Handler_dispatches; [done|reflexivity|reflexivity|].
  apply HMACAuth_next; [done|]. exists (Unix t), []. 
  unfold ws_headers, ws_request. cbn [fmap option_fmap option_map default from_option id rq_timestamp rq_signature rq_body].
  rewrite str_bytes_str, ParseInt_format by apply Unix_in_s. rewrite time_Unix_trunc by done.
  pose proof (Z.mod_pos_bound t Second ltac:(done)) as Hmod. unfold DefaultMaxSkew, Second in *.
  split_and!; (done || lia || apply SignBody_nonempty).
Qed.
Lemma runWS_handshake_witness : exists b, Handler demo_secured (demo_now + 29 * Second)
  (ws_request (ws_headers (Some demo_secret) (Unix demo_now))) = Dispatched RWebSocket b.
Proof.
  apply (runWS_handshake demo_secured demo_now).
  - discriminate.
  - split; by vm_compute.
  - vm_compute. split; discriminate.
Defined.
Example ws_url_plain : ws_url "http://h:1" "a b/c" = "ws://h:1/sync/ws?node_id=a+b%2Fc". Proof. vm_compute. reflexivity. Qed.
Example ws_url_tls : ws_url "https://h" "" = "wss://h/sync/ws". Proof. vm_compute. reflexivity. Qed.

(** *** What a session misses *)

(** [X] puts two documents and pushes each at once; [C] has a session when the second comes. *)
Definition missed_x1 : DocDB MemoryStore := put_title 200 "1" (New (NewMemoryStore 0 "X") "X" "").
Definition missed_s1 : Server MemoryStore := fst (push_to demo_times (Server_New (NewMemoryStore 0 "S") "S" (Some ∅)) missed_x1).
Definition missed_x2 : DocDB MemoryStore := put_title 300 "2" missed_x1.
Definition missed_push := handleBinPush MethodPost (push_request missed_x2) (ws_connect "10.0.0.3:1" "C" missed_s1).
Definition missed_s2 : Server MemoryStore := fst (fst missed_push).
Definition missed_message : list NellRecord := concat (snd <$> snd missed_push).
Definition missed_listing : list NellRecord := sort_Slice clock_less (st_ListAll DefaultCollection (srv_store missed_s2)).
Definition missed_reader : DocDB MemoryStore := ss_db (ss_set_db (runWS_read demo_pull_times 0 missed_message live_reader) (runWS_start live_reader)).
(** What a record that comes live hides: whatever its author pushed while the client was
    not connected.  Any client that reads a message with one stamped record of an author counts every
    earlier record of that author as seen; on this run the first document is on the
    server, the client's session brings it the second, and a pull then brings nothing
    and leaves it without the first, also after it is opened again. *)
Theorem LiveWS_hides_missed :
  (forall {St} `{StoreOps St} `{Json} (c : DocDB St) now x r, isInternalID (ID x) = false -> UpdatedBy x <> "" ->
    HLC_GreaterThan (Clock x) HLC_zero = true -> snd (ingestRemote (now 0%nat) x c) = true ->
    UpdatedBy r = UpdatedBy x -> hlc_le (Clock r) (Clock x) -> is_missing (db_vector (runWS_read now 0 [x] c)) r = false) /\
  ID <$> missed_listing = ["1"; "2"] /\ ID <$> missed_message = ["2"] /\
  (exists doc, DocDB_Get false "2" missed_reader = Ok doc) /\
  let '(d, n, e) := pull_from demo_pull_times missed_listing missed_s2 missed_reader in
  n = 0%nat /\ e = None /\ DocDB_Get false "1" d = Err ErrNotFound /\
  snd (fst (pull_from demo_pull_times missed_listing missed_s2 (New (db_store d) "C" ""))) = 0%nat.
Proof.
  split; [|].
  - intros St ? ? c now x r Hi Hu Hc Hin Hur Hle. apply is_missing_false. rewrite Hur. cbn [runWS_read].
    destruct (ingestRemote (now 0%nat) x c) as [c' ok] eqn:He. cbn [fst snd] in *. subst ok.
    rewrite (ingestRemote_vector _ _ _ _ He), filter_cons, decide_True by (unfold is_doc; by rewrite Hi).
    eapply kv_covers_le; [|exact Hle]. by apply kv_observe_covers.
  - assert (ID <$> missed_listing = ["1"; "2"] /\ ID <$> missed_message = ["2"]) as [-> ->] by (split; vm_compute; reflexivity).
    do 2 (split; [done|]). split.
    { assert (match DocDB_Get false "2" missed_reader with Ok _ => true | _ => false end = true) as Hg by (vm_compute; reflexivity).
      destruct (DocDB_Get false "2" missed_reader) as [doc| |]; [by exists doc|discriminate Hg..]. }
    assert (let '(d, n, e) := pull_from demo_pull_times missed_listing missed_s2 missed_reader in
      (bool_decide (n = 0%nat) && match e with None => true | _ => false end && match DocDB_Get false "1" d with Err ErrNotFound => true | _ => false end &&
      bool_decide (snd (fst (pull_from demo_pull_times missed_listing missed_s2 (New (db_store d) "C" ""))) = 0%nat)) = true) as Hp by (vm_compute; reflexivity).
    destruct (pull_from _ _ _ missed_reader) as [[d n] [e|]]; [by rewrite andb_false_r in Hp|].
    apply andb_true_iff in Hp as [[[->%bool_decide_eq_true _]%andb_true_iff Hg]%andb_true_iff Hr%bool_decide_eq_true].
    split_and!; [done|done| |exact Hr]. by destruct (DocDB_Get false "1" d) as [|[]|].
Qed.
