(* ===== verification/Client.v ===== *)
(** * The browser client (client/main.go)

    The callbacks the WebAssembly program registers with the page.  A callback runs on the
    page's own thread: it reads its arguments and, for a promise, leaves the work to a
    goroutine, which is one step here (its interleavings over the browser store are those of
    file IndexedDb); the loops it starts are kept in a table under integer handles.  JavaScript
    values are an inductive type; what [encoding/json] does with the SDK's types and the
    texts of the libraries' errors are class [ClientJson]. *)
From S2P Require Import Prelude BigEndian Crypto Float Hlc Record KnowledgeVector Conflict GoSort Search MemStore StoreApi GoTime Json JsonText JsonCodec JsString Uuid IndexedDb DocDb DocDbLaws Replicator.
Local Open Scope Z_scope.

(** ** JavaScript values (syscall/js) *)

Inductive js_value :=
| JsUndefined | JsNull | JsBoolean (b : bool) | JsNumber (f : float) | JsString (s : string) | JsSymbol
| JsFunction (f : nat) | JsObject.
(** [float64] to [int]: towards zero, saturating. *)
Definition trunc (f : float) : Z :=
  match f with
  | S754_zero _ | S754_nan => 0
  | S754_infinity s => if s then - 2 ^ 63 else 2 ^ 63 - 1
  | S754_finite s m e =>
      let v := if 0 <=? e then Zpos m * 2 ^ e else Zpos m / 2 ^ (- e) in
      Z.max (- 2 ^ 63) (Z.min (2 ^ 63 - 1) (if s then - v else v))
  end.
(** [v.Int()]: panics on a value that is no number. *)
Definition js_Int (v : js_value) : res Empty_set Z := match v with JsNumber f => Ok (trunc f) | _ => Panic end.
Definition is_js_string (v : js_value) : bool := match v with JsString _ => true | _ => false end.
Definition is_js_function (v : js_value) : bool := match v with JsFunction _ => true | _ => false end.
(** [js.ValueOf] of an int. *)
Definition js_of_int (n : Z) : js_value := JsNumber (f64_of_int n).

(** ** The state *)

Class ClientJson := {
  UnmarshalDocs : bytes -> option (list object);
  UnmarshalIDs : bytes -> option (list string);
  UnmarshalVector : bytes -> option (list Z);
  UnmarshalRange : bytes -> option DocRange;
  MarshalChange : Change -> bytes;
  MarshalInfo : InfoResult -> bytes;
  (** of [{"ok": true, "result": res}] *)
  MarshalResult : AllDocsResult -> bytes;
  (** the text of the error of a call above, and of [json.Unmarshal] into a document *)
  json_error : bytes -> string;
  (** the texts that wrap a library's error *)
  wrapped_error : doc_err -> string;
  putmany_error : doc_err -> string;
  sync_error : sync_err -> string;
  (** [String(v)] of a number *)
  number_text : float -> string
}.

(** What a goroutine behind a promise has to do. *)
Inductive task :=
| TReject (msg : string) | TAnswer (text : string)
| TPut (docStr : string) | TGet (id : string) | TRemove (argStr : string) | TAllDocs (rng : DocRange) | TSync (serverUrl : string)
| TSearchSimilar (vectorStr : string) (limit : Z) | TPutMany (docsStr : string) | TGetMany (idsStr : string) | TDestroy.
Inductive outcome := Resolved (text : string) | Rejected (msg : string).
Inductive promise := Pending (t : task) | Settled (o : outcome).

(** A loop in a goroutine of its own, with the context that stops it: a changes feed for a
    JavaScript callback, or a replicator's loop.  [lp_waiting] while the goroutine waits
    for something only the page's event loop can bring it: a request of the browser's
    database, or of the network. *)
Inductive loop_kind := FeedLoop (sub : N) (callback : js_value) | LiveLoop (cfg : LiveConfig) | LiveWSLoop (nodeID : string).
Record loop := mkLoop { lp_kind : loop_kind; lp_url : string; lp_secret : bytes; lp_cancelled : bool; lp_waiting : bool }.
Definition is_feed (l : loop) : bool := match lp_kind l with FeedLoop _ _ => true | _ => false end.
(** The stop functions of the table: [cancel], or the closure that also waits for the loop
    and forgets the replicator. *)
Inductive stop_func := StopFeed (ctx : nat) | StopLoop (ctx : nat) (handle : Z).
Definition stop_ctx (f : stop_func) : nat := match f with StopFeed ctx | StopLoop ctx _ => ctx end.

Record Client (St : Type) := mkClient {
  cl_db : DocDB St;
  (** whether the store answers through the event loop, as [IndexedDBStore] does *)
  cl_async : bool;
  cl_nodeID : string;
  cl_authSecret : bytes;
  (** a replicator by the loop it runs *)
  cl_replicators : gmap Z nat;
  cl_repStopFuncs : gmap Z stop_func;
  cl_nextRepHandle : Z;
  (** every loop ever started, by its context *)
  cl_loops : list loop;
  (** every promise ever made *)
  cl_promises : list promise;
  (** the JavaScript functions called so far *)
  cl_invoked : list (js_value * list js_value)
}.
Arguments mkClient {_} _ _ _ _ _ _ _ _ _ _.
Arguments cl_db {_} _. Arguments cl_async {_} _. Arguments cl_nodeID {_} _. Arguments cl_authSecret {_} _.
Arguments cl_replicators {_} _. Arguments cl_repStopFuncs {_} _. Arguments cl_nextRepHandle {_} _.
Arguments cl_loops {_} _. Arguments cl_promises {_} _. Arguments cl_invoked {_} _.

Section client.
Context {St : Type} `{StoreOps St} `{Json} `{ClientJson}.
Implicit Types c : Client St.

Definition cl_set_db (d : DocDB St) c : Client St :=
  mkClient d (cl_async c) (cl_nodeID c) (cl_authSecret c) (cl_replicators c) (cl_repStopFuncs c) (cl_nextRepHandle c) (cl_loops c)
    (cl_promises c) (cl_invoked c).
Definition cl_set_secret (s : bytes) c : Client St :=
  mkClient (cl_db c) (cl_async c) (cl_nodeID c) s (cl_replicators c) (cl_repStopFuncs c) (cl_nextRepHandle c) (cl_loops c)
    (cl_promises c) (cl_invoked c).
Definition cl_set_tables (reps : gmap Z nat) (stops : gmap Z stop_func) (next : Z) c : Client St :=
  mkClient (cl_db c) (cl_async c) (cl_nodeID c) (cl_authSecret c) reps stops next (cl_loops c) (cl_promises c) (cl_invoked c).
Definition cl_set_loops (ls : list loop) c : Client St :=
  mkClient (cl_db c) (cl_async c) (cl_nodeID c) (cl_authSecret c) (cl_replicators c) (cl_repStopFuncs c) (cl_nextRepHandle c) ls
    (cl_promises c) (cl_invoked c).
Definition cl_set_promises (ps : list promise) c : Client St :=
  mkClient (cl_db c) (cl_async c) (cl_nodeID c) (cl_authSecret c) (cl_replicators c) (cl_repStopFuncs c) (cl_nextRepHandle c)
    (cl_loops c) ps (cl_invoked c).
Definition cl_invoke (f : js_value) (args : list js_value) c : Client St :=
  mkClient (cl_db c) (cl_async c) (cl_nodeID c) (cl_authSecret c) (cl_replicators c) (cl_repStopFuncs c) (cl_nextRepHandle c)
    (cl_loops c) (cl_promises c) (cl_invoked c ++ [(f, args)]).

(** [v.String()] *)
Definition js_String (v : js_value) : string :=
  match v with
  | JsString s => s
  | JsUndefined => "<undefined>"
  | JsNull => "<null>"
  | JsBoolean b => if b then "<boolean: true>" else "<boolean: false>"
  | JsNumber f => "<number: " +:+ number_text f +:+ ">"
  | JsSymbol => "<symbol>"
  | JsFunction _ => "<function>"
  | JsObject => "<object>"
  end.

(** ** Answers *)

(** [string(resp)] of [resp, _ := json.Marshal(m)]. *)
Definition js_json (m : object) : string := bytes_str (default [] (MarshalObj m)).
Definition errorJSON (msg : string) : string := js_json (<["ok" := VBool false]> {["error" := VStr msg]}).
(** [map[string]any{"ok": true, k: v}] *)
Definition okJSON (k : string) (v : value) : string := js_json (<["ok" := VBool true]> {[k := v]}).
Definition field_less (a b : string * value) : bool := str_ltb a.1 b.1.
Definition obj_value (m : object) : value := VObj (sort_Slice field_less (map_to_list m)).
Definition err_text (e : doc_err) : string :=
  match e with
  | ErrNotFound => "sdk: document not found"
  | ErrConflict => "sdk: revision conflict"
  | ErrMissingID => "sdk: document is missing _id"
  | _ => wrapped_error e
  end.
(** [return errorJSON(err.Error()), nil]; a panic of the goroutine ends the program. *)
Definition answer {A} (ok : A -> string) (r : res doc_err A) : res Empty_set outcome :=
  match r with
  | Ok a => Ok (Resolved (ok a))
  | Err e => Ok (Resolved (errorJSON (err_text e)))
  | Panic => Panic
  end.
Definition bad_json (text : string) : res Empty_set outcome := Ok (Resolved (errorJSON (json_error (str_bytes text)))).

(** ** The goroutines behind the promises *)

Definition nellPut (now : nat -> Z) (docStr : string) c : Client St * res Empty_set outcome :=
  match UnmarshalObj (str_bytes docStr) with
  | None => (c, bad_json docStr)
  | Some doc =>
      let '(d, _, r) := DocDB_Put now false doc (cl_db c) in
      (cl_set_db d c, answer (fun rev => okJSON "rev" (VStr rev)) r)
  end.
Definition nellGet (id : string) c : Client St * res Empty_set outcome :=
  (c, answer (fun doc => okJSON "doc" (obj_value doc)) (DocDB_Get false id (cl_db c))).
(** What [nellRemove] passes to [db.Remove]: a document when the text is one. *)
Definition removal (argStr : string) : remove_arg :=
  match argStr with
  | String ch _ =>
      if of_byte ch =? 123 then
        match UnmarshalObj (str_bytes argStr) with Some doc => ByDoc doc | None => ById argStr end
      else ById argStr
  | EmptyString => ById argStr
  end.
Definition nellRemove (now : nat -> Z) (argStr : string) c : Client St * res Empty_set outcome :=
  let '(d, r) := Remove now false (removal argStr) (cl_db c) in
  (cl_set_db d c, answer (fun rev => okJSON "rev" (VStr rev)) r).
Definition nellPutMany (now : nat -> nat -> Z) (docsStr : string) c : Client St * res Empty_set outcome :=
  match UnmarshalDocs (str_bytes docsStr) with
  | None => (c, bad_json docsStr)
  | Some docs =>
      let '(d, _, r) := PutMany now (fun _ => false) (seq 0 (length docs)) (list_to_map (zip (seq 0 (length docs)) docs)) (cl_db c) in
      (cl_set_db d c,
       match r with
       | Err e => Ok (Resolved (errorJSON (putmany_error e)))
       | _ => answer (fun revs => okJSON "revs" (VArr (VStr <$> revs))) r
       end)
  end.
Definition nellGetMany (idsStr : string) c : Client St * res Empty_set outcome :=
  (c, match UnmarshalIDs (str_bytes idsStr) with
      | None => bad_json idsStr
      | Some ids => answer (fun docs : gmap string Doc => okJSON "docs" (obj_value (obj_value <$> docs)))
          (GetMany (fun _ => false) ids (cl_db c))
      end).
(** The replicator of one call: the secret of [nellSetAuth], if any. *)
Definition sync_replicator c : Replicator St :=
  let rep := NewReplicator (cl_db c) in
  if 0 <? len (cl_authSecret c) then Replicator_SetAuthSecret (cl_authSecret c) rep else rep.
Definition nellSync (nowPush : nat -> Z) (nowPull : nat -> nat -> Z) (at1 at2 : Z) (pushResp pullResp : option (Z * bytes)) c
    : Client St * res Empty_set outcome :=
  let '(rep, pushed, pulled, e) := Sync nowPush nowPull at1 at2 pushResp pullResp (sync_replicator c) in
  (cl_set_db (rp_DB rep) c,
   match e with
   | Some e => Ok (Rejected (sync_error e))
   | None => Ok (Resolved (js_json (<["ok" := VBool true]> (<["pushed" := VNum (f64_of_int pushed)]>
       {["pulled" := VNum (f64_of_int (Z.of_nat pulled))]}))))
   end).
Definition nellDestroy (now : nat -> nat -> Z) (all : list NellRecord) c : Client St * res Empty_set outcome :=
  match Destroy now (fun _ => false) all (cl_db c) with
  | (d, None) => (cl_set_db d c, Ok (Resolved (js_json {["ok" := VBool true]})))
  | (d, Some e) => (cl_set_db d c, Ok (Resolved (errorJSON (err_text e))))
  end.

(** A task's run, for any clock readings, map orders, store results and responses. *)
Inductive run_task : task -> Client St -> Client St * res Empty_set outcome -> Prop :=
| run_TReject msg c : run_task (TReject msg) c (c, Ok (Rejected msg))
| run_TAnswer text c : run_task (TAnswer text) c (c, Ok (Resolved text))
| run_TPut now docStr c : run_task (TPut docStr) c (nellPut now docStr c)
| run_TGet id c : run_task (TGet id) c (nellGet id c)
| run_TRemove now argStr c : run_task (TRemove argStr) c (nellRemove now argStr c)
| run_TAllDocs numCPU rng r c : AllDocs numCPU rng (cl_db c) r ->
    run_task (TAllDocs rng) c (c, answer (fun r => bytes_str (MarshalResult r)) r)
| run_TSync nowPush nowPull at1 at2 pushResp pullResp url c :
    run_task (TSync url) c (nellSync nowPush nowPull at1 at2 pushResp pullResp c)
| run_TSearchSimilar_json vectorStr limit c : UnmarshalVector (str_bytes vectorStr) = None ->
    run_task (TSearchSimilar vectorStr limit) c (c, bad_json vectorStr)
| run_TSearchSimilar numCPU vectorStr vector limit docs c : UnmarshalVector (str_bytes vectorStr) = Some vector ->
    DocDB_SearchSimilar numCPU vector limit (cl_db c) docs ->
    run_task (TSearchSimilar vectorStr limit) c (c, Ok (Resolved (okJSON "docs" (VArr (obj_value <$> docs)))))
| run_TPutMany now docsStr c : run_task (TPutMany docsStr) c (nellPutMany now docsStr c)
| run_TGetMany idsStr c : run_task (TGetMany idsStr) c (nellGetMany idsStr c)
| run_TDestroy now all c : all ≡ₚ st_List (db_collection (cl_db c)) (db_store (cl_db c)) ->
    run_task TDestroy c (nellDestroy now all c).

(** ** The callbacks *)

(** How a callback comes back to the page: with a value or a promise, by a panic, which
    ends the program, or never, when it waits for the event loop it keeps from running. *)
Inductive reply := Returns (v : js_value) | ReturnsText (s : string) | ReturnsPromise (i : nat) | Panics | Deadlocks.
Definition asyncPromise (t : task) c : Client St * reply :=
  (cl_set_promises (cl_promises c ++ [Pending t]) c, ReturnsPromise (length (cl_promises c))).
(** A callback whose first argument is a string. *)
Definition with_string (args : list js_value) (missing : string) (t : string -> task) c : Client St * reply :=
  match args with
  | [] => asyncPromise (TReject missing) c
  | a :: _ => asyncPromise (t (js_String a)) c
  end.
Definition call_nellAllDocs (args : list js_value) c : Client St * reply :=
  let rng0 := mkRange "" "" false 0 0 [] false in
  match args with
  | JsString s :: _ =>
      if bool_decide (s = "") then asyncPromise (TAllDocs rng0) c else
      match UnmarshalRange (str_bytes s) with
      | Some rng => asyncPromise (TAllDocs rng) c
      | None => asyncPromise (TAnswer (errorJSON (json_error (str_bytes s)))) c
      end
  | _ => asyncPromise (TAllDocs rng0) c
  end.
Definition call_nellSearchSimilar (args : list js_value) c : Client St * reply :=
  match args with
  | v :: l :: _ =>
      match js_Int l with Ok limit => asyncPromise (TSearchSimilar (js_String v) limit) c | _ => (c, Panics) end
  | _ => asyncPromise (TReject "missing arguments") c
  end.

(** *** Loops *)
(** A new context and its loop, under the next handle. *)
Definition start_loop (l : loop) (stop : nat -> Z -> stop_func) (rep : bool) c : Client St * Z :=
  let ctx := length (cl_loops c) in
  let handle := cl_nextRepHandle c in
  (cl_set_tables (if rep then <[handle := ctx]> (cl_replicators c) else cl_replicators c)
     (<[handle := stop ctx handle]> (cl_repStopFuncs c)) (wrap_s 64 (handle + 1))
     (cl_set_loops (cl_loops c ++ [l]) c), handle).
(** The page: its globals [nellOnConnect] and [nellOnDisconnect], the arguments on which a function
    of its throws, and the time. *)
Record page_env := mkPage {
  pg_onConnect : js_value; pg_onDisconnect : js_value; pg_throws : js_value -> list js_value -> bool; pg_now : Z
}.
(** [if hook := js.Global().Get(name); hook.Type() == js.TypeFunction { hook.Invoke(args) }]: what
    the hook throws, [Invoke] panics with. *)
Definition invoke_hook (hook : js_value) (args : list js_value) c : Client St :=
  if is_js_function hook then cl_invoke hook args c else c.
Definition hook_throws (p : page_env) (hook : js_value) (args : list js_value) : bool := is_js_function hook && pg_throws p hook args.
Definition after_hook (p : page_env) (hook : js_value) (args : list js_value) (r : reply) : reply :=
  if hook_throws p hook args then Panics else r.
Definition call_nellChanges (args : list js_value) c : Client St * reply :=
  match args with
  | [] => (c, Returns (js_of_int (-1)))
  | callback :: _ =>
      let d := cl_db c in
      let '(subs, id) := subscribe (db_subs d) in
      let c := cl_set_db (mkDocDB (db_store d) (db_nodeID d) (db_collection d) (db_revs d) (db_vector d) (db_lastSeenClock d) subs) c in
      let '(c, handle) := start_loop (mkLoop (FeedLoop id callback) "" [] false false) (fun ctx _ => StopFeed ctx) false c in
      (c, Returns (js_of_int handle))
  end.
(** The secret of a loop: the argument, when it is a string. *)
Definition loop_secret (arg : option js_value) : bytes :=
  match arg with Some (JsString s) => str_bytes s | _ => [] end.
Definition live_interval (arg : option js_value) : res Empty_set Duration :=
  match arg with
  | None => Ok (5 * Second)
  | Some v => n ← js_Int v; Ok (if 0 <? n then wrap_s 64 (n * Second) else 5 * Second)
  end.
Definition call_nellLiveSync (p : page_env) (args : list js_value) c : Client St * reply :=
  match args with
  | [] => (c, Returns (js_of_int (-1)))
  | a :: rest =>
      let serverUrl := js_String a in
      match live_interval (rest !! 0%nat) with
      | Ok interval =>
          let l := mkLoop (LiveLoop (live_config (mkLive interval 1 Minute))) serverUrl (loop_secret (rest !! 1%nat)) false false in
          let '(c, handle) := start_loop l StopLoop true c in
          (invoke_hook (pg_onConnect p) [JsString serverUrl] c, after_hook p (pg_onConnect p) [JsString serverUrl] (Returns (js_of_int handle)))
      | _ => (c, Panics)
      end
  end.
Definition call_nellLiveWS (p : page_env) (args : list js_value) c : Client St * reply :=
  match args with
  | [] => (c, Returns (js_of_int (-1)))
  | a :: rest =>
      let serverUrl := js_String a in
      let l := mkLoop (LiveWSLoop (cl_nodeID c)) serverUrl (loop_secret (rest !! 0%nat)) false false in
      let '(c, handle) := start_loop l StopLoop true c in
      (invoke_hook (pg_onConnect p) [JsString serverUrl] c, after_hook p (pg_onConnect p) [JsString serverUrl] (Returns (js_of_int handle)))
  end.
Definition cancel_ctx (ctx : nat) c : Client St :=
  cl_set_loops (alter (fun l => mkLoop (lp_kind l) (lp_url l) (lp_secret l) true (lp_waiting l)) ctx (cl_loops c)) c.
Definition ctx_waiting (ctx : nat) c : bool := match cl_loops c !! ctx with Some l => lp_waiting l | None => false end.
(** A stop function, and whether it comes back: a replicator's waits for its goroutine to
    end, which it does at once unless it waits for the event loop. *)
Definition run_stop (f : stop_func) c : Client St * bool :=
  match f with
  | StopFeed ctx => (cancel_ctx ctx c, true)
  | StopLoop ctx handle =>
      let c := cancel_ctx ctx c in
      if ctx_waiting ctx c then (c, false)
      else (cl_set_tables (delete handle (cl_replicators c)) (cl_repStopFuncs c) (cl_nextRepHandle c) c, true)
  end.
(** [nellStopChanges] and [nellStopSync], which differ in the hook. *)
Definition call_stop (p : page_env) (onDisconnect : option js_value) (args : list js_value) c : Client St * reply :=
  match args with
  | [] => (c, Returns JsUndefined)
  | a :: _ =>
      match js_Int a with
      | Ok handle =>
          match cl_repStopFuncs c !! handle with
          | None => (c, Returns JsUndefined)
          | Some stop =>
              match run_stop stop c with
              | (c, false) => (c, Deadlocks)
              | (c, true) =>
                  let c := cl_set_tables (cl_replicators c) (delete handle (cl_repStopFuncs c)) (cl_nextRepHandle c) c in
                  match onDisconnect with
                  | Some hook => (invoke_hook hook [] c, after_hook p hook [] (Returns JsUndefined))
                  | None => (c, Returns JsUndefined)
                  end
              end
          end
      | _ => (c, Panics)
      end
  end.
Definition call_nellSetAuth (args : list js_value) c : Client St * reply :=
  match args with
  | [] => (c, Returns JsUndefined)
  | a :: _ => (cl_set_secret (str_bytes (js_String a)) c, Returns JsUndefined)
  end.
(** [nellInfo] reads the store in the callback itself. *)
Definition call_nellInfo (now : Z) c : Client St * reply :=
  if cl_async c then (c, Deadlocks) else (c, ReturnsText (bytes_str (MarshalInfo (Info now (cl_db c))))).

(** [registerCallbacks] *)
Inductive callback := NellPut | NellGet | NellRemove | NellAllDocs | NellSync | NellSearchSimilar | NellPutMany | NellGetMany
  | NellChanges | NellStopChanges | NellLiveSync | NellLiveWS | NellStopSync | NellSetAuth | NellDestroy | NellNodeID | NellInfo.
Definition registerCallbacks (p : page_env) (cb : callback) (args : list js_value) c : Client St * reply :=
  match cb with
  | NellPut => with_string args "missing argument" TPut c
  | NellGet => with_string args "missing id" TGet c
  | NellRemove => with_string args "missing argument" TRemove c
  | NellAllDocs => call_nellAllDocs args c
  | NellSync => with_string args "missing serverUrl" TSync c
  | NellSearchSimilar => call_nellSearchSimilar args c
  | NellPutMany => with_string args "missing argument" TPutMany c
  | NellGetMany => with_string args "missing argument" TGetMany c
  | NellChanges => call_nellChanges args c
  | NellStopChanges => call_stop p None args c
  | NellLiveSync => call_nellLiveSync p args c
  | NellLiveWS => call_nellLiveWS p args c
  | NellStopSync => call_stop p (Some (pg_onDisconnect p)) args c
  | NellSetAuth => call_nellSetAuth args c
  | NellDestroy => asyncPromise TDestroy c
  | NellNodeID => (c, ReturnsText (cl_nodeID c))
  | NellInfo => call_nellInfo (pg_now p) c
  end.

(** The goroutine of a feed calls the page's callback with a change; [None] is a panic, with a
    callback that is no function or throws. *)
Definition forward_change (p : page_env) (callback : js_value) (ch : Change) c : option (Client St) :=
  let args := [JsString (bytes_str (MarshalChange ch))] in
  if is_js_function callback && negb (pg_throws p callback args) then Some (cl_invoke callback args c) else None.

(** ** Start-up *)
Definition main (store : St) (async : bool) (nodeID : string) : Client St :=
  mkClient (New store nodeID DefaultCollection) async nodeID [] ∅ ∅ 0 [] [] [].
End client.

(** The store [main] opens: the browser's, or one in memory under a fresh id.  [nano] is
    [time.Now().UnixNano()]. *)
Definition main_store {D} (opened : res idb_err (IndexedDBStore D)) (random : option bytes) (nano now : Z)
    : res Empty_set (IndexedDBStore D + MemoryStore) :=
  match opened with
  | Ok s => Ok (inl s)
  | Err _ =>
      match GenerateUUIDv4 random with
      | Ok id => Ok (inr (NewMemoryStore now id))
      | Err _ => Ok (inr (NewMemoryStore now ("wasm-fallback-" +:+ bytes_str (format_int nano))))
      | Panic => Panic
      end
  | Panic => Panic
  end.
