(* ===== verification/ClientLaws.v ===== *)
(** * What the browser client promises

    The page's calls and the program's goroutines as steps: the handle table against the
    loops that run, how a callback comes back, and a document from one callback to
    another. *)
From S2P Require Import Prelude BigEndian Crypto Float Hlc Record KnowledgeVector Conflict GoSort Search MemStore StoreApi GoTime Json JsonText JsonCodec JsString Uuid IndexedDb DocDb DocDbLaws Replicator Client.
Local Open Scope Z_scope.

(** ** Handles as JavaScript numbers *)
(** A number a double holds exactly comes back from one. *)
Lemma trunc_of_int n : 0 <= n < 2 ^ 53 -> trunc (f64_of_int n) = n.
Proof.
  intros [H0 Hn]. unfold f64_of_int, binary_normalize. destruct n as [|m|m]; [done| |lia].
  pose proof (digits2_lower m) as Hd.
  assert (Zpos (digits2_pos m) <= 53) as Hd53.
  { destruct (Z.le_gt_cases (Zpos (digits2_pos m)) 53); [done|]. exfalso.
    pose proof (Z.pow_le_mono_r 2 53 (Zpos (digits2_pos m) - 1) ltac:(lia) ltac:(lia)). lia. }
  unfold binary_round, shl_align. set (d := Zpos (digits2_pos m)) in *.
  assert (fexp 53 1024 (d + 0) = d - 53) as Hf by (unfold fexp, emin; lia). rewrite Hf, Z.sub_0_r.
  destruct (d - 53) as [|p|p] eqn:Hp; [|lia|].
  - rewrite binary_round_aux_exact by (unfold fexp, emin; lia). cbn. lia.
  - change (trunc (binary_round_aux 53 1024 false (Zpos (shift_pos p m)) (Zneg p) loc_Exact) = Zpos m).
    rewrite binary_round_aux_exact; [|rewrite digits2_shift; unfold fexp, emin; lia|lia].
    unfold trunc. change (0 <=? Zneg p) with false. cbv iota. rewrite Zpower.shift_pos_correct.
    change (- Zneg p) with (Zpos p). rewrite Z.mul_comm. change (Z.pow_pos 2 p) with (2 ^ Zpos p).
    rewrite Z.div_mul by lia. lia.
Qed.

Section steps.
Context {St : Type} `{StoreOps St} `{Json} `{ClientJson}.
Implicit Types c : Client St.

Definition set_waiting (b : bool) (l : loop) : loop := mkLoop (lp_kind l) (lp_url l) (lp_secret l) (lp_cancelled l) b.
(** One step of the program: a callback that comes back, a promise's goroutine, a change
    handed to the page, and what a replicator's loop does while its context lives: it
    waits for the event loop, or not, and works on the database (Replicator, LiveWs). *)
Inductive client_step : Client St -> Client St -> Prop :=
| step_call p cb args c c' r : registerCallbacks p cb args c = (c', r) -> r <> Panics -> r <> Deadlocks -> client_step c c'
| step_settle i t c c' o : cl_promises c !! i = Some (Pending t) -> run_task t c (c', Ok o) ->
    client_step c (cl_set_promises (<[i := Settled o]> (cl_promises c')) c')
| step_forward p ctx l sub cb ch c c' : cl_loops c !! ctx = Some l -> lp_kind l = FeedLoop sub cb ->
    forward_change p cb ch c = Some c' -> client_step c c'
| step_waits ctx l b c : cl_loops c !! ctx = Some l -> is_feed l = false -> lp_cancelled l = false ->
    client_step c (cl_set_loops (alter (set_waiting b) ctx (cl_loops c)) c)
| step_works ctx l d c : cl_loops c !! ctx = Some l -> is_feed l = false -> lp_cancelled l = false ->
    client_step c (cl_set_db d c).
Definition client_reachable c : Prop := exists store async nodeID, rtc client_step (main store async nodeID) c.

(** ** Handles *)

(** The loop that runs under a handle. *)
Definition running c (h : Z) : option loop :=
  if 0 <=? h then l ← cl_loops c !! Z.to_nat h; if lp_cancelled l then None else Some l else None.
Definition stop_of (h : Z) (l : loop) : stop_func := if is_feed l then StopFeed (Z.to_nat h) else StopLoop (Z.to_nat h) h.
Definition replicator_of (h : Z) (l : loop) : option nat := if is_feed l then None else Some (Z.to_nat h).
Record handles_inv c : Prop := {
  hi_next : cl_nextRepHandle c = len (cl_loops c);
  hi_stops h : cl_repStopFuncs c !! h = stop_of h <$> running c h;
  hi_reps h : cl_replicators c !! h = running c h ≫= replicator_of h
}.
Definition same_handles c c' : Prop :=
  cl_loops c' = cl_loops c /\ cl_repStopFuncs c' = cl_repStopFuncs c /\ cl_replicators c' = cl_replicators c /\
  cl_nextRepHandle c' = cl_nextRepHandle c.

Lemma same_handles_refl c : same_handles c c.
Proof. done. Qed.
Lemma same_handles_inv c c' : same_handles c c' -> handles_inv c -> handles_inv c'.
Proof.
  intros (Hl & Hs & Hr & Hn) [I1 I2 I3].
  split; unfold running; rewrite ?Hl, ?Hs, ?Hr, ?Hn; done.
Qed.
Lemma run_task_handles t c c' r : run_task t c (c', r) -> same_handles c c'.
Proof.
  inversion 1; subst; try done.
  - unfold nellPut in *. destruct (UnmarshalObj _); [|by simplify_eq]. destruct (DocDB_Put _ _ _ _) as [[d ?] ?]. by simplify_eq.
  - unfold nellRemove in *. destruct (Remove _ _ _ _) as [d ?]. by simplify_eq.
  - unfold nellSync in *. destruct (Sync _ _ _ _ _ _ _) as [[[rep ?] ?] ?]. by simplify_eq.
  - unfold nellPutMany in *. destruct (UnmarshalDocs _); [|by simplify_eq]. destruct (PutMany _ _ _ _ _) as [[d ?] ?]. by simplify_eq.
  - unfold nellDestroy in *. destruct (Destroy _ _ _ _) as [d [e|]]; by simplify_eq.
Qed.
Lemma invoke_hook_handles hook args c : same_handles c (invoke_hook hook args c).
Proof. unfold invoke_hook. by destruct (is_js_function hook). Qed.
Lemma same_handles_trans c1 c2 c3 : same_handles c1 c2 -> same_handles c2 c3 -> same_handles c1 c3.
Proof. intros (? & ? & ? & ?) (? & ? & ? & ?). unfold same_handles. split_and!; congruence. Qed.

Lemma running_lt c h l : running c h = Some l -> 0 <= h < len (cl_loops c).
Proof.
  unfold running. destruct (Z.leb_spec 0 h); [|done]. destruct (cl_loops c !! _) as [x|] eqn:Hx; [|done].
  apply lookup_lt_Some in Hx. unfold len. lia.
Qed.
Lemma running_loop c h l : running c h = Some l -> cl_loops c !! Z.to_nat h = Some l /\ lp_cancelled l = false.
Proof.
  unfold running. destruct (0 <=? h); [|done]. destruct (cl_loops c !! _) as [x|]; [|done]. cbn.
  destruct (lp_cancelled x) eqn:Hx; [done|]. by intros [= <-].
Qed.

(** Starting a loop. *)
Lemma start_loop_running l stop rep c : lp_cancelled l = false ->
  forall h, running (fst (start_loop l stop rep c)) h = if bool_decide (h = len (cl_loops c)) then Some l else running c h.
Proof.
  intros Hl h. unfold running. cbn [start_loop fst cl_set_tables cl_set_loops cl_loops]. case_bool_decide as Hh.
  - subst h. unfold len. rewrite (proj2 (Z.leb_le 0 _)) by apply Zle_0_nat. rewrite Nat2Z.id, list_lookup_middle by done. cbn. by rewrite Hl.
  - destruct (Z.leb_spec 0 h); [|done]. destruct (decide (h < len (cl_loops c))).
    + rewrite lookup_app_l by (unfold len in *; lia). done.
    + rewrite !lookup_ge_None_2; [done|unfold len in *; rewrite ?length_app; cbn; lia..].
Qed.
Lemma start_loop_inv l stop rep c : handles_inv c -> lp_cancelled l = false -> rep = negb (is_feed l) ->
  (forall h, 0 <= h -> stop (Z.to_nat h) h = stop_of h l) -> len (cl_loops c) + 1 < 2 ^ 63 ->
  handles_inv (fst (start_loop l stop rep c)).
Proof.
  intros [I1 I2 I3] Hl -> Hstop Hlen. pose proof (start_loop_running l stop (negb (is_feed l)) c Hl) as Hrun.
  pose proof (Zle_0_nat (length (cl_loops c))) as Hpos.
  split.
  - cbn [start_loop fst cl_set_tables cl_nextRepHandle cl_set_loops cl_loops]. rewrite I1, wrap_s_id by (unfold in_s, len in *; lia).
    unfold len. rewrite length_app. cbn [length]. lia.
  - intros h. rewrite Hrun. cbn [start_loop fst cl_set_tables cl_repStopFuncs]. rewrite I1. case_bool_decide as Hh.
    + subst h. rewrite lookup_insert_eq. cbn. unfold len. rewrite <-(Hstop (Z.of_nat _)) by lia. by rewrite Nat2Z.id.
    + rewrite lookup_insert_ne by done. apply I2.
  - intros h. rewrite Hrun. cbn [start_loop fst cl_set_tables cl_replicators]. rewrite I1. unfold replicator_of.
    case_bool_decide as Hh.
    + subst h. cbn. destruct (is_feed l) eqn:Hf; cbn [negb].
      * rewrite I3. destruct (running c _) as [x|] eqn:Hx; [|done]. apply running_lt in Hx. lia.
      * rewrite lookup_insert_eq. unfold len. by rewrite Nat2Z.id.
    + destruct (negb (is_feed l)); [rewrite lookup_insert_ne by done|]; apply I3.
Qed.

(** Stopping one. *)
Lemma cancel_running ctx c h : running (cancel_ctx ctx c) h = if bool_decide (h = Z.of_nat ctx) then None else running c h.
Proof.
  unfold running, cancel_ctx. cbn [cl_set_loops cl_loops]. destruct (Z.leb_spec 0 h).
  - case_bool_decide as Hh.
    + subst h. rewrite Nat2Z.id, list_lookup_alter_eq. by destruct (cl_loops c !! ctx).
    + rewrite list_lookup_alter_ne by lia. done.
  - by case_bool_decide.
Qed.
Lemma cancel_waiting ctx c : ctx_waiting ctx (cancel_ctx ctx c) = ctx_waiting ctx c.
Proof.
  unfold ctx_waiting, cancel_ctx. cbn [cl_set_loops cl_loops]. rewrite list_lookup_alter_eq. by destruct (cl_loops c !! ctx).
Qed.
(** What becomes of the loops when the one under a handle is stopped. *)
Definition stopped (h : Z) c c' : Prop :=
  (forall h', running c' h' = if bool_decide (h' = h) then None else running c h') /\
  len (cl_loops c') = len (cl_loops c) /\ cl_nextRepHandle c' = cl_nextRepHandle c /\
  cl_repStopFuncs c' = delete h (cl_repStopFuncs c) /\ cl_replicators c' = delete h (cl_replicators c).
Lemma stopped_inv h c c' : stopped h c c' -> handles_inv c -> handles_inv c'.
Proof.
  intros (Hr & Hl & Hn & Hs & Hp) [I1 I2 I3]. split; [by rewrite Hn, Hl| |]; intros h'; rewrite Hr.
  - rewrite Hs. case_bool_decide as Hh; [subst; by rewrite lookup_delete_eq|rewrite lookup_delete_ne by done; apply I2].
  - rewrite Hp. case_bool_decide as Hh; [subst; by rewrite lookup_delete_eq|rewrite lookup_delete_ne by done; apply I3].
Qed.

(** A stop callback, by what runs under the handle. *)
(** What a stop callback answers, with the hook it runs. *)
Definition stop_reply (p : page_env) (hook : option js_value) : reply :=
  match hook with Some hook => after_hook p hook [] (Returns JsUndefined) | None => Returns JsUndefined end.
Lemma call_stop_law p hook v rest h c : handles_inv c -> js_Int v = Ok h ->
  match running c h with
  | None => call_stop p hook (v :: rest) c = (c, Returns JsUndefined)
  | Some l =>
      if negb (is_feed l) && lp_waiting l then snd (call_stop p hook (v :: rest) c) = Deadlocks
      else exists c', call_stop p hook (v :: rest) c = (c', stop_reply p hook) /\ stopped h c c'
  end.
Proof.
  intros I Hv. unfold call_stop. rewrite Hv, (hi_stops c I h). destruct (running c h) as [l|] eqn:Hr; [|done]. cbn [fmap option_fmap option_map].
  pose proof (running_lt _ _ _ Hr) as Hlt. destruct (running_loop _ _ _ Hr) as [Hl _].
  assert (forall c', same_handles c' (match hook with Some hk => invoke_hook hk [] c' | None => c' end)) as Hhook.
  { intros c'. destruct hook; [apply invoke_hook_handles|done]. }
  assert (forall c', match hook with Some hk => (invoke_hook hk [] c', after_hook p hk [] (Returns JsUndefined)) | None => (c', Returns JsUndefined) end =
    (match hook with Some hk => invoke_hook hk [] c' | None => c' end, stop_reply p hook)) as Heq by (intros c'; by destruct hook).
  assert (forall c1 c2, same_handles c1 c2 -> forall h', running c2 h' = running c1 h') as Hsame.
  { intros c1 c2 (Hx & _) h'. unfold running. by rewrite Hx. }
  unfold stop_of. destruct (is_feed l) eqn:Hf; cbn [negb andb run_stop].
  - eexists. split; [apply Heq|]. pose proof (Hhook (cl_set_tables (cl_replicators (cancel_ctx (Z.to_nat h) c))
      (delete h (cl_repStopFuncs (cancel_ctx (Z.to_nat h) c))) (cl_nextRepHandle (cancel_ctx (Z.to_nat h) c)) (cancel_ctx (Z.to_nat h) c))) as Hk.
    split; [|destruct Hk as (K1 & K2 & K3 & K4); split_and!].
    + intros h'. rewrite (Hsame _ _ Hk).
      change (running (cancel_ctx (Z.to_nat h) c) h' = if bool_decide (h' = h) then None else running c h').
      rewrite cancel_running. by rewrite Z2Nat.id by lia.
    + rewrite K1. cbn. unfold len. by rewrite length_alter.
    + by rewrite K4.
    + by rewrite K2.
    + rewrite K3. cbn. rewrite delete_id; [done|]. rewrite (hi_reps c I h), Hr. cbn. unfold replicator_of. by rewrite Hf.
  - rewrite cancel_waiting. unfold ctx_waiting. rewrite Hl. destruct (lp_waiting l) eqn:Hw; [done|].
    eexists. split; [apply Heq|]. set (c1 := cl_set_tables (delete h _) _ _ (cancel_ctx _ c)).
    pose proof (Hhook (cl_set_tables (cl_replicators c1) (delete h (cl_repStopFuncs c1)) (cl_nextRepHandle c1) c1)) as Hk.
    split; [|destruct Hk as (K1 & K2 & K3 & K4); split_and!].
    + intros h'. rewrite (Hsame _ _ Hk).
      change (running (cancel_ctx (Z.to_nat h) c) h' = if bool_decide (h' = h) then None else running c h').
      rewrite cancel_running. by rewrite Z2Nat.id by lia.
    + rewrite K1. cbn. unfold len. by rewrite length_alter.
    + by rewrite K4.
    + by rewrite K2.
    + by rewrite K3.
Qed.

(** ** The callbacks *)
Lemma promise_handles t c c' r : asyncPromise t c = (c', r) -> same_handles c c'.
Proof. unfold asyncPromise. by intros [= <- <-]. Qed.
Lemma start_loop_reply hook args l stop rep c c' r h0 :
  handles_inv c -> lp_cancelled l = false -> rep = negb (is_feed l) ->
  (forall h, 0 <= h -> stop (Z.to_nat h) h = stop_of h l) -> start_loop l stop rep c = (c', h0) ->
  len (cl_loops c') = len (cl_loops c) + 1 /\ h0 = len (cl_loops c) /\ (len (cl_loops c') < 2 ^ 63 -> r = invoke_hook hook args c' -> handles_inv r).
Proof.
  intros I Hl Hrep Hstop He. assert (len (cl_loops c') = len (cl_loops c) + 1) as Hlen.
  { injection He as <- _. cbn [cl_set_tables cl_loops cl_set_loops]. unfold len. rewrite length_app. cbn [length]. lia. }
  split_and!; [done|injection He as _ <-; apply I|]. intros Hb ->. eapply same_handles_inv; [apply invoke_hook_handles|].
  replace c' with (fst (start_loop l stop rep c)) by by rewrite He. apply start_loop_inv; [done..|lia].
Qed.
(** What a callback does to the loops. *)
Definition loops_step c c' : Prop :=
  same_handles c c' \/ (exists h, stopped h c c') \/
  (len (cl_loops c') = len (cl_loops c) + 1 /\ (len (cl_loops c') < 2 ^ 63 -> handles_inv c')).
Lemma call_loops p cb args c c' r : handles_inv c -> registerCallbacks p cb args c = (c', r) -> r <> Panics -> r <> Deadlocks ->
  loops_step c c'.
Proof.
  intros I He Hp Hd.
  assert (forall hook, call_stop p hook args c = (c', r) -> loops_step c c') as Hstop.
  { intros hook Hc. destruct args as [|v rest]; [left; by injection Hc as <- _|]. destruct (js_Int v) as [h|[]|] eqn:Hv.
    2:{ unfold call_stop in Hc. rewrite Hv in Hc. by injection Hc as _ <-. }
    pose proof (call_stop_law p hook v rest h c I Hv) as Hs. rewrite Hc in Hs. destruct (running c h) as [l|].
    - destruct (_ && _); [done|]. destruct Hs as (c1 & [= -> ->] & Hs). right; left. by exists h.
    - left. by injection Hs as -> _. }
  assert (forall t, asyncPromise t c = (c', r) -> loops_step c c') as Hasync by (intros t Ht; left; by eapply promise_handles).
  assert (forall missing t, with_string args missing t c = (c', r) -> loops_step c c') as Hws.
  { intros missing t. unfold with_string. destruct args; apply Hasync. }
  destruct cb; cbn [registerCallbacks] in He; eauto.
  - unfold call_nellAllDocs in He. repeat case_match; eauto.
  - unfold call_nellSearchSimilar in He. repeat case_match; eauto; by injection He as _ <-.
  - unfold call_nellChanges in He. destruct args as [|cb rest]; [left; by injection He as <- _|].
    destruct (subscribe _) as [subs id] eqn:Hsub. set (c1 := cl_set_db _ c) in He. set (l := mkLoop _ _ _ _ _) in He.
    destruct (start_loop l _ false c1) as [c2 h] eqn:Hst. injection He as -> _.
    assert (handles_inv c1) as I1 by (eapply same_handles_inv; [|exact I]; done). right; right.
    destruct (start_loop_reply JsNull [] l _ false c1 c' c' h I1 eq_refl eq_refl (fun _ _ => eq_refl) Hst) as (? & _ & Hi). split; [done|].
    intros Hb. by apply Hi.
  - unfold call_nellLiveSync in He. destruct args as [|a rest]; [left; by injection He as <- _|].
    destruct (live_interval _); [|done|by injection He as _ <-]. set (l := mkLoop _ _ _ _ _) in He.
    destruct (start_loop l StopLoop true c) as [c2 h] eqn:Hst. injection He as He _. right; right.
    destruct (start_loop_reply (pg_onConnect p) [JsString (js_String a)] l _ true c c2 c' h I eq_refl eq_refl (fun _ _ => eq_refl) Hst) as (? & _ & Hi).
    pose proof (invoke_hook_handles (pg_onConnect p) [JsString (js_String a)] c2) as (Hl & _). rewrite He in Hl. rewrite Hl. split; [done|].
    intros Hb. by apply Hi.
  - unfold call_nellLiveWS in He. destruct args as [|a rest]; [left; by injection He as <- _|]. set (l := mkLoop _ _ _ _ _) in He.
    destruct (start_loop l StopLoop true c) as [c2 h] eqn:Hst. injection He as He _. right; right.
    destruct (start_loop_reply (pg_onConnect p) [JsString (js_String a)] l _ true c c2 c' h I eq_refl eq_refl (fun _ _ => eq_refl) Hst) as (? & _ & Hi).
    pose proof (invoke_hook_handles (pg_onConnect p) [JsString (js_String a)] c2) as (Hl & _). rewrite He in Hl. rewrite Hl. split; [done|].
    intros Hb. by apply Hi.
  - left. unfold call_nellSetAuth in He. destruct args; by injection He as <- _.
  - left. by injection He as <- _.
  - left. unfold call_nellInfo in He. destruct (cl_async c); by injection He as <- _.
Qed.

(** The invariant, as long as the handles fit an int. *)
Lemma waiting_running b ctx c h : running (cl_set_loops (alter (set_waiting b) ctx (cl_loops c)) c) h =
  (fun l => if bool_decide (h = Z.of_nat ctx) then set_waiting b l else l) <$> running c h.
Proof.
  unfold running. cbn [cl_set_loops cl_loops]. destruct (Z.leb_spec 0 h); [|done]. case_bool_decide as Hh.
  - subst h. rewrite Nat2Z.id, list_lookup_alter_eq. destruct (cl_loops c !! ctx) as [x|]; [|done]. cbn. by destruct (lp_cancelled x).
  - rewrite list_lookup_alter_ne by lia. destruct (cl_loops c !! _) as [x|]; [|done]. cbn. by destruct (lp_cancelled x).
Qed.
Lemma call_len p cb args c : len (cl_loops c) <= len (cl_loops (fst (registerCallbacks p cb args c))).
Proof.
  assert (forall hook, len (cl_loops c) <= len (cl_loops (fst (call_stop p hook args c)))) as Hstop.
  { intros hook. unfold call_stop. destruct args as [|v rest]; [reflexivity|]. destruct (js_Int v) as [h| |]; [|reflexivity..].
    destruct (cl_repStopFuncs c !! h) as [[ctx|ctx h']|]; cbn [run_stop]; [| |reflexivity].
    - destruct hook; cbn [fst]; [rewrite (proj1 (invoke_hook_handles _ _ _))|]; cbn; unfold len; by rewrite length_alter.
    - destruct (ctx_waiting _ _); [cbn; unfold len; by rewrite length_alter|].
      destruct hook; cbn [fst]; [rewrite (proj1 (invoke_hook_handles _ _ _))|]; cbn; unfold len; by rewrite length_alter. }
  assert (forall l, len (cl_loops c) <= len (cl_loops c ++ [l])) as Happ by (intros; unfold len; rewrite length_app; lia).
  destruct cb; cbn [registerCallbacks]; try apply Hstop; try (unfold with_string; destruct args; reflexivity); try (reflexivity).
  - unfold call_nellAllDocs. repeat case_match; reflexivity.
  - unfold call_nellSearchSimilar. repeat case_match; reflexivity.
  - unfold call_nellChanges. destruct args; [reflexivity|]. destruct (subscribe _). cbn. apply Happ.
  - unfold call_nellLiveSync. destruct args; [reflexivity|]. destruct (live_interval _); [|reflexivity..]. cbn [start_loop fst].
    rewrite (proj1 (invoke_hook_handles _ _ _)). apply Happ.
  - unfold call_nellLiveWS. destruct args; [reflexivity|]. cbn [start_loop fst]. rewrite (proj1 (invoke_hook_handles _ _ _)). apply Happ.
  - unfold call_nellInfo. destruct (cl_async c); reflexivity.
Qed.
Lemma client_step_len c c' : client_step c c' -> len (cl_loops c) <= len (cl_loops c').
Proof.
  intros [p cb args c1 c2 r He Hp Hd|i t c1 c2 o Hi Hr|p ctx l sub cb ch c1 c2 Hl Hk Hf|ctx l b c1 Hl Hf Hc|ctx l d c1 Hl Hf Hc].
  - pose proof (call_len p cb args c1) as Hc. by rewrite He in Hc.
  - apply run_task_handles in Hr as (Hl & _). cbn. rewrite Hl. lia.
  - unfold forward_change in Hf. destruct (_ && _); [|done]. by injection Hf as <-.
  - cbn. unfold len. rewrite length_alter. lia.
  - done.
Qed.
Lemma client_step_inv c c' : client_step c c' -> handles_inv c -> len (cl_loops c') < 2 ^ 63 -> handles_inv c'.
Proof.
  intros Hs I. pose proof (same_handles_inv c c') as Hsame.
  destruct Hs as [p cb args c c' r He Hp Hd|i t c c' o Hi Hr|p ctx l sub cb ch c c' Hl Hk Hf|ctx l b c Hl Hf Hc|ctx l d c Hl Hf Hc].
  - destruct (call_loops p cb args c c' r I He Hp Hd) as [Hh|[(h & Hh)|(Hlen & Hi)]]; [auto| |done]. intros _. by eapply stopped_inv.
  - intros _. apply Hsame; [|done]. apply run_task_handles in Hr. destruct Hr as (? & ? & ? & ?). by split_and!.
  - intros _. apply Hsame; [|done]. unfold forward_change in Hf. destruct (_ && _); [|done]. by injection Hf as <-.
  - intros _. destruct I as [I1 I2 I3]. split.
    + cbn. rewrite I1. unfold len. by rewrite length_alter.
    + intros h. rewrite waiting_running, <-option_fmap_compose. cbn [cl_repStopFuncs cl_set_loops]. rewrite I2.
      destruct (running c h) as [x|]; [|done]. cbn. f_equal. by case_bool_decide.
    + intros h. rewrite waiting_running. cbn [cl_replicators cl_set_loops]. rewrite I3.
      destruct (running c h) as [x|]; [|done]. cbn. by case_bool_decide.
  - intros _. by apply Hsame.
Qed.
Lemma main_inv store async nodeID : handles_inv (main store async nodeID).
Proof. split; [done| |]; intros h; unfold running; destruct (0 <=? h); cbn; by rewrite ?lookup_nil, ?lookup_empty. Qed.
Lemma client_reachable_inv c : client_reachable c -> len (cl_loops c) < 2 ^ 63 -> handles_inv c.
Proof.
  intros (store & async & nodeID & Hrtc). revert c Hrtc. apply (rtc_ind_r (fun c => len (cl_loops c) < 2 ^ 63 -> handles_inv c)); [intros _; apply main_inv|].
  intros c1 c2 _ Hs IH Hb. apply (client_step_inv c1); [done| |done]. apply IH. apply client_step_len in Hs. lia.
Qed.

(** A callback that starts a loop. *)
Definition starts (cb : callback) : Prop := cb = NellChanges \/ cb = NellLiveSync \/ cb = NellLiveWS.
Lemma call_start_law p cb a rest c : handles_inv c -> starts cb -> snd (registerCallbacks p cb (a :: rest) c) <> Panics ->
  let h := len (cl_loops c) in
  exists c' l, registerCallbacks p cb (a :: rest) c = (c', Returns (js_of_int h)) /\
    running c h = None /\ running c' h = Some l /\ forall h', h' <> h -> running c' h' = running c h'.
Proof.
  intros I Hcb Hp h. assert (running c h = None) as Hnone.
  { destruct (running c h) as [l|] eqn:Hr; [|done]. apply running_lt in Hr. unfold h in Hr. lia. }
  assert (forall l stop rep c0 hook xs r, lp_cancelled l = false -> same_handles c c0 -> r = Returns (js_of_int (snd (start_loop l stop rep c0))) ->
    exists c' l', (invoke_hook hook xs (fst (start_loop l stop rep c0)), r) = (c', Returns (js_of_int h)) /\
      running c h = None /\ running c' h = Some l' /\ forall h', h' <> h -> running c' h' = running c h') as Hstart.
  { intros l stop rep c0 hook xs r Hl (Ha & _ & _ & Hb) ->. eexists _, l. split.
    { cbn [start_loop snd]. rewrite Hb, (hi_next c I). reflexivity. }
    assert (forall h', running (invoke_hook hook xs (fst (start_loop l stop rep c0))) h' =
      if bool_decide (h' = h) then Some l else running c h') as Hr.
    { intros h'. transitivity (running (fst (start_loop l stop rep c0)) h').
      - unfold running. by rewrite (proj1 (invoke_hook_handles hook xs _)).
      - rewrite start_loop_running by done. unfold running. by rewrite Ha. }
    split_and!; [done|by rewrite Hr, bool_decide_true|]. intros h' Hne. by rewrite Hr, bool_decide_false. }
  assert (forall hook xs r, after_hook p hook xs r <> Panics -> after_hook p hook xs r = r) as Hno
    by (intros hook xs r; unfold after_hook; by destruct (hook_throws p hook xs)).
  destruct Hcb as [->|[-> | ->]]; cbn [registerCallbacks] in *.
  - unfold call_nellChanges. destruct (subscribe _) as [subs id]. set (c1 := cl_set_db _ c).
    destruct (Hstart (mkLoop (FeedLoop id a) "" [] false false) (fun ctx _ => StopFeed ctx) false c1 JsNull [] _ eq_refl ltac:(done) eq_refl)
      as (c' & l & He & Hr). exists c', l. split; [exact He|done].
  - unfold call_nellLiveSync in *. destruct (live_interval _) as [iv| |]; [|done..].
    destruct (Hstart (mkLoop (LiveLoop (live_config (mkLive iv 1 Minute))) (js_String a) (loop_secret (rest !! 1%nat)) false false)
      StopLoop true c (pg_onConnect p) [JsString (js_String a)] _ eq_refl ltac:(done) (Hno _ _ _ Hp)) as (c' & l & He & Hr).
    exists c', l. split; [exact He|done].
  - unfold call_nellLiveWS in *.
    destruct (Hstart (mkLoop (LiveWSLoop (cl_nodeID c)) (js_String a) (loop_secret (rest !! 0%nat)) false false)
      StopLoop true c (pg_onConnect p) [JsString (js_String a)] _ eq_refl ltac:(done) (Hno _ _ _ Hp)) as (c' & l & He & Hr).
    exists c', l. split; [exact He|done].
Qed.
(** The argument a callback needs a number for. *)
Definition number_arg (cb : callback) : option nat :=
  match cb with
  | NellSearchSimilar | NellLiveSync => Some 1%nat
  | NellStopChanges | NellStopSync => Some 0%nat
  | _ => None
  end.
Definition stops (cb : callback) : Prop := cb = NellStopChanges \/ cb = NellStopSync.
(** A stop callback's arguments name a loop that stops at once. *)
Definition stops_now (args : list js_value) c : Prop := exists v rest h l,
  args = v :: rest /\ js_Int v = Ok h /\ running c h = Some l /\ negb (is_feed l) && lp_waiting l = false.
(** The hook a callback runs throws: [nellOnConnect] once a loop is started, [nellOnDisconnect] once one is stopped. *)
Definition runs_throwing (p : page_env) (cb : callback) (args : list js_value) c : Prop :=
  (cb = NellLiveSync \/ cb = NellLiveWS) /\ (exists a rest, args = a :: rest /\ hook_throws p (pg_onConnect p) [JsString (js_String a)] = true) \/
  cb = NellStopSync /\ stops_now args c /\ hook_throws p (pg_onDisconnect p) [] = true.
(** How a stop callback comes back. *)
Lemma call_stop_back p hook args c : handles_inv c ->
  (snd (call_stop p hook args c) = Panics <->
    (exists v, args !! 0%nat = Some v /\ js_Int v = Panic) \/ stops_now args c /\ exists hk, hook = Some hk /\ hook_throws p hk [] = true) /\
  (snd (call_stop p hook args c) = Deadlocks <->
    exists v rest h l, args = v :: rest /\ js_Int v = Ok h /\ running c h = Some l /\ is_feed l = false /\ lp_waiting l = true).
Proof.
  intros I. destruct args as [|v rest].
  { split; split; [done|by intros [(? & ? & _)|[(? & ? & ? & ? & ? & _) _]]|done|by intros (? & ? & ? & ? & ? & _)]. }
  unfold stops_now. destruct (js_Int v) as [h|[]|] eqn:Hv.
  2: { unfold call_stop. rewrite Hv. split; split; [intros _; left; by exists v|done|done|]. intros (? & ? & ? & ? & [= <- <-] & ? & _). congruence. }
  pose proof (call_stop_law p hook v rest h c I Hv) as Hs. destruct (running c h) as [l|] eqn:Hl.
  2: { rewrite Hs. split; split; [done| |done|].
    - intros [(? & [= <-] & ?)|[(? & ? & ? & ? & [= <- <-] & ? & ? & _) _]]; congruence.
    - intros (? & ? & ? & ? & [= <- <-] & ? & ? & _). congruence. }
  destruct (negb (is_feed l) && lp_waiting l) eqn:Hw.
  - rewrite Hs. apply andb_true_iff in Hw as [Hf Hw]. apply negb_true_iff in Hf. split; split; [done| |intros _; by exists v, rest, h, l|done].
    intros [(? & [= <-] & ?)|[(v' & rest' & h' & l' & [= <- <-] & Hh & Hl' & Hn) _]]; [congruence|].
    assert (h' = h) as -> by congruence. assert (l' = l) as -> by congruence. by rewrite Hf, Hw in Hn.
  - destruct Hs as (c' & -> & _). cbn [snd]. split; split.
    + unfold stop_reply, after_hook. destruct hook as [hk|]; [|done]. destruct (hook_throws p hk []) eqn:Ht; [|done].
      intros _. right. split; [by exists v, rest, h, l|by exists hk].
    + intros [(? & [= <-] & ?)|[_ (hk & -> & Ht)]]; [congruence|]. unfold stop_reply, after_hook. by rewrite Ht.
    + unfold stop_reply, after_hook. destruct hook as [hk|]; [by destruct (hook_throws p hk [])|done].
    + intros (v' & rest' & h' & l' & [= <- <-] & Hh & Hl' & Hf & Hwt). assert (h' = h) as -> by congruence. assert (l' = l) as -> by congruence.
      by rewrite Hf, Hwt in Hw.
Qed.
(** The hook of a stop callback. *)
Definition stop_hook (p : page_env) (cb : callback) : option js_value :=
  match cb with NellStopSync => Some (pg_onDisconnect p) | _ => None end.
End steps.

(** ** Properties *)

(** A concrete page: every text decodes to nothing but the ones the encoder made. *)
#[export] Instance demo_client_json : ClientJson := {|
  UnmarshalDocs _ := None; UnmarshalIDs _ := None; UnmarshalVector _ := None; UnmarshalRange _ := None;
  MarshalChange ch := str_bytes (ch_ID ch); MarshalInfo i := str_bytes (info_NodeID i); MarshalResult r := format_int (TotalRows r);
  json_error _ := "invalid character"; wrapped_error _ := "store"; putmany_error _ := "putmany"; sync_error _ := "sync";
  number_text _ := "0"
|}.
Definition demo_page : page_env := mkPage JsUndefined JsUndefined (fun _ _ => false) 0.
Definition demo_main : Client MemoryStore := main (NewMemoryStore 0 "n") false "n".
Definition demo_started : Client MemoryStore := fst (registerCallbacks demo_page NellLiveWS [JsString "http://h"] demo_main).
Lemma demo_started_reachable : client_reachable demo_started.
Proof.
  exists (NewMemoryStore 0 "n"), false, "n". apply rtc_once.
  eapply (step_call demo_page NellLiveWS [JsString "http://h"]); [by apply surjective_pairing|by vm_compute..].
Qed.

(** C15. The handle table is the loops: after any calls and any goroutine steps, the
    handles with a stop function are exactly those of the loops still running, each with
    the function that stops that loop, and those with a replicator the ones that
    replicate.  A callback that starts a loop gives the page a handle no loop had, under
    which exactly the new loop runs; a stop callback given that handle back stops that
    loop and no other and forgets it, before [nellOnDisconnect] runs, and does nothing for a handle under which nothing
    runs, as for one already stopped; it never returns when the loop's goroutine waits for
    the page. *)
Theorem client_handles {St} `{StoreOps St} `{Json} `{ClientJson} (c : Client St) p :
  client_reachable c -> len (cl_loops c) < 2 ^ 53 ->
  (forall h, cl_repStopFuncs c !! h = stop_of h <$> running c h) /\
  (forall h, cl_replicators c !! h = running c h ≫= replicator_of h) /\
  (forall cb a rest, starts cb -> snd (registerCallbacks p cb (a :: rest) c) <> Panics ->
    exists c' h l, registerCallbacks p cb (a :: rest) c = (c', Returns (js_of_int h)) /\ 0 <= h < 2 ^ 53 /\
      running c h = None /\ running c' h = Some l /\ forall h', h' <> h -> running c' h' = running c h') /\
  (forall cb h rest, stops cb -> 0 <= h < 2 ^ 53 ->
    match running c h with
    | None => registerCallbacks p cb (js_of_int h :: rest) c = (c, Returns JsUndefined)
    | Some l =>
        if negb (is_feed l) && lp_waiting l then snd (registerCallbacks p cb (js_of_int h :: rest) c) = Deadlocks
        else exists c', registerCallbacks p cb (js_of_int h :: rest) c = (c', stop_reply p (stop_hook p cb)) /\ stopped h c c'
    end).
Proof.
  intros Hr Hlen. assert (handles_inv c) as I by (apply client_reachable_inv; [done|lia]).
  split_and!; [apply I..| |].
  - intros cb a rest Hs Hp. destruct (call_start_law p cb a rest c I Hs Hp) as (c' & l & He & Hrun).
    exists c', (len (cl_loops c)), l. split_and!; [done|unfold len; lia|done|apply Hrun..].
  - intros cb h rest Hs Hh. assert (js_Int (js_of_int h) = Ok h) as Hi by (unfold js_Int, js_of_int; by rewrite trunc_of_int).
    destruct Hs as [-> | ->]; by apply (call_stop_law p _ _ rest h c I Hi).
Qed.
Lemma client_handles_witness :
  cl_repStopFuncs demo_started !! 0 = Some (StopLoop 0 0) /\
  exists c', registerCallbacks demo_page NellStopSync [js_of_int 0] demo_started = (c', Returns JsUndefined) /\ running c' 0 = None.
Proof.
  destruct (client_handles demo_started demo_page demo_started_reachable ltac:(by vm_compute)) as (Hs & _ & _ & Hstop).
  split; [rewrite Hs; by vm_compute|].
  specialize (Hstop NellStopSync 0 [] (or_intror eq_refl) ltac:(split; [lia|by vm_compute])).
  destruct (running demo_started 0) as [l|] eqn:Hl; [|by vm_compute in Hl].
  assert (negb (is_feed l) && lp_waiting l = false) as Hw by (vm_compute in Hl; injection Hl as <-; reflexivity).
  rewrite Hw in Hstop. destruct Hstop as (c' & He & Hr & _). exists c'. split; [exact He|].
  rewrite Hr. by rewrite bool_decide_true.
Defined.

(** C32. How a callback comes back: it panics, which ends the program, exactly when the
    argument it needs a number for is there and is none, or a hook of the page that it runs throws
    ([nellOnConnect] once a loop is started, [nellOnDisconnect] once one is stopped); it never comes back exactly when
    it waits for the event loop it keeps from running, which [nellInfo] does over a store
    that answers through it, and a stop callback for a replicator's loop whose goroutine
    waits for it; in every other case it returns. *)
Theorem callbacks_come_back {St} `{StoreOps St} `{Json} `{ClientJson} (c : Client St) p cb args :
  client_reachable c -> len (cl_loops c) < 2 ^ 63 ->
  (snd (registerCallbacks p cb args c) = Panics <->
    (exists i v, number_arg cb = Some i /\ args !! i = Some v /\ js_Int v = Panic) \/ runs_throwing p cb args c) /\
  (snd (registerCallbacks p cb args c) = Deadlocks <->
    (cb = NellInfo /\ cl_async c = true) \/
    (stops cb /\ exists v rest h l, args = v :: rest /\ js_Int v = Ok h /\ running c h = Some l /\ is_feed l = false /\ lp_waiting l = true)).
Proof.
  intros Hr Hlen. assert (handles_inv c) as I by by apply client_reachable_inv.
  assert (forall r : reply, r <> Panics -> r <> Deadlocks -> number_arg cb = None -> cb <> NellLiveWS -> cb <> NellInfo ->
    (r = Panics <-> (exists i v, number_arg cb = Some i /\ args !! i = Some v /\ js_Int v = Panic) \/ runs_throwing p cb args c) /\
    (r = Deadlocks <-> (cb = NellInfo /\ cl_async c = true) \/ (stops cb /\ exists v rest h l, args = v :: rest /\
      js_Int v = Ok h /\ running c h = Some l /\ is_feed l = false /\ lp_waiting l = true))) as Hret.
  { intros r Hp Hd Hn Hw Hi. split; split; [done| |done|].
    - intros [(? & ? & ? & _)|[[[-> | ->] _]|[-> _]]]; done || congruence.
    - intros [[? _]|[[-> | ->] _]]; done || congruence. }
  destruct cb; cbn [registerCallbacks]; try (apply Hret; try done; unfold with_string; by destruct args).
  - apply Hret; try done; unfold call_nellAllDocs; by repeat case_match.
  - split; [|unfold call_nellSearchSimilar; destruct args as [|a [|v rest]]; [..|destruct (js_Int v)]; split; try done; by intros [[? _]|[[? | ?] _]]].
    unfold call_nellSearchSimilar. destruct args as [|a [|v rest]]; [split; [done|by intros [(? & ? & [= <-] & ? & _)|[[[? | ?] _]|[? _]]]]..|].
    destruct (js_Int v) as [n|[]|] eqn:Hv; split; try done; [intros [(? & ? & [= <-] & [= <-] & ?)|[[[? | ?] _]|[? _]]]; congruence|].
    intros _. left. by exists 1%nat, v.
  - destruct (call_stop_back p None args c I) as [-> ->]. split; split.
    + intros [(v & Ha & Hv)|[_ (? & ? & _)]]; [left; by exists 0%nat, v|done].
    + intros [(i & v & [= <-] & Ha & Hv)|[[[? | ?] _]|[? _]]]; [left; by exists v|done..].
    + intros Hx. right. split; [by left|done].
    + by intros [[? _]|[_ Hx]].
  - split; [|unfold call_nellLiveSync, after_hook; destruct args as [|a rest]; [|destruct (live_interval _); [destruct (hook_throws _ _ _)|..]];
      (split; [done|by intros [[? _]|[[? | ?] _]]])].
    unfold call_nellLiveSync, after_hook. destruct args as [|a rest]; [split; [done|by intros [(? & ? & [= <-] & ? & _)|[[_ (? & ? & ? & _)]|[? _]]]]|].
    unfold live_interval. destruct rest as [|v rest]; cbn [lookup list_lookup].
    + destruct (hook_throws _ _ _) eqn:Ht; split; try done; [intros _; right; left; split; [by left|by exists a, []]|].
      intros [(? & ? & [= <-] & ? & _)|[[_ (? & ? & [= <- <-] & ?)]|[? _]]]; [done|cbn in *; congruence|done].
    + destruct (js_Int v) as [n|[]|] eqn:Hv; cbn [mbind res_bind]; [|split; [intros _; left; by exists 1%nat, v|done]].
      destruct (hook_throws _ _ _) eqn:Ht; split; try done; [intros _; right; left; split; [by left|by exists a, (v :: rest)]|].
      intros [(? & ? & [= <-] & [= <-] & ?)|[[_ (? & ? & [= <- <-] & ?)]|[? _]]]; [congruence|cbn in *; congruence|done].
  - split; [|unfold call_nellLiveWS, after_hook; destruct args as [|a rest]; [|destruct (hook_throws _ _ _)]; (split; [done|by intros [[? _]|[[? | ?] _]]])].
    unfold call_nellLiveWS, after_hook. destruct args as [|a rest]; [split; [done|by intros [(? & ? & ? & _)|[[_ (? & ? & ? & _)]|[? _]]]]|].
    destruct (hook_throws _ _ _) eqn:Ht; split; try done; [intros _; right; left; split; [by right|by exists a, rest]|].
    intros [(? & ? & ? & _)|[[_ (? & ? & [= <- <-] & ?)]|[? _]]]; [done|cbn in *; congruence|done].
  - destruct (call_stop_back p (Some (pg_onDisconnect p)) args c I) as [-> ->]. split; split.
    + intros [(v & Ha & Hv)|[Hs (? & [= <-] & Ht)]]; [left; by exists 0%nat, v|right; right; done].
    + intros [(i & v & [= <-] & Ha & Hv)|[[[? | ?] _]|(_ & Hs & Ht)]]; [left; by exists v|done..|right; split; [done|by eexists]].
    + intros Hx. right. split; [by right|done].
    + by intros [[? _]|[_ Hx]].
  - unfold call_nellInfo. destruct (cl_async c); split; split; try done; try (by intros [(? & ? & ? & _)|[[[? | ?] _]|[? _]]]).
    + by left.
    + by intros [[_ ?]|[[? | ?] _]].
Qed.
Definition throwing_page : page_env := mkPage JsUndefined (JsFunction 1) (fun _ _ => true) 0.
Lemma callbacks_come_back_witness :
  snd (registerCallbacks demo_page NellStopSync [JsNull] demo_started) = Panics /\
  snd (registerCallbacks demo_page NellInfo [] demo_started) <> Deadlocks /\
  snd (registerCallbacks throwing_page NellStopSync [js_of_int 0] demo_started) = Panics.
Proof.
  split_and!.
  - apply (callbacks_come_back demo_started demo_page NellStopSync [JsNull] demo_started_reachable ltac:(by vm_compute)).
    left. exists 0%nat, JsNull. split_and!; reflexivity.
  - intros Hd. apply (callbacks_come_back demo_started demo_page NellInfo [] demo_started_reachable ltac:(by vm_compute)) in Hd.
    destruct Hd as [[_ Ha]|[[Hs|Hs] _]]; [vm_compute in Ha; discriminate Ha|discriminate Hs|discriminate Hs].
  - apply (callbacks_come_back demo_started throwing_page NellStopSync [js_of_int 0] demo_started_reachable ltac:(by vm_compute)).
    right. right. split; [reflexivity|]. split; [|reflexivity].
    exists (js_of_int 0), [], 0, (mkLoop (LiveWSLoop "n") "http://h" [] false false). split_and!; vm_compute; reflexivity.
Defined.

(** [nellSetAuth] signs the calls of [nellSync] and no other: the loops take their secret
    from their own argument, and run without one when it is left out. *)
Theorem nellSetAuth_skips_loops {St} `{StoreOps St} `{Json} `{ClientJson} (c : Client St) p secret url :
  secret <> "" ->
  let c' := fst (registerCallbacks p NellSetAuth [JsString secret] c) in
  rp_authSecret (sync_replicator c') = str_bytes secret /\
  forall cb, cb = NellLiveSync \/ cb = NellLiveWS ->
  exists l, last (cl_loops (fst (registerCallbacks p cb [JsString url] c'))) = Some l /\ lp_url l = url /\ lp_secret l = [].
Proof.
  intros Hne c'. split.
  - assert (0 <? len (str_bytes secret) = true) as Hpos.
    { apply Z.ltb_lt. rewrite len_str_bytes. unfold strlen. destruct secret; [done|cbn; lia]. }
    unfold sync_replicator, c'. cbn [registerCallbacks call_nellSetAuth fst cl_set_secret cl_authSecret js_String]. by rewrite Hpos.
  - intros cb [-> | ->]; cbn [registerCallbacks call_nellLiveSync call_nellLiveWS live_interval lookup list_lookup start_loop];
      cbn [fst]; rewrite (proj1 (invoke_hook_handles _ _ _)); cbn [cl_set_tables cl_loops cl_set_loops]; rewrite last_snoc; by eexists.
Qed.
