(* ===== verification/MetaVector.v ===== *)
(** * The persisted vector (sdk/meta.go, sdk/vector.go)

    A database keeps its vector under [meta:vector] and reads it when it is opened again.  The
    record is put like any other, so that with a wall clock set back the older record may
    win: what a restart finds is one of the vectors that were written, not the last.  This file says
    which ones an operation may leave. *)
From S2P Require Import Prelude BigEndian Float Hlc Record KnowledgeVector Conflict MemStore StoreApi Server Json DocDb DocDbLaws Replicator SyncLaws PullLoop.
Local Open Scope Z_scope.

Section kept.
Context {St : Type} `{StoreLaws St} `{JsonLaws}.
Implicit Types d : DocDB St.

(** What JSON carries of a vector. *)
Definition kv_json (kv : gmap string HLC) : Prop := map_Forall (fun n c => json_string n = true /\ hlc_ok c) kv.
Lemma kv_json_observe kv r : kv_json kv -> json_string (UpdatedBy r) = true -> hlc_ok (Clock r) -> kv_json (kv_observe kv r).
Proof. intros Hk Hu Hc. unfold kv_observe. destruct (_ && _); [|done]. by apply map_Forall_insert_2. Qed.
Lemma kv_json_observes rs : forall kv, kv_json kv -> (forall r, r ∈ rs -> json_string (UpdatedBy r) = true /\ hlc_ok (Clock r)) -> kv_json (foldl kv_observe kv rs).
Proof.
  induction rs as [|r rs IH]; intros kv Hk Hr; [done|]. cbn [foldl]. apply IH; [|intros x Hx; apply Hr; by right].
  destruct (Hr r ltac:(left)). by apply kv_json_observe.
Qed.

(** After an operation the vector's record is the one before, or a vector's that [P] allows. *)
Definition keeps_vector d (P : gmap string HLC -> Prop) d' : Prop :=
  db_collection d' = db_collection d /\ forall x, db_records d' !! db_key d metaVectorID = Some x ->
    db_records d !! db_key d metaVectorID = Some x \/ exists kv, P kv /\ Payload x = MarshalKV kv.
Lemma keeps_refl d P : keeps_vector d P d.
Proof. split; [done|]. auto. Qed.
Lemma keeps_trans d d1 d2 (P Q : gmap string HLC -> Prop) : keeps_vector d P d1 -> keeps_vector d1 Q d2 ->
  (forall kv, P kv -> Q kv) -> keeps_vector d Q d2.
Proof.
  intros [Hc1 Hk1] [Hc2 Hk2] HPQ. split; [congruence|]. unfold db_key in *. rewrite Hc1 in Hk2.
  intros x [Hx|?]%Hk2; [|by right]. apply Hk1 in Hx as [?|(kv & Hp & He)]; [by left|right; eauto].
Qed.
Lemma keeps_same d d' P : db_collection d' = db_collection d -> db_records d' !! db_key d metaVectorID = db_records d !! db_key d metaVectorID ->
  keeps_vector d P d'.
Proof. intros Hc Hr. split; [done|]. rewrite Hr. auto. Qed.
Lemma readMetaVector_records d : readMetaVector d = db_records d !! db_key d metaVectorID ≫= fun r => UnmarshalKV (Payload r).
Proof. unfold readMetaVector. rewrite st_get_law. unfold db_records, db_key. by destruct (_ !! _). Qed.
(** So a restart reads the vector before, or one allowed. *)
Lemma keeps_read d d' (P : gmap string HLC -> Prop) kv : keeps_vector d P d' -> (forall kv, P kv -> kv_json kv) ->
  readMetaVector d' = Some kv -> readMetaVector d = Some kv \/ P kv.
Proof.
  intros [Hc Hk] Hj. rewrite !readMetaVector_records. replace (db_key d' metaVectorID) with (db_key d metaVectorID) by (unfold db_key; by rewrite Hc).
  destruct (db_records d' !! _) as [x|] eqn:Hx; [|done]. cbn [mbind option_bind]. intros Hu.
  destruct (Hk x eq_refl) as [->|(kv' & Hp & He)]; [by left|right]. rewrite He, KV_json_roundtrip in Hu by by apply Hj. by injection Hu as <-.
Qed.

(** *** The operations *)

Lemma keeps_observe now n c d : db_inv d -> observe_ok now n c d ->
  keeps_vector d (eq (db_vector (observeVector now n c d))) (observeVector now n c d).
Proof.
  intros I Ho. destruct (observeVector_law now n c d I Ho) as (_ & _ & _ & Hc & _ & _ & _ & Hv). split; [done|]. intros x Hx.
  destruct (observes n c d) eqn:Hobs; [|left; by rewrite <-Hx; unfold observeVector; rewrite Hobs].
  apply observeVector_meta in Hx as [?| ->]; [by left| |done|done]. right. eexists. split; [exact Hv|done].
Qed.
(** A put under another key. *)
Lemma put_other_key r d st : st_records st = put_record (db_records d) (normalize r) -> rkey (normalize r) <> db_key d metaVectorID ->
  st_records st !! db_key d metaVectorID = db_records d !! db_key d metaVectorID.
Proof. intros -> Hne. by apply put_record_ne. Qed.
Lemma doc_other_key r d : coll_ok (db_collection d) -> coll_ok (Collection r) -> is_doc r -> rkey (normalize r) <> db_key d metaVectorID.
Proof.
  intros [Hd Hdn] [Hr Hrn] Hi. rewrite normalize_id by done. unfold rkey, db_key. rewrite or_default_id by done.
  intros [_ Hk]%record_key_inj; [|done|done]. unfold is_doc in Hi. by rewrite Hk in Hi.
Qed.
(** A document is put, then the vector observes something. *)
Lemma keeps_put_observe now n c rec revs d : db_inv d -> coll_ok (db_collection d) -> coll_ok (Collection rec) -> is_doc rec -> st_put_ok rec (db_store d) ->
  let d1 := db_set_revs revs (db_set_store (fst (st_Put rec (db_store d))) d) in
  observe_ok now n c d1 -> let d' := observeVector now n c d1 in keeps_vector d (eq (db_vector d')) d'.
Proof.
  intros I Hcd Hcr Hi Hr d1 Ho d'. destruct (db_put_law rec d I Hr) as (st & He & I' & Hm). unfold db_put in He.
  destruct (st_Put rec (db_store d)) as [st' r'] eqn:Hst. injection He as He _. cbn [fst] in d1. subst st'.
  assert (keeps_vector d (fun _ => False) d1) as Hd1 by (apply keeps_same; [done|]; apply (put_other_key rec); [done|by apply doc_other_key]).
  exact (keeps_trans d d1 _ _ _ Hd1 (keeps_observe now n c d1 I' Ho) ltac:(done)).
Qed.
Lemma keeps_ingest now r d : db_inv d -> coll_ok (db_collection d) -> coll_ok (Collection r) -> ingest_ok now r d ->
  let d' := fst (ingestRemote now r d) in keeps_vector d (eq (db_vector d')) d'.
Proof.
  intros I Hcd Hcr Hok. unfold ingestRemote. destruct (isInternalID (ID r)) eqn:Hi; [apply keeps_refl|].
  destruct (Hok Hi) as [Hr Ho]. pose proof (keeps_put_observe now _ _ r _ d I Hcd Hcr Hi Hr Ho) as Hk.
  destruct (db_put_law r d I Hr) as (st & He & _). rewrite He. unfold db_put in He.
  destruct (st_Put r (db_store d)) as [st' r']. injection He as He _. cbn [fst] in Hk. subst st'. exact Hk.
Qed.
Lemma keeps_put now doc id base newRev final d d' doc' rev : db_inv d -> coll_ok (db_collection d) -> isInternalID id = false ->
  put_payload doc base = Some (newRev, final) -> docput_ok now doc id newRev final d -> put_commit now doc id base d = (d', doc', Ok rev) ->
  keeps_vector d (eq (db_vector d')) d'.
Proof.
  intros I Hcd Hi Hp (Hr & _ & Ho). unfold put_commit. rewrite Hp. set (rec := put_record_of now doc id final d) in *.
  pose proof (keeps_put_observe _ _ _ rec _ d I Hcd Hcd Hi Hr Ho) as Hk. destruct (db_put_law rec d I Hr) as (st & He & _). rewrite He. unfold db_put in He.
  destruct (st_Put rec (db_store d)) as [st' r']. injection He as He _. cbn [fst] in Hk. subst st'. intros [= <- _ _]. exact Hk.
Qed.
Lemma keeps_remove now id d d' rev : db_inv d -> coll_ok (db_collection d) -> isInternalID id = false ->
  id <> "" -> remove_ok now id (genRev (default "" (db_revs d !! id)) []) d ->
  coll_ok (Collection (remove_record now id d)) -> is_doc (remove_record now id d) ->
  Remove now false (ById id) d = (d', Ok rev) -> keeps_vector d (eq (db_vector d')) d'.
Proof.
  intros I Hcd Hi Hid (Hr & _ & Ho) Hcr Hdr. rewrite Remove_ById by done. unfold remove_commit.
  pose proof (keeps_put_observe _ _ _ _ _ d I Hcd Hcr Hdr Hr Ho) as Hk.
  destruct (db_put_law (remove_record now id d) d I Hr) as (st & He & _). rewrite He. unfold db_put in He.
  destruct (st_Put (remove_record now id d) (db_store d)) as [st' r']. injection He as He _. cbn [fst] in Hk. subst st'. intros [= <- _]. exact Hk.
Qed.
(** Of a stream's documents the vector has seen a first part. *)
Definition seen_part d (rs : list NellRecord) (kv : gmap string HLC) : Prop :=
  exists p, p `prefix_of` filter is_doc rs /\ kv = foldl kv_observe (db_vector d) p.
Lemma keeps_pull_loop now rs : forall fuel d d' n n' m m',
  db_inv d -> coll_ok (db_collection d) -> Forall (fun r => coll_ok (Collection r)) rs -> ingests_ok now n rs d ->
  Forall record_ok rs -> Forall (fun r => in_u 32 (len (layout r))) rs -> (length rs < fuel)%nat ->
  pull_loop fuel now (concat (map bin_record rs)) n m d = (d', n', m', None) -> keeps_vector d (seen_part d rs) d'.
Proof.
  induction rs as [|r rs IH]; intros fuel d d' n n' m m' I Hcd Hcr Hing Hok Hlen Hf; (destruct fuel as [|fuel]; [cbn in Hf; lia|]).
  - cbn. intros [= <- _ _]. apply keeps_refl.
  - inversion_clear Hok as [|?? Hr Hrs]. inversion_clear Hlen as [|?? Hl Hls]. inversion_clear Hcr as [|?? Hc Hcs]. destruct Hing as [Hi Hing].
    cbn [map concat]. rewrite pull_loop_frame by done. destruct (ingestRemote_law (now n) r d I Hi) as (d1 & He & I1 & Hc1 & _).
    pose proof (keeps_ingest (now n) r d I Hcd Hc Hi) as Hk1. pose proof (ingestRemote_vector _ _ _ _ He) as Hv. rewrite He in *. cbn [fst] in *.
    intros Hloop. apply IH in Hloop; [|done|by rewrite Hc1|done..|cbn in Hf; lia]. assert (r :: rs = [r] ++ rs) as Heq by done.
    refine (keeps_trans d d1 d' _ _ Hk1 _ _).
    + destruct Hloop as [Hc2 Hloop]. split; [done|]. intros x [?|(kv & (p & Hp & ->) & Hx)]%Hloop; [by left|right]. eexists. split; [|exact Hx].
      exists (filter is_doc [r] ++ p). split; [rewrite Heq, filter_app; by apply prefix_app|]. by rewrite foldl_app, <-Hv.
    + intros kv <-. exists (filter is_doc [r]). split; [rewrite Heq, filter_app; by apply prefix_app_r|done].
Qed.
Lemma keeps_advance now c d : db_inv d -> advance_ok now c d -> keeps_vector d (fun _ => False) (fst (advanceClock now c d)).
Proof.
  intros I Ha. destruct (advanceClock_law now c d I Ha) as (d' & -> & _ & Hc & _ & Hm). apply keeps_same; [done|]. apply Hm.
  rewrite list_elem_of_singleton. by intros ?%db_key_inj.
Qed.
Lemma keeps_pull now rs d d' n : db_inv d -> coll_ok (db_collection d) -> Forall (fun r => coll_ok (Collection r)) rs -> ingests_ok now 0 rs d ->
  Forall record_ok rs -> Forall (fun r => in_u 32 (len (layout r))) rs ->
  (forall d1 n m, pull_loop (S (length (concat (map bin_record rs)))) now (concat (map bin_record rs)) 0 HLC_zero d = (d1, n, m, None) -> advance_ok (now n) m d1) ->
  pull now (Some (200, concat (map bin_record rs))) d = (d', n, None) -> keeps_vector d (seen_part d rs) d'.
Proof.
  intros I Hcd Hcr Hing Hok Hlen Hadv. pose proof (bin_stream_length rs) as Hsz. unfold pull. cbn [negb Z.eqb Pos.eqb].
  destruct (pull_loop_law (S (length (concat (map bin_record rs)))) now rs d 0 HLC_zero I Hing Hok Hlen ltac:(lia)) as (d1 & m & Hl & I1 & _).
  rewrite Hl. pose proof (keeps_pull_loop now rs (S (length (concat (map bin_record rs)))) d d1 0 _ _ _ I Hcd Hcr Hing Hok Hlen ltac:(lia) Hl) as Hk.
  destruct (HLC_GreaterThan m HLC_zero); [|by intros [= <- _]]. pose proof (keeps_advance _ m d1 I1 (Hadv _ _ _ Hl)) as Ha.
  destruct (advanceClock _ m d1) as [d2 [|]]; [|done]. cbn [fst] in Ha. intros [= <- _]. cbn [Nat.add] in *.
  destruct Hk as [Hc1 Hk], Ha as [Hc2 Ha]. split; [congruence|]. intros x Hx. unfold db_key in *. rewrite Hc1 in Ha.
  apply Ha in Hx as [Hx|(? & [] & _)]. by apply Hk.
Qed.
End kept.
