(* ===== verification/System.v ===== *)
(** * Clients and servers as one system (sdk/docdb.go, sdk/replicate.go, server/main.go, server/peer.go)

    Any number of SDK clients of the mesh's collection that write, push to servers of the
    mesh, pull from them and are stopped and opened again, with the servers reconciling among themselves: a step relation,
    which is what clients and servers do; the conditions under which nothing is lost, a predicate on the
    events apart; the invariant of the runs that meet them, in which the clients keep the contract the mesh relies on;
    and that after the mesh's rounds a pull leaves every client with the same documents. *)
From S2P Require Import Prelude BigEndian Float Hlc Record KnowledgeVector Conflict GoSort Search MemStore StoreApi Server GoTime Mesh Json JsonText JsonCodec JsonRecord Wire Pages Convergence DocDb DocDbLaws Replicator SyncLaws PullLoop MetaVector.
Local Open Scope Z_scope.

(** ** What a client's operations do *)

Inductive write := WPut (doc : Doc) | WRemove (id : string).
Definition do_write {St} `{StoreOps St, Json} (now : nat -> Z) (w : write) (d : DocDB St) : DocDB St * res doc_err string :=
  match w with
  | WPut doc => let '(d, _, r) := DocDB_Put now false doc d in (d, r)
  | WRemove id => Remove now false (ById id) d
  end.

Section client.
Context {St : Type} `{StoreLaws St} `{JsonLaws}.
Implicit Types d : DocDB St.

(** The record a write makes, when its checks pass and its store takes it. *)
Definition wrote (now : nat -> Z) (w : write) d (rec : NellRecord) : Prop :=
  match w with
  | WPut doc => exists id base rev final, put_check doc d = Ok (id, base) /\ put_payload doc base = Some (rev, final) /\
      isInternalID id = false /\ docput_ok now doc id rev final d /\ rec = put_record_of now doc id final d
  | WRemove id => isInternalID id = false /\ id <> "" /\ remove_ok now id (genRev (default "" (db_revs d !! id)) []) d /\
      rec = remove_record now id d
  end.

Lemma observeVector_vector now n c d r : UpdatedBy r = n -> Clock r = c -> db_vector (observeVector now n c d) = kv_observe (db_vector d) r.
Proof.
  intros <- <-. unfold observeVector, kv_observe, observes. destruct (negb _ && _); [|done]. unfold writeMetaVector. by rewrite db_put_vector.
Qed.
Lemma write_vector now w d rec d' rev : wrote now w d rec -> UpdatedBy rec = db_nodeID d -> do_write now w d = (d', Ok rev) ->
  db_vector d' = kv_observe (db_vector d) rec.
Proof.
  destruct w as [doc|id]; cbn [wrote do_write].
  - intros (id & base & rev' & final & Hc & Hp & _ & _ & ->) _. unfold DocDB_Put. rewrite Hc. unfold put_commit. rewrite Hp.
    pose proof (db_put_vector (put_record_of now doc id final d) d) as Hv.
    assert (db_nodeID (fst (db_put (put_record_of now doc id final d) d)) = db_nodeID d) as Hn by (unfold db_put; by destruct (st_Put _ _)).
    destruct (db_put _ d) as [d1 [|]]; [|done]. cbn [fst] in Hv, Hn. intros [= <- _]. cbn [db_vector db_broadcast].
    rewrite (observeVector_vector _ _ _ _ (put_record_of now doc id final d)) by done. cbn [db_vector db_set_revs]. by rewrite Hv.
  - intros (_ & Hne & _ & ->) Hu. rewrite Remove_ById by done. unfold remove_commit.
    pose proof (db_put_vector (remove_record now id d) d) as Hv.
    assert (db_nodeID (fst (db_put (remove_record now id d) d)) = db_nodeID d) as Hn by (unfold db_put; by destruct (st_Put _ _)).
    destruct (db_put _ d) as [d1 [|]]; [|done]. cbn [fst] in Hv, Hn. intros [= <- _]. cbn [db_vector db_broadcast].
    rewrite (observeVector_vector _ _ _ _ (remove_record now id d)) by done. cbn [db_vector db_set_revs]. by rewrite Hv.
Qed.

(** No operation renames a client. *)
Lemma db_put_nodeID rec d : db_nodeID (fst (db_put rec d)) = db_nodeID d.
Proof. unfold db_put. by destruct (st_Put _ _). Qed.
Lemma observeVector_nodeID now n c d : db_nodeID (observeVector now n c d) = db_nodeID d.
Proof. unfold observeVector. destruct (observes _ _ _); [|done]. unfold writeMetaVector. by rewrite db_put_nodeID. Qed.
Lemma advanceClock_nodeID now c d : db_nodeID (fst (advanceClock now c d)) = db_nodeID d.
Proof. unfold advanceClock. destruct (negb _); [done|]. unfold writeMetaClock. by rewrite db_put_nodeID. Qed.
Lemma ingestRemote_nodeID now r d : db_nodeID (fst (ingestRemote now r d)) = db_nodeID d.
Proof.
  unfold ingestRemote. destruct (isInternalID _); [done|]. pose proof (db_put_nodeID r d) as Hn.
  destruct (db_put r d) as [d1 [|]]; cbn [fst] in *; [|done]. cbn [db_nodeID db_broadcast]. by rewrite observeVector_nodeID.
Qed.
Lemma pull_loop_nodeID fuel now : forall body n m d, db_nodeID (fst (fst (fst (pull_loop fuel now body n m d)))) = db_nodeID d.
Proof.
  induction fuel as [|fuel IH]; intros body n m d; cbn [pull_loop]; [done|].
  destruct (_ =? 0); [done|]. destruct (_ <? 4); [done|]. cbv zeta. destruct (_ <? _); [done|].
  destruct (Record_UnmarshalBinary _) as [r|e|]; [|done..].
  pose proof (ingestRemote_nodeID (now n) r d) as Hn. destruct (ingestRemote (now n) r d) as [d1 [|]]; [by rewrite IH|done].
Qed.
Lemma pull_nodeID now resp d : db_nodeID (fst (fst (pull now resp d))) = db_nodeID d.
Proof.
  unfold pull. destruct resp as [[status body]|]; [|done]. destruct (negb _); [done|].
  pose proof (pull_loop_nodeID (S (length body)) now body 0 HLC_zero d) as Hn.
  destruct (pull_loop _ _ _ _ _ _) as [[[d1 n] m] [e|]]; cbn [fst] in *; [done|]. destruct (HLC_GreaterThan _ _); [|done].
  pose proof (advanceClock_nodeID (now n) m d1) as Ha. destruct (advanceClock _ _ _) as [d2 [|]]; cbn [fst] in *; congruence.
Qed.
(** What a write leaves: the record under its key, nothing else changed but the bookkeeping,
    the vector having seen it; its clock is above that of the version it replaces. *)
Record write_effect (d : DocDB St) (rec : NellRecord) (d' : DocDB St) : Prop := {
  we_inv : db_inv d';
  we_coll : db_collection d' = db_collection d;
  we_node : db_nodeID d' = db_nodeID d;
  we_rec : db_records d' !! rkey rec = Some rec;
  we_others : forall k, k <> rkey rec -> k <> db_key d metaVectorID -> db_records d' !! k = db_records d !! k;
  we_vector : db_vector d' = kv_observe (db_vector d) rec;
  we_keeps : keeps_vector d (eq (db_vector d')) d';
  we_above : forall x, db_records d !! rkey rec = Some x -> hlc_gt (Clock rec) (Clock x);
  we_doc : is_doc rec;
  we_in : Collection rec = db_collection d;
  we_by : UpdatedBy rec = db_nodeID d
}.
Lemma remove_record_fields now id d : db_inv d -> coll_ok (db_collection d) ->
  Collection (remove_record now id d) = db_collection d /\ ID (remove_record now id d) = id.
Proof.
  intros I [Hcf Hne]. unfold remove_record. rewrite st_get_law. destruct (st_records (db_store d) !! _) as [x|] eqn:Hx; [|done].
  cbn [Collection ID]. pose proof (st_keyed _ I _ _ Hx) as Hk. pose proof (st_colls _ I _ _ Hx) as [Hc _]. cbn in Hk, Hc.
  rewrite or_default_id in Hk by done. by apply record_key_inj in Hk as [? ?].
Qed.
Lemma write_law now w d rec : db_inv d -> coll_ok (db_collection d) -> wrote now w d rec ->
  exists d' rev, do_write now w d = (d', Ok rev) /\ write_effect d rec d'.
Proof.
  intros I Hc Hw. pose proof Hc as [_ Hne].
  assert (UpdatedBy rec = db_nodeID d) as Hu by (destruct w; [destruct Hw as (? & ? & ? & ? & _ & _ & _ & _ & ->)|destruct Hw as (_ & _ & _ & ->)]; done).
  enough (exists d' rev, do_write now w d = (d', Ok rev) /\ db_inv d' /\ db_collection d' = db_collection d /\ db_nodeID d' = db_nodeID d /\
    db_records d' !! rkey rec = Some rec /\ (forall k, k <> rkey rec -> k <> db_key d metaVectorID -> db_records d' !! k = db_records d !! k) /\
    (forall x, db_records d !! rkey rec = Some x -> hlc_gt (Clock rec) (Clock x)) /\ is_doc rec /\ Collection rec = db_collection d /\
    keeps_vector d (eq (db_vector d')) d')
    as (d' & rev & He & ? & ? & ? & ? & ? & ? & ? & ? & ?).
  { exists d', rev. split; [done|]. split; try done. by eapply write_vector. }
  destruct w as [doc|id]; cbn [wrote do_write] in *.
  - destruct Hw as (id & base & rev & final & Hchk & Hp & Hi & Hok & ->).
    destruct (put_commit_law now doc id base rev final d I Hne Hi Hp Hok) as (d' & He & I' & Hrec & Hoth & _ & Hco & Hno & _).
    assert (rkey (put_record_of now doc id final d) = db_key d id) as Hk by (unfold rkey, db_key; cbn; by rewrite or_default_id).
    exists d', rev. unfold DocDB_Put. rewrite Hchk, He, Hk. split_and!; try done; [|by eapply keeps_put].
    intros x Hx. unfold put_record_of, put_clock. cbn [Clock]. rewrite st_get_law. fold (db_key d id).
    unfold db_records in Hx. rewrite Hx. apply local_clock_gt. destruct Hok as (_ & Hroom & _). by apply Hroom.
  - destruct Hw as (Hi & Hid & Hok & ->). destruct (remove_record_fields now id d I Hc) as [Hcr Hidr].
    destruct (Remove_law now id d I Hne Hi Hid Hok) as (d' & He & I' & Hrec & Hoth & _ & Hco & Hno).
    destruct (remove_record_key now id d I Hne) as [Hk _].
    exists d', (genRev (default "" (db_revs d !! id)) []). rewrite Hk. split_and!; try done.
    + intros x Hx. unfold remove_record. cbn [Clock]. rewrite st_get_law. fold (db_key d id).
      unfold db_records in Hx. rewrite Hx. apply local_clock_gt. destruct Hok as (_ & Hroom & _). by apply Hroom.
    + unfold is_doc. by rewrite Hidr.
    + eapply keeps_remove; [done..|by rewrite Hcr|unfold is_doc; by rewrite Hidr|exact He].
Qed.
End client.

(** Where the entries of a vector come from. *)
Lemma kv_observe_from kv r n c : kv_observe kv r !! n = Some c -> kv !! n = Some c \/ (UpdatedBy r = n /\ Clock r = c).
Proof. unfold kv_observe. destruct (negb _ && _); [|by left]. intros [[? ?]|[_ ?]]%lookup_insert_Some; [by right|by left]. Qed.
Lemma kv_observes_from rs : forall kv n c, foldl kv_observe kv rs !! n = Some c ->
  kv !! n = Some c \/ exists x, x ∈ rs /\ UpdatedBy x = n /\ Clock x = c.
Proof.
  induction rs as [|r rs IH]; intros kv n c; [by left|]. cbn [foldl]. intros [Hk|(x & Hx & ?)]%IH; [|right; exists x; split; [by right|done]].
  apply kv_observe_from in Hk as [Hk|[? ?]]; [by left|]. right. exists r. split; [by left|done].
Qed.
Lemma kv_observes_covered rs kv n c : kv_covers (foldl kv_observe kv rs) n c ->
  kv_covers kv n c \/ exists x, x ∈ rs /\ UpdatedBy x = n /\ hlc_le c (Clock x).
Proof. intros (y & [Hy|(x & Hx & Hu & <-)]%kv_observes_from & Hle); [left; by exists y|right; eauto]. Qed.

(** ** The system *)

(** A document of the mesh's collection in a client's store. *)
Definition client_doc {St} `{StoreOps St} (d : DocDB St) (r : NellRecord) : Prop :=
  st_records (db_store d) !! rkey r = Some r /\ is_doc r /\ in_mesh r.
(** What records must be to travel in both formats. *)
Definition travels (r : NellRecord) : Prop :=
  stamped r /\ record_json r /\ record_ok r /\ in_u 32 (len (layout r)).
(** A client's clock moved forward: what it writes is above all it wrote before. *)
Definition clock_forward {St} `{StoreOps St} (U : list NellRecord) (d : DocDB St) (rec : NellRecord) : Prop :=
  forall r, r ∈ U \/ client_doc d r -> UpdatedBy r = db_nodeID d -> hlc_gt (Clock rec) (Clock r).
(** The highest clock of what a push sends. *)
Definition max_sent {St} `{StoreOps St} (d : DocDB St) : HLC :=
  foldl (fun m rec => if HLC_GreaterThan (Clock rec) m then Clock rec else m) HLC_zero (push_records d).

Inductive sys_event :=
  (** something between the servers *)
  | SMesh (e : event)
  (** client [k] writes, its clock reading [now] *)
  | SWrite (k : nat) (now : nat -> Z) (w : write)
  (** client [k] pushes to server [i] *)
  | SPush (k i : nat) (now : nat -> Z)
  (** it pulls from server [i], which lists its records as [all] *)
  | SPull (i k : nat) (now : nat -> nat -> Z) (all : list NellRecord)
  (** it pulls and gets no answer *)
  | SOffline (k : nat)
  (** it is stopped and opened again on what its store kept *)
  | SRestart (k : nat).

Section system.
Context {A C : Type} `{StoreLaws A, StoreLaws C} `{JsonLaws}.
Implicit Types d : DocDB A.

Record SysState := mkSys { sys_net : MeshState (St := C); clients : list (DocDB A) }.

(** The conditions under which a pull does not fail in the client's store. *)
Definition pull_ok (now : nat -> nat -> Z) (all : list NellRecord) d : Prop :=
  vector_fits all (db_vector d) /\ ingests_ok now 0 (all_missing (db_vector d) all) d /\
  forall d1 n m, pull_loop (S (length (bin_stream (db_vector d) all))) now (bin_stream (db_vector d) all) 0 HLC_zero d = (d1, n, m, None) ->
    advance_ok (now n) m d1.

(** What clients and servers do, whatever comes of it. *)
Inductive sys_step : sys_event -> SysState -> SysState -> Prop :=
  | sys_mesh e m m' cs : is_push e = false -> mesh_step e m m' -> sys_step (SMesh e) (mkSys m cs) (mkSys m' cs)
  | sys_write k now w d d' r m cs :
      cs !! k = Some d -> do_write now w d = (d', r) -> sys_step (SWrite k now w) (mkSys m cs) (mkSys m (<[k := d']> cs))
  | sys_push k i now d d' s s' n err ns U cs :
      cs !! k = Some d -> ns !! i = Some s -> push_to now s d = (s', (d', n, err)) ->
      sys_step (SPush k i now) (mkSys (mkMeshState ns U) cs) (mkSys (mkMeshState (<[i := s']> ns) (push_records d ++ U)) (<[k := d']> cs))
  | sys_pull i k now all d d' s n err ns U cs :
      cs !! k = Some d -> ns !! i = Some s -> sorts clock_less (st_ListAll DefaultCollection (srv_store s)) all ->
      pull_from now all s d = (d', n, err) ->
      sys_step (SPull i k now all) (mkSys (mkMeshState ns U) cs) (mkSys (mkMeshState ns U) (<[k := d']> cs))
  | sys_offline k now d d' n err m cs :
      cs !! k = Some d -> pull now None d = (d', n, err) -> sys_step (SOffline k) (mkSys m cs) (mkSys m (<[k := d']> cs))
  | sys_restart k d st m cs :
      cs !! k = Some d -> st_inv st -> st_records st = db_records d ->
      sys_step (SRestart k) (mkSys m cs) (mkSys m (<[k := New st (db_nodeID d) DefaultCollection]> cs)).

(** The conditions under which an event loses nothing, none of which the code checks: the mesh's own between
    servers; a write that goes through makes a record that can travel, under a clock above all the client
    wrote before, and one that does not was refused by its checks; what is pushed and pulled fits the stores. *)
Definition sys_ok (e : sys_event) (S : SysState) : Prop :=
  match e with
  | SMesh e => mesh_ok e (sys_net S)
  | SWrite k now w => forall d, clients S !! k = Some d ->
      match snd (do_write now w d) with
      | Ok _ => exists rec, wrote now w d rec /\ travels rec /\ clock_forward (known (sys_net S)) d rec
      | Err err => err <> ErrStore
      | Panic => True
      end
  | SPush k i now => forall d s, clients S !! k = Some d -> net (sys_net S) !! i = Some s ->
      puts_ok (push_records d) (srv_store s) /\ advance_ok now (max_sent d) d
  | SPull _ k now all => forall d, clients S !! k = Some d -> pull_ok now all d
  | SOffline _ | SRestart _ => True
  end.

(** A run, each event of which meets the conditions where it happens. *)
Inductive sys_run : list sys_event -> SysState -> SysState -> Prop :=
  | sys_run_nil S : sys_run [] S S
  | sys_run_cons e es S1 S2 S3 : sys_ok e S1 -> sys_step e S1 S2 -> sys_run es S2 S3 -> sys_run (e :: es) S1 S3.

(** New servers, and clients of the mesh's collection opened on empty stores, each under a
    name of its own. *)
Definition fresh_client d : Prop := exists st node, d = New st node DefaultCollection /\ st_inv st /\ st_records st = ∅.
Definition sys_init (S : SysState) : Prop :=
  mesh_init (sys_net S) /\ Forall fresh_client (clients S) /\ NoDup (db_nodeID <$> clients S).
Definition sys_reachable (S : SysState) : Prop := exists S0 es, sys_init S0 /\ sys_run es S0 S.

(** ** The invariant *)

(** A vector a client may go by, [U] being the records pushed: it can be stored, its entries are
    of what was pushed or of its own, and it claims nothing that the store lacks. *)
Record vec_ok (U : list NellRecord) (node : string) (m : records) (kv : gmap string HLC) : Prop := {
  vo_json : kv_json kv;
  vo_entry : forall n c, kv !! n = Some c -> n = node \/ exists r, r ∈ U /\ UpdatedBy r = n /\ Clock r = c;
  vo_honest : forall r, r ∈ U -> kv_covers kv (UpdatedBy r) (Clock r) -> has m r
}.
(** What holds of each client: its documents can travel, and they are pushed or its own and
    newer than all of its own that are; it has what it pushed and what each author of its
    documents had pushed by then; its vector is sound, and so is the one its store
    keeps, whichever that is. *)
Record client_inv (U : list NellRecord) d : Prop := {
  ci_inv : db_inv d;
  ci_coll : db_collection d = DefaultCollection;
  ci_travel : forall r, client_doc d r -> travels r;
  ci_new : forall r, client_doc d r -> r ∈ U \/
    (UpdatedBy r = db_nodeID d /\ forall x, x ∈ U -> UpdatedBy x = db_nodeID d -> hlc_gt (Clock r) (Clock x));
  ci_stamp : forall x y, client_doc d x -> client_doc d y -> x ∉ U -> y ∉ U -> stamp x = stamp y -> x = y;
  ci_own : forall r, r ∈ U -> UpdatedBy r = db_nodeID d -> has (db_records d) r;
  ci_closed : forall x r, client_doc d x -> r ∈ U -> UpdatedBy r = UpdatedBy x -> hlc_le (Clock r) (Clock x) -> has (db_records d) r;
  ci_vec : vec_ok U (db_nodeID d) (db_records d) (db_vector d);
  ci_meta : forall kv, readMetaVector d = Some kv -> vec_ok U (db_nodeID d) (db_records d) kv
}.
Record sys_inv (S : SysState) : Prop := {
  si_net : mesh_reachable (sys_net S);
  si_known : forall r, r ∈ known (sys_net S) -> is_doc r /\ in_mesh r /\ travels r;
  si_clients : Forall (client_inv (known (sys_net S))) (clients S);
  si_names : NoDup (db_nodeID <$> clients S)
}.

(** A client's documents are what it pushes. *)
Lemma push_records_docs d : db_inv d -> db_collection d = DefaultCollection -> forall r, r ∈ push_records d <-> client_doc d r.
Proof.
  intros I Hc r. unfold push_records, client_doc. rewrite list_elem_of_filter, Hc. destruct (st_listall_law DefaultCollection _ I) as [_ Hl].
  rewrite Hl. unfold is_doc, in_mesh. tauto.
Qed.
(** What shares a document's key is a document. *)
Lemma same_key_doc (r w : NellRecord) : coll_ok (Collection r) -> coll_ok (Collection w) -> rkey w = rkey r -> is_doc r -> in_mesh r ->
  is_doc w /\ in_mesh w.
Proof.
  intros [Hr _] [Hw _] Hk Hd Hm. unfold rkey in Hk. apply record_key_inj in Hk as [Hc Hi]; [|done|done].
  unfold is_doc, in_mesh in *. by rewrite Hi, Hc.
Qed.
Lemma client_doc_at d k w r : db_inv d -> coll_ok (Collection r) -> db_records d !! k = Some w -> k = rkey r -> is_doc r -> in_mesh r -> client_doc d w.
Proof.
  intros I Hc Hw -> Hd Hm. pose proof (st_keyed _ I _ _ Hw) as Hk. cbn in Hk. pose proof (st_colls _ I _ _ Hw) as Hcw.
  destruct (same_key_doc r w Hc Hcw Hk Hd Hm). split; [|done]. by rewrite Hk.
Qed.
Lemma in_mesh_coll r : in_mesh r -> coll_ok (Collection r).
Proof. unfold in_mesh. intros ->. apply (bool_decide_unpack (coll_ok _)). vm_compute. exact I. Qed.

(** *** Pushing *)

(** What a client sends keeps the contract of the mesh. *)
Lemma client_contract U d (m : records) : client_inv U d -> (forall x y, x ∈ U -> y ∈ U -> stamp x = stamp y -> x = y) ->
  (forall r, r ∈ U -> is_doc r /\ in_mesh r) -> push_contract U (push_records d) (merge m (push_records d)).
Proof.
  intros I Hst HU. pose proof (push_records_docs d (ci_inv _ _ I) (ci_coll _ _ I)) as Hp.
  split.
  - apply Forall_forall. intros r Hr%Hp. apply in_mesh_coll, Hr.
  - apply Forall_forall. intros r Hr%Hp. by apply (ci_travel _ _ I).
  - intros x Hx%Hp. destruct (ci_new _ _ I x Hx) as [?|[Hu Hn]]; [by left|]. right. intros r Hr Hur. apply Hn; congruence.
  - intros x y Hx Hy Hs. assert (forall z, z ∈ push_records d ++ U -> z ∈ U \/ (client_doc d z /\ z ∉ U)) as Hcase.
    { intros z [Hz%Hp|Hz]%elem_of_app; [|by left]. destruct (decide (z ∈ U)); auto. }
    assert (forall z u, client_doc d z -> z ∉ U -> u ∈ U -> stamp z <> stamp u) as Hnew.
    { intros z u Hz Hn Hu [= Hcl Hby]. destruct (ci_new _ _ I z Hz) as [?|[Hzu Hz']]; [done|].
      assert (hlc_gt (Clock z) (Clock u)) as Hg by (apply Hz'; congruence). rewrite Hcl in Hg. apply hlc_gt_irrefl in Hg. done. }
    destruct (Hcase x Hx) as [HxU|[Hxd HxU]], (Hcase y Hy) as [HyU|[Hyd HyU]].
    + by apply Hst.
    + destruct (Hnew y x); congruence.
    + destruct (Hnew x y); congruence.
    + by apply (ci_stamp _ _ I).
  - intros x r Hx%Hp Hr Hu Hle Hm. apply elem_of_app in Hr as [Hr|Hr]; [by apply has_merged|].
    destruct (HU r Hr) as [Hd _].
    destruct (ci_closed _ _ I x r Hx Hr Hu Hle) as (w & Hw & Hb).
    assert (client_doc d w) as Hwd by (by apply (client_doc_at d (rkey r) w r (ci_inv _ _ I) (in_mesh_coll r Hm))).
    apply (has_trans _ r w); [|by apply (st_keyed _ (ci_inv _ _ I) _ _ Hw)|done]. apply has_merged. by apply Hp.
Qed.
Lemma vec_empty U node m : vec_ok U node m ∅.
Proof. split; [apply map_Forall_empty|by intros n c; rewrite lookup_empty|intros r _ (c & Hc & _); by rewrite lookup_empty in Hc]. Qed.
(** More is pushed, with the store and the vectors as they were. *)
Lemma vec_more U rs node m kv : vec_ok U node m kv ->
  (forall r, r ∈ rs -> has m r \/ r ∈ U \/ (UpdatedBy r <> node /\ forall x, x ∈ U -> UpdatedBy x = UpdatedBy r -> hlc_gt (Clock r) (Clock x))) ->
  vec_ok (rs ++ U) node m kv.
Proof.
  intros V Hrs. split; [apply V|..].
  - intros n c [?|(r & Hr & ?)]%(vo_entry _ _ _ _ V); [by left|]. right. exists r. split; [apply elem_of_app; by right|done].
  - intros r [Hr|Hr]%elem_of_app Hk; [|by apply (vo_honest _ _ _ _ V)]. destruct (Hrs r Hr) as [?|[?|[Hne Hn]]]; [done|by apply (vo_honest _ _ _ _ V)|].
    destruct Hk as (c & Hc & Hle). destruct (vo_entry _ _ _ _ V _ _ Hc) as [?|(x & Hx & Hxu & <-)]; [done|].
    apply hlc_not_gt in Hle. destruct Hle. by apply Hn.
Qed.
(** The client itself, afterwards. *)
Lemma client_pushed U d : client_inv U d -> client_inv (push_records d ++ U) d.
Proof.
  intros I. pose proof (push_records_docs d (ci_inv _ _ I) (ci_coll _ _ I)) as Hp.
  assert (forall r, r ∈ push_records d -> has (db_records d) r) as Hhas by (intros r Hr%Hp; exists r; split; [apply Hr|apply beats_irrefl]).
  assert (forall kv, vec_ok U (db_nodeID d) (db_records d) kv -> vec_ok (push_records d ++ U) (db_nodeID d) (db_records d) kv) as Hvec
    by (intros kv V; apply vec_more; [done|auto]).
  split; [apply I..| | | | | |].
  - intros r Hr. left. apply elem_of_app. left. by apply Hp.
  - intros x y Hx _ Hn. destruct Hn. apply elem_of_app. left. by apply Hp.
  - intros r [Hr|Hr]%elem_of_app Hu; [by apply Hhas|by apply (ci_own _ _ I)].
  - intros x r Hx [Hr|Hr]%elem_of_app Hu Hle; [by apply Hhas|by apply (ci_closed _ _ I x)].
  - apply Hvec, I.
  - intros kv Hkv. by apply Hvec, (ci_meta _ _ I).
Qed.
(** The other clients, whose names are not on what is new. *)
Lemma client_other U rs d : client_inv U d ->
  (forall r, r ∈ rs -> r ∈ U \/ (UpdatedBy r <> db_nodeID d /\ forall x, x ∈ U -> UpdatedBy x = UpdatedBy r -> hlc_gt (Clock r) (Clock x))) ->
  client_inv (rs ++ U) d.
Proof.
  intros I Hrs.
  assert (forall kv, vec_ok U (db_nodeID d) (db_records d) kv -> vec_ok (rs ++ U) (db_nodeID d) (db_records d) kv) as Hvec
    by (intros kv V; apply vec_more; [done|auto]).
  split; [apply I..| | | | | |].
  - intros r Hr. destruct (ci_new _ _ I r Hr) as [HU|[Hu Hn]]; [left; apply elem_of_app; by right|]. right. split; [done|].
    intros x [Hx|Hx]%elem_of_app Hxu; [|by apply Hn]. destruct (Hrs x Hx) as [HU|[Hne _]]; [by apply Hn|done].
  - intros x y Hx Hy Hxn Hyn. apply (ci_stamp _ _ I); [done|done|intros ?; apply Hxn|intros ?; apply Hyn]; apply elem_of_app; by right.
  - intros r [Hr|Hr]%elem_of_app Hu; [|by apply (ci_own _ _ I)]. destruct (Hrs r Hr) as [HU|[Hne _]]; [by apply (ci_own _ _ I)|done].
  - intros x r Hx [Hr|Hr]%elem_of_app Hu Hle; [|by apply (ci_closed _ _ I x)]. destruct (Hrs r Hr) as [HU|[Hne Hn]]; [by apply (ci_closed _ _ I x)|].
    destruct (ci_new _ _ I x Hx) as [HxU|[Hxu _]]; [|congruence]. apply hlc_not_gt in Hle. destruct Hle. by apply Hn.
  - apply Hvec, I.
  - intros kv Hkv. by apply Hvec, (ci_meta _ _ I).
Qed.

(** *** Taking in *)

Lemma doc_key d r : db_collection d = DefaultCollection -> is_doc r -> in_mesh r -> rkey r ∉ [db_key d metaVectorID; db_key d metaClockID].
Proof.
  intros Hc Hd Hm. unfold rkey, db_key. rewrite Hc, Hm. change (or_default DefaultCollection) with DefaultCollection.
  assert (colon_free DefaultCollection) as Hcf by (apply (bool_decide_unpack (colon_free _)); vm_compute; exact I).
  intros [Hk|[Hk|[]%not_elem_of_nil]%elem_of_cons]%elem_of_cons; apply record_key_inj in Hk as [_ Hk]; try done;
    unfold is_doc in Hd; by rewrite Hk in Hd.
Qed.
(** Where the documents come from after records are merged in. *)
Lemma take_docs d d' rs : db_collection d = DefaultCollection ->
  docs_only [db_key d metaVectorID; db_key d metaClockID] (db_records d') (merge (db_records d) rs) ->
  forall r, client_doc d' r -> client_doc d r \/ r ∈ rs.
Proof.
  intros Hc Hm r (Hr & Hd & Hi). unfold docs_only, db_records in Hm. rewrite Hm in Hr by by apply doc_key.
  pose proof (merge_spec rs (st_records (db_store d)) (rkey r)) as Hs. rewrite Hr in Hs. destruct Hs as [[?|[? _]] _]; [by left|by right].
Qed.
(** A vector that observes what the store takes in, with what that follows. *)
Lemma vec_take U node (m m' : records) kv p : vec_ok U node m kv ->
  (forall x, x ∈ p -> travels x /\ (x ∈ U \/ UpdatedBy x = node)) -> (forall r, r ∈ U -> has m r -> has m' r) ->
  (forall x r, x ∈ p -> r ∈ U -> UpdatedBy r = UpdatedBy x -> hlc_le (Clock r) (Clock x) -> has m' r) ->
  vec_ok U node m' (foldl kv_observe kv p).
Proof.
  intros V Hp Hto Hhas. split.
  - apply kv_json_observes; [apply V|]. intros r Hr. destruct (Hp r Hr) as [(_ & (Hj & _ & Hc) & _) _]. split; [apply Hj|done].
  - intros n c [?%(vo_entry _ _ _ _ V)|(x & Hx & Hu & He)]%kv_observes_from; [done|]. destruct (Hp x Hx) as [_ [?|?]]; [right; eauto|left; congruence].
  - intros r Hr [Hk|(x & Hx & Hu & Hle)]%kv_observes_covered; [by apply Hto, (vo_honest _ _ _ _ V)|by apply (Hhas x)].
Qed.
(** A client after merging records pushed, the bookkeeping apart, its vector having seen
    them and its store keeping the vector before or one on the way; what they are known to follow must be there. *)
Lemma client_take U d d' rs : client_inv U d -> db_inv d' -> db_collection d' = db_collection d -> db_nodeID d' = db_nodeID d ->
  db_vector d' = foldl kv_observe (db_vector d) rs -> keeps_vector d (seen_part d rs) d' ->
  docs_only [db_key d metaVectorID; db_key d metaClockID] (db_records d') (merge (db_records d) rs) ->
  (forall r, r ∈ U -> is_doc r /\ in_mesh r /\ travels r) -> (forall r, r ∈ rs -> r ∈ U) ->
  (forall x r, x ∈ rs -> r ∈ U -> UpdatedBy r = UpdatedBy x -> hlc_le (Clock r) (Clock x) -> has (merge (db_records d) rs) r) ->
  client_inv U d'.
Proof.
  intros I I' Hc Hn Hv Hkeep Hm HU Hrs Hhas.
  assert (forall r, is_doc r -> in_mesh r -> db_records d' !! rkey r = merge (db_records d) rs !! rkey r) as Hat
    by (intros r Hd Hi; apply Hm, doc_key; [apply I|done|done]).
  pose proof (take_docs d d' rs (ci_coll _ _ I) Hm) as Hfrom.
  assert (forall r, r ∈ U -> has (merge (db_records d) rs) r -> has (db_records d') r) as Hto'.
  { intros r Hr (w & Hw & Hb). destruct (HU r Hr) as (Hd & Hi & _). exists w. by rewrite Hat. }
  assert (forall r, r ∈ U -> has (db_records d) r -> has (db_records d') r) as Hto by (intros r Hr ?; by apply Hto', has_merge).
  assert (forall kv p, vec_ok U (db_nodeID d) (db_records d) kv -> (forall r, r ∈ p -> r ∈ rs) ->
    vec_ok U (db_nodeID d) (db_records d') (foldl kv_observe kv p)) as Htake.
  { intros kv p V Hp. apply (vec_take _ _ (db_records d)); [done| |done|].
    - intros x Hx%Hp%Hrs. split; [by apply HU|by left].
    - intros x r Hx%Hp Hr Hu Hle. by apply Hto', (Hhas x). }
  assert (forall p, p `prefix_of` filter is_doc rs -> forall r, r ∈ p -> r ∈ rs) as Hpre.
  { intros p [q Hq] r Hr. assert (r ∈ filter is_doc rs) as Hf by (rewrite Hq; apply elem_of_app; by left). by apply list_elem_of_filter in Hf as [_ ?]. }
  split; rewrite ?Hc, ?Hn, ?Hv; [done|apply I|..].
  - intros r [Hr|Hr]%Hfrom; [by apply (ci_travel _ _ I)|by apply HU, Hrs].
  - intros r [Hr|Hr]%Hfrom; [by apply (ci_new _ _ I)|left; by apply Hrs].
  - intros x y [Hx|Hx]%Hfrom Hy' Hxn Hyn; [|by destruct Hxn; apply Hrs].
    apply Hfrom in Hy' as [Hy|Hy]; [|by destruct Hyn; apply Hrs]. by apply (ci_stamp _ _ I).
  - intros r Hr Hu. apply Hto; [done|]. by apply (ci_own _ _ I).
  - intros x r [Hx|Hx]%Hfrom Hr Hu Hle; [apply Hto; [done|]; by apply (ci_closed _ _ I x)|]. by apply Hto', (Hhas x).
  - by apply Htake; [apply I|].
  - intros kv Hkv. assert (forall kv, seen_part d rs kv -> vec_ok U (db_nodeID d) (db_records d') kv) as Hseen
      by (intros kv' (p & Hp & ->); apply Htake; [apply I|by apply Hpre]).
    apply (keeps_read _ _ _ _ Hkeep) in Hkv as [Hkv|Hkv]; [|by apply Hseen|by intros kv' Hs%Hseen; apply Hs].
    apply (Htake kv []); [by apply (ci_meta _ _ I)|by intros r ?%not_elem_of_nil].
Qed.
(** A step that changes the bookkeeping only, and not the vector. *)
Lemma client_meta U d d' : client_inv U d -> db_inv d' -> db_collection d' = db_collection d -> db_nodeID d' = db_nodeID d ->
  db_vector d' = db_vector d -> keeps_vector d (fun _ => False) d' ->
  docs_only [db_key d metaVectorID; db_key d metaClockID] (db_records d') (db_records d) ->
  (forall r, r ∈ U -> is_doc r /\ in_mesh r /\ travels r) -> client_inv U d'.
Proof.
  intros I I' Hc Hn Hv Hk Hm HU. apply (client_take U d d' []); [done..| |done|done|by intros ? ?%not_elem_of_nil|by intros ? ? ?%not_elem_of_nil].
  destruct Hk as [? Hk]. split; [done|]. intros x [?|(? & [] & _)]%Hk. by left.
Qed.

(** *** The steps of a client *)

Lemma client_write U d d' rec : client_inv U d -> write_effect d rec d' -> travels rec -> clock_forward U d rec ->
  (forall r, r ∈ U -> is_doc r /\ in_mesh r /\ travels r) -> client_inv U d'.
Proof.
  intros I W Ht Hf HU. pose proof (we_by _ _ _ W) as Hby. pose proof (we_coll _ _ _ W) as Hc. pose proof (we_node _ _ _ W) as Hn.
  assert (in_mesh rec) as Hmr by (unfold in_mesh; rewrite (we_in _ _ _ W); apply I).
  assert (forall r, client_doc d' r -> r = rec \/ client_doc d r) as Hfrom.
  { intros r (Hr & Hd & Hi). destruct (decide (rkey r = rkey rec)) as [Hk|Hk].
    - left. pose proof (we_rec _ _ _ W) as Hw. unfold db_records in Hw. congruence.
    - right. split; [|done]. pose proof (doc_key d r (ci_coll _ _ I) Hd Hi) as Hne. apply not_elem_of_cons in Hne as [Hne _].
      rewrite <-Hr. symmetry. by apply (we_others _ _ _ W). }
  assert (forall r, r ∈ U -> has (db_records d) r -> has (db_records d') r) as Hto.
  { intros r Hr (w & Hw & Hb). destruct (HU r Hr) as (Hd & Hi & _). destruct (decide (rkey r = rkey rec)) as [Hk|Hk].
    - exists rec. rewrite Hk. split; [apply W|]. rewrite Hk in Hw. pose proof (beats_clock _ _ (we_above _ _ _ W w Hw)) as Hbw.
      apply (not_beats_trans _ w); [by apply beats_asym|done].
    - exists w. split; [|done]. rewrite <-Hw. pose proof (doc_key d r (ci_coll _ _ I) Hd Hi) as Hne. apply not_elem_of_cons in Hne as [Hne _].
      by apply (we_others _ _ _ W). }
  assert (forall r, r ∈ U -> UpdatedBy r = db_nodeID d -> has (db_records d') r) as Hown
    by (intros r Hr Hu; apply Hto; [done|]; by apply (ci_own _ _ I)).
  assert (vec_ok U (db_nodeID d) (db_records d') (db_vector d')) as Hvec.
  { rewrite (we_vector _ _ _ W). apply (vec_take _ _ (db_records d) _ _ [rec]); [apply I| |done|];
      intros x ?; [|intros Hx Hr Hu _]; (assert (x = rec) as -> by by apply list_elem_of_singleton); [auto|apply Hown; congruence]. }
  split; rewrite ?Hc, ?Hn; [apply W|apply I|..].
  - intros r [->|Hr]%Hfrom; [done|by apply (ci_travel _ _ I)].
  - intros r [->|Hr]%Hfrom; [|by apply (ci_new _ _ I)]. right. split; [done|]. intros x Hx Hxu. apply Hf; [by left|done].
  - intros x y Hx Hy Hxn Hyn Hs.
    assert (forall z, client_doc d z -> z ∉ U -> stamp z <> stamp rec) as Hne.
    { intros z Hz Hzn [= Hcl Hzu]. destruct (ci_new _ _ I z Hz) as [?|[Ho _]]; [done|].
      assert (hlc_gt (Clock rec) (Clock z)) as Hg by (apply Hf; [by right|done]). rewrite Hcl in Hg. by apply hlc_gt_irrefl in Hg. }
    apply Hfrom in Hx as [->|Hx], Hy as [->|Hy]; [done|by destruct (Hne y)|by destruct (Hne x)|by apply (ci_stamp _ _ I)].
  - exact Hown.
  - intros x r [->|Hx]%Hfrom Hr Hu Hle; [apply Hown; congruence|]. apply Hto; [done|]. by apply (ci_closed _ _ I x).
  - exact Hvec.
  - intros kv [Hkv|<-]%(keeps_read _ _ _ _ (we_keeps _ _ _ W)); [|done|by intros kv' <-; apply Hvec].
    apply (vec_take _ _ (db_records d) _ kv []); [by apply (ci_meta _ _ I)|by intros ? ?%not_elem_of_nil|done|by intros ? ? ?%not_elem_of_nil].
Qed.

Lemma push_client now resp d d' n err : push now resp d = (d', n, err) ->
  d' = d \/ d' = if HLC_GreaterThan (max_sent d) HLC_zero then fst (advanceClock now (max_sent d) d) else d.
Proof.
  unfold push. destruct resp as [[status body]|]; [|intros [= <- _ _]; by left]. destruct (negb _); [intros [= <- _ _]; by left|].
  destruct (len body <? 4); [intros [= <- _ _]; by left|]. intros [= <- _ _]. by right.
Qed.
Lemma client_advanced U now c d : client_inv U d -> advance_ok now c d -> (forall r, r ∈ U -> is_doc r /\ in_mesh r /\ travels r) ->
  client_inv U (fst (advanceClock now c d)) /\ db_nodeID (fst (advanceClock now c d)) = db_nodeID d.
Proof.
  intros I Ha HU. destruct (advanceClock_law now c d (ci_inv _ _ I) Ha) as (d' & He & I' & Hc & Hv & Hm).
  pose proof (advanceClock_nodeID now c d) as Hn. pose proof (keeps_advance now c d (ci_inv _ _ I) Ha) as Hkv.
  rewrite He in *. cbn [fst] in *. split; [|done]. apply (client_meta U d); [done..| |done].
  intros k Hk. apply Hm. intros Hin. apply Hk. by right.
Qed.

(** What a peer has reaches the client, with what it holds and what it was missing. *)
Lemma pull_reaches U d all (s : Server C) : client_inv U d -> node_inv U s -> (forall r, r ∈ U -> is_doc r /\ in_mesh r /\ travels r) ->
  sorts clock_less (st_ListAll DefaultCollection (srv_store s)) all ->
  forall r, r ∈ U -> has (st_records (srv_store s)) r -> has (merge (db_records d) (all_missing (db_vector d) all)) r.
Proof.
  intros I N HU Hsort r Hr (w & Hw & Hb). destruct (HU r Hr) as (Hd & Hi & _). pose proof (listed_known U all s N Hsort) as Hall.
  destruct Hsort as [Hp _]. destruct (st_listall_law DefaultCollection _ (ni_inv _ _ N)) as [_ Hl].
  pose proof (st_keyed _ (ni_inv _ _ N) _ _ Hw) as Hk. pose proof (st_colls _ (ni_inv _ _ N) _ _ Hw) as Hcw. cbn in Hk.
  destruct (same_key_doc r w (in_mesh_coll r Hi) Hcw Hk Hd Hi) as [Hdw Hiw].
  assert (w ∈ all) as Hin by (rewrite Hp; apply Hl; by rewrite Hk). apply (has_trans _ r w); [|done|done].
  destruct (is_missing (db_vector d) w) eqn:Hmiss; [apply has_merged; by apply list_elem_of_filter|].
  apply has_merge, (vo_honest _ _ _ _ (ci_vec _ _ I)); [by apply Hall|by apply is_missing_false].
Qed.
(** A pull from a server of the mesh. *)
Lemma client_pull U d all now (s : Server C) : client_inv U d -> node_inv U s -> (forall r, r ∈ U -> is_doc r /\ in_mesh r /\ travels r) ->
  sorts clock_less (st_ListAll DefaultCollection (srv_store s)) all -> pull_ok now all d ->
  exists d' n, pull_from now all s d = (d', n, None) /\ client_inv U d' /\ db_nodeID d' = db_nodeID d /\
    (forall r, r ∈ U -> has (st_records (srv_store s)) r -> has (db_records d') r) /\
    forall r, client_doc d' r -> client_doc d r \/ r ∈ U.
Proof.
  intros I N HU Hsort (Hv & Hing & Hadv). pose proof (listed_known U all s N Hsort) as Hall.
  pose proof (pull_reaches U d all s I N HU Hsort) as Hhas. destruct Hsort as [Hp _].
  destruct (st_listall_law DefaultCollection _ (ni_inv _ _ N)) as [_ Hl].
  assert (forall r, r ∈ all -> is_doc r /\ in_mesh r /\ travels r) as Hallok by (intros r Hr; apply HU; by apply Hall).
  assert (Forall record_ok all /\ Forall (fun r => in_u 32 (len (layout r))) all) as [Hok Hlen]
    by (split; apply Forall_forall; intros r Hr; apply (Hallok r Hr)).
  assert (filter is_doc (all_missing (db_vector d) all) = all_missing (db_vector d) all) as Hdocs
    by (apply filter_docs_id, Forall_forall; intros r [_ Hr]%list_elem_of_filter; apply (Hallok r Hr)).
  set (rs := all_missing (db_vector d) all) in *.
  assert (forall r, r ∈ rs -> r ∈ all) as Hsub by (intros r [_ ?]%list_elem_of_filter; done).
  destruct (pull_from_law now all s d (ni_inv _ _ N) (ci_inv _ _ I)) as (d' & Hpull & I' & Hc' & Hm);
    [|done|done|by eapply vector_fits_size|apply Hv|done|done|].
  { intros r Hr. rewrite Hp in Hr. by apply Hl in Hr as [? _]. }
  destruct (pull_from_vector _ all _ _ _ _ _ Hv Hok Hlen (reflexivity _) Hpull) as (_ & Hvec & _). fold rs in Hvec, Hm. rewrite Hdocs in Hvec, Hm.
  assert (db_nodeID d' = db_nodeID d) as Hn.
  { pose proof (pull_nodeID now (Some (200, bin_stream (db_vector d) all)) d) as Hn.
    rewrite pull_from_answer in Hpull by (by eapply vector_fits_size || apply Hv). by rewrite Hpull in Hn. }
  assert (keeps_vector d (seen_part d rs) d') as Hkeep.
  { rewrite pull_from_answer in Hpull by (by eapply vector_fits_size || apply Hv).
    assert (forall r, r ∈ rs -> record_ok r /\ in_u 32 (len (layout r)) /\ coll_ok (Collection r)) as Hrok.
    { intros r Hr%Hsub. destruct (Hallok r Hr) as (_ & Hi & _ & _ & ? & ?). split_and!; [done..|by apply in_mesh_coll]. }
    apply (keeps_pull now rs d d' (length rs)); [apply I|rewrite (ci_coll _ _ I); by apply (in_mesh_coll (mkRecord DefaultCollection "" "" [] [] HLC_zero "" false))
      |apply Forall_forall; intros r Hr; by apply Hrok|done|apply Forall_forall; intros r Hr; by apply Hrok|apply Forall_forall; intros r Hr; by apply Hrok|exact Hadv|exact Hpull]. }
  exists d', (length rs). split_and!; [done| |done|..].
  - apply (client_take U d d' rs); [done..|by intros r Hr; apply Hall, Hsub|].
    intros x r Hx Hr Hu Hle. apply Hhas; [done|]. apply (ni_honest _ _ N); [done|by apply HU|]. rewrite Hu.
    eapply kv_covers_le; [|exact Hle]. assert (x ∈ all) as Hxa by by apply Hsub. rewrite Hp in Hxa. apply Hl in Hxa as [Hxs _].
    apply (ni_cover _ _ N _ _ Hxs).
  - intros r Hr Hs. destruct (Hhas r Hr Hs) as (w & Hw & Hb). destruct (HU r Hr) as (Hd & Hi & _). exists w. split; [|done].
    rewrite Hm; [done|]. apply doc_key; [apply I|done|done].
  - intros r [?|Hr]%(take_docs d d' rs (ci_coll _ _ I) Hm); [by left|right]. by apply Hall, Hsub.
Qed.

(** *** Steps and runs of the system *)

Lemma mesh_run_snoc es e (σ σ1 σ2 : MeshState (St := C)) : mesh_run es σ σ1 -> mesh_ok e σ1 -> mesh_step e σ1 σ2 -> mesh_run (es ++ [e]) σ σ2.
Proof. induction 1 as [σ|e' es σ σ' σ'' Ho Hs Hr IH]; intros Hok Hl; cbn; [econstructor; [done..|constructor]|econstructor; [done..|auto]]. Qed.
Lemma mesh_reachable_step e (σ σ' : MeshState (St := C)) : mesh_reachable σ -> mesh_ok e σ -> mesh_step e σ σ' -> mesh_reachable σ'.
Proof. intros (σ0 & es & Hi & Hr) Ho Hs. exists σ0, (es ++ [e]). split; [done|]. by eapply mesh_run_snoc. Qed.
Lemma names_insert (cs : list (DocDB A)) k d d' : cs !! k = Some d -> db_nodeID d' = db_nodeID d -> db_nodeID <$> <[k:=d']> cs = db_nodeID <$> cs.
Proof. intros Hk Hn. rewrite list_fmap_insert, Hn. apply list_insert_id. by rewrite list_lookup_fmap, Hk. Qed.
(** A step of one client that pushes nothing. *)
Lemma one_client_inv m cs k d d' : sys_inv (mkSys m cs) -> cs !! k = Some d -> client_inv (known m) d' -> db_nodeID d' = db_nodeID d ->
  sys_inv (mkSys m (<[k:=d']> cs)).
Proof.
  intros [Hm HU Hcs Hn] Hk I Hd. cbn [sys_net clients] in *. split; cbn [sys_net clients]; [done|done|by apply Forall_insert|].
  by rewrite (names_insert cs k d d').
Qed.
Lemma client_at m cs k d : sys_inv (mkSys m cs) -> cs !! k = Some d -> client_inv (known m) d.
Proof. intros I Hk. pose proof (si_clients _ I) as Hcs. rewrite Forall_forall in Hcs. apply Hcs. by eapply list_elem_of_lookup_2. Qed.
Lemma server_at ns U cs i s : sys_inv (mkSys (mkMeshState ns U) cs) -> ns !! i = Some s -> node_inv U s.
Proof.
  intros I Hi. pose proof (mi_nodes _ (reachable_inv _ (si_net _ I))) as Hn. rewrite Forall_forall in Hn. apply Hn. by eapply list_elem_of_lookup_2.
Qed.

(** A write that is refused leaves the client alone. *)
Lemma refused_same now w d d' r : do_write now w d = (d', r) -> r <> Err ErrStore -> (forall rev, r <> Ok rev) -> d' = d.
Proof.
  intros Hw Hs Ho. revert Hw. destruct w as [doc|id]; cbn [do_write].
  - unfold DocDB_Put. destruct (put_check doc d) as [[id base]|e|]; [|by intros [= <- _]..]. unfold put_commit.
    destruct (put_payload doc base) as [[rev final]|]; [|by intros [= <- _]]. destruct (db_put _ d) as [d1 [|]]; intros [= _ He]; subst r; [by edestruct Ho|done].
  - destruct (decide (id = "")) as [->|Hid]; [by intros [= <- _]|]. rewrite Remove_ById by done. unfold remove_commit.
    destruct (db_put _ d) as [d1 [|]]; intros [= _ He]; subst r; [by edestruct Ho|done].
Qed.
Lemma push_step_inv k i now d d' (s s' : Server C) n err ns U cs : sys_inv (mkSys (mkMeshState ns U) cs) -> cs !! k = Some d -> ns !! i = Some s ->
  puts_ok (push_records d) (srv_store s) -> advance_ok now (max_sent d) d -> push_to now s d = (s', (d', n, err)) ->
  sys_inv (mkSys (mkMeshState (<[i:=s']> ns) (push_records d ++ U)) (<[k:=d']> cs)).
Proof.
  intros I Hk Hi Hp Ha Hpush. pose proof (client_at _ _ _ _ I Hk) as Ic. pose proof (server_at _ _ _ _ _ I Hi) as N.
  pose proof (reachable_inv _ (si_net _ I)) as Im. pose proof (si_known _ I) as HU. cbn [sys_net known] in Im, HU, Ic.
  pose proof (push_records_docs d (ci_inv _ _ Ic) (ci_coll _ _ Ic)) as Hdocs.
  assert (forall r, r ∈ push_records d ++ U -> is_doc r /\ in_mesh r /\ travels r) as HU'.
  { intros r [Hr%Hdocs|Hr]%elem_of_app; [|by apply HU]. split_and!; [apply Hr|apply Hr|by apply (ci_travel _ _ Ic)]. }
  assert (Forall record_ok (push_records d) /\ Forall (fun r => in_u 32 (len (layout r))) (push_records d)) as [Hok Hlen]
    by (split; apply Forall_forall; intros r Hr; apply (HU' r); apply elem_of_app; by left).
  unfold push_to in Hpush. destruct (handleBinPush MethodPost (push_request d) s) as [[s1 resp] sent] eqn:Hb.
  pose proof (f_equal fst Hpush) as Hs1. apply (f_equal snd) in Hpush. cbn [fst snd] in Hs1, Hpush. subst s1. 
  pose proof (client_contract U d (st_records (srv_store s)) Ic (mi_stamp _ Im) (fun r Hr => conj (proj1 (HU r Hr)) (proj1 (proj2 (HU r Hr))))) as C0.
  assert (mesh_step (EBinPush i (push_records d)) (mkMeshState ns U) (mkMeshState (<[i:=s']> ns) (push_records d ++ U))) as Hstep
    by (by apply (step_binpush i _ s s' resp sent)).
  assert (mesh_ok (EBinPush i (push_records d)) (mkMeshState ns U)) as Hmo
    by (split; [intros s0 Hs0; cbn [net] in Hs0; assert (s0 = s) as -> by congruence; by split|done]).
  apply push_client in Hpush.
  assert (client_inv (push_records d ++ U) d' /\ db_nodeID d' = db_nodeID d) as [Ic' Hn].
  { pose proof (client_pushed U d Ic). destruct Hpush as [->| ->]; [done|]. destruct (HLC_GreaterThan _ _); [by apply client_advanced|done]. }
  split; cbn [sys_net clients known]; [eapply mesh_reachable_step; [apply I|exact Hmo|exact Hstep]|done| |].
  - apply Forall_lookup. intros l e Hl. destruct (decide (l = k)) as [->|Hne].
    + rewrite list_lookup_insert_eq in Hl by by eapply lookup_lt_Some. by injection Hl as <-.
    + rewrite list_lookup_insert_ne in Hl by done. pose proof (client_at _ _ _ _ I Hl) as Ie. apply client_other; [done|].
      intros r Hr%Hdocs. destruct (ci_new _ _ Ic r Hr) as [?|[Hu Hnew]]; [by left|]. right. split.
      * rewrite Hu. intros He. apply Hne. eapply (NoDup_lookup (db_nodeID <$> cs)); [apply I|by rewrite list_lookup_fmap, Hl|].
        by rewrite list_lookup_fmap, Hk; cbn; rewrite He.
      * intros x Hx Hxu. apply Hnew; [done|congruence].
  - rewrite (names_insert cs k d); [apply I|done|done].
Qed.
Lemma New_vector (st : A) node coll : let d := New st node coll in db_vector d = default ∅ (readMetaVector d) /\ db_nodeID d = node.
Proof.
  intros d. destruct (New_fields st node coll) as (Hs & Hc & _).
  assert (readMetaVector d = readMetaVector (mkDocDB st node (or_default coll) ∅ ∅ HLC_zero newChangesHub)) as -> by (unfold readMetaVector, d; by rewrite Hs, Hc).
  unfold d, New, reindex. by destruct (readMetaVector (mkDocDB _ _ _ _ _ _ _)).
Qed.
(** A client opened again: its documents are as before, its vector is the one kept, or none. *)
Lemma client_restart U d st : client_inv U d -> st_inv st -> st_records st = db_records d ->
  let d' := New st (db_nodeID d) DefaultCollection in client_inv U d' /\ db_nodeID d' = db_nodeID d.
Proof.
  intros I Hi Hr d'. destruct (New_fields st (db_nodeID d) DefaultCollection) as (Hs & Hc & _). fold d' in Hs, Hc.
  destruct (New_vector st (db_nodeID d) DefaultCollection) as [Hv Hn]. fold d' in Hv, Hn.
  assert (db_records d' = db_records d) as Hrec by (unfold db_records; by rewrite Hs).
  assert (forall r, client_doc d' r <-> client_doc d r) as Hdoc by (intros r; unfold client_doc; unfold db_records in Hrec; by rewrite Hrec).
  assert (db_collection d' = db_collection d) as Hc' by (by rewrite Hc, (ci_coll _ _ I)).
  assert (readMetaVector d' = readMetaVector d) as Hmeta by (rewrite !readMetaVector_records; unfold db_key; by rewrite Hrec, Hc').
  split; [|done]. split; rewrite ?Hn, ?Hrec; [by unfold db_inv; rewrite Hs|by rewrite Hc| | | |apply I| | |].
  - intros r ?%Hdoc. by apply (ci_travel _ _ I).
  - intros r ?%Hdoc. by apply (ci_new _ _ I).
  - intros x y ?%Hdoc ?%Hdoc. by apply (ci_stamp _ _ I).
  - intros x r ?%Hdoc. by apply (ci_closed _ _ I).
  - rewrite Hv, Hmeta. destruct (readMetaVector d) as [kv|] eqn:He; [by apply (ci_meta _ _ I)|]. apply vec_empty.
  - rewrite Hmeta. apply (ci_meta _ _ I).
Qed.
Lemma sys_step_inv e S S' : sys_inv S -> sys_ok e S -> sys_step e S S' -> sys_inv S'.
Proof.
  intros I Hok Hstep. destruct Hstep as [e m m' cs He Hs|k now w d d' r m cs Hk He|k i now d d' s s' n err ns U cs Hk Hi Hpush
    |i k now all d d' s n err ns U cs Hk Hi Hsort Hpull|k now d d' n err m cs Hk Hpull|k d st m cs Hk Hst Hr]; cbn [sys_ok sys_net clients net known] in Hok.
  - destruct (step_preserves e m m' (reachable_inv _ (si_net _ I)) Hok Hs) as (_ & _ & Hkn & _). specialize (Hkn He).
    destruct I as [Hm HU Hcs Hn]. cbn [sys_net clients] in *. split; cbn [sys_net clients]; rewrite ?Hkn; try done. by eapply mesh_reachable_step.
  - pose proof (client_at _ _ _ _ I Hk) as Ic. specialize (Hok d Hk). rewrite He in Hok. cbn [snd] in Hok.
    destruct r as [rev|err|]; [|apply refused_same in He as ->; [by rewrite list_insert_id|congruence|done]..].
    destruct Hok as (rec & Hw & Ht & Hf).
    destruct (write_law now w d rec (ci_inv _ _ Ic)) as (d2 & rev2 & He2 & W); [rewrite (ci_coll _ _ Ic); by apply (in_mesh_coll (mkRecord DefaultCollection "" "" [] [] HLC_zero "" false))|done|].
    rewrite He in He2. injection He2 as <- _. apply (one_client_inv m cs k d); [done|done| |apply W]. by apply (client_write _ d d' rec); [..|apply I].
  - destruct (Hok d s Hk Hi) as [Hp Ha]. by eapply push_step_inv.
  - pose proof (client_at _ _ _ _ I Hk) as Ic. pose proof (server_at _ _ _ _ _ I Hi) as N.
    destruct (client_pull U d all now s Ic N (si_known _ I) Hsort (Hok d Hk)) as (d2 & n2 & Hp2 & I' & Hn & _).
    rewrite Hpull in Hp2. injection Hp2 as <- _ _. by apply (one_client_inv _ cs k d).
  - unfold pull in Hpull. injection Hpull as <- _ _. rewrite list_insert_id by done. exact I.
  - pose proof (client_at _ _ _ _ I Hk) as Ic. destruct (client_restart _ d st Ic Hst Hr). by apply (one_client_inv _ cs k d).
Qed.
Lemma fresh_client_inv d : fresh_client d -> client_inv [] d.
Proof.
  intros (st & node & -> & I & Hr). destruct (New_fields st node DefaultCollection) as (Hs & Hc & _).
  assert (readMetaVector (New st node DefaultCollection) = None) as He
    by (rewrite readMetaVector_records; unfold db_records; by rewrite Hs, Hr, lookup_empty).
  assert (forall r, ~ client_doc (New st node DefaultCollection) r) as Hno by (intros r (Hx & _); rewrite Hs, Hr, lookup_empty in Hx; done).
  split; [by unfold db_inv; rewrite Hs|by rewrite Hc|..].
  - intros r Hd. by destruct (Hno r).
  - intros r Hd. by destruct (Hno r).
  - intros x y Hd. by destruct (Hno x).
  - intros r Hd. by apply not_elem_of_nil in Hd.
  - intros x r Hd. by destruct (Hno x).
  - destruct (New_vector st node DefaultCollection) as [-> _]. rewrite He. apply vec_empty.
  - by rewrite He.
Qed.
Lemma sys_reachable_inv S : sys_reachable S -> sys_inv S.
Proof.
  intros (S0 & es & (Hm & Hc & Hn) & Hrun). assert (sys_inv S0) as I.
  { pose proof Hm as [_ Hk]. split; [by exists (sys_net S0), []; split; [|constructor]|rewrite Hk; by intros r ?%not_elem_of_nil|rewrite Hk|done].
    eapply Forall_impl; [exact Hc|apply fresh_client_inv]. }
  clear Hm Hc Hn. induction Hrun as [S|e es S1 S2 S3 Ho Hs Hrun IH]; [done|]. apply IH. by eapply sys_step_inv.
Qed.
(** The servers go on by themselves. *)
Lemma sys_rounds_inv es m m' cs : sys_inv (mkSys m cs) -> Forall (fun e => is_push e = false) es -> mesh_run es m m' -> sys_inv (mkSys m' cs).
Proof.
  intros I Hes Hrun. induction Hrun as [m|e es m m2 m3 Ho Hs Hrun IH]; [done|]. inversion_clear Hes. apply IH; [|done].
  eapply (sys_step_inv (SMesh e)); [exact I|exact Ho|by apply sys_mesh].
Qed.

(** *** What a client reads *)

(** What was pushed under an id, as a document. *)
Definition merged_doc (U : list NellRecord) (id : string) : res doc_err Doc :=
  match merge ∅ U !! record_key DefaultCollection id with
  | Some w => if Deleted w then Err ErrNotFound else Ok (joinDoc id w)
  | None => Err ErrNotFound
  end.
(** A client that has everything pushed and nothing else reads the merge of it. *)
Lemma client_reads U d id : client_inv U d -> (forall x y, x ∈ U -> y ∈ U -> stamp x = stamp y -> x = y) ->
  (forall r, r ∈ U -> is_doc r /\ in_mesh r /\ travels r) -> (forall r, client_doc d r -> r ∈ U) -> (forall r, r ∈ U -> has (db_records d) r) ->
  isInternalID id = false -> DocDB_Get false id d = merged_doc U id.
Proof.
  intros I Hst HU Hsub Hhas Hid. rewrite DocDB_Get_law. unfold merged_doc, db_key. rewrite (ci_coll _ _ I).
  change (or_default DefaultCollection) with DefaultCollection. set (k := record_key DefaultCollection id).
  enough (db_records d !! k = merge ∅ U !! k) as -> by done.
  pose proof (merge_spec U ∅ k) as Hs.
  assert (forall w, db_records d !! k = Some w -> w ∈ U /\ rkey w = k) as Hd.
  { intros w Hw. pose proof (st_keyed _ (ci_inv _ _ I) _ _ Hw) as Hk. cbn in Hk. split; [|done]. apply Hsub.
    apply (client_doc_at d k w (mkRecord DefaultCollection id "" [] [] HLC_zero "" false)); [apply I|by apply in_mesh_coll|done..]. }
  destruct (merge ∅ U !! k) as [w|].
  - destruct Hs as [[Hw|[Hw Hk]] Hmax]; [by rewrite lookup_empty in Hw|]. destruct (Hhas w Hw) as (w' & Hw' & Hb). rewrite Hk in Hw'.
    rewrite Hw'. f_equal. destruct (Hd w' Hw') as [Hin Hk']. apply (same_winner U); [done|done|done| |done]. apply Hmax. by right.
  - destruct (db_records d !! k) as [w|] eqn:Hw; [|done]. destruct (Hd w eq_refl) as [Hin Hk]. exfalso. apply (Hs w). by right.
Qed.
End system.

(** ** Properties *)



(** Two servers and two clients: the first client writes a document and pushes it to the
    first server. *)
Definition duo_client (node : string) : DocDB MemoryStore := New (NewMemoryStore 0 node) node DefaultCollection.
Definition duo_rec : NellRecord :=
  match put_payload demo_doc "" with
  | Some (_, final) => put_record_of demo_times demo_doc "a" final (duo_client "X")
  | None => pair_record
  end.
Definition duo_start : SysState (A := MemoryStore) (C := MemoryStore) := mkSys pair_start [duo_client "X"; duo_client "Y"].
Definition duo_written : DocDB MemoryStore := fst (do_write demo_times (WPut demo_doc) (duo_client "X")).
Definition duo_push_times (n : nat) : Z := 200 + Z.of_nat n.
Definition duo_push := push_to duo_push_times (pair_server "A") duo_written.
Definition duo_pushed : SysState (A := MemoryStore) (C := MemoryStore) :=
  mkSys (mkMeshState [fst duo_push; pair_server "B"] (push_records duo_written)) [fst (fst (snd duo_push)); duo_client "Y"].
Lemma duo_no_doc node r : ~ client_doc (duo_client node) r.
Proof. intros (Hr & _). vm_compute in Hr. discriminate Hr. Qed.
Lemma duo_wrote : wrote demo_times (WPut demo_doc) (duo_client "X") duo_rec.
Proof.
  unfold duo_rec. destruct (put_payload demo_doc "") as [[rev final]|] eqn:Hp; [|vm_compute in Hp; discriminate Hp].
  exists "a", "", rev, final. split; [reflexivity|]. split; [exact Hp|]. split; [reflexivity|]. split; [|reflexivity]. split_and!.
  - split; [|apply (bool_decide_unpack (colon_free _)); vm_compute; exact I].
    change (tick_safe (put_clock demo_times "a" (duo_client "X"))). vm_compute. split; [discriminate|reflexivity].
  - intros existing He. vm_compute in He. discriminate He.
  - intros _. split; [|apply (bool_decide_unpack (colon_free _)); vm_compute; exact I].
    vm_compute. split; [discriminate|reflexivity].
Qed.
Lemma duo_travels : travels duo_rec.
Proof.
  split; [split; [vm_compute; discriminate|vm_compute; reflexivity]|].
  split; [apply (bool_decide_unpack (record_json _)); vm_compute; exact I|].
  split; [apply (bool_decide_unpack (record_ok _)); vm_compute; exact I|]. vm_compute. split; [discriminate|reflexivity].
Qed.
Lemma duo_init : sys_init duo_start.
Proof.
  split; [|split].
  - split; [|reflexivity]. apply Forall_cons. split; [|apply Forall_singleton]; apply pair_server_fresh; vm_compute; reflexivity.
  - assert (forall node, fresh_client (duo_client node)) as Hf
      by (intros node; exists (NewMemoryStore 0 node), node; split; [done|split; [apply NewMemoryStore_inv|done]]).
    apply Forall_cons. split; [|apply Forall_singleton]; apply Hf.
  - apply (bool_decide_unpack (NoDup _)). vm_compute. exact I.
Qed.
Lemma duo_write_step : exists rev, do_write demo_times (WPut demo_doc) (duo_client "X") = (duo_written, Ok rev).
Proof.
  pose proof (write_law demo_times (WPut demo_doc) (duo_client "X") duo_rec (NewMemoryStore_inv 0 "X")) as Hl.
  destruct Hl as (d' & rev & He & _); [|exact duo_wrote|].
  - split; apply (bool_decide_unpack _); vm_compute; exact I.
  - exists rev. unfold duo_written. by rewrite He.
Qed.
Lemma duo_forward : clock_forward [] (duo_client "X") duo_rec.
Proof. intros r [Hr|Hr]; [by apply not_elem_of_nil in Hr|by apply duo_no_doc in Hr]. Qed.
Lemma duo_ok1 (y : DocDB MemoryStore) : sys_ok (SWrite 0 demo_times (WPut demo_doc)) (mkSys pair_start [duo_client "X"; y]).
Proof.
  destruct duo_write_step as [rev He]. intros d [= <-]. rewrite He. cbn [snd]. exists duo_rec.
  split; [exact duo_wrote|split; [exact duo_travels|exact duo_forward]].
Qed.
Lemma duo_step1 (y : DocDB MemoryStore) : sys_step (SWrite 0 demo_times (WPut demo_doc)) (mkSys pair_start [duo_client "X"; y]) (mkSys pair_start [duo_written; y]).
Proof.
  destruct duo_write_step as [rev He]. revert He. generalize duo_written, (duo_client "X"). intros d1 d He.
  exact (sys_write 0 demo_times (WPut demo_doc) d d1 (Ok rev) pair_start [d; y] eq_refl He).
Qed.
Lemma duo_push_law : exists n, duo_push = (fst duo_push, (fst (fst (snd duo_push)), n, None)).
Proof.
  assert (match snd (snd duo_push) with None => true | _ => false end = true) as Hn by (vm_compute; reflexivity).
  destruct duo_push as [s' [[d2 n] [e|]]]; [discriminate Hn|]. exists n. reflexivity.
Qed.
Lemma duo_puts_ok : puts_ok (push_records duo_written) (srv_store (pair_server "A")).
Proof. apply mem_puts_ok. vm_compute. reflexivity. Qed.
Lemma duo_advance_ok : advance_ok duo_push_times (max_sent duo_written) duo_written.
Proof. apply (bool_decide_unpack (advance_ok _ _ _)). vm_compute. exact I. Qed.
Lemma duo_ok2 (y : DocDB MemoryStore) : sys_ok (SPush 0 0 duo_push_times) (mkSys pair_start [duo_written; y]).
Proof.
  pose proof duo_puts_ok as Ho. pose proof duo_advance_ok as Ha. revert Ho Ha.
  generalize duo_written. intros d1 Ho Ha d s [= <-] [= <-]. by split.
Qed.
Lemma duo_step2 (y : DocDB MemoryStore) : sys_step (SPush 0 0 duo_push_times) (mkSys pair_start [duo_written; y])
  (mkSys (mkMeshState [fst duo_push; pair_server "B"] (push_records duo_written)) [fst (fst (snd duo_push)); y]).
Proof.
  destruct duo_push_law as [n Hp]. unfold duo_push at 1 in Hp. revert Hp.
  generalize (fst duo_push), (fst (fst (snd duo_push))), duo_written. intros s' d2 d1 Hp. rewrite <-(app_nil_r (push_records d1)).
  exact (sys_push 0 0 duo_push_times d1 d2 (pair_server "A") s' n None [pair_server "A"; pair_server "B"] [] [d1; y] eq_refl eq_refl Hp).
Qed.
Lemma duo_reachable : sys_reachable duo_pushed.
Proof.
  exists duo_start, [SWrite 0 demo_times (WPut demo_doc); SPush 0 0 duo_push_times]. split; [exact duo_init|].
  eapply sys_run_cons; [exact (duo_ok1 (duo_client "Y"))|exact (duo_step1 (duo_client "Y"))|].
  eapply sys_run_cons; [exact (duo_ok2 (duo_client "Y"))|exact (duo_step2 (duo_client "Y"))|]. constructor.
Qed.
(** The first client, opened again afterwards. *)
Definition duo_reopened : DocDB MemoryStore := New (db_store (fst (fst (snd duo_push)))) (db_nodeID (fst (fst (snd duo_push)))) DefaultCollection.
Definition duo_restarted : SysState (A := MemoryStore) (C := MemoryStore) := mkSys (sys_net duo_pushed) [duo_reopened; duo_client "Y"].
Lemma duo_step3 (y : DocDB MemoryStore) : db_inv (fst (fst (snd duo_push))) ->
  sys_step (SRestart 0) (mkSys (sys_net duo_pushed) [fst (fst (snd duo_push)); y]) (mkSys (sys_net duo_pushed) [duo_reopened; y]).
Proof.
  unfold duo_reopened. generalize (fst (fst (snd duo_push))), (sys_net duo_pushed). intros d m I.
  exact (sys_restart 0 d (db_store d) m [d; y] eq_refl I eq_refl).
Qed.
Lemma duo_restarted_reachable : sys_reachable duo_restarted.
Proof.
  assert (db_inv (fst (fst (snd duo_push)))) as Hi.
  { pose proof (sys_reachable_inv _ duo_reachable) as Hi. exact (ci_inv _ _ (client_at _ _ 0%nat _ Hi eq_refl)). }
  exists duo_start, [SWrite 0 demo_times (WPut demo_doc); SPush 0 0 duo_push_times; SRestart 0]. split; [exact duo_init|].
  eapply sys_run_cons; [exact (duo_ok1 (duo_client "Y"))|exact (duo_step1 (duo_client "Y"))|].
  eapply sys_run_cons; [exact (duo_ok2 (duo_client "Y"))|exact (duo_step2 (duo_client "Y"))|].
  eapply sys_run_cons; [exact Logic.I|exact (duo_step3 (duo_client "Y") Hi)|]. constructor.
Qed.

(** The round of the two servers, run. *)
Definition listing_of (a : Server MemoryStore) : list NellRecord := sort_Slice clock_less (st_ListAll DefaultCollection (srv_store a)).
Definition sync_once (a b : Server MemoryStore) : option (Server MemoryStore * option reconcile_err) :=
  reconcileOneInner (wire_peer (srv_nodeID b) (listing_of a) a) 5 None b.
Definition duo_A : Server MemoryStore := fst duo_push.
Definition duo_A1 : Server MemoryStore := default duo_A (fst <$> sync_once (pair_server "B") duo_A).
Definition duo_B1 : Server MemoryStore := default (pair_server "B") (fst <$> sync_once duo_A1 (pair_server "B")).
Definition duo_synced : MeshState := mkMeshState [duo_A1; duo_B1] (push_records duo_written).
(** A server with at most one document is listed in one way. *)
Definition sync_checks (U : list NellRecord) (a b : Server MemoryStore) : Prop :=
  (forall all, all ≡ₚ st_ListAll DefaultCollection (srv_store a) -> all = st_ListAll DefaultCollection (srv_store a)) /\ sync_ok (UpdatedBy <$> U) (listing_of a) b /\
  exists b', sync_once a b = Some (b', None).
Lemma sync_once_step ns U i j (a b : Server MemoryStore) : ns !! i = Some a -> ns !! j = Some b -> sync_checks U a b ->
  mesh_ok (ESync i j) (mkMeshState ns U) /\ mesh_step (ESync i j) (mkMeshState ns U) (mkMeshState (<[j:=default b (fst <$> sync_once a b)]> ns) U).
Proof.
  intros Hi Hj (Hl & Ho & b' & He).
  assert (sorts clock_less (st_ListAll DefaultCollection (srv_store a)) (listing_of a)) as Hs by (apply sort_Slice_sorts; apply _).
  split.
  - intros a0 b0 all Ha Hb [Hp _]. cbn [net known] in *. simplify_eq. destruct Hs as [Hs _].
    by rewrite (Hl _ Hp), <-(Hl _ Hs).
  - rewrite He. by apply (step_sync i j a b b' (listing_of a) 5 None).
Qed.
Lemma sync_checked U (a b : Server MemoryStore) :
  match st_ListAll DefaultCollection (srv_store a) with [] | [_] => true | _ => false end = true ->
  bool_decide (len (all_missing (knowledgeVector b) (listing_of a)) <= 100) = true ->
  bool_decide (Forall (fun r => (- 2 ^ 31 <= Counter (Clock r) + 1 < 2 ^ 31)%Z /\ colon_free (Collection r)) (all_missing (knowledgeVector b) (listing_of a))) = true ->
  bool_decide (Forall (fun cursor => names_size (UpdatedBy <$> U) + 6 * (strlen (srv_nodeID b) + strlen cursor) + 100 <= MaxBodyBytes) ("" :: (ID <$> listing_of a))) = true ->
  match sync_once a b with Some (_, None) => true | _ => false end = true -> sync_checks U a b.
Proof.
  intros Hl Hm Hp Hf He. split; [|split; [split; [left; by apply bool_decide_eq_true in Hm|split; [by apply mem_puts_ok|by apply bool_decide_eq_true in Hf]]|]].
  - destruct (st_ListAll _ _) as [|r [|? ?]]; [by intros all ->%Permutation_nil_r|by intros all ->%Permutation_singleton_r|done].
  - destruct (sync_once a b) as [[b' [e|]]|]; [done|by exists b'|done].
Qed.
Lemma duo_checks1 : sync_checks (push_records duo_written) (pair_server "B") duo_A.
Proof. apply sync_checked; vm_compute; reflexivity. Qed.
Lemma duo_checks2 : sync_checks (push_records duo_written) duo_A1 (pair_server "B").
Proof. apply sync_checked; vm_compute; reflexivity. Qed.
Lemma duo_run : mesh_run (concat [pair_round]) (sys_net duo_pushed) duo_synced.
Proof.
  pose proof duo_checks1 as H1. pose proof duo_checks2 as H2.
  change (sys_net duo_pushed) with (mkMeshState [duo_A; pair_server "B"] (push_records duo_written)).
  unfold duo_synced. unfold duo_B1. unfold duo_A1 in *. revert H1 H2.
  generalize duo_A, (push_records duo_written), (pair_server "B"). intros A U B H1 H2.
  destruct (sync_once_step [A; B] U 1 0 B A eq_refl eq_refl H1) as [Ho1 Hs1].
  destruct (sync_once_step [default A (fst <$> sync_once B A); B] U 0 1 _ B eq_refl eq_refl H2) as [Ho2 Hs2].
  eapply run_cons; [exact Ho1|exact Hs1|]. eapply run_cons; [exact Ho2|exact Hs2|]. constructor.
Qed.
Definition duo_pull_times (i n : nat) : Z := 400 + 10 * Z.of_nat i + Z.of_nat n.
Lemma duo_pull_ok : pull_ok duo_pull_times (listing_of duo_B1) (duo_client "Y").
Proof.
  assert (db_vector (duo_client "Y") = ∅) as Hv by reflexivity. split_and!.
  - split; [rewrite Hv; apply map_Forall_empty|apply (bool_decide_unpack _); vm_compute; exact I].
  - apply (bool_decide_unpack (ingests_ok _ _ _ _)). vm_compute. exact I.
  - intros d1 n m Hl1.
    assert (match pull_loop (S (length (bin_stream (db_vector (duo_client "Y")) (listing_of duo_B1)))) duo_pull_times
        (bin_stream (db_vector (duo_client "Y")) (listing_of duo_B1)) 0 HLC_zero (duo_client "Y") with
      | (d1, n, m, None) => bool_decide (advance_ok (duo_pull_times n) m d1)
      | _ => true end = true) as Hc by (vm_compute; reflexivity).
    rewrite Hl1 in Hc. by apply bool_decide_eq_true in Hc.
Qed.
