(* ===== verification/GoFormat.v ===== *)
(** * Text of durations, dates and fixed decimals (time, fmt)

    What the benchmarks' result files hold, as the standard library writes it:
    [Duration.String] and [Truncate], the RFC 3339 text of an instant in UTC, and [%.nf]. *)
From S2P Require Import Prelude BigEndian Float GoTime Crypto Strconv.
Local Open Scope Z_scope.

(** A number's digits, padded with zeros to a width. *)
Definition pad_int (width : nat) (n : Z) : bytes := let ds := format_int n in replicate (width - length ds) (digit_char 0) ++ ds.

(** ** Durations *)

(** [d.Truncate(m)] *)
Definition Truncate (d m : Duration) : Duration := if m <=? 0 then d else d - Z.rem d m.
(** [fmtFrac]: the [prec] decimals of [v / 10^prec] without trailing zeros, before [acc]; and
    the whole part. *)
Fixpoint fmtFrac (prec : nat) (v : Z) (print : bool) (acc : bytes) : bytes * Z :=
  match prec with
  | O => (if print then to_byte 46 :: acc else acc, v)
  | S prec =>
      let digit := v mod 10 in
      let print := print || negb (digit =? 0) in
      fmtFrac prec (v / 10) print (if print then digit_char digit :: acc else acc)
  end.
(** Minutes and hours, where there are any. *)
Definition duration_text (u : Z) : bytes :=
  if u =? 0 then str_bytes "0s"
  else if u <? Second then
    let '(prec, unit) := if u <? 1000 then (0%nat, "ns") else if u <? Millisecond then (3%nat, "µs") else (6%nat, "ms") in
    let '(frac, v) := fmtFrac prec u false (str_bytes unit) in format_int v ++ frac
  else
    let '(frac, s) := fmtFrac 9 u false (str_bytes "s") in
    let seconds := format_int (s mod 60) ++ frac in
    let m := s / 60 in
    if m =? 0 then seconds else
    let minutes := format_int (m mod 60) ++ str_bytes "m" ++ seconds in
    let h := m / 60 in
    if h =? 0 then minutes else format_int h ++ str_bytes "h" ++ minutes.
Definition Duration_String (d : Duration) : string :=
  bytes_str (if d <? 0 then to_byte 45 :: duration_text (- d) else duration_text d).
Example duration_texts : map Duration_String [0; 999; 1500; 2000000; 1234567890; 61 * Second; 3 * Hour + 5 * Second + 7 * Millisecond; - Minute] =
  ["0s"; "999ns"; "1.5µs"; "2ms"; "1.23456789s"; "1m1s"; "3h0m5.007s"; "-1m0s"].
Proof. vm_compute. reflexivity. Qed.

(** ** Dates *)

(** Year, month and day of a day counted from 1 January of year 1. *)
Definition is_leap (year : Z) : bool := (year mod 4 =? 0) && (negb (year mod 100 =? 0) || (year mod 400 =? 0)).
Definition month_days (leap : bool) : list Z := [31; if leap then 29 else 28; 31; 30; 31; 30; 31; 31; 30; 31; 30; 31].
Fixpoint month_of (lengths : list Z) (month day : Z) : Z * Z :=
  match lengths with
  | [] => (month, day + 1)
  | n :: lengths => if day <? n then (month, day + 1) else month_of lengths (month + 1) (day - n)
  end.
Definition civil (days : Z) : Z * Z * Z :=
  let '(y400, d) := (days / 146097, days mod 146097) in
  let n100 := Z.min 3 (d / 36524) in
  let d := d - n100 * 36524 in
  let '(n4, d) := (d / 1461, d mod 1461) in
  let n1 := Z.min 3 (d / 365) in
  let year := 1 + 400 * y400 + 100 * n100 + 4 * n4 + n1 in
  let '(month, day) := month_of (month_days (is_leap year)) 1 (d - n1 * 365) in
  (year, month, day).
(** [t.UTC().Format(time.RFC3339)] *)
Definition RFC3339 (t : Time) : string :=
  let s := t / Second in
  let '(year, month, day) := civil (s / 86400) in
  let s := s mod 86400 in
  bytes_str (pad_int 4 year ++ str_bytes "-" ++ pad_int 2 month ++ str_bytes "-" ++ pad_int 2 day ++ str_bytes "T" ++
             pad_int 2 (s / 3600) ++ str_bytes ":" ++ pad_int 2 (s / 60 mod 60) ++ str_bytes ":" ++ pad_int 2 (s mod 60) ++ str_bytes "Z").
Example rfc3339_texts : map (fun sec => RFC3339 (time_Unix sec)) [0; 951782400; 1735689599; 4102444799] =
  ["1970-01-01T00:00:00Z"; "2000-02-29T00:00:00Z"; "2024-12-31T23:59:59Z"; "2099-12-31T23:59:59Z"].
Proof. vm_compute. reflexivity. Qed.

(** ** Fixed decimals *)

(** [m * 2^e] to the nearest of [prec] decimals, ties to even. *)
Definition round_fixed (prec : nat) (m : positive) (e : Z) : Z :=
  let n := Zpos m * 10 ^ Z.of_nat prec in
  if 0 <=? e then n * 2 ^ e else
  let '(q, r) := (n / 2 ^ (- e), n mod 2 ^ (- e)) in
  if (2 * r <? 2 ^ (- e)) || ((2 * r =? 2 ^ (- e)) && Z.even q) then q else q + 1.
Definition fixed_text (prec : nat) (n : Z) : bytes :=
  let ds := dec_digits n in
  let ds := replicate (S prec - length ds) (digit_char 0) ++ ds in
  let k := (length ds - prec)%nat in
  take k ds ++ match prec with O => [] | S _ => to_byte 46 :: drop k ds end.
(** [fmt.Sprintf("%.<prec>f", f)] *)
Definition format_fixed (prec : nat) (f : float) : string :=
  let sign (s : bool) := if s then str_bytes "-" else [] in
  bytes_str match f with
  | S754_nan => str_bytes "NaN"
  | S754_infinity s => if s then str_bytes "-Inf" else str_bytes "+Inf"
  | S754_zero s => sign s ++ fixed_text prec 0
  | S754_finite s m e => sign s ++ fixed_text prec (round_fixed prec m e)
  end.
Example fixed_texts : map (fun q => format_fixed q.1 (f64_div (f64_of_int q.2.1) (f64_of_int q.2.2)))
    [(0%nat, (5, 2)); (0%nat, (7, 2)); (1%nat, (1, 4)); (1%nat, (-1, 3)); (2%nat, (1, 200)); (0%nat, (1, 0))] =
  ["2"; "4"; "0.2"; "-0.3"; "0.01"; "+Inf"].
Proof. vm_compute. reflexivity. Qed.

(** ** Padded numbers are in order *)

Lemma format_nat_acc fuel : forall n acc, format_nat fuel n acc = format_nat fuel n [] ++ acc.
Proof.
  induction fuel as [|fuel IH]; intros n acc; cbn [format_nat]; [done|]. destruct (n <? 10); [done|].
  by rewrite IH, (IH _ [_]), <-app_assoc.
Qed.
Lemma format_nat_fuel f1 : forall f2 n, (0 < f1)%nat -> (0 < f2)%nat -> 0 <= n < 10 ^ Z.of_nat f1 -> n < 10 ^ Z.of_nat f2 ->
  format_nat f1 n [] = format_nat f2 n [].
Proof.
  induction f1 as [|f1 IH]; intros [|f2] n H1 H2 Hn Hn2; try lia. cbn [format_nat]. destruct (Z.ltb_spec n 10) as [|Hge]; [done|].
  rewrite (format_nat_acc f1), (format_nat_acc f2). f_equal.
  rewrite Nat2Z.inj_succ, Z.pow_succ_r in Hn, Hn2 by lia.
  destruct f1 as [|f1]; [cbn in Hn; lia|]. destruct f2 as [|f2]; [cbn in Hn2; lia|].
  apply IH; [lia|lia|split; [apply Z.div_pos; lia|apply Z.div_lt_upper_bound; lia]|apply Z.div_lt_upper_bound; lia].
Qed.
Lemma pad_int_step w n : (0 < w <= 18)%nat -> 0 <= n < 10 ^ Z.of_nat (S w) ->
  pad_int (S w) n = pad_int w (n / 10) ++ [digit_char (n mod 10)].
Proof.
  intros Hw Hn. unfold pad_int, format_int. assert (10 ^ Z.of_nat (S w) <= 10 ^ 19) as Hb by (apply Z.pow_le_mono_r; lia).
  assert (0 <= n / 10 < 10 ^ 18) as Hd by (split; [apply Z.div_pos|apply Z.div_lt_upper_bound]; lia).
  rewrite !(proj2 (Z.ltb_ge _ 0)) by lia. change (format_nat 20 n []) with (if n <? 10 then [digit_char (n mod 10)] else format_nat 19 (n / 10) [digit_char (n mod 10)]).
  destruct (Z.ltb_spec n 10) as [Hlt|Hge].
  - rewrite (Z.div_small n 10) by lia. change (format_nat 20 0 []) with [digit_char 0]. cbn [length].
    rewrite Nat.sub_succ, Nat.sub_0_r. f_equal.
    replace w with (S (w - 1)) at 1 by lia. by rewrite replicate_S_end.
  - rewrite format_nat_acc, length_app. cbn [length]. rewrite Nat.add_1_r, Nat.sub_succ, app_assoc.
    rewrite (format_nat_fuel 19 20 (n / 10)) by (change (Z.of_nat 19) with 19; change (Z.of_nat 20) with 20; lia). done.
Qed.
Lemma pad_int_length w : forall n, (0 < w <= 19)%nat -> 0 <= n < 10 ^ Z.of_nat w -> length (pad_int w n) = w.
Proof.
  induction w as [|[|w] IH]; intros n Hw Hn; [lia| |].
  - unfold pad_int, format_int. rewrite (proj2 (Z.ltb_ge _ 0)) by lia. cbn [format_nat]. by rewrite (proj2 (Z.ltb_lt n 10)) by (cbn in Hn; lia).
  - rewrite pad_int_step, length_app, IH by (lia || (rewrite Nat2Z.inj_succ, Z.pow_succ_r in Hn by lia; split; [apply Z.div_pos|apply Z.div_lt_upper_bound]; lia)).
    cbn. lia.
Qed.
Lemma compare_app a : forall b s t, length a = length b ->
  String.compare (bytes_str (a ++ s)) (bytes_str (b ++ t)) =
  match String.compare (bytes_str a) (bytes_str b) with Eq => String.compare (bytes_str s) (bytes_str t) | c => c end.
Proof.
  induction a as [|x a IH]; intros [|y b] s t Hl; try done. injection Hl as Hl. cbn [app bytes_str String.string_of_list_ascii String.compare].
  destruct (Ascii.compare x y); [|done..]. by apply IH.
Qed.
Lemma compare_digit a b : 0 <= a < 10 -> 0 <= b < 10 -> Ascii.compare (digit_char a) (digit_char b) = (a ?= b).
Proof.
  intros Ha Hb. unfold Ascii.compare. pose proof (of_digit a Ha) as Da. pose proof (of_digit b Hb) as Db. unfold of_byte in *.
  rewrite <-N2Z.inj_compare, Da, Db. destruct (Z.compare_spec a b), (Z.compare_spec (48 + a) (48 + b)); lia || done.
Qed.
Lemma pad_int_compare w : forall i j, (0 < w <= 19)%nat -> 0 <= i < 10 ^ Z.of_nat w -> 0 <= j < 10 ^ Z.of_nat w ->
  String.compare (bytes_str (pad_int w i)) (bytes_str (pad_int w j)) = (i ?= j).
Proof.
  induction w as [|[|w] IH]; intros i j Hw Hi Hj; [lia| |].
  - unfold pad_int, format_int. rewrite !(proj2 (Z.ltb_ge _ 0)) by lia. cbn in Hi, Hj. cbn [format_nat].
    rewrite !(proj2 (Z.ltb_lt _ 10)), !(Z.mod_small _ 10) by lia. cbn [length Nat.sub replicate app bytes_str String.string_of_list_ascii String.compare].
    rewrite compare_digit by lia. by destruct (i ?= j).
  - assert (forall n, 0 <= n < 10 ^ Z.of_nat (S (S w)) -> 0 <= n / 10 < 10 ^ Z.of_nat (S w)) as Hd.
    { intros n Hn. rewrite Nat2Z.inj_succ, Z.pow_succ_r in Hn by lia. split; [apply Z.div_pos|apply Z.div_lt_upper_bound]; lia. }
    rewrite (pad_int_step (S w) i), (pad_int_step (S w) j) by lia. rewrite compare_app by (rewrite !pad_int_length by (lia || by apply Hd); done).
    rewrite IH by (lia || by apply Hd). pose proof (Z.div_mod i 10 ltac:(lia)). pose proof (Z.div_mod j 10 ltac:(lia)).
    pose proof (Z.mod_pos_bound i 10 ltac:(lia)). pose proof (Z.mod_pos_bound j 10 ltac:(lia)).
    cbn [bytes_str String.string_of_list_ascii String.compare]. rewrite compare_digit by lia.
    destruct (Z.compare_spec (i / 10) (j / 10)), (Z.compare_spec i j), (Z.compare_spec (i mod 10) (j mod 10)); lia || done.
Qed.
