(* ===== verification/Examples.v ===== *)
(** * The example programs (examples/)

    Six of the demonstration programs, as they call the SDK: basic, persistence, sync, vector,
    tour and sync-bench, with what they print.  An output is its lines, each without its final
    newline; a newline inside a format starts a line of its own.  [log.Fatal] ends a program
    with its message, and what was printed before is then left out.  [now i n] is the [n]-th
    reading of the clock in a program's [i]-th call.  A [[]string] of a document is the array
    it is encoded as.  A server's listing
    is sorted by [sort_Slice]; among records of one clock any order may come, which the
    outputs do not show.  The tour's signal handler is left out; the benchmarks perf and
    perf-persist are files [Perf] and [PerfPersist]. *)
From S2P Require Import Prelude BigEndian Float Hlc Record KnowledgeVector Conflict GoSort GoTime Search MemStore LogFrame LogStore LogReplay LogDurability StoreApi Server Crypto Json JsonText JsonCodec Wire DocDb DocDbLaws Main Replicator SyncLaws PullLoop.
Local Open Scope Z_scope.

(** A line of output: a fixed one, or a format and its arguments. *)
Inductive arg := AStr (s : string) | AInt (n : Z) | ADoc (doc : Doc) | AVal (v : option value) | ARevs (revs : list string) | AInfo (i : InfoResult)
  | ADuration (d : Duration) | AFloat (f : float).
Inductive output := Println (s : string) | Printf (format : string) (args : list arg).
(** [if err != nil { log.Fatalf(...) }] *)
Definition fatal {E A} (msg : string) (r : res E A) : res string A :=
  match r with Ok x => Ok x | Err _ => Err msg | Panic => Panic end.
Definition fatal_sync {A} (msg : string) (e : option sync_err) (x : A) : res string A :=
  match e with Some _ => Err msg | None => Ok x end.
Definition doc_of (fields : list (string * value)) : Doc := list_to_map fields.
Definition whole_range (includeDocs : bool) : DocRange := mkRange "" "" false 0 0 [] includeDocs.

(** ** basic *)
Section basic.
Variables (numCPU : nat) (now : nat -> nat -> Z).
Definition basic_doc : Doc := doc_of [(FieldID, VStr "note:hello"); ("title", VStr "Hello NellDB");
  ("content", VStr "This is a basic example of CRUD operations."); ("tags", VArr [VStr "example"; VStr "basic"])].
(** Until the listing. *)
Definition basic_edit : res string (list output * DocDB MemoryStore) :=
  let db := New (NewMemoryStore (now 0%nat 0%nat) "local-client") "local-client" "notes" in
  let docID := "note:hello" in
  let '(db, _, r) := DocDB_Put (now 1%nat) false basic_doc db in
  rev ← fatal "Put failed" r;
  doc ← fatal "Get failed" (DocDB_Get false docID db);
  let '(db, _, r) := DocDB_Put (now 2%nat) false (<["title" := VStr "Updated Title"]> doc) db in
  newRev ← fatal "Update failed" r;
  Ok ([Println "▸ Created in-memory database"; Printf "▸ Put document %q (rev: %s)" [AStr docID; AStr rev];
       Printf "▸ Retrieved document: %v" [ADoc doc]; Printf "▸ Updated document %q (new rev: %s)" [AStr docID; AStr newRev]], db).
Definition basic_row (row : DocRow) : output := Printf "  - %s: %v" [AStr (row_ID row); AVal (row_Doc row ≫= lookup "title")].
Definition basic_end (lines : list output) (db : DocDB MemoryStore) (result : AllDocsResult) : res string (list output) :=
  let docID := "note:hello" in
  let '(db, r) := Remove (now 3%nat) false (ById docID) db in
  _ ← fatal "Remove failed" r;
  Ok (lines ++ [Printf "▸ Found %d documents in collection 'notes':" [AInt (TotalRows result)]] ++ map basic_row (Rows result)
      ++ [Printf "▸ Removed document %q" [AStr docID]]
      ++ match DocDB_Get false docID db with Err ErrNotFound => [Println "▸ Confirmed: document is no longer available"] | _ => [] end).
Definition basic_main (out : res string (list output)) : Prop :=
  match basic_edit with
  | Ok (lines, db) => exists r, AllDocs numCPU (whole_range true) db r /\ out = (result ← fatal "AllDocs failed" r; basic_end lines db result)
  | Err e => out = Err e
  | Panic => out = Panic
  end.
End basic.

(** ** sync *)
Section sync.
Variables (url : string)
  (now : nat -> nat -> nat -> Z).
Definition sync_listing (srv : Server MemoryStore) : list NellRecord := sort_Slice clock_less (st_ListAll "sync_demo" (srv_store srv)).
Definition sync_main : res string (list output) :=
  let srv := Server_New (NewMemoryStore (now 0 0 0)%nat "hub-server") "hub-server" (Some ∅) in
  let dbA := New (NewMemoryStore (now 1 0 0)%nat "client-a") "client-a" "sync_demo" in
  let dbB := New (NewMemoryStore (now 2 0 0)%nat "client-b") "client-b" "sync_demo" in
  let '(dbA, _, r) := DocDB_Put (now 3 0)%nat false
    (doc_of [(FieldID, VStr "shared:doc"); ("owner", VStr "client-a"); ("text", VStr "Sync is powerful")]) dbA in
  _ ← fatal "" r;
  let '(srv, (dbA, pushed, e)) := push_to (now 4 0)%nat srv dbA in
  _ ← fatal_sync "Push A failed" e tt;
  let '(dbB, pulled, e) := pull_from (now 5)%nat (sync_listing srv) srv dbB in
  _ ← fatal_sync "Pull B failed" e tt;
  doc ← fatal "Client B failed to find synced document" (DocDB_Get false "shared:doc" dbB);
  let '(dbB, _, _) := DocDB_Put (now 6 0)%nat false (<["text" := VStr "Updated by Client B"]> doc) dbB in
  let '(srv, (dbB, _, _)) := push_to (now 7 0)%nat srv dbB in
  let '(dbA, _, _) := pull_from (now 8)%nat (sync_listing srv) srv dbA in
  let docA := match DocDB_Get false "shared:doc" dbA with Ok doc => doc | _ => ∅ end in
  Ok [Printf "▸ Server started at %s" [AStr url]; Println "▸ Client A: Writing document...";
      Println "▸ Client A: Pushing changes to server (Binary Protocol)..."; Printf "  Pushed %d documents" [AInt pushed];
      Println "▸ Client B: Pulling changes from server (Binary Protocol)..."; Printf "  Pulled %d documents" [AInt (Z.of_nat pulled)];
      Printf "▸ Client B: Successfully received synced document: %v" [ADoc doc]; Println "";
      Println "▸ Demonstrating Conflict Resolution (Client B updates document)...";
      Println "▸ Client A: Pulling update from Client B..."; Printf "  Client A now sees: %v" [AVal (docA !! "text")]].
End sync.

(** ** persistence *)
Section persistence.
Context `{Zstd}.
Variables (numCPU : nat) (now : nat -> nat -> Z).
Definition persistence_doc : Doc := doc_of [(FieldID, VStr "doc:1"); ("message", VStr "This data is durable")].
Definition persistence_db (store : LogStore) : DocDB LogStore := New store "persistent-node" "persistent_collection".
(** The log is new; what [OpenLog] gives each time is one of its outcomes. *)
Definition persistence_write (store : LogStore) : res string LogStore :=
  let '(db, _, r) := DocDB_Put (now 1%nat) false persistence_doc (persistence_db store) in
  _ ← fatal "Put" r;
  Ok (fst (LogStore_Close (db_store db))).
Definition persistence_banner : list output :=
  [Printf "▸ Initializing persistent LogStore at %s" [AStr "example_persistent.db"]; Println "▸ Data written and flushed to disk";
   Println "▸ Store closed (simulated restart)"; Println "▸ Re-opening store and replaying log..."].
Definition persistence_read (store : LogStore) : res string (list output) :=
  let db := persistence_db store in
  doc ← fatal "Failed to retrieve data after restart" (DocDB_Get false "doc:1" db);
  Ok (persistence_banner ++ [Printf "▸ Successfully recovered document: %v" [ADoc doc]; Printf "▸ Final DB Info: %+v" [AInfo (Info (now 3%nat 0%nat) db)]]).
Definition persistence_main (out : res string (list output)) : Prop :=
  exists r, OpenLogWithOptions numCPU (now 0%nat 0%nat) "persistent-node" 0 [] r /\
  match fatal "Failed to open LogStore" r ≫= persistence_write with
  | Ok closed => exists r2, OpenLogWithOptions numCPU (now 2%nat 0%nat) "persistent-node" 0 (f_data (ls_file closed)) r2 /\
      out = fatal "Failed to re-open" r2 ≫= persistence_read
  | Err e => out = Err e
  | Panic => out = Panic
  end.
End persistence.

(** ** vector *)
Section vector.
Variables (numCPU : nat) (now : nat -> nat -> Z).
(** The float32 bits of 0, 0.1, 0.2, 0.3, 0.8, 0.9 and 1. *)
Definition f0 : Z := 0.
Definition f01 : Z := 1036831949.
Definition f02 : Z := 1045220557.
Definition f03 : Z := 1050253722.
Definition f08 : Z := 1061997773.
Definition f09 : Z := 1063675494.
Definition f1 : Z := 1065353216.
Definition vector_doc (id name category : string) (v : list Z) : Doc :=
  doc_of [(FieldID, VStr id); (FieldType, VStr TypeVector); ("name", VStr name); ("category", VStr category); (FieldVector, VF32s v)].
Definition vector_docs : gmap nat Doc := list_to_map (zip (seq 0 5)
  [vector_doc "doc:apple" "Apple" "fruit" [f09; f01; f01]; vector_doc "doc:banana" "Banana" "fruit" [f08; f02; f01];
   vector_doc "doc:dog" "Dog" "animal" [f01; f09; f02]; vector_doc "doc:cat" "Cat" "animal" [f01; f08; f03];
   vector_doc "doc:car" "Car" "vehicle" [f0; f01; f09]]).
Definition vector_insert : res string (DocDB MemoryStore) :=
  let db := New (NewMemoryStore (now 0%nat 0%nat) "vector-node") "vector-node" "embeddings" in
  let '(db, _, r) := PutMany (fun i => now (1 + i)%nat) (fun _ => false) (seq 0 5) vector_docs db in
  _ ← fatal "PutMany failed" r; Ok db.
Definition vector_line (i : nat) (res : Doc) : output := Printf "  %d. %s (%s)" [AInt (Z.of_nat i + 1); AVal (res !! "name"); AVal (res !! "category")].
Definition vector_main (out : res string (list output)) : Prop :=
  match vector_insert with
  | Ok db => exists fruits animals, DocDB_SearchSimilar numCPU [f1; f0; f0] 2 db fruits /\ DocDB_SearchSimilar numCPU [f0; f1; f0] 2 db animals /\
      out = Ok ([Println "▸ Initializing vector database"; Printf "▸ Inserted %d vector documents" [AInt 5]; Println "";
                 Println "▸ Searching for vector similar to [1.0, 0.0, 0.0] (expected: fruits)"] ++ imap vector_line fruits ++
                [Println ""; Println "▸ Searching for vector similar to [0.0, 1.0, 0.0] (expected: animals)"] ++ imap vector_line animals)
  | Err e => out = Err e
  | Panic => out = Panic
  end.
End vector.

(** ** tour *)
Section tour.
Variables (numCPU : nat) (now : nat -> nat -> nat -> Z).
Definition tour_title (id title : string) : Doc := doc_of [(FieldID, VStr id); ("title", VStr title)].
(** Up to the range scan. *)
Definition tour_edit : res string (list output * DocDB MemoryStore) :=
  let db := New (NewMemoryStore (now 0 0 0)%nat "example-node") "example-node" DefaultCollection in
  let info := Info (now 1 0 0)%nat db in
  let '(db, _, r) := DocDB_Put (now 2 0)%nat false
    (doc_of [(FieldID, VStr "note:1"); ("title", VStr "First note"); ("body", VStr "Hello, world."); ("tags", VArr [VStr "intro"; VStr "demo"])]) db in
  putRev ← fatal "" r;
  let '(db, _, r) := PutMany (now 3)%nat (fun _ => false) (seq 0 3)
    (list_to_map (zip (seq 0 3) [tour_title "note:2" "Second"; tour_title "note:3" "Third"; tour_title "note:4" "Fourth"])) db in
  revs ← fatal "" r;
  got ← fatal "" (DocDB_Get false "note:1" db);
  many ← fatal "" (GetMany (fun _ => false) ["note:1"; "note:2"; "note:ghost"] db);
  let '(db, _, r) := DocDB_Put (now 4 0)%nat false (<["title" := VStr "First note (edited)"]> got) db in
  newRev ← fatal "" r;
  let '(db, _, r) := DocDB_Put (now 5 0)%nat false
    (doc_of [(FieldID, VStr "note:1"); (FieldRev, VStr putRev); ("title", VStr "Should fail")]) db in
  match r with
  | Err ErrConflict =>
      Ok ([Println "▸ opened db"; Printf "  %+v" [AInfo info]; Println ""; Printf "▸ put note:1 rev=%s" [AStr putRev];
           Printf "▸ putMany 3 docs, revs=%v" [ARevs revs]; Println ""; Printf "▸ get note:1: %v" [ADoc got];
           Printf "▸ getMany got %d of 3 ids" [AInt (Z.of_nat (size many))]; Println ""; Printf "▸ updated note:1, new rev=%s" [AStr newRev];
           Println "▸ stale rev correctly produced ErrConflict"], db)
  | _ => Err "expected ErrConflict, got %v"
  end.
Definition tour_range : DocRange := mkRange "note:" (String.append "note:" (bytes_str (EncodeRune 65520))) true 0 0 [] true.
Definition tour_row (row : DocRow) : output := Printf "  %s rev=%s" [AStr (row_ID row); AStr (row_Rev row)].
(** What the feed's goroutine prints, in its own time. *)
Definition tour_change (c : Change) : output := Printf "  [change] %s rev=%s deleted=%v" [AStr (ch_ID c); AStr (ch_Rev c); AVal (Some (VBool (ch_Deleted c)))].
(** The replication, when a server is given. *)
Definition tour_replicate (url : string) (srv : Server MemoryStore) (db : DocDB MemoryStore) : res string (list output * DocDB MemoryStore) :=
  let listing (srv : Server MemoryStore) := sort_Slice clock_less (st_ListAll DefaultCollection (srv_store srv)) in
  let '(srv, (db, pushed, e)) := push_to (now 8 0)%nat srv db in
  _ ← fatal_sync "" e tt;
  let '(db, pulled, e) := pull_from (now 9)%nat (listing srv) srv db in
  _ ← fatal_sync "" e tt;
  let db2 := New (NewMemoryStore (now 10 0 0)%nat "example-client-2") "example-client-2" DefaultCollection in
  let '(db2, pulled2, e) := pull_from (now 11)%nat (listing srv) srv db2 in
  _ ← fatal_sync "" e tt;
  Ok ([Println ""; Printf "▸ replicating to %s" [AStr url]; Printf "  pushed=%d pulled=%d" [AInt pushed; AInt (Z.of_nat pulled)];
       Println ""; Println "▸ opening a second client to verify the round-trip"; Printf "  pulled=%d" [AInt (Z.of_nat pulled2)];
       Printf "  client-2 info: %+v" [AInfo (Info (now 12 0 0)%nat db2)]], db).
(** The feed: a document put and removed while it listens. *)
Definition tour_feed (db : DocDB MemoryStore) : DocDB MemoryStore * list Change :=
  let '(hub, sub) := subscribe (db_subs db) in
  let db := mkDocDB (db_store db) (db_nodeID db) (db_collection db) (db_revs db) (db_vector db) (db_lastSeenClock db) hub in
  let '(db, _, _) := DocDB_Put (now 6 0)%nat false (tour_title "note:5" "Live update") db in
  let '(db, _) := Remove (now 7 0)%nat false (ById "note:5") db in
  (db, default [] (hub_subs (db_subs db) !! sub)).
(** The output of [main] and that of the feed. *)
Definition tour_end (serverURL : option (string * Server MemoryStore)) (lines : list output) (db : DocDB MemoryStore) (rows : AllDocsResult)
    : res string (list output * list output) :=
  let '(db, changes) := tour_feed db in
  '(lines2, db) ← match serverURL with
                  | Some (url, srv) => tour_replicate url srv db
                  | None => Ok ([Println ""; Println "▸ skipping replication (pass --server to enable)"], db)
                  end;
  Ok (lines ++ [Printf "▸ allDocs prefix 'note:' returned %d rows" [AInt (len (Rows rows))]] ++ map tour_row (Rows rows) ++ [Println ""] ++ lines2
      ++ [Println ""; Println "▸ final state:"; Printf "  %+v" [AInfo (Info (now 13 0 0)%nat db)]], map tour_change changes).
Definition tour_main (serverURL : option (string * Server MemoryStore)) (out : res string (list output * list output)) : Prop :=
  match tour_edit with
  | Ok (lines, db) => exists r, AllDocs numCPU tour_range db r /\ out = (rows ← fatal "" r; tour_end serverURL lines db rows)
  | Err e => out = Err e
  | Panic => out = Panic
  end.
End tour.

(** ** sync-bench *)
Section sync_bench.
Context `{Zstd}.
(** The program has [count] at 100000. *)
Variables (numCPU count : nat) (url : string) (now : nat -> nat -> nat -> Z).
(** [fmt.Sprintf("doc:%07d", i)] *)
Definition bench_id (i : nat) : string :=
  let digits := format_int (Z.of_nat i) in String.append "doc:" (bytes_str (replicate (7 - length digits) (digit_char 0) ++ digits)).
Definition bench_record (clock : HLC) (i : nat) : NellRecord :=
  let id := bench_id i in
  let q := to_byte 34 in
  mkRecord "benchmark" id TypeText
    (str_bytes "{" ++ q :: str_bytes "_id" ++ q :: str_bytes ":" ++ q :: str_bytes id ++ q :: str_bytes "," ++ q :: str_bytes "val" ++
     q :: str_bytes ":" ++ format_int (Z.of_nat i) ++ str_bytes "," ++ q :: str_bytes "payload" ++ q :: str_bytes ":" ++
     q :: str_bytes "some-data" ++ q :: str_bytes "}")
    [] (mkHLC (wrap_s 64 (WallTime clock + Z.of_nat i)) 0) "server-node" false.
Fixpoint bench_populate (is_ : list nat) (clock : HLC) (serverStore : LogStore) : res string LogStore :=
  match is_ with
  | [] => Ok serverStore
  | i :: is_ =>
      match st_Put (bench_record clock i) serverStore with
      | (serverStore, Some _) => bench_populate is_ clock serverStore
      | (_, None) => Err "Server populate failed at %d: %v"
      end
  end.
Definition bench_MiB (store : LogStore) : float :=
  f64_div (f64_div (f64_of_int (len (f_data (ls_file store)))) (f64_of_int 1024)) (f64_of_int 1024).
Definition bench_report (start stop : Time) (serverStore clientStore : LogStore) (totalIngested : Z) : list output :=
  let elapsed := Sub stop start in
  [Printf "▸ Setting up server with %d records..." [AInt (Z.of_nat count)];
   Printf "  Server store has %d records" [AInt (len (st_List "benchmark" serverStore))];
   Printf "  Server ready at %s" [AStr url]; Println "";
   Printf "▸ Starting Binary Sync Benchmark (Pulling %d rows)..." [AInt (Z.of_nat count)]; Println "";
   Println "▸ Binary Sync Complete"; Printf "  Total Time:     %v" [ADuration elapsed];
   Printf "  Throughput:     %.1f docs/s" [AFloat (f64_div (f64_of_int totalIngested) (Seconds elapsed))];
   Printf "  Server DB Size: %.2f MiB" [AFloat (bench_MiB serverStore)]; Printf "  Client DB Size: %.2f MiB" [AFloat (bench_MiB clientStore)]].
Definition bench_pull (serverStore clientStore : LogStore) (out : res string (list output)) : Prop :=
  let srv := Server_New serverStore "server-node" (Some (st_KnowledgeVector serverStore)) in
  let clientDB := New clientStore "client-node" "benchmark" in
  let all := sort_Slice clock_less (st_ListAll "benchmark" (srv_store srv)) in
  exists fuel clientDB' total, pull_all fuel 0 (fun j => now (6 + j)%nat) (fun _ => all) srv clientDB 0 = Some (clientDB', total) /\
    out = (total ← total; Ok (bench_report (now 3 0 0)%nat (now 4 0 0)%nat (srv_store srv) (db_store clientDB') total)).
Definition bench_main (out : res string (list output)) : Prop :=
  exists r, OpenLogWithOptions numCPU (now 0 0 0)%nat "server-node" 0 [] r /\
  match fatal "" r ≫= bench_populate (seq 0 count) (NewHLC (now 1 0 0)%nat) with
  | Ok serverStore =>
      exists r2, OpenLogWithOptions numCPU (now 2 0 0)%nat "client-node" 0 [] r2 /\
      match fatal "" r2 with
      | Ok clientStore => bench_pull serverStore clientStore out
      | Err e => out = Err e
      | Panic => out = Panic
      end
  | Err e => out = Err e
  | Panic => out = Panic
  end.
End sync_bench.

(** ** What they print *)

Lemma opens_empty `{Zstd} numCPU t node fi out : OpenLogWithOptions numCPU t node fi [] out <-> out = Ok (new_log t node fi []).
Proof.
  unfold OpenLogWithOptions, LogStore_replay. cbn [f_data ls_file new_log]. change (bool_decide ([] = [])) with true. cbn [orb].
  split; [by intros (r & s & [= -> ->] & ->)|intros ->; by eexists _, _].
Qed.

Definition persistence_key : string := record_key "persistent_collection" "doc:1".
Lemma persistence_db_fields (s : LogStore) `{Zstd} : db_store (persistence_db s) = s /\ db_collection (persistence_db s) = "persistent_collection" /\
  db_nodeID (persistence_db s) = "persistent-node".
Proof.
  destruct (New_fields s "persistent-node" "persistent_collection") as (H1 & H2 & _). unfold persistence_db. rewrite H1, H2. split_and!; [done..|].
  unfold New, reindex. by destruct (readMetaVector _).
Qed.
(** What the first run leaves on the disk. *)
Lemma persistence_write_law `{ZstdLaws} now : let l0 := new_log (now 0%nat 0%nat) "persistent-node" 0 [] in
  write_ok (now 1%nat) persistence_doc (persistence_db l0) ->
  exists l1 rs rec, persistence_write now l0 = Ok l1 /\ log_file rs (f_data (ls_file l1)) /\
    merge ∅ rs !! persistence_key = Some rec /\ Deleted rec = false /\
    joinDoc "doc:1" rec !! FieldID = Some (VStr "doc:1") /\ joinDoc "doc:1" rec !! "message" = Some (VStr "This data is durable").
Proof.
  intros l0 Hw. destruct (persistence_db_fields l0) as (Hst & Hcol & Hno). set (db := persistence_db l0) in *.
  assert (db_inv db) as Hi by (unfold db_inv; rewrite Hst; exists []; apply new_log_inv).
  assert (put_check persistence_doc db = Ok ("doc:1", "")) as Hchk by reflexivity.
  assert (json_object (splitDoc persistence_doc)) as Hj by (apply (bool_decide_unpack (json_object _)); vm_compute; exact I).
  destruct (put_payload_ok persistence_doc "" Hj) as (raw & final & _ & Hp & Hne & Hu).
  destruct (put_commit_law (now 1%nat) persistence_doc "doc:1" "" (genRev "" raw) final db Hi) as (d' & Hput & [rs I'] & Hrec & _);
    [by rewrite Hcol|done|done|exact (Hw _ _ _ _ Hchk Hp)|].
  destruct (joinDoc_stored (now 1%nat) persistence_doc "doc:1" (genRev "" raw) final db Hu Hne) as (J1 & _ & J3 & _).
  pose proof (log_close _ _ I') as Hc. eexists _, rs, _. split; [|split; [|split; [|split; [|split]]]].
  - unfold persistence_write. fold db. unfold DocDB_Put. rewrite Hchk, Hput. reflexivity.
  - destruct (LogStore_Close (db_store d')) as [l1 e]. cbn [fst]. apply Hc.
  - rewrite (li_records _ _ I'). unfold db_records, db_key in Hrec. rewrite Hcol in Hrec. exact Hrec.
  - reflexivity.
  - exact J1.
  - rewrite J3; [reflexivity|]. apply (bool_decide_unpack (_ ∉ _)). vm_compute. exact I.
Qed.
Lemma persistence_read_law `{Zstd} now (l : LogStore) rec : ls_records l !! persistence_key = Some rec -> Deleted rec = false ->
  exists info, persistence_read now l = Ok (persistence_banner ++ [Printf "▸ Successfully recovered document: %v" [ADoc (joinDoc "doc:1" rec)]; Printf "▸ Final DB Info: %+v" [AInfo info]]) /\
    info_NodeID info = "persistent-node".
Proof.
  intros Hr Hd. destruct (persistence_db_fields l) as (Hst & Hcol & Hno). unfold persistence_read.
  rewrite DocDB_Get_law. unfold db_records, db_key. rewrite Hst, Hcol. unfold persistence_key in Hr. cbn [st_records log_StoreOps].
  change (or_default "persistent_collection") with "persistent_collection". rewrite Hr, Hd. cbn [fatal mbind res_bind].
  eexists. split; [reflexivity|]. exact Hno.
Qed.

(** The persistence example recovers what it wrote: however the two openings of the log are
    scheduled, if its one write has room, the program runs to its end, and the document it
    prints after the restart has the id and the message that were put. *)
Theorem persistence_recovers `{ZstdLaws} numCPU now :
  (0 < numCPU)%nat ->
  write_ok (now 1%nat) persistence_doc (persistence_db (new_log (now 0%nat 0%nat) "persistent-node" 0 [])) ->
  (exists out, persistence_main numCPU now out) /\
  forall out, persistence_main numCPU now out -> exists doc info,
    out = Ok (persistence_banner ++ [Printf "▸ Successfully recovered document: %v" [ADoc doc]; Printf "▸ Final DB Info: %+v" [AInfo info]]) /\
    doc !! FieldID = Some (VStr "doc:1") /\ doc !! "message" = Some (VStr "This data is durable") /\
    info_NodeID info = "persistent-node".
Proof.
  intros Hn Hw. destruct (persistence_write_law now Hw) as (l1 & rs & rec & Hwr & Hf & Hm & Hd & J1 & J2).
  destruct (log_file_opens numCPU (now 2%nat 0%nat) "persistent-node" 0 rs _ Hn Hf) as [[o Ho] Hall].
  split.
  - eexists _, _. split; [by apply opens_empty|]. cbn [fatal mbind res_bind]. rewrite Hwr. exists o. split; [exact Ho|reflexivity].
  - intros out (r & ->%opens_empty & Hout). cbn [fatal mbind res_bind] in Hout. rewrite Hwr in Hout.
    destruct Hout as (r2 & Hr2 & ->). destruct (Hall r2 Hr2) as (l2 & -> & Hl2 & _). cbn [fatal mbind res_bind].
    destruct (persistence_read_law now l2 rec) as (info & -> & Hno); [by rewrite Hl2|done|]. exists (joinDoc "doc:1" rec), info. by split_and!.
Qed.
Definition example_times (i n : nat) : Z := 1000 * Z.of_nat i + Z.of_nat n + 5.
Lemma persistence_recovers_witness : exists out doc info,
  persistence_main 4 example_times out /\
  out = Ok (persistence_banner ++ [Printf "▸ Successfully recovered document: %v" [ADoc doc]; Printf "▸ Final DB Info: %+v" [AInfo info]]) /\
  doc !! "message" = Some (VStr "This data is durable").
Proof.
  destruct (persistence_recovers 4 example_times) as [[out Ho] Hall].
  - lia.
  - intros id base newRev final Hc Hp. vm_compute in Hc. injection Hc as <- <-. vm_compute in Hp. injection Hp as <- <-. split_and!.
    + split; apply (bool_decide_unpack _); vm_compute; exact I.
    + intros existing He. vm_compute in He. discriminate He.
    + intros _. split; apply (bool_decide_unpack _); vm_compute; exact I.
  - destruct (Hall out Ho) as (doc & info & He & _ & Hm & _). exists out, doc, info. split; [exact Ho|]. split; [exact He|exact Hm].
Defined.

(** The sync example: one document pushed, one pulled, and the second client's update comes
    back to the first. *)
Definition sync_times (i j n : nat) : Z := 1000 * Z.of_nat i + 10 * Z.of_nat j + Z.of_nat n + 5.
Lemma sync_main_output : exists lines doc, sync_main "http://127.0.0.1:8080" sync_times = Ok lines /\
  lines !! 3%nat = Some (Printf "  Pushed %d documents" [AInt 1]) /\ lines !! 5%nat = Some (Printf "  Pulled %d documents" [AInt 1]) /\
  lines !! 6%nat = Some (Printf "▸ Client B: Successfully received synced document: %v" [ADoc doc]) /\
  lines !! 10%nat = Some (Printf "  Client A now sees: %v" [AVal (Some (VStr "Updated by Client B"))]) /\ doc !! "text" = Some (VStr "Sync is powerful").
Proof. eexists _, _. split; [vm_compute; reflexivity|]. repeat split; vm_compute; reflexivity. Qed.

(** The vector example, whatever the order of the map and the workers: the fruits answer
    the first query, the animals the second. *)
Definition vector_answer (db : DocDB MemoryStore) (q : list Z) (limit : Z) : list Doc :=
  map (fun rec => match db_revs db !! ID rec with
                  | Some rev => <[FieldRev := VStr rev]> (joinDoc (ID rec) rec)
                  | None => joinDoc (ID rec) rec
                  end) (top_k (ms_candidates (db_collection db) (ms_records (db_store db))) q limit).
Lemma vector_search (db : DocDB MemoryStore) numCPU q limit docs : (0 < numCPU)%nat -> 0 < limit -> keyed (ms_records (db_store db)) ->
  scores_ok (score_chunk q (ms_candidates (db_collection db) (ms_records (db_store db)))) ->
  DocDB_SearchSimilar numCPU q limit db docs -> docs = vector_answer db q limit.
Proof.
  intros Hn Hl Hk Hs [records Hr]. unfold vector_answer. f_equal. rewrite (proj2 (Z.leb_gt _ _) Hl) in Hr.
  by apply (search_top_k_records numCPU) in Hr.
Qed.
Definition vector_db : DocDB MemoryStore :=
  match vector_insert example_times with Ok db => db | _ => New (NewMemoryStore 0 "") "" "" end.
Lemma vector_main_output numCPU out : (0 < numCPU)%nat -> vector_main numCPU example_times out ->
  out = Ok [Println "▸ Initializing vector database"; Printf "▸ Inserted %d vector documents" [AInt 5]; Println "";
            Println "▸ Searching for vector similar to [1.0, 0.0, 0.0] (expected: fruits)";
            Printf "  %d. %s (%s)" [AInt 1; AVal (Some (VStr "Apple")); AVal (Some (VStr "fruit"))];
            Printf "  %d. %s (%s)" [AInt 2; AVal (Some (VStr "Banana")); AVal (Some (VStr "fruit"))];
            Println ""; Println "▸ Searching for vector similar to [0.0, 1.0, 0.0] (expected: animals)";
            Printf "  %d. %s (%s)" [AInt 1; AVal (Some (VStr "Dog")); AVal (Some (VStr "animal"))];
            Printf "  %d. %s (%s)" [AInt 2; AVal (Some (VStr "Cat")); AVal (Some (VStr "animal"))]].
Proof.
  intros Hn. unfold vector_main. assert (vector_insert example_times = Ok vector_db) as -> by (vm_compute; reflexivity).
  intros (fruits & animals & Hf & Ha & ->).
  assert (keyed (ms_records (db_store vector_db))) as Hk
    by (apply (bool_decide_unpack (map_Forall (fun k r => rkey r = k) _)); vm_compute; exact I).
  apply vector_search in Hf as ->; [|done|done|done|apply (bool_decide_unpack (Forall _ _)); vm_compute; exact I].
  apply vector_search in Ha as ->; [|done|done|done|apply (bool_decide_unpack (Forall _ _)); vm_compute; exact I].
  vm_compute. reflexivity.
Qed.

(** The basic example finds two documents, its own and the SDK's [meta:vector], in either
    order. *)
Definition basic_db : DocDB MemoryStore := match basic_edit example_times with Ok (_, db) => db | _ => New (NewMemoryStore 0 "") "" "" end.
Definition basic_removed : DocDB MemoryStore * res doc_err string := Remove (example_times 3) false (ById "note:hello") basic_db.
Definition basic_rows : list DocRow := omap (range_row (whole_range true) basic_db) (st_List (db_collection basic_db) (db_store basic_db)).
Lemma basic_removed_ok : match basic_removed with (_, Ok _) => true | _ => false end = true.
Proof. vm_compute. reflexivity. Qed.
Lemma basic_removed_gone : DocDB_Get false "note:hello" (fst basic_removed) = Err ErrNotFound.
Proof. vm_compute. reflexivity. Qed.
Lemma basic_rows_printed : map basic_row basic_rows = [Printf "  - %s: %v" [AStr "meta:vector"; AVal None]; Printf "  - %s: %v" [AStr "note:hello"; AVal (Some (VStr "Updated Title"))]].
Proof. vm_compute. reflexivity. Qed.
Lemma basic_main_output numCPU out : (0 < numCPU)%nat -> basic_main numCPU example_times out -> exists lines,
  out = Ok lines /\ Printf "▸ Found %d documents in collection 'notes':" [AInt 2] ∈ lines /\
  Printf "  - %s: %v" [AStr "note:hello"; AVal (Some (VStr "Updated Title"))] ∈ lines /\
  Printf "  - %s: %v" [AStr "meta:vector"; AVal None] ∈ lines /\ Println "▸ Confirmed: document is no longer available" ∈ lines.
Proof.
  intros Hn. unfold basic_main. destruct (basic_edit example_times) as [[lines db]|e|] eqn:Hdb; [|vm_compute in Hdb; discriminate Hdb..].
  assert (db = basic_db) as -> by (unfold basic_db; by rewrite Hdb).
  intros (r & Hr & ->). destruct (AllDocs_rows numCPU (whole_range true) basic_db r Hn eq_refl Hr) as (rows & Hp & ->).
  assert (map basic_row rows ≡ₚ map basic_row basic_rows) as Hm by (by apply Permutation_map).
  rewrite basic_rows_printed in Hm. assert (len rows = 2) as Hl by (unfold len; by rewrite <-(length_map basic_row), (Permutation_length Hm)).
  cbn [fatal mbind res_bind Skip Limit whole_range]. change (page 0 0 rows) with rows.
  pose proof basic_removed_ok as Ho. pose proof basic_removed_gone as Hg.
  unfold basic_end. fold basic_removed. destruct basic_removed as [db' [rev|e|]]; [|discriminate Ho..].
  cbn [fst] in Hg. cbn [fatal mbind res_bind]. rewrite Hg. cbn [TotalRows Rows]. rewrite Hl.
  eexists. split; [reflexivity|]. rewrite !elem_of_app, Hm, !elem_of_cons.
  repeat split; [right; left; left; reflexivity|do 2 right; left; right; left; reflexivity|do 2 right; left; left; reflexivity|do 4 right; left; reflexivity].
Qed.

(** The tour without a server: the scan prints its four documents, in some order, and the
    feed the two changes of [note:5]. *)
Definition tour_state : list output * DocDB MemoryStore :=
  match tour_edit sync_times with Ok p => p | _ => ([], New (NewMemoryStore 0 "") "" "") end.
Definition tour_rows : list DocRow := omap (range_row tour_range tour_state.2) (st_List DefaultCollection (db_store tour_state.2)).
Lemma tour_edit_ok : match tour_edit sync_times with Ok _ => true | _ => false end = true.
Proof. vm_compute. reflexivity. Qed.
Lemma tour_collection : db_collection tour_state.2 = DefaultCollection.
Proof. vm_compute. reflexivity. Qed.
Lemma tour_rows_ids : map row_ID tour_rows = ["note:3"; "note:1"; "note:2"; "note:4"].
Proof. vm_compute. reflexivity. Qed.
Lemma tour_feed_changes : map (fun c => (ch_ID c, ch_Deleted c)) (tour_feed sync_times tour_state.2).2 = [("note:5", false); ("note:5", true)].
Proof. vm_compute. reflexivity. Qed.
Lemma tour_main_output numCPU out : (0 < numCPU)%nat -> tour_main numCPU sync_times None out -> exists lines rows rev1 rev2,
  out = Ok (tour_state.1 ++ [Printf "▸ allDocs prefix 'note:' returned %d rows" [AInt 4]] ++ map tour_row rows ++ lines,
            [Printf "  [change] %s rev=%s deleted=%v" [AStr "note:5"; AStr rev1; AVal (Some (VBool false))];
             Printf "  [change] %s rev=%s deleted=%v" [AStr "note:5"; AStr rev2; AVal (Some (VBool true))]]) /\
  map row_ID rows ≡ₚ ["note:1"; "note:2"; "note:3"; "note:4"].
Proof.
  intros Hn. pose proof tour_edit_ok as He. pose proof tour_collection as Hcol. pose proof tour_rows_ids as Hids. pose proof tour_feed_changes as Hf.
  unfold tour_main. unfold tour_rows in Hids. unfold tour_state in *. destruct (tour_edit sync_times) as [[lines db]|e|]; [|discriminate He..].
  cbn [fst snd] in *. intros (r & Hr & ->).
  destruct (AllDocs_rows numCPU tour_range db r Hn eq_refl Hr) as (rows & Hp & ->). rewrite Hcol in Hp.
  cbn [fatal mbind res_bind Skip Limit tour_range]. change (page 0 0 rows) with rows.
  assert (map row_ID rows ≡ₚ ["note:1"; "note:2"; "note:3"; "note:4"]) as Hm.
  { rewrite (Permutation_map row_ID Hp), Hids. apply (bool_decide_unpack (_ ≡ₚ _)). vm_compute. exact I. }
  assert (len rows = 4) as Hl by (unfold len; by rewrite <-(length_map row_ID), (Permutation_length Hm)).
  unfold tour_end. destruct (tour_feed sync_times db) as [db' changes]. cbn [snd] in Hf.
  destruct changes as [|c1 [|c2 [|? ?]]]; try discriminate Hf. injection Hf as E1 E2 E3 E4.
  cbn [mbind res_bind Rows map]. unfold tour_change. rewrite Hl, E1, E2, E3, E4. eexists _, rows, _, _. by split.
Qed.

(** The benchmark at two documents: two pulls, which bring both. *)
Definition bench_server : LogStore := match bench_populate (seq 0 2) (NewHLC (sync_times 1 0 0)) (new_log (sync_times 0 0 0) "server-node" 0 []) with Ok s => s | _ => new_log 0 "" 0 [] end.
Definition bench_run : option (DocDB LogStore * res string Z) :=
  pull_all 2 0 (fun j => sync_times (6 + j)) (fun _ => sort_Slice clock_less (st_ListAll "benchmark" bench_server))
    (Server_New bench_server "server-node" (Some (st_KnowledgeVector bench_server)))
    (New (new_log (sync_times 2 0 0) "client-node" 0 []) "client-node" "benchmark") 0.
Lemma bench_populate_ok : match bench_populate (seq 0 2) (NewHLC (sync_times 1 0 0)) (new_log (sync_times 0 0 0) "server-node" 0 []) with Ok _ => true | _ => false end = true.
Proof. vm_compute. reflexivity. Qed.
Lemma bench_run_total : snd <$> bench_run = Some (Ok 2).
Proof. vm_compute. reflexivity. Qed.
Lemma bench_main_output numCPU url out : bench_main numCPU 2 url sync_times out <->
  exists client, bench_run = Some (client, Ok 2) /\ out = Ok (bench_report 2 url (sync_times 3 0 0) (sync_times 4 0 0) bench_server (db_store client) 2).
Proof.
  unfold bench_main. pose proof bench_populate_ok as Hp. pose proof bench_run_total as Hr.
  destruct (bench_populate _ _ (new_log _ _ _ _)) as [srv|e|] eqn:Hs; [|discriminate Hp..].
  assert (bench_server = srv) as Hb by (unfold bench_server; by rewrite Hs).
  destruct bench_run as [[client total]|] eqn:Hrun; [|discriminate Hr]. cbn in Hr. injection Hr as ->.
  assert (forall fuel c t, pull_all fuel 0 (fun j => sync_times (6 + j)) (fun _ => sort_Slice clock_less (st_ListAll "benchmark" srv))
    (Server_New srv "server-node" (Some (st_KnowledgeVector srv))) (New (new_log (sync_times 2 0 0) "client-node" 0 []) "client-node" "benchmark") 0 =
    Some (c, t) -> c = client /\ t = Ok 2) as Hdet.
  { intros fuel c t Hf. unfold bench_run in Hrun. rewrite Hb in Hrun.
    eapply (pull_all_more _ _ _ (max fuel 2)) in Hf; [|lia]. eapply (pull_all_more _ _ _ (max fuel 2)) in Hrun; [|lia].
    rewrite Hrun in Hf. injection Hf as <- <-. by split. }
  split.
  - intros (r & ->%opens_empty & Hm). cbn [fatal mbind res_bind] in Hm. rewrite Hs in Hm. destruct Hm as (r2 & ->%opens_empty & Hm).
    destruct Hm as (fuel & c & t & [-> ->]%Hdet & ->). exists client. rewrite Hb. by split.
  - intros (c & [= <-] & ->). exists (Ok (new_log (sync_times 0 0 0) "server-node" 0 [])). split; [by apply opens_empty|].
    cbn [fatal mbind res_bind]. rewrite Hs. exists (Ok (new_log (sync_times 2 0 0) "client-node" 0 [])). split; [by apply opens_empty|].
    exists 2%nat, client, (Ok 2). split; [|by rewrite Hb]. rewrite <-Hb. exact Hrun.
Qed.
