(* ===== verification/Perf.v ===== *)
(** * The in-memory benchmark (examples/perf/main.go)

    The program that fills a database in batches, scans a range and keeps its results:
    the loops, what they print, the JSON file of the results and the README made of it.
    Readings of the clock and of the memory are arguments: [now i n] is the [n]-th reading
    while document [i] is put, [stamp i] the one in it, [elapsed i] the time since the start
    when [i] documents are in.  What a run does to the files is the list of the files it
    writes; [can_write] is whether writing one succeeds. *)
From S2P Require Import Prelude BigEndian Float Hlc Record KnowledgeVector Conflict GoSort GoTime Search MemStore LogFrame LogStore LogReplay LogDurability StoreApi Server Crypto Strconv Json JsonText JsonCodec JsonRecord Wire DocDb DocDbLaws Main GoFormat Examples.
Local Open Scope Z_scope.

(** ** Filling *)

Section filling.
Context {St : Type} `{StoreOps St}.
Variables (count batchSize : nat) (stamp : nat -> Z) (now : nat -> nat -> Z) (elapsed : nat -> Duration).

Definition perf_id (i : nat) : string := bytes_str (str_bytes "doc:" ++ pad_int 7 (Z.of_nat i)).
Definition perf_doc (i : nat) : Doc :=
  doc_of [(FieldID, VStr (perf_id i)); ("payload", VStr "some-random-data-to-fill-space-a-bit"); ("index", VInt (Z.of_nat i)); ("timestamp", VInt (stamp i))].
(** The line printed when [n] documents are in. *)
Definition perf_progress (n : nat) : list output :=
  if (Z.of_nat n mod 100000 =? 0)
  then [Printf "  Progress: %d/%d (%.1f ops/s)" [AInt (Z.of_nat n); AInt (Z.of_nat count); AFloat (f64_div (f64_of_int (Z.of_nat n)) (Seconds (elapsed n)))]]
  else [].
(** The loop over the batches' first documents. *)
Fixpoint perf_fill (starts : list nat) (lines : list output) (db : DocDB St) : res string (list output * DocDB St) :=
  match starts with
  | [] => Ok (lines, db)
  | i :: starts =>
      let batch := map (fun j => perf_doc (i + j)) (seq 0 batchSize) in
      let '(db, _, r) := PutMany (fun j => now (i + j)%nat) (fun _ => false) (seq 0 batchSize) (list_to_map (zip (seq 0 batchSize) batch)) db in
      _ ← fatal "PutMany failed at i=%d: %v" r;
      perf_fill starts (lines ++ perf_progress (i + batchSize)) db
  end.
(** [for i := 0; i < count; i += batchSize] *)
Definition perf_starts : list nat := map (fun k => k * batchSize)%nat (seq 0 ((count + batchSize - 1) / batchSize)).
End filling.

(** [memAfter.Alloc - memBefore.Alloc], of uint64s: as it is printed, and as it is kept. *)
Definition mem_printed (memBefore memAfter : Z) : Z := (memAfter - memBefore) mod 2 ^ 64 / 1024 / 1024.
Definition mem_kept (memBefore memAfter : Z) : Z := Z.quot (wrap_s 64 (memAfter - memBefore)) (1024 * 1024).

(** ** The files *)

(** [os.ReadFile] *)
Inductive file_read := FileData (b : bytes) | FileMissing | FileError.
Inductive save_err := ErrMarshalResults | ErrWriteFile.
(** Files written, by their paths. *)
Abbreviation files := (list (string * bytes)).
Definition write_file (can_write : string -> bool) (path : string) (data : bytes) : files * option save_err :=
  if can_write path then ([(path, data)], None) else ([], Some ErrWriteFile).
Definition and_then (first second : files * option save_err) : files * option save_err :=
  match first with (fs, None) => (fs ++ second.1, second.2) | _ => first end.
Definition newline : string := String (to_byte 10) "".
(** [strings.TrimSpace(s) + "\n"], of a text that neither starts nor ends with space
    other than ASCII. *)
Definition trim_line (b : bytes) : bytes := rev (skip_space (rev (skip_space b))) ++ [to_byte 10].
Definition text_of (lines : list string) : bytes := concat (map (fun l => str_bytes l ++ [to_byte 10]) lines).
Definition cells (l : list string) : string := String.append "| " (String.append (String.concat " | " l) " |").
Definition show_int (n : Z) : string := bytes_str (format_int n).
Definition str (l : list string) : string := String.concat "" l.

(** What a run reads of its surroundings. *)
Record readings := mkReadings {
  rd_open : Z; rd_stamp : nat -> Z; rd_now : nat -> nat -> Z; rd_elapsed : nat -> Duration; rd_writeTime : Duration;
  rd_reopen : Z; rd_recoveryTime : Duration; rd_scanTime : Duration; rd_date : Time; rd_memBefore : Z; rd_memAfter : Z; rd_goVersion : string
}.
(** [float64(count)/d.Seconds()] *)
Definition per_second (count : nat) (d : Duration) : float := f64_div (f64_of_int (Z.of_nat count)) (Seconds d).
Definition decode_f64 (t : jtree) (old : float) : option float :=
  match t with JNull => Some old | JNum n => ParseFloat 53 1024 n | _ => None end.
Definition Microsecond : Z := 1000.

(** ** The program *)

Definition count : nat := Z.to_nat 1000000.
Definition batchSize : nat := Z.to_nat 1000.
(** One run. *)
Record Result := mkRun {
  Date : string; GoVersion : string; Count : Z; BatchSize : Z; WriteTime : string; Throughput : float; MemDeltaMB : Z; ScanTime : string
}.
Definition result_tree (r : Result) : option jtree :=
  throughput ← float_number 53 1024 (Throughput r);
  Some (JObj [(str_bytes "date", JStr (str_bytes (Date r))); (str_bytes "go_version", JStr (str_bytes (GoVersion r)));
    (str_bytes "count", JNum (int_number (Count r))); (str_bytes "batch_size", JNum (int_number (BatchSize r)));
    (str_bytes "write_time", JStr (str_bytes (WriteTime r))); (str_bytes "throughput_ops_per_sec", JNum throughput);
    (str_bytes "mem_delta_mb", JNum (int_number (MemDeltaMB r))); (str_bytes "scan_time_10k", JStr (str_bytes (ScanTime r)))]).
Definition result_field (k : bytes) (t : jtree) (r : Result) : option Result :=
  let 'mkRun date go count batch write thr mem scan := r in
  if is_field "date" k then (fun x => mkRun x go count batch write thr mem scan) <$> decode_string t date
  else if is_field "go_version" k then (fun x => mkRun date x count batch write thr mem scan) <$> decode_string t go
  else if is_field "count" k then (fun x => mkRun date go x batch write thr mem scan) <$> decode_int 64 t count
  else if is_field "batch_size" k then (fun x => mkRun date go count x write thr mem scan) <$> decode_int 64 t batch
  else if is_field "write_time" k then (fun x => mkRun date go count batch x thr mem scan) <$> decode_string t write
  else if is_field "throughput_ops_per_sec" k then (fun x => mkRun date go count batch write x mem scan) <$> decode_f64 t thr
  else if is_field "mem_delta_mb" k then (fun x => mkRun date go count batch write thr x scan) <$> decode_int 64 t mem
  else if is_field "scan_time_10k" k then (fun x => mkRun date go count batch write thr mem x) <$> decode_string t scan
  else Some r.
Definition result_zero : Result := mkRun "" "" 0 0 "" f_zero 0 "".

Definition resultsPath : string := "examples/perf/results.json".
(** [None]: the file cannot be read, or is not what it should be. *)
Definition loadResults (file : file_read) : option (list Result) :=
  match file with
  | FileMissing => Some []
  | FileError => None
  | FileData data => Unmarshal data ≫= decode_slice (fun t => decode_struct result_field t result_zero)
  end.
(** The template: the latest run, and a table of the others where there is more than one. *)
Definition history_row (r : Result) : string :=
  cells [Date r; WriteTime r; format_fixed 0 (Throughput r); show_int (MemDeltaMB r); ScanTime r; GoVersion r].
Definition readme (latest : Result) (history : list Result) : bytes :=
  text_of ["# In-Memory Write Benchmark"; "";
    str ["Inserts "; show_int (Z.of_nat count); " documents in batches of "; show_int (Z.of_nat batchSize); " into an in-memory"];
    "`nell.MemoryStore` via the SDK's `PutMany`.  Then runs a"; "10 000-row range scan."; ""; "Run with:"; "```";
    "go run ./examples/perf/"; "```"; ""; str ["## Latest result ("; Date latest; ")"]; ""; "| Metric | Value |"; "|--------|-------|";
    cells ["Documents"; show_int (Count latest)]; cells ["Write time"; WriteTime latest];
    str ["| Throughput | "; format_fixed 0 (Throughput latest); " ops/s |"]; str ["| Memory delta | "; show_int (MemDeltaMB latest); " MiB |"];
    cells ["Range scan (10k)"; ScanTime latest]] ++
  str_bytes (cells ["Go version"; GoVersion latest]) ++
  (if 1 <? len history
   then text_of ([""; ""; "## History"; ""; "| Date | Write time | Throughput (ops/s) | Mem (MiB) | Scan (10k) | Go |";
     "|------|-----------|--------------------|------------|------------|-----|"] ++ map history_row history)
   else []) ++ str_bytes newline.
Definition generateREADME (can_write : string -> bool) (results : list Result) : files * option save_err :=
  match rev results with
  | [] => ([], None)
  | latest :: history => write_file can_write "examples/perf/README.md" (trim_line (readme latest history))
  end.
Definition saveResults (can_write : string -> bool) (results : list Result) : files * option save_err :=
  match all_some (map result_tree results) with
  | None => ([], Some ErrMarshalResults)
  | Some data => and_then (write_file can_write resultsPath (print_indent (JArr data))) (generateREADME can_write results)
  end.

Section main.
Variables (numCPU : nat) (rd : readings) (file : file_read) (can_write : string -> bool).
Definition run : Result :=
  mkRun (RFC3339 (rd_date rd)) (rd_goVersion rd) (Z.of_nat count) (Z.of_nat batchSize) (Duration_String (Truncate (rd_writeTime rd) Millisecond))
    (per_second count (rd_writeTime rd)) (mem_kept (rd_memBefore rd) (rd_memAfter rd)) (Duration_String (Truncate (rd_scanTime rd) Microsecond)).
Definition store_db : DocDB MemoryStore := New (NewMemoryStore (rd_open rd) "benchmark-node") "benchmark-node" DefaultCollection.
Definition scan_range : DocRange := mkRange "doc:0050000" "doc:0060000" false 0 0 [] false.
Definition report (lines : list output) (rows : AllDocsResult) : list output :=
  [Printf "▸ Starting benchmark: %d rows in batches of %d" [AInt (Z.of_nat count); AInt (Z.of_nat batchSize)]] ++ lines ++
  [Println ""; Println "▸ Benchmark Complete"; Printf "  Total Time:   %v" [ADuration (rd_writeTime rd)];
   Printf "  Avg Throughput: %.1f ops/s" [AFloat (per_second count (rd_writeTime rd))];
   Printf "  Memory Delta: %d MiB" [AInt (mem_printed (rd_memBefore rd) (rd_memAfter rd))]; Println "▸ Testing Range Scan (10,000 rows)...";
   Printf "  Scan Time: %v (found %d rows)" [ADuration (rd_scanTime rd); AInt (len (Rows rows))]].
Definition main_end (lines : list output) (rows : AllDocsResult) : res string (list output) * files :=
  let results := default [] (loadResults file) ++ [run] in
  let '(fs, e) := saveResults can_write results in
  (match e with
   | Some _ => Err "saving results: %v"
   | None => Ok (report lines rows ++ [Println ""; Printf "Results saved to results.json (%d runs total)" [AInt (len results)]])
   end, fs).
Definition main (out : res string (list output) * files) : Prop :=
  match perf_fill count batchSize (rd_stamp rd) (rd_now rd) (rd_elapsed rd) (perf_starts count batchSize) [] store_db with
  | Ok (lines, db) =>
      exists r, AllDocs numCPU scan_range db r /\
        match fatal "Range scan failed: %v" r with
        | Ok rows => out = main_end lines rows
        | Err e => out = (Err e, [])
        | Panic => out = (Panic, [])
        end
  | Err e => out = (Err e, [])
  | Panic => out = (Panic, [])
  end.
End main.

(** ** What filling leaves *)

Lemma all_some_is_some {X Y} (f : X -> option Y) l : Forall (fun x => is_Some (f x)) l -> is_Some (all_some (map f l)).
Proof. induction 1 as [|x l [y Hy] _ [ys Hys]]; [by eexists|]. cbn [map all_some]. rewrite Hy, Hys. by eexists. Qed.
Lemma MarshalObj_some (m : object) : map_Forall (fun _ v => is_Some (to_tree v)) m -> is_Some (MarshalObj m).
Proof.
  intros Hm. cbn [MarshalObj json_text]. unfold object_tree. rewrite !fmap_is_Some. apply all_some_is_some, Forall_forall.
  intros [k v] Hk. rewrite fmap_is_Some. apply (Hm k). rewrite sorted_fields_perm in Hk. by apply elem_of_map_to_list.
Qed.

Section filled.
Context {St : Type} `{StoreLaws St}.
Variables (node coll : string) (stamp : nat -> Z) (now : nat -> nat -> Z).
Hypothesis Hcoll : coll_ok coll.
Implicit Types d : DocDB St.

(** What the put of document [i] writes. *)
Definition perf_payload (i : nat) : string * bytes := default ("", []) (put_payload (perf_doc stamp i) "").
Definition perf_clock (i : nat) : HLC := HLC_Tick (now i 1%nat) (NewHLC (now i 0%nat)).
Definition perf_record (i : nat) : NellRecord :=
  mkRecord coll (perf_id i) TypeText (snd (perf_payload i)) [] (perf_clock i) node false.
Definition perf_meta (i : nat) : NellRecord :=
  mkRecord coll metaVectorID TypeText (MarshalKV {[node := perf_clock i]}) []
    (HLC_Tick (now i 3%nat) (HLC_Update (NewHLC (now i 2%nat)) (perf_clock i))) node false.
Definition perf_written (n : nat) (r : NellRecord) : Prop := exists i, (i < n)%nat /\ (r = perf_record i \/ r = perf_meta i).
Record stored (n : nat) d : Prop := {
  so_inv : db_inv d;
  so_coll : db_collection d = coll;
  so_docs : forall i, (i < n)%nat -> db_records d !! db_key d (perf_id i) = Some (perf_record i);
  so_written : forall k r, db_records d !! k = Some r -> perf_written n r
}.
Record filled (n : nat) d : Prop := {
  fl_stored :> stored n d;
  fl_node : db_nodeID d = node;
  fl_revs : forall i, (n <= i)%nat -> Z.of_nat i < 10 ^ 7 -> db_revs d !! perf_id i = None;
  fl_vector : forall m, m <> node -> db_vector d !! m = None
}.

Lemma perf_id_compare i j : Z.of_nat i < 10 ^ 7 -> Z.of_nat j < 10 ^ 7 -> String.compare (perf_id i) (perf_id j) = (Z.of_nat i ?= Z.of_nat j).
Proof.
  intros Hi Hj. unfold perf_id. rewrite compare_app, str_compare_refl by done.
  apply pad_int_compare; [lia|change (Z.of_nat 7) with 7; lia..].
Qed.
Lemma perf_id_inj i j : Z.of_nat i < 10 ^ 7 -> Z.of_nat j < 10 ^ 7 -> perf_id i = perf_id j -> i = j.
Proof.
  intros Hi Hj He. pose proof (perf_id_compare i j Hi Hj) as Hc. rewrite He, str_compare_refl in Hc.
  symmetry in Hc. apply Z.compare_eq in Hc. lia.
Qed.
Lemma perf_doc_payload i : put_payload (perf_doc stamp i) "" = Some (perf_payload i).
Proof.
  unfold perf_payload. enough (is_Some (put_payload (perf_doc stamp i) "")) as [p Hp] by by rewrite Hp.
  assert (map_Forall (fun _ v => is_Some (to_tree v)) (splitDoc (perf_doc stamp i))) as Hf.
  { unfold splitDoc, perf_doc, doc_of. repeat apply map_Forall_delete. cbn [list_to_map foldr].
    repeat (apply map_Forall_insert_2; [by eexists|]). apply map_Forall_empty. }
  unfold put_payload. destruct (MarshalObj_some _ Hf) as [raw ->]. cbn [mbind option_bind].
  destruct (MarshalObj_some (<[FieldRev := VStr (genRev "" raw)]> (splitDoc (perf_doc stamp i)))) as [final ->]; [|by eexists].
  apply map_Forall_insert_2; [by eexists|done].
Qed.
Lemma perf_doc_check i d : db_revs d !! perf_id i = None -> put_check (perf_doc stamp i) d = Ok (perf_id i, "").
Proof.
  intros Hr. unfold put_check. change (string_field FieldID (perf_doc stamp i)) with (perf_id i).
  change (string_field FieldRev (perf_doc stamp i)) with "". rewrite Hr. reflexivity.
Qed.
Lemma stored_id n d id r : stored n d -> db_records d !! db_key d id = Some r -> ID r = id.
Proof.
  intros F Hr. pose proof (st_keyed _ (so_inv _ _ F) _ _ Hr) as Hk. destruct (so_written _ _ F _ _ Hr) as (i & Hi & He). destruct Hcoll as [Hcf Hne].
  assert (Collection r = coll) as Hc by by destruct He as [-> | ->].
  apply (db_key_inj d). unfold db_key in *. rewrite (so_coll _ _ F), or_default_id in * by done. rewrite <-Hk. unfold rkey. by rewrite Hc.
Qed.
(** No document is there before it is put. *)
Lemma filled_fresh n d : filled n d -> Z.of_nat n < 10 ^ 7 -> db_records d !! db_key d (perf_id n) = None.
Proof.
  intros F Hn. destruct (db_records d !! _) as [r|] eqn:Hr; [|done]. exfalso.
  pose proof (stored_id n d _ _ F Hr) as Hid. destruct (so_written _ _ F _ _ Hr) as (i & Hi & He).
  destruct He as [-> | ->]; cbn [ID] in Hid; [apply perf_id_inj in Hid; lia|discriminate Hid].
Qed.

Variable total : nat.
Hypotheses (Htotal : Z.of_nat total <= 10 ^ 7)
  (Hfits : forall (s : St) r, st_inv s -> (forall k r', st_records s !! k = Some r' -> perf_written total r') ->
    perf_written total r -> st_put_ok r s).
Lemma filled_put n d : filled n d -> (n < total)%nat ->
  exists d' doc' rev, DocDB_Put (now n) false (perf_doc stamp n) d = (d', doc', Ok rev) /\ filled (S n) d'.
Proof.
  intros F Hn. pose proof (so_inv _ _ F) as I. destruct Hcoll as [Hcf Hne].
  assert (put_record_of (now n) (perf_doc stamp n) (perf_id n) (snd (perf_payload n)) d = perf_record n) as Hrec.
  { unfold put_record_of, put_clock, perf_record. rewrite st_get_law. change (record_key _ _) with (db_key d (perf_id n)).
    change (st_records (db_store d)) with (db_records d). rewrite (filled_fresh n d F) by lia.
    by rewrite (so_coll _ _ F), (fl_node _ _ F). }
  assert (<[node := perf_clock n]> (db_vector d) = {[node := perf_clock n]}) as Hvec.
  { apply map_eq. intros m. destruct (decide (m = node)) as [->|Hm]; [by rewrite lookup_insert_eq, lookup_singleton_eq|].
    rewrite lookup_insert_ne, lookup_singleton_ne by done. by apply (fl_vector _ _ F). }
  assert (forall k r, db_records d !! k = Some r -> perf_written total r) as Hw.
  { intros k r (i & Hi & He)%(so_written _ _ F). exists i. split; [lia|done]. }
  assert (meta_vector_record (fun k => now n (2 + k)%nat) (<[node := perf_clock n]> (db_vector d)) d = perf_meta n) as Hmeta.
  { unfold meta_vector_record, meta_record. rewrite Hvec, map_to_list_singleton, (so_coll _ _ F), (fl_node _ _ F). done. }
  destruct (perf_payload n) as [newRev final] eqn:Hpay. cbn [snd] in Hrec.
  assert (put_payload (perf_doc stamp n) "" = Some (newRev, final)) as Hp by by rewrite perf_doc_payload, Hpay.
  assert (st_put_ok (perf_record n) (db_store d)) as Hok by (apply Hfits; [done|exact Hw|exists n; split; [lia|by left]]).
  assert (docput_ok (now n) (perf_doc stamp n) (perf_id n) newRev final d) as Hdp.
  { unfold docput_ok. rewrite Hrec, (fl_node _ _ F). split_and!; [done| |].
    - intros x Hx. by rewrite (filled_fresh n d F) in Hx by lia.
    - intros _. change (meta_vector_record ?f ?kv (db_set_revs _ (db_set_store _ d))) with (meta_vector_record f kv d).
      change (db_vector (db_set_revs _ (db_set_store _ d))) with (db_vector d). change (Clock (perf_record n)) with (perf_clock n). rewrite Hmeta.
      cbn [db_store db_set_revs db_set_store]. destruct (st_put_law _ _ I Hok) as (s' & acc & w & -> & I' & Hm & _). cbn [fst].
      apply Hfits; [done| |exists n; split; [lia|by right]]. intros k r. rewrite Hm, put_record_lookup.
      case_decide; [|by apply Hw]. intros [= <-]. rewrite normalize_id by done.
      destruct (st_records (db_store d) !! k) as [l|] eqn:Hl; [|exists n; split; [lia|by left]].
      unfold lww. destruct (ResolveConflict _ _); [by apply (Hw k)|exists n; split; [lia|by left]]. }
  destruct (put_commit_law (now n) (perf_doc stamp n) (perf_id n) "" newRev final d I ltac:(by rewrite (so_coll _ _ F)) eq_refl Hp Hdp)
    as (d' & He & I' & Hr & Hoth & Hrevs & Hco & Hno & _).
  destruct (put_commit_meta (now n) (perf_doc stamp n) (perf_id n) "" newRev final d I ltac:(by rewrite (so_coll _ _ F)) eq_refl Hp Hdp)
    as [Hv Hx]. rewrite He in Hv, Hx. cbn [fst] in Hv, Hx.
  assert (forall i, db_key d' i = db_key d i) as Hkey by (intros; unfold db_key; by rewrite Hco).
  exists d', (<[FieldRev := VStr newRev]> (perf_doc stamp n)), newRev. unfold DocDB_Put. rewrite perf_doc_check by (apply (fl_revs _ _ F); lia).
  split; [done|]. split; [split; [done|by rewrite Hco, (so_coll _ _ F)| |]|by rewrite Hno, (fl_node _ _ F)| |].
  - intros i Hi. rewrite Hkey. destruct (decide (i = n)) as [->|Hin]; [by rewrite Hr, Hrec|].
    rewrite Hoth; [apply (so_docs _ _ F); lia| |by intros ?%db_key_inj]. intros ?%db_key_inj%perf_id_inj; lia.
  - intros k r Hkr. destruct (decide (k = db_key d (perf_id n))) as [->|Hk1].
    { rewrite Hr, Hrec in Hkr. injection Hkr as <-. exists n. split; [lia|by left]. }
    assert (forall r', db_records d !! k = Some r' -> perf_written (S n) r') as Hold.
    { intros r' (i & Hi & ?)%(so_written _ _ F). exists i. split; [lia|done]. }
    destruct (decide (k = db_key d metaVectorID)) as [->|Hk2]; [|rewrite Hoth in Hkr by done; by apply Hold].
    rewrite <-(Hkey metaVectorID), Hkey in Hkr. apply Hx in Hkr as [Hkr| ->]; [by apply Hold|].
    exists n. split; [lia|right]. rewrite <-Hmeta, (fl_node _ _ F). do 2 f_equal.
    apply (f_equal Clock) in Hrec. exact Hrec.
  - intros i Hi Hlt. rewrite Hrevs, lookup_insert_ne; [apply (fl_revs _ _ F); lia|]. intros ?%perf_id_inj; lia.
  - intros m Hm. rewrite Hv by (by rewrite (fl_node _ _ F)). by apply (fl_vector _ _ F).
Qed.

(** *** The batches *)
Lemma batch_docs i b l : (l < b)%nat ->
  default ∅ ((list_to_map (zip (seq 0 b) (map (fun j => perf_doc stamp (i + j)) (seq 0 b))) : gmap nat Doc) !! l) = perf_doc stamp (i + l).
Proof.
  intros Hl. erewrite elem_of_list_to_map_1; [done| |].
  - change (fmap fst) with (map (@fst nat Doc)). rewrite fst_zip by (by rewrite length_map). apply NoDup_seq.
  - apply list_elem_of_lookup. exists l. apply lookup_zip_with_Some. exists l, (perf_doc stamp (i + l)). split; [done|].
    change (map ?f ?l) with (f <$> l). rewrite list_lookup_fmap, !lookup_seq_lt by done. done.
Qed.
Lemma filled_batch i b d : filled i d -> (i + b <= total)%nat ->
  exists d' hp revs, PutMany (fun j => now (i + j)%nat) (fun _ => false) (seq 0 b)
    (list_to_map (zip (seq 0 b) (map (fun j => perf_doc stamp (i + j)) (seq 0 b)))) d = (d', hp, Ok revs) /\ filled (i + b) d'.
Proof.
  intros F Hb.
  destruct (PutMany_rule (fun j => now (i + j)%nat) (list_to_map (zip (seq 0 b) (map (fun j => perf_doc stamp (i + j)) (seq 0 b))))
    (seq 0 b) (fun j => filled (i + j))) with (d := d) as (d' & hp & revs & He & F' & _).
  - apply NoDup_seq.
  - intros j l d1 [-> Hj]%lookup_seq F1. rewrite batch_docs by done.
    destruct (filled_put (i + j) d1 F1 ltac:(lia)) as (d2 & doc & rev & Hp & F2). exists d2, doc, rev. split; [exact Hp|]. rewrite Nat.add_succ_r. exact F2.
  - by rewrite Nat.add_0_r.
  - exists d', hp, revs. by rewrite length_seq in F'.
Qed.
Lemma perf_fill_law count b elapsed m : forall k lines d, filled (k * b) d -> ((k + m) * b <= total)%nat ->
  exists d', perf_fill count b stamp now elapsed (map (fun k => k * b)%nat (seq k m)) lines d =
    Ok (lines ++ concat (map (fun k => perf_progress count elapsed (k * b + b)) (seq k m)), d') /\ filled ((k + m) * b) d'.
Proof.
  induction m as [|m IH]; intros k lines d F Hm; cbn [seq map perf_fill concat].
  - exists d. by rewrite app_nil_r, Nat.add_0_r.
  - destruct (filled_batch (k * b) b d F ltac:(lia)) as (d1 & hp & revs & -> & F1). cbn [fatal mbind res_bind].
    replace (k * b + b)%nat with (S k * b)%nat in F1 by lia. destruct (IH (S k) (lines ++ perf_progress count elapsed (k * b + b)) d1 F1 ltac:(lia)) as (d' & -> & F').
    exists d'. rewrite <-app_assoc. split; [done|]. by replace (k + S m)%nat with (S k + m)%nat by lia.
Qed.
Lemma perf_starts_fill count b elapsed d : (0 < b)%nat -> (b | count)%nat -> (count <= total)%nat -> filled 0 d ->
  exists lines d', perf_fill count b stamp now elapsed (perf_starts count b) [] d = Ok (lines, d') /\ filled count d'.
Proof.
  intros Hb [m ->] Ht F. unfold perf_starts. replace ((m * b + b - 1) / b)%nat with m.
  - destruct (perf_fill_law (m * b) b elapsed m 0 [] d F ltac:(lia)) as (d' & He & F'). eauto.
  - symmetry. replace (m * b + b - 1)%nat with (b - 1 + m * b)%nat by lia. rewrite Nat.div_add, Nat.div_small by lia. lia.
Qed.

(** *** The scan *)
Lemma keyInRange_perf lo hi i : Z.of_nat lo < 10 ^ 7 -> Z.of_nat hi < 10 ^ 7 -> Z.of_nat i < 10 ^ 7 ->
  keyInRange (perf_id i) (perf_id lo) (perf_id hi) false = bool_decide (lo <= i < hi)%nat.
Proof.
  intros. unfold keyInRange, str_ltb, String.ltb. rewrite !perf_id_compare, !bool_decide_false by done. cbn [negb andb].
  destruct (Z.compare_spec (Z.of_nat i) (Z.of_nat lo)), (Z.compare_spec (Z.of_nat i) (Z.of_nat hi)), (bool_decide_reflect (lo <= i < hi)%nat); lia || done.
Qed.
Lemma stored_scan numCPU lo hi d : stored total d -> (0 < numCPU)%nat -> (lo <= hi <= total)%nat -> Z.of_nat hi < 10 ^ 7 ->
  let rng := mkRange (perf_id lo) (perf_id hi) false 0 0 [] false in
  (exists r, AllDocs numCPU rng d r) /\
  forall r, AllDocs numCPU rng d r -> exists rows, r = Ok rows /\ row_ID <$> Rows rows ≡ₚ map perf_id (seq lo (hi - lo)).
Proof.
  intros F Hn Hlo Hhi rng. destruct (AllDocs_exact numCPU rng d (so_inv _ _ F) ltac:(by rewrite (so_coll _ _ F)) Hn eq_refl) as [Hex Hall].
  split; [done|]. intros r (res & rows & -> & Hnd & Hids & _ & Hrows & _)%Hall. exists res. split; [done|]. rewrite Hrows.
  change (page (Skip rng) (Limit rng) rows) with rows. apply NoDup_Permutation; [done| |].
  - apply NoDup_fmap_2_strong; [|apply NoDup_seq]. intros i j [? ?]%elem_of_seq [? ?]%elem_of_seq. apply perf_id_inj; lia.
  - intros id. rewrite Hids, DocDB_Get_law. cbn [rng StartKey EndKey InclusiveEnd]. change (map perf_id ?l) with (perf_id <$> l). rewrite list_elem_of_fmap. split.
    + intros [Hk Hg]. destruct (db_records d !! db_key d id) as [rec|] eqn:Hr; [|done].
      pose proof (stored_id total d _ _ F Hr) as <-. destruct (so_written _ _ F _ _ Hr) as (i & Hi & [-> | ->]).
      * cbn [perf_record ID] in *. exists i. split; [done|]. rewrite keyInRange_perf in Hk by lia.
        apply bool_decide_eq_true in Hk. apply elem_of_seq. lia.
      * cbn [perf_meta ID] in Hk. unfold keyInRange in Hk. cbn in Hk. done.
    + intros (i & -> & [? ?]%elem_of_seq). rewrite keyInRange_perf by lia. split; [apply bool_decide_eq_true; lia|].
      rewrite (so_docs _ _ F) by lia. done.
Qed.
End filled.

(** ** What the stores take *)

(** Clocks that never ran far ahead of the readings. *)
Definition small_counter (n : Z) (c : HLC) : Prop := 0 <= Counter c <= n.
Lemma Tick_small t n c : small_counter n c -> 0 <= n < 1000 -> small_counter (n + 1) (HLC_Tick t c).
Proof.
  unfold small_counter, HLC_Tick. intros Hc Hn. destruct (_ <? _); cbn [Counter]; [lia|]. rewrite wrap_s_id by (unfold in_s; lia). lia.
Qed.
Lemma Update_small n c p : small_counter n c -> small_counter n p -> 0 <= n < 1000 -> small_counter (n + 1) (HLC_Update c p).
Proof.
  unfold small_counter, HLC_Update. intros Hc Hp Hn. repeat case_match; cbn [Counter]; rewrite ?wrap_s_id by (unfold in_s; lia); lia.
Qed.
Lemma perf_clock_small now i : small_counter 1 (perf_clock now i).
Proof. apply (Tick_small _ 0); [split; cbn; lia|lia]. Qed.
Lemma perf_meta_small node coll now i : small_counter 3 (Clock (perf_meta node coll now i)).
Proof.
  apply (Tick_small _ 2); [apply (Update_small 1); [split; cbn; lia|apply perf_clock_small|lia]|lia].
Qed.
Lemma perf_written_safe node coll stamp now n r : perf_written node coll stamp now n r -> tick_safe (Clock r) /\ Collection r = coll.
Proof.
  intros (i & _ & [-> | ->]); (split; [|done]); unfold tick_safe.
  - pose proof (perf_clock_small now i) as Hc. unfold small_counter in Hc. cbn [perf_record Clock]. lia.
  - pose proof (perf_meta_small node coll now i) as Hc. unfold small_counter in Hc. lia.
Qed.

Lemma filled_new {St} `{StoreLaws St} node coll stamp now (s : St) : coll_ok coll -> st_inv s -> st_records s = ∅ -> filled node coll stamp now 0 (New s node coll).
Proof.
  intros [Hcf Hne] I Hr. destruct (New_fields s node coll) as (Hs & Hc & Hrv). rewrite or_default_id in * by done.
  assert (st_List coll s = []) as Hl.
  { rewrite st_list_law. destruct (st_listall_law coll s I) as [_ Hin]. destruct (st_ListAll coll s) as [|x l]; [done|].
    assert (x ∈ x :: l) as Hx by left. apply Hin in Hx as [Hx _]. by rewrite Hr, lookup_empty in Hx. }
  assert (db_records (New s node coll) = ∅) as He by (unfold db_records; by rewrite Hs).
  split; [split; [unfold db_inv; by rewrite Hs|done|lia|intros k r; by rewrite He, lookup_empty]|..].
  - unfold New, reindex. by destruct (readMetaVector _).
  - intros i _ _. by rewrite Hrv, Hl.
  - intros m _. unfold New, reindex. replace (readMetaVector _) with (@None (gmap string HLC)); [done|].
    unfold readMetaVector. cbn [db_collection db_store]. by rewrite st_get_law, Hr, lookup_empty.
Qed.

(** ** The programs *)

Lemma perf_constants : (Z.of_nat count = 10 ^ 6 /\ Z.of_nat batchSize = 1000 /\ (batchSize | count)%nat).
Proof. unfold count, batchSize. split_and!; [lia..|]. exists (Z.to_nat 1000). lia. Qed.

Lemma perf_id_text n text : 0 <= n -> bytes_str (str_bytes "doc:" ++ pad_int 7 n) = text -> perf_id (Z.to_nat n) = text.
Proof. intros Hn <-. unfold perf_id. by rewrite Z2Nat.id. Qed.

(** The scan of a filled database, its range given as text. *)
Lemma scan_stored {St} `{StoreLaws St} node coll stamp now (d : DocDB St) numCPU lo hi start end_ : coll_ok coll ->
  stored node coll stamp now count d -> (0 < numCPU)%nat -> 0 <= lo <= hi -> hi <= 10 ^ 6 ->
  bytes_str (str_bytes "doc:" ++ pad_int 7 lo) = start -> bytes_str (str_bytes "doc:" ++ pad_int 7 hi) = end_ ->
  let rng := mkRange start end_ false 0 0 [] false in
  (exists rows, AllDocs numCPU rng d (Ok rows)) /\
  forall r, AllDocs numCPU rng d r -> exists rows, r = Ok rows /\ row_ID <$> Rows rows ≡ₚ map perf_id (seq (Z.to_nat lo) (Z.to_nat (hi - lo))).
Proof.
  intros Hc F Hn Hlo Hhi Hs He rng. destruct perf_constants as (Hcount & _).
  destruct (stored_scan node coll stamp now Hc count) with (numCPU := numCPU) (lo := Z.to_nat lo) (hi := Z.to_nat hi) (d := d) as [[r Hr] Hall];
    [lia|done|done|lia|lia|]. rewrite (perf_id_text lo start), (perf_id_text hi end_) in Hr, Hall by (lia || done).
  change (mkRange _ _ _ _ _ _ _) with rng in Hr, Hall. replace (Z.to_nat hi - Z.to_nat lo)%nat with (Z.to_nat (hi - lo)) in Hall by lia.
  split; [|done]. destruct (Hall r Hr) as (rows & -> & _). by exists rows.
Qed.
Lemma fill_db {St} `{StoreLaws St} node coll rd (s : St) : coll_ok coll -> st_inv s -> st_records s = ∅ ->
  (forall (s : St) r, st_inv s -> (forall k r', st_records s !! k = Some r' -> perf_written node coll (rd_stamp rd) (rd_now rd) count r') ->
    perf_written node coll (rd_stamp rd) (rd_now rd) count r -> st_put_ok r s) ->
  exists lines d, perf_fill count batchSize (rd_stamp rd) (rd_now rd) (rd_elapsed rd) (perf_starts count batchSize) [] (New s node coll) = Ok (lines, d) /\
    filled node coll (rd_stamp rd) (rd_now rd) count d.
Proof.
  intros Hc I Hr Hfits. destruct perf_constants as (Hcount & Hbatch & Hdiv).
  apply (perf_starts_fill node coll (rd_stamp rd) (rd_now rd) Hc count); [lia|exact Hfits|lia|done|done|by apply filled_new].
Qed.

(** The benchmark finds its rows: whatever the clocks read, every batch is put, and the scan of
    [doc:0050000] to [doc:0060000] among the million documents finds the 10,000 it announces,
    those and no other; then the run is kept after the earlier ones, if the files can be
    written. *)
Theorem perf_finds_range numCPU rd file can_write : (0 < numCPU)%nat ->
  (exists out, main numCPU rd file can_write out) /\
  forall out, main numCPU rd file can_write out -> exists lines rows,
    row_ID <$> Rows rows ≡ₚ map perf_id (seq (Z.to_nat 50000) (Z.to_nat 10000)) /\ out = main_end rd file can_write lines rows.
Proof.
  intros Hn. assert (coll_ok DefaultCollection) as Hco by (split; apply (bool_decide_unpack _); vm_compute; exact I).
  unfold main. destruct (fill_db "benchmark-node" DefaultCollection rd (NewMemoryStore (rd_open rd) "benchmark-node")) as (lines & d & Hf & F).
  - exact Hco.
  - apply NewMemoryStore_inv.
  - reflexivity.
  - intros s r _ _ [Ht Hc]%perf_written_safe. split; [done|]. rewrite Hc. apply Hco.
  - unfold store_db. rewrite Hf.
    destruct (scan_stored _ _ _ _ d numCPU 50000 60000 "doc:0050000" "doc:0060000" Hco F Hn) as [[rows Hr] Hall]; [lia|lia|vm_compute; reflexivity..|].
    split; [exists (main_end rd file can_write lines rows), (Ok rows); split; [exact Hr|reflexivity]|].
    intros out (r & (rows' & -> & Hp)%Hall & Hout). exists lines, rows'. split; [exact Hp|exact Hout].
Qed.

(** ** The results are kept *)

Lemma float_number_reads f n : valid_binary 53 1024 f = true -> float_number 53 1024 f = Some n ->
  number_wf n /\ ParseFloat 53 1024 n = Some f.
Proof.
  intros Hv Hn. pose proof (ParseFloat_number 53 1024 f ltac:(by left) Hv) as Hf.
  destruct f; try done; destruct Hf as (n' & Hn' & ? & ?); rewrite Hn in Hn'; by injection Hn' as <-.
Qed.
(** What is written indented is what is read. *)
Lemma results_reload {R} (tree : R -> option jtree) (decode : jtree -> option R) results data :
  Forall (fun r => forall t, tree r = Some t -> tree_ok t /\ tree_depth t = 1 /\ decode t = Some r) results ->
  all_some (map tree results) = Some data -> Unmarshal (print_indent (JArr data)) ≫= decode_slice decode = Some results.
Proof.
  intros Hr Hd. assert (Forall (fun t => tree_ok t /\ tree_depth t <= 1) data /\ all_some (map decode data) = Some results) as [Hok Hdec].
  { revert data Hd. induction Hr as [|r results Hr1 _ IH]; intros data; cbn [map all_some]; [by intros [= <-]|].
    destruct (tree r) as [t|]; [|done]. cbn [mbind option_bind]. destruct (all_some _) as [ts|]; [|done]. intros [= <-].
    destruct (IH ts eq_refl) as [Hts Hds]. destruct (Hr1 t eq_refl) as (Ht & Hd1 & Hdt). split; [constructor; [|done]; split; [done|lia]|].
    cbn [map all_some]. by rewrite Hdt, Hds. }
  rewrite Unmarshal_print_indent; [exact Hdec| |].
  - cbn [tree_ok]. rewrite foldr_and_Forall. eapply Forall_impl; [exact Hok|]. by intros ? [? _].
  - cbn [tree_depth]. pose proof (foldr_max_bound tree_depth data 1 ltac:(lia)) as Hb. unfold maxNestingDepth.
    enough (Forall (fun t => tree_depth t <= 1) data) as Hf by (specialize (Hb Hf); lia).
    eapply Forall_impl; [exact Hok|]. by intros ? [_ ?].
Qed.

(** A structure's fields, decoded one after the other. *)
Ltac decode_fields :=
  cbn [decode_struct foldl mbind option_bind fst snd];
  repeat match goal with |- context [is_field ?a ?b] => let v := eval vm_compute in (is_field a b) in change (is_field a b) with v end;
  cbn [decode_string decode_f64 decode_int fmap option_fmap option_map mbind option_bind].

Definition perf_result_ok (r : Result) : Prop :=
  let 'mkRun date go count batch write thr mem scan := r in
  json_string date = true /\ json_string go = true /\ json_string write = true /\ json_string scan = true /\
  in_s 64 count /\ in_s 64 batch /\ in_s 64 mem /\ valid_binary 53 1024 thr = true.
Lemma perf_result_reads r t : perf_result_ok r -> result_tree r = Some t ->
  tree_ok t /\ tree_depth t = 1 /\ decode_struct result_field t result_zero = Some r.
Proof.
  destruct r as [date go count batch write thr mem scan]. intros (? & ? & ? & ? & Hc & Hb & Hm & Hv) Ht.
  unfold result_tree in Ht. apply bind_Some in Ht as (n & Hn & [= <-]). cbn [Throughput] in Hn.
  destruct (float_number_reads _ _ Hv Hn) as [Hwf Hp].
  destruct (int_number_spec 64 count ltac:(lia) Hc) as [C1 C2], (int_number_spec 64 batch ltac:(lia) Hb) as [B1 B2], (int_number_spec 64 mem ltac:(lia) Hm) as [M1 M2].
  split; [cbn [tree_ok map foldr fst snd]; by split_and!|]. split; [done|].
  unfold result_zero. cbn [Date GoVersion Count BatchSize WriteTime MemDeltaMB ScanTime].
  unfold result_field. decode_fields. rewrite C2. decode_fields. rewrite B2. decode_fields. rewrite Hp. decode_fields. rewrite M2. decode_fields.
  by rewrite !bytes_str_bytes.
Qed.

(** What a benchmark keeps is there for the next: results whose strings are UTF-8, numbers of
    their widths, are either not written, or the file written is read back as the same
    results in the same order; and the README is made of the last of them. *)
Theorem perf_results_reload can_write results fs : Forall perf_result_ok results -> results <> [] ->
  saveResults can_write results = (fs, None) ->
  exists data latest history, rev results = latest :: history /\
    fs = [(resultsPath, data); ("examples/perf/README.md", trim_line (readme latest history))] /\
    loadResults (FileData data) = Some results.
Proof.
  intros Hok Hne. unfold saveResults. destruct (all_some _) as [data|] eqn:Hd; [|done].
  unfold generateREADME. destruct (rev results) as [|latest history] eqn:Hr; [by apply (f_equal (@rev _)) in Hr; rewrite rev_involutive in Hr|].
  unfold write_file. destruct (can_write resultsPath); [|done]. cbn [and_then]. destruct (can_write _); [|done]. cbn [app fst snd]. intros [= <-].
  eexists _, latest, history. split; [done|]. split; [reflexivity|]. cbn [loadResults].
  eapply results_reload; [|exact Hd]. eapply Forall_impl; [exact Hok|]. intros r Hro t. by apply perf_result_reads.
Qed.

(** The table of earlier runs is left out while there is one. *)
Lemma readme_hides_one_run latest earlier : readme latest [earlier] = readme latest [].
Proof. reflexivity. Qed.
(** Memory given back in between is kept as what it is and printed as 16 exbibytes. *)
Lemma mem_delta_printed : mem_printed (3 * 2 ^ 20) (2 * 2 ^ 20) = 2 ^ 44 - 1 /\ mem_kept (3 * 2 ^ 20) (2 * 2 ^ 20) = -1.
Proof. split; reflexivity. Qed.
(** A run of no measurable time has no throughput JSON can hold, and nothing is saved. *)
Lemma instant_run_unsaved can_write earlier rd : rd_writeTime rd = 0 -> saveResults can_write (earlier ++ [run rd]) = ([], Some ErrMarshalResults).
Proof.
  intros H0. unfold saveResults. assert (result_tree (run rd) = None) as Hn.
  { unfold result_tree, run. cbn [Throughput]. rewrite H0. unfold per_second. destruct perf_constants as (-> & _). reflexivity. }
  assert (all_some (map result_tree (earlier ++ [run rd])) = None) as ->; [|done].
  induction earlier as [|r earlier IH]; cbn [app map all_some]; [by rewrite Hn|]. destruct (result_tree r); [|done]. cbn [mbind option_bind]. by rewrite IH.
Qed.

(** The README in the repository is what the template makes of its runs. *)
Definition listed_run (date write scan : string) (throughput mem : Z) : Result :=
  mkRun date "go1.26.3-X:simd" 1000000 1000 write (f64_of_int throughput) mem scan.
Example repository_readme : trim_line (readme (listed_run "2026-06-18T16:00:18Z" "4.283s" "240.942ms" 233453 777)
    [listed_run "2026-06-18T15:54:49Z" "4.087s" "399.859ms" 244677 611; listed_run "2026-06-18T15:48:11Z" "3.985s" "396.091ms" 250896 575;
     listed_run "2026-06-18T14:04:52Z" "4.677s" "521.053ms" 213791 690]) =
  text_of ["# In-Memory Write Benchmark"; ""; "Inserts 1000000 documents in batches of 1000 into an in-memory";
    "`nell.MemoryStore` via the SDK's `PutMany`.  Then runs a"; "10 000-row range scan."; ""; "Run with:"; "```"; "go run ./examples/perf/"; "```"; "";
    "## Latest result (2026-06-18T16:00:18Z)"; ""; "| Metric | Value |"; "|--------|-------|"; "| Documents | 1000000 |"; "| Write time | 4.283s |";
    "| Throughput | 233453 ops/s |"; "| Memory delta | 777 MiB |"; "| Range scan (10k) | 240.942ms |"; "| Go version | go1.26.3-X:simd |"; "";
    "## History"; ""; "| Date | Write time | Throughput (ops/s) | Mem (MiB) | Scan (10k) | Go |"; "|------|-----------|--------------------|------------|------------|-----|";
    "| 2026-06-18T15:54:49Z | 4.087s | 244677 | 611 | 399.859ms | go1.26.3-X:simd |"; "| 2026-06-18T15:48:11Z | 3.985s | 250896 | 575 | 396.091ms | go1.26.3-X:simd |";
    "| 2026-06-18T14:04:52Z | 4.677s | 213791 | 690 | 521.053ms | go1.26.3-X:simd |"].
Proof. unfold readme, count, batchSize. rewrite !Z2Nat.id by lia. vm_compute. reflexivity. Qed.
