(* ===== verification/PerfPersist.v ===== *)
(** * The durable benchmark (examples/perf-persist/main.go)

    The program that fills a log in batches, closes it, opens it again, scans a range and keeps
    its results, as file Perf has its sibling: that it finds its rows after the restart, and
    that its results are read back. *)
From S2P Require Import Prelude BigEndian Float Hlc Record KnowledgeVector Conflict GoSort GoTime Search MemStore StoreTypes LogFrame LogStore LogReplay LogDurability StoreApi Server Crypto Strconv Json JsonText JsonCodec JsonRecord Wire DocDb DocDbLaws Main GoFormat Examples Perf.
Local Open Scope Z_scope.

(** ** The program *)

Definition count : nat := Z.to_nat 1000000.
Definition batchSize : nat := Z.to_nat 1000.
Definition resultsRelPath : string := "examples/perf-persist/results.json".
Record Result := mkRun {
  Date : string; GoVersion : string; Count : Z; BatchSize : Z; WriteTime : string; Throughput : float; DBSizeMB : float; MemDeltaMB : Z;
  RecoveryTime : string; ScanTime : string
}.
Definition result_tree (r : Result) : option jtree :=
  throughput ← float_number 53 1024 (Throughput r);
  size ← float_number 53 1024 (DBSizeMB r);
  Some (JObj [(str_bytes "date", JStr (str_bytes (Date r))); (str_bytes "go_version", JStr (str_bytes (GoVersion r)));
    (str_bytes "count", JNum (int_number (Count r))); (str_bytes "batch_size", JNum (int_number (BatchSize r)));
    (str_bytes "write_time", JStr (str_bytes (WriteTime r))); (str_bytes "throughput_ops_per_sec", JNum throughput);
    (str_bytes "db_size_mb", JNum size); (str_bytes "mem_delta_mb", JNum (int_number (MemDeltaMB r)));
    (str_bytes "recovery_time", JStr (str_bytes (RecoveryTime r))); (str_bytes "scan_time_1k", JStr (str_bytes (ScanTime r)))]).
Definition result_field (k : bytes) (t : jtree) (r : Result) : option Result :=
  let 'mkRun date go count batch write thr size mem recovery scan := r in
  if is_field "date" k then (fun x => mkRun x go count batch write thr size mem recovery scan) <$> decode_string t date
  else if is_field "go_version" k then (fun x => mkRun date x count batch write thr size mem recovery scan) <$> decode_string t go
  else if is_field "count" k then (fun x => mkRun date go x batch write thr size mem recovery scan) <$> decode_int 64 t count
  else if is_field "batch_size" k then (fun x => mkRun date go count x write thr size mem recovery scan) <$> decode_int 64 t batch
  else if is_field "write_time" k then (fun x => mkRun date go count batch x thr size mem recovery scan) <$> decode_string t write
  else if is_field "throughput_ops_per_sec" k then (fun x => mkRun date go count batch write x size mem recovery scan) <$> decode_f64 t thr
  else if is_field "db_size_mb" k then (fun x => mkRun date go count batch write thr x mem recovery scan) <$> decode_f64 t size
  else if is_field "mem_delta_mb" k then (fun x => mkRun date go count batch write thr size x recovery scan) <$> decode_int 64 t mem
  else if is_field "recovery_time" k then (fun x => mkRun date go count batch write thr size mem x scan) <$> decode_string t recovery
  else if is_field "scan_time_1k" k then (fun x => mkRun date go count batch write thr size mem recovery x) <$> decode_string t scan
  else Some r.
Definition result_zero : Result := mkRun "" "" 0 0 "" f_zero f_zero 0 "" "".

Definition loadResults (file : file_read) : option (list Result) :=
  match file with
  | FileMissing => Some []
  | FileError => None
  | FileData data => Unmarshal data ≫= decode_slice (fun t => decode_struct result_field t result_zero)
  end.
Definition history_row (r : Result) : string :=
  cells [Date r; WriteTime r; format_fixed 0 (Throughput r); format_fixed 1 (DBSizeMB r); RecoveryTime r; ScanTime r; GoVersion r].
Definition readme (latest : Result) (history : list Result) : bytes :=
  text_of ["# Persistent Write Benchmark"; "";
    str ["Inserts "; show_int (Z.of_nat count); " documents in batches of "; show_int (Z.of_nat batchSize); " into a durable"];
    "`logstore.LogStore` via the SDK's `PutMany`.  Tests write"; "throughput, database file size, recovery time (close + re-open + replay),";
    "and a 1 000-row range scan."; ""; "Run with:"; "```"; "go run ./examples/perf-persist/"; "```"; "";
    str ["## Latest result ("; Date latest; ")"]; ""; "| Metric | Value |"; "|--------|-------|";
    cells ["Documents"; show_int (Count latest)]; cells ["Write time"; WriteTime latest];
    str ["| Throughput | "; format_fixed 0 (Throughput latest); " ops/s |"]; str ["| DB size | "; format_fixed 1 (DBSizeMB latest); " MiB |"];
    str ["| Memory delta | "; show_int (MemDeltaMB latest); " MiB |"]; cells ["Recovery time"; RecoveryTime latest];
    cells ["Range scan (1k)"; ScanTime latest]] ++
  str_bytes (cells ["Go version"; GoVersion latest]) ++
  (if 1 <? len history
   then text_of ([""; ""; "## History"; ""; "| Date | Write time | Throughput | DB (MiB) | Recovery | Scan | Go |";
     "|------|-----------|------------|----------|----------|------|-----|"] ++ map history_row history)
   else []) ++ str_bytes newline.
Definition generateREADME (can_write : string -> bool) (results : list Result) : files * option save_err :=
  match rev results with
  | [] => ([], None)
  | latest :: history => write_file can_write "examples/perf-persist/README.md" (trim_line (readme latest history))
  end.
Definition saveResults (can_write : string -> bool) (results : list Result) : files * option save_err :=
  match all_some (map result_tree results) with
  | None => ([], Some ErrMarshalResults)
  | Some data => and_then (write_file can_write resultsRelPath (print_indent (JArr data))) (generateREADME can_write results)
  end.

Section main.
Context `{Zstd}.
Variables (numCPU : nat) (rd : readings) (file : file_read) (can_write : string -> bool).
Definition store_db (store : LogStore) : DocDB LogStore := New store "benchmark-node-persistent" "benchmark".
Definition durable_fill (rd : readings) (store : LogStore) : res string (list output * DocDB LogStore) :=
  perf_fill count batchSize (rd_stamp rd) (rd_now rd) (rd_elapsed rd) (perf_starts count batchSize) [] (store_db store).
Definition db_size (store : LogStore) : Z := len (f_data (ls_file store)).
Definition run (size : Z) : Result :=
  mkRun (RFC3339 (rd_date rd)) (rd_goVersion rd) (Z.of_nat count) (Z.of_nat batchSize) (Duration_String (Truncate (rd_writeTime rd) Millisecond))
    (per_second count (rd_writeTime rd)) (f64_div (f64_of_int size) (f64_of_int (1024 * 1024))) (mem_kept (rd_memBefore rd) (rd_memAfter rd))
    (Duration_String (Truncate (rd_recoveryTime rd) Millisecond)) (Duration_String (Truncate (rd_scanTime rd) Microsecond)).
Definition scan_range : DocRange := mkRange "doc:0050000" "doc:0051000" false 0 0 [] false.
Definition report (lines : list output) (size : Z) (rows : AllDocsResult) : list output :=
  [Printf "▸ Starting Persistent benchmark: %d rows in batches of %d" [AInt (Z.of_nat count); AInt (Z.of_nat batchSize)];
   Printf "  Database path: %s" [AStr "bench_persistent.db"]] ++ lines ++
  [Println ""; Println "▸ Write Benchmark Complete"; Printf "  Total Time:   %v" [ADuration (rd_writeTime rd)];
   Printf "  Avg Throughput: %.1f ops/s" [AFloat (per_second count (rd_writeTime rd))];
   Printf "  Database Size: %.2f MiB" [AFloat (f64_div (f64_div (f64_of_int size) (f64_of_int 1024)) (f64_of_int 1024))];
   Printf "  Memory Delta: %d MiB" [AInt (mem_printed (rd_memBefore rd) (rd_memAfter rd))]; Println "";
   Println "▸ Testing Recovery Performance (closing and re-opening)...";
   Printf "  Recovery Time: %v (%.1f docs/s)" [ADuration (rd_recoveryTime rd); AFloat (per_second count (rd_recoveryTime rd))]; Println "";
   Println "▸ Testing Range Scan (1,000 rows)..."; Printf "  Scan Time: %v (found %d rows)" [ADuration (rd_scanTime rd); AInt (len (Rows rows))]].
Definition main_end (lines : list output) (size : Z) (rows : AllDocsResult) : res string (list output) * files :=
  let results := default [] (loadResults file) ++ [run size] in
  let '(fs, e) := saveResults can_write results in
  (match e with
   | Some _ => Err "saving results: %v"
   | None => Ok (report lines size rows ++ [Println ""; Printf "Results saved to results.json (%d runs total)" [AInt (len results)]])
   end, fs).
(** From the re-opening on; the second store is closed and the log removed at the end. *)
Definition recover (lines : list output) (db : DocDB LogStore) (out : res string (list output) * files) : Prop :=
  exists r2, OpenLogWithOptions numCPU (rd_reopen rd) "benchmark-node-persistent" 0 (f_data (ls_file (fst (LogStore_Close (db_store db))))) r2 /\
  match fatal "failed to re-open logstore: %v" r2 with
  | Ok store2 =>
      exists r, AllDocs numCPU scan_range (store_db store2) r /\
        match fatal "Range scan failed: %v" r with
        | Ok rows => out = main_end lines (db_size (db_store db)) rows
        | Err e => out = (Err e, [])
        | Panic => out = (Panic, [])
        end
  | Err e => out = (Err e, [])
  | Panic => out = (Panic, [])
  end.
(** The log is removed before it is opened. *)
Definition main (out : res string (list output) * files) : Prop :=
  exists r, OpenLogWithOptions numCPU (rd_open rd) "benchmark-node-persistent" 0 [] r /\
  match fatal "failed to open logstore: %v" r with
  | Ok store =>
      match durable_fill rd store with
      | Ok (lines, db) => recover lines db out
      | Err e => out = (Err e, [])
      | Panic => out = (Panic, [])
      end
  | Err e => out = (Err e, [])
  | Panic => out = (Panic, [])
  end.
End main.

(** ** What the log takes *)

Lemma sha1_blocks_length n : forall hs b, length hs = 5%nat -> length (sha1_blocks n hs b) = 5%nat.
Proof.
  induction n as [|n IH]; intros hs b Hl; [done|]. cbn [sha1_blocks]. apply IH. destruct hs as [|a [|b0 [|c [|d [|e [|? ?]]]]]]; try done.
Qed.
Lemma sha1_length b : length (sha1 b) = 20%nat.
Proof.
  unfold sha1. set (hs := sha1_blocks _ _ _). assert (length hs = 5%nat) as Hl by by apply sha1_blocks_length. clearbody hs.
  destruct hs as [|h1 [|h2 [|h3 [|h4 [|h5 [|? ?]]]]]]; done.
Qed.
Lemma first_rev_size raw : strlen (genRev "" raw) = 42.
Proof.
  unfold genRev. rewrite bool_decide_true by done. unfold strlen. rewrite <-length_str_bytes, str_bytes_str, length_app. cbn [length].
  rewrite length_hex_encode, sha1_length. reflexivity.
Qed.
Lemma perf_doc_fields v1 v2 v3 id rev :
  sorted_fields (<[FieldRev := VStr rev]> (splitDoc (doc_of [(FieldID, id); ("payload", v1); ("index", v2); ("timestamp", v3)]))) =
  [(FieldRev, VStr rev); ("index", v2); ("payload", v1); ("timestamp", v3)].
Proof. vm_compute. reflexivity. Qed.
Lemma perf_payload_size stamp i : in_s 64 (stamp i) -> in_s 64 (Z.of_nat i) -> len (snd (perf_payload stamp i)) <= 1000.
Proof.
  intros Hs Hi. pose proof (perf_doc_payload stamp i) as Hp. destruct (perf_payload stamp i) as [newRev final]. cbn [snd].
  unfold put_payload in Hp. apply bind_Some in Hp as (raw & _ & Hp). apply bind_Some in Hp as (f & Hf & [= <- <-]).
  pose proof (first_rev_size raw) as Hr. revert Hf Hr. generalize (genRev "" raw). intros rev Hf Hr. cbn [MarshalObj json_text] in Hf. apply fmap_Some in Hf as (t & Ht & ->).
  unfold object_tree, perf_doc in Ht. rewrite perf_doc_fields in Ht.
  cbn [map all_some to_tree fst snd fmap option_fmap option_map mbind option_bind] in Ht. injection Ht as <-.
  cbn [print_tree]. rewrite len_cons, len_app, len_cons. change (len []) with 0.
  change (fun f : bytes * jtree => print_string f.1 ++ to_byte 58 :: print_tree f.2) with print_member.
  match goal with |- context [join _ (map print_member ?fs)] => pose proof (members_size fs) as Hm; set (fs0 := fs) in * end.
  enough (foldr (fun f acc => len (print_member f) + 1 + acc) 0 fs0 <= 900) by lia.
  pose proof (print_string_size rev). pose proof (int_number_size _ 64 ltac:(lia) Hs). pose proof (int_number_size _ 64 ltac:(lia) Hi).
  unfold fs0, print_member. cbn [foldr fst snd print_tree]. rewrite !len_app, !len_cons.
  set (size := len (print_string (str_bytes rev))) in *.
  repeat match goal with |- context [len (print_string ?b)] =>
    let n := eval vm_compute in (len (print_string b)) in lazymatch n with Zpos _ => change (len (print_string b)) with n end end.
  lia.
Qed.
Lemma layout_size r : len (layout r) <= 40 + strlen (Collection r) + strlen (ID r) + strlen (Type_ r) + strlen (UpdatedBy r) + 4 * len (Vector r) + len (Payload r).
Proof.
  unfold layout, body_layout, len, strlen. rewrite !length_app, !length_string_bytes, length_floats_bytes, length_hlc_bytes, !length_be_bytes. cbn [length]. lia.
Qed.
Lemma perf_id_size i : Z.of_nat i < 10 ^ 7 -> strlen (perf_id i) = 11.
Proof.
  intros Hi. unfold perf_id, strlen. rewrite <-length_str_bytes, str_bytes_str, length_app, pad_int_length; [done|lia|].
  change (Z.of_nat 7) with 7. lia.
Qed.
(** What the benchmark writes to its log can be logged; a compressor that keeps two gigabytes
    below four is enough. *)
Lemma perf_written_loggable `{Zstd} node coll stamp now n r : coll_ok coll -> strlen coll <= 100 -> strlen node <= 100 -> Z.of_nat n <= 10 ^ 7 ->
  (forall i, in_s 64 (stamp i)) -> (forall i k, in_s 64 (now i k)) -> (forall raw, len raw < 2 ^ 31 -> in_u 32 (len (EncodeAll raw))) ->
  perf_written node coll stamp now n r -> loggable r.
Proof.
  intros Hc Hcs Hns Hn Hst Hnow Hz Hw. destruct (perf_written_safe _ _ _ _ _ _ Hw) as [Ht Hco].
  destruct Hw as (i & Hi & Hr).
  assert (forall t c, in_s 64 t -> hlc_ok c -> hlc_ok (HLC_Tick t c)) as Htick by (intros; by apply Tick_typed).
  assert (forall t, in_s 64 t -> hlc_ok (NewHLC t)) as Hnew by (intros t ?; split; [done|unfold in_s; cbn; lia]).
  assert (hlc_ok (perf_clock now i)) as Hclk by (unfold perf_clock; auto).
  assert (hlc_ok (Clock r) /\ strlen (ID r) <= 100 /\ Type_ r = TypeText /\ UpdatedBy r = node /\ Vector r = [] /\ len (Payload r) <= 2000)
    as (Hk & Hid & Hty & Hub & Hv & Hp).
  { destruct Hr as [-> | ->]; cbn [perf_record perf_meta Clock ID Type_ UpdatedBy Vector Payload].
    - split_and!; [exact Hclk|rewrite perf_id_size; lia|reflexivity|reflexivity|reflexivity|].
      pose proof (perf_payload_size stamp i (Hst i) ltac:(unfold in_s; lia)). lia.
    - split_and!; [apply Htick, Update_typed; auto|apply (bool_decide_unpack _); vm_compute; exact I|reflexivity|reflexivity|reflexivity|].
      assert (len (MarshalKV {[node := perf_clock now i]}) <= names_size [node] + 2) as Hm.
      { apply kv_tree_size; [by apply map_Forall_singleton|]. intros m [c Hmc]. apply lookup_singleton_Some in Hmc as [<- _]. left. }
      unfold names_size, name_size in Hm. cbn [foldr] in Hm. lia. }
  assert (0 <= strlen (Collection r) /\ 0 <= strlen (ID r) /\ 0 <= strlen (UpdatedBy r)) as (? & ? & ?) by (unfold strlen; lia).
  assert (strlen (Type_ r) = 4) as Hty4 by by rewrite Hty. assert (0 <= len (Payload r)) by (unfold len; lia).
  pose proof (layout_size r) as Hl. rewrite Hv in Hl. change (len []) with 0 in Hl. rewrite Hub, Hco in *.
  split; [split|split; [done|by rewrite Hco]].
  - unfold record_ok, in_u. rewrite Hv, Hub, Hco. split_and!; try done; try lia; constructor.
  - apply Hz. lia.
Qed.

(** Another store with the same records holds the same documents. *)
Lemma stored_again {A B} `{StoreLaws A, StoreLaws B} node coll stamp now n (d : DocDB A) (s : B) : coll_ok coll ->
  stored node coll stamp now n d -> st_inv s -> st_records s = db_records d -> stored node coll stamp now n (New s node coll).
Proof.
  intros [_ Hne] [_ Hcol Hdocs Hwr] I Hs. destruct (New_fields s node coll) as (Hst & Hco & _). rewrite or_default_id in Hco by done.
  assert (db_records (New s node coll) = db_records d) as He by (unfold db_records at 1; by rewrite Hst).
  split; [by unfold db_inv; rewrite Hst|done| |].
  - intros i Hi. rewrite He, <-(Hdocs i Hi). unfold db_key. by rewrite Hcol, Hco.
  - intros k r. rewrite He. apply Hwr.
Qed.
Lemma log_fits `{Zstd} node coll stamp now n (s : LogStore) r : coll_ok coll ->
  (forall r, perf_written node coll stamp now n r -> loggable r) ->
  (forall k r', st_records s !! k = Some r' -> perf_written node coll stamp now n r') -> perf_written node coll stamp now n r -> st_put_ok r s.
Proof.
  intros [_ Hne] Hlog Hrec Hw. pose proof (perf_written_safe _ _ _ _ _ _ Hw) as [Ht Hc]. split; [done|].
  rewrite Put_result. change (ms_records (ls_mem s)) with (st_records s). rewrite normalize_id by by rewrite Hc.
  destruct (st_records s !! rkey r) as [l|] eqn:Hl; cbn [snd]; [|by apply Hlog].
  unfold lww. destruct (ResolveConflict l r); cbn [deref]; apply Hlog; [by eapply Hrec|done].
Qed.

Lemma persist_count : count = Perf.count.
Proof. unfold count, Perf.count. reflexivity. Qed.
Lemma persist_batch : batchSize = Perf.batchSize.
Proof. unfold batchSize, Perf.batchSize. reflexivity. Qed.

Lemma fatal_ok {E A} msg (x : A) : fatal (E := E) msg (Ok x) = Ok x.
Proof. done. Qed.

Section persist.
Context `{ZstdLaws}.
Variable rd : readings.
Abbreviation node := "benchmark-node-persistent".
Abbreviation holds := (stored node "benchmark" (rd_stamp rd) (rd_now rd) Perf.count).
Lemma persist_coll : coll_ok "benchmark".
Proof. split; apply (bool_decide_unpack _); vm_compute; exact I. Qed.
Lemma persist_fill : (forall i, in_s 64 (rd_stamp rd i)) -> (forall i k, in_s 64 (rd_now rd i k)) ->
  (forall raw, len raw < 2 ^ 31 -> in_u 32 (len (EncodeAll raw))) ->
  exists lines d, durable_fill rd (new_log (rd_open rd) node 0 []) = Ok (lines, d) /\ holds d.
Proof.
  intros Hst Hnow Hz. unfold durable_fill. rewrite persist_count, persist_batch.
  assert (forall r, perf_written node "benchmark" (rd_stamp rd) (rd_now rd) Perf.count r -> loggable r) as Hlog.
  { intros r. destruct perf_constants as (Hcount & _). apply perf_written_loggable; [exact persist_coll|vm_compute; discriminate..|lia|exact Hst|exact Hnow|exact Hz]. }
  destruct (fill_db node "benchmark" rd (new_log (rd_open rd) node 0 []) persist_coll) as (lines & d & Hfill & F);
    [exists []; apply new_log_inv|reflexivity|intros s r _ Hrec Hw; by apply (log_fits _ _ _ _ _ s r persist_coll Hlog)|].
  exists lines, d. split; [exact Hfill|apply F].
Qed.
Variables (numCPU : nat) (file : file_read) (can_write : string -> bool).
Hypothesis Hn : (0 < numCPU)%nat.
Lemma persist_scan (s : LogStore) : holds (store_db s) ->
  (exists rows, AllDocs numCPU scan_range (store_db s) (Ok rows)) /\
  forall r, AllDocs numCPU scan_range (store_db s) r ->
    exists rows, r = Ok rows /\ row_ID <$> Rows rows ≡ₚ map perf_id (seq (Z.to_nat 50000) (Z.to_nat 1000)).
Proof. intros Fs. apply (scan_stored _ _ _ _ _ numCPU 50000 51000 _ _ persist_coll Fs Hn); [lia|lia|vm_compute; reflexivity..]. Qed.
Lemma persist_recover lines d : holds d ->
  (exists out, recover numCPU rd file can_write lines d out) /\
  forall out, recover numCPU rd file can_write lines d out -> exists size rows,
    row_ID <$> Rows rows ≡ₚ map perf_id (seq (Z.to_nat 50000) (Z.to_nat 1000)) /\ out = main_end rd file can_write lines size rows.
Proof.
  intros F. destruct (so_inv _ _ _ _ _ _ F) as [rs I]. pose proof (log_close _ _ I) as Hcl. unfold recover.
  destruct (LogStore_Close (db_store d)) as [lc e]. destruct Hcl as (_ & _ & Hfile & _). cbn [fst].
  destruct (log_file_opens numCPU (rd_reopen rd) node 0 rs _ Hn Hfile) as [[r2 Hr2] Hopen].
  assert (forall r, OpenLogWithOptions numCPU (rd_reopen rd) node 0 (f_data (ls_file lc)) r -> exists s, r = Ok s /\ holds (store_db s)) as Hs2.
  { intros r (s & -> & Hs & Is & _)%Hopen. exists s. split; [done|]. apply (stored_again _ _ _ _ _ d); [apply persist_coll|exact F|by exists rs|].
    unfold db_records. cbn [st_records log_StoreOps]. by rewrite Hs, (li_records _ _ I). }
  split.
  - destruct (Hs2 _ Hr2) as (s & -> & Fs). destruct (persist_scan s Fs) as [[rows Hr] _].
    exists (main_end rd file can_write lines (db_size (db_store d)) rows), (Ok s). split; [exact Hr2|].
    cbn [fatal]. exists (Ok rows). split; [exact Hr|reflexivity].
  - intros out (r3 & Hr3 & Hout). destruct (Hs2 r3 Hr3) as (s & -> & Fs). cbn [fatal] in Hout.
    destruct Hout as (r4 & Hr4 & Hout). destruct (proj2 (persist_scan s Fs) r4 Hr4) as (rows & -> & Hp).
    exists (db_size (db_store d)), rows. split; [exact Hp|exact Hout].
Qed.
End persist.

(** C39. The durable benchmark recovers its rows: if the clocks are int64 and the compressor does
    not blow its input up, every batch is put, the log is closed and opened again under any
    schedule of the workers, and the scan of [doc:0050000] to [doc:0051000] finds the 1,000
    rows it announces, those and no other. *)
Theorem perf_persist_recovers `{ZstdLaws} numCPU rd file can_write : (0 < numCPU)%nat ->
  (forall i, in_s 64 (rd_stamp rd i)) -> (forall i k, in_s 64 (rd_now rd i k)) -> (forall raw, len raw < 2 ^ 31 -> in_u 32 (len (EncodeAll raw))) ->
  (exists out, main numCPU rd file can_write out) /\
  forall out, main numCPU rd file can_write out -> exists lines size rows,
    row_ID <$> Rows rows ≡ₚ map perf_id (seq (Z.to_nat 50000) (Z.to_nat 1000)) /\ out = main_end rd file can_write lines size rows.
Proof.
  intros Hn Hst Hnow Hz. destruct (persist_fill rd Hst Hnow Hz) as (lines & d & Hfill & F).
  destruct (persist_recover rd numCPU file can_write Hn lines d F) as [[o Ho] Hall]. unfold main. split.
  - eexists o, _. split; [by apply opens_empty|]. rewrite fatal_ok, Hfill. exact Ho.
  - intros out (r & ->%opens_empty & Hout). rewrite fatal_ok, Hfill in Hout.
    destruct (Hall out Hout) as (size & rows & ?). by exists lines, size, rows.
Qed.

Definition quiet_run : readings :=
  mkReadings 100 (fun i => 1000 + Z.of_nat (i mod 1000)) (fun i k => 200 + Z.of_nat (i mod 1000) + Z.of_nat (k mod 4)) (fun _ => Second) (19 * Second) 300 Second Millisecond (time_Unix 1781798400) 0 (2 ^ 20) "go1.26".
Lemma perf_persist_recovers_witness : exists lines size rows,
  main 4 quiet_run FileMissing (fun _ => true) (main_end quiet_run FileMissing (fun _ => true) lines size rows) /\
  row_ID <$> Rows rows ≡ₚ map perf_id (seq (Z.to_nat 50000) (Z.to_nat 1000)).
Proof.
  destruct (perf_persist_recovers 4 quiet_run FileMissing (fun _ => true)) as [[out Ho] Hall].
  - lia.
  - intros i. cbn [rd_stamp quiet_run]. pose proof (Nat.mod_upper_bound i 1000 ltac:(lia)). unfold in_s. lia.
  - intros i k. cbn [rd_now quiet_run]. pose proof (Nat.mod_upper_bound i 1000 ltac:(lia)). pose proof (Nat.mod_upper_bound k 4 ltac:(lia)). unfold in_s. lia.
  - intros raw Hr. change (EncodeAll raw) with raw. unfold in_u, len in *. lia.
  - destruct (Hall out Ho) as (lines & size & rows & Hp & ->). exists lines, size, rows. split; [exact Ho|exact Hp].
Defined.

Definition persist_result_ok (r : Result) : Prop :=
  let 'mkRun date go count batch write thr size mem recovery scan := r in
  json_string date = true /\ json_string go = true /\ json_string write = true /\ json_string recovery = true /\ json_string scan = true /\
  in_s 64 count /\ in_s 64 batch /\ in_s 64 mem /\ valid_binary 53 1024 thr = true /\ valid_binary 53 1024 size = true.
Lemma persist_result_reads r t : persist_result_ok r -> result_tree r = Some t ->
  tree_ok t /\ tree_depth t = 1 /\ decode_struct result_field t result_zero = Some r.
Proof.
  destruct r as [date go count batch write thr size mem recovery scan]. intros (? & ? & ? & ? & ? & Hc & Hb & Hm & Hv & Hs) Ht.
  unfold result_tree in Ht. apply bind_Some in Ht as (n & Hn & (k & Hk & [= <-])%bind_Some). cbn [Throughput DBSizeMB] in Hn, Hk.
  destruct (float_number_reads _ _ Hv Hn) as [Hwf Hp], (float_number_reads _ _ Hs Hk) as [Swf Sp].
  destruct (int_number_spec 64 count ltac:(lia) Hc) as [C1 C2], (int_number_spec 64 batch ltac:(lia) Hb) as [B1 B2], (int_number_spec 64 mem ltac:(lia) Hm) as [M1 M2].
  split; [cbn [tree_ok map foldr fst snd]; by split_and!|]. split; [done|].
  unfold result_zero.
  cbn [Date GoVersion Count BatchSize WriteTime MemDeltaMB RecoveryTime ScanTime].
  unfold result_field. decode_fields. rewrite C2. decode_fields. rewrite B2. decode_fields. rewrite Hp. decode_fields. rewrite Sp. decode_fields.
  rewrite M2. decode_fields. by rewrite !bytes_str_bytes.
Qed.
Theorem persist_results_reload can_write results fs : Forall persist_result_ok results -> results <> [] ->
  saveResults can_write results = (fs, None) ->
  exists data latest history, rev results = latest :: history /\
    fs = [(resultsRelPath, data); ("examples/perf-persist/README.md", trim_line (readme latest history))] /\
    loadResults (FileData data) = Some results.
Proof.
  intros Hok Hne. unfold saveResults. destruct (all_some _) as [data|] eqn:Hd; [|done].
  unfold generateREADME. destruct (rev results) as [|latest history] eqn:Hr; [by apply (f_equal (@rev _)) in Hr; rewrite rev_involutive in Hr|].
  unfold write_file. destruct (can_write resultsRelPath); [|done]. cbn [and_then]. destruct (can_write _); [|done]. cbn [app fst snd]. intros [= <-].
  eexists _, latest, history. split; [done|]. split; [reflexivity|]. cbn [loadResults].
  eapply results_reload; [|exact Hd]. eapply Forall_impl; [exact Hok|]. intros r Hro t. by apply persist_result_reads.
Qed.

(** The README in the repository is what the template makes of its runs. *)
Definition listed_durable_run (date write recovery scan : string) (throughput size10 mem : Z) : Result :=
  mkRun date "go1.26.3-X:simd" 1000000 1000 write (f64_of_int throughput) (f64_div (f64_of_int size10) (f64_of_int 10)) mem recovery scan.
Example repository_durable_readme : trim_line (readme (listed_durable_run "2026-06-18T15:54:33Z" "19.58s" "1.138s" "230.798ms" 51072 2017 755)
    [listed_durable_run "2026-06-18T15:44:15Z" "19.345s" "892ms" "417.319ms" 51692 2022 0; listed_durable_run "2026-06-18T15:16:19Z" "17.833s" "914ms" "647.196ms" 56073 2023 0]) =
  text_of ["# Persistent Write Benchmark"; ""; "Inserts 1000000 documents in batches of 1000 into a durable";
    "`logstore.LogStore` via the SDK's `PutMany`.  Tests write"; "throughput, database file size, recovery time (close + re-open + replay),";
    "and a 1 000-row range scan."; ""; "Run with:"; "```"; "go run ./examples/perf-persist/"; "```"; ""; "## Latest result (2026-06-18T15:54:33Z)"; "";
    "| Metric | Value |"; "|--------|-------|"; "| Documents | 1000000 |"; "| Write time | 19.58s |"; "| Throughput | 51072 ops/s |"; "| DB size | 201.7 MiB |";
    "| Memory delta | 755 MiB |"; "| Recovery time | 1.138s |"; "| Range scan (1k) | 230.798ms |"; "| Go version | go1.26.3-X:simd |"; ""; "## History"; "";
    "| Date | Write time | Throughput | DB (MiB) | Recovery | Scan | Go |"; "|------|-----------|------------|----------|----------|------|-----|";
    "| 2026-06-18T15:44:15Z | 19.345s | 51692 | 202.2 | 892ms | 417.319ms | go1.26.3-X:simd |"; "| 2026-06-18T15:16:19Z | 17.833s | 56073 | 202.3 | 914ms | 647.196ms | go1.26.3-X:simd |"].
Proof. unfold readme, count, batchSize. rewrite !Z2Nat.id by lia. vm_compute. reflexivity. Qed.
